(* ===== verification/_CoqProject ===== *)
-Q . S2P
Prelude.v
AggregationProgram.v
Oracle.v
WitnessStore.v
WitnessLaws.v
AltDA.v
RangeProgram.v
RangeSplit.v
ValidityRanges.v
FaultTypes.v
GameCache.v
Backup.v
ProposerService.v
L1Chain.v
ProposerSync.v
ProposerTasks.v
ProposerRun.v
ProveGame.v
Validator.v
Challenger.v
Interleaving.v
Fetcher.v
FetcherLaws.v
RequestDb.v
RequestDbLaws.v
ValidityTypes.v
ProofWait.v
ProofRequester.v
ValidityProposer.v
ExternalAggregation.v
ValidityRely.v
ExternalRely.v
ValidityRun.v
ValidityColumns.v
ValidityPlanning.v
ValidityAggregation.v
ValidityScheduling.v
ValidityExternal.v
GameMonitor.v
GameMonitorLaws.v
EndToEnd.v
Signer.v
Settings.v
ChainLock.v
Estimator.v
EstimatorLaws.v
Precompiles.v
FetcherSetup.v
Deployment.v
ProvingScripts.v
ProvingScriptsLaws.v
BlockData.v
Cluster.v
Preflight.v
PreflightLaws.v
