(* ===== verification/Prelude.v ===== *)
(** * op-succinct: a Rocq model of the services

    op-succinct proves the blocks of an OP-stack chain with SP1. This library
    models its three services and their monitor, the scripts around them, the code they share,
    the program that proves a range of blocks and the one that aggregates such proofs, from
    the Rust sources under [src/].

    ** The program

    - The fault-proof proposer ([fault-proof/src/proposer.rs]) follows the
      dispute games of a factory contract on L1, keeps a cache of them, creates
      new games, proves and defends its own, resolves and closes them and
      claims bonds. Its main loop spawns these as tasks.
    - The fault-proof challenger ([fault-proof/src/challenger.rs]) follows the
      same games, validates their claims against an op-node, and challenges,
      resolves, closes and claims.
    - The validity proposer ([validity/src]) plans ranges of blocks, has them
      proved by spawned tasks, aggregates contiguous proofs and relays them.
      Everything it does is rows of a PostgreSQL table of requests.
    - The game monitor ([scripts/utils/bin/game_monitor.rs]) runs a cost
      estimator for every game, with retries, and keeps its progress in a file.
    - All services read the chains through the data fetcher ([utils/host/src]).
      A proof starts with a witness: the host derives the range over a live
      connection and records what it read ([utils/host/src/witness_generation]),
      and the range program ([programs/range], [utils/client/src]) derives it
      again in the zkVM on the record alone. The aggregation program
      ([programs/aggregation/src/main.rs]) joins the claims of many ranges.
    - Scripts ([scripts/utils], [scripts/prove]) write the configuration a
      deployment starts from, check it on a fork of L1, estimate what ranges
      cost, report block data, and prove and aggregate ranges by hand.

    ** How it is modelled

    A function of the source is a definition of the same name; fallible code
    returns an [outcome] (a value, an [Err] with its message, or a [Panic] that
    no [?] intercepts). Integers are in [Z], with wrap-around, saturation and
    checked arithmetic written where the source has them, for a release build
    ([wrap64], [wrap256], [as_i64], ...). Hashes, addresses, keys and proofs are
    opaque numbers.

    Four ways of running code are used:
    - a critical section of the fault-proof services is a program of the state
      monad [M] over the service's shared fields; what it has written when it
      fails stays written. [ProposerRun.step] and [Challenger.runs] interleave
      loop turns and task bodies, each meeting its own answers from the chains;
    - the validity proposer, the fetcher, the scripts and the wait for a proof are [prog]s
      ([Interleaving]): trees of atomic actions (a statement of the database, a
      remote call, an access under a lock). [ValidityRun.step] interleaves the
      loop, every task and, in an [agglayer] build, every call of a coordinator
      between any two actions, lets the chains, the clocks
      and the network change at any time, lets any database statement be refused
      or its acknowledgement get lost, and lets the process restart;
      [run] executes one [prog] alone, [interleave] several of them beside each
      other, and [within] one that knows a part of the state only;
    - code generic in its preimage oracle is a [client] ([Oracle]), a finite tree
      of calls; the recording host and the zkVM are two handlers of these calls;
    - pure planning functions are plain functions.

    Code that is not in the repository is a parameter: L1 and L2 nodes, op-node,
    contracts and signer ([FaultTypes.L1Rpc], [FaultTypes.L2Rpc],
    [FaultTypes.Wallet], [Validator.NodeRpc], [ValidityTypes.Env],
    [Fetcher.Rpc]), the proving network and cluster ([ValidityTypes.Env],
    [ProofWait.ProverNetwork]), kona's derivation and execution
    ([RangeProgram.Kona]), hashing and KZG ([WitnessStore.WitnessCrypto]), serde
    and SP1's verifier ([AggregationProgram.Zkvm]), SP1's prover ([Estimator.Machine],
    [ProvingScripts.Sdk]), revm and kzg-rs ([Precompiles.Revm], [Precompiles.KzgRs]). What a theorem relies on of them is a
    hypothesis of that theorem. The iteration order of a Rust [HashMap], and of
    a [SELECT] without [ORDER BY], is any order ([HashOrder]).

    ** The files

    - [Prelude]: integers, outcomes, the state monad, [HashOrder], lists and
      chains of ranges; the tactics [ok_inv], [m_inv] and [keeps_tac].
    - [AggregationProgram]: [programs/aggregation/src/main.rs],
      [utils/client/src/boot.rs] and [types.rs].
    - [Oracle]: [client], [perform], and the replay of a run on another handler.
      [WitnessStore], [WitnessLaws]: [utils/client/src/witness],
      [oracle/blob_provider.rs] and [utils/host/src/witness_generation].
      [AltDA]: [utils/altda/client/src/data_source.rs] and the host's
      [handler.rs]. [RangeProgram]: [programs/range/ethereum], [altda] and
      [utils], [utils/client/src/client.rs] and [witness/executor.rs], and the
      [WitnessGenerator].
    - [RangeSplit]: [RangeSplitCount] of [fault-proof/src/config.rs] and
      [utils/host/src/block_range.rs].
    - [ValidityRanges]: [validity/src/utils.rs].
    - [FaultTypes]: [fault-proof/src/contract.rs] and [lib.rs].
    - [GameCache], [Backup], [ProposerService], [L1Chain], [ProposerSync],
      [ProposerTasks], [ProveGame]: [fault-proof/src/proposer.rs] and
      [backup.rs], by concern: the cache of games ([ProposerState]), its file,
      start-up, parent-hash walks and finality, [sync_state], the task map with
      the task bodies, and [prove_game]. The fields behind the locks of
      [OPSuccinctProposer] are the record [ProposerService.Proposer].
      [ProposerRun] is [run] with its tasks, as a step relation.
    - [Validator]: [game_validator.rs], the interface ([GameValidator] with its
      laws), and [op_stack_game_validator.rs], an instance of it.
    - [Challenger]: [fault-proof/src/challenger.rs], against that interface;
      its shared fields are the record [Challenger.Challenger].
    - [ProofWait]: [fault-proof/src/prover.rs].
    - [Interleaving]: [prog], [run], the promises of actions ([guar]) and
      reasoning under interference ([wp]).
    - [Fetcher], [FetcherLaws]: [utils/host/src/fetcher.rs],
      [l1_selection.rs], [utils/ethereum/host/src/host.rs].
    - [RequestDb], [RequestDbLaws]: [validity/src/db/client.rs] and [types.rs];
      a statement is a function of the tables.
    - [ValidityTypes], [ProofRequester], [ValidityProposer]: the environment and
      shared state of the validity proposer, [validity/src/proof_requester.rs]
      and [validity/src/proposer.rs]. [ExternalAggregation]: its [agglayer]
      parts and [validity/src/grpc.rs].
    - [ValidityRely], [ExternalRely], [ValidityRun]: what the loop, the tasks and
      the calls of a coordinator promise each other, and the whole service as a
      step relation. [ValidityColumns], [ValidityPlanning],
      [ValidityAggregation], [ValidityScheduling], [ValidityExternal]: laws of
      its operations.
    - [ChainLock]: the lock by which two validity proposers for one chain keep
      apart.
    - [Signer]: [utils/signer/src/lib.rs], a send as a [prog] on L1 and the lock
      around it as a step relation.
    - [Settings]: what the services read from the environment and refuse:
      [fault-proof/src/config.rs], [validity/src/env.rs],
      [validity/bin/validity.rs], [utils/host/src/proof.rs] and [Signer::from_env].
    - [EndToEnd]: the witness, the range program, the fetcher and the aggregation
      program together.
    - [GameMonitor], [GameMonitorLaws]: [scripts/utils/bin/game_monitor.rs] and
      [utils/common/src/sequence_tracker.rs].
    - [Estimator], [EstimatorLaws]: [scripts/utils/bin/cost_estimator.rs],
      [utils/host/src/stats.rs], [witness_cache.rs], [utils/proof/src/execution.rs].
      [BlockData]: [scripts/utils/bin/block_data.rs].
    - [Precompiles]: [utils/client/src/precompiles].
    - [FetcherSetup]: the constructors of the fetcher with the configuration files.
    - [Deployment]: [scripts/utils/src/config_common.rs] and the two [fetch_*_config.rs].
      [Preflight], [PreflightLaws]: [scripts/utils/bin/preflight.rs].
    - [ProvingScripts], [ProvingScriptsLaws]: [scripts/prove/bin], with
      [utils/host/src/network.rs] and [proof_cache.rs]. [Cluster]: the cluster
      client of [utils/proof/src/lib.rs].

    ** What is proved

    - Whole services, over every interleaving: the proposer's task map and cache
      ([reachable_inv]), no tracked game forgotten before L1 finality proves its
      removal ([sync_state_loses_only_final]), every challenge has grounds in a
      game as the factory showed it ([challenges_have_grounds]), and discovery
      skips no index ([discovery_keeps_every_index]), invalidated proofs are never used again
      ([invalidation_is_final]), admissions within the limits
      ([admissions_within_limits]), refinement of an abstract ledger of
      requests ([system_refines_ledger]), and the columns of every row
      ([rows_well_typed]).
    - Operations: what a synchronization establishes and evicts, what a game
      creation submits and for which block ([handle_game_creation_spec]), what an aggregation request covers and where its L1
      checkpoint lies, what is relayed, which ranges are added (while the
      heights are an interval of [i64] whose sums do not wrap, [add_new_ranges_spec]),
      invalidated or split, what a coordinator is answered ([external_aggregation_answers]),
      what a verdict of the validator rests on.
    - Proofs: the range program claims exactly what the pipeline, created at the
      safe head its agreed root names, derives over checked preimages and
      verified blobs ([range_claim_sound], [guest_answers_genuine]); the witness a host records
      always proves ([witness_proves]); the AltDA source neither loses, repeats
      nor reorders batches ([altda_settles_in_order]).
    - From end to end: an aggregate claim is a derivation of its whole range
      ([aggregate_claim_is_derived]), and ranges the host has derived are proved
      and aggregated ([derived_ranges_are_proved]).
    - Composition: the L1 head the fetcher picks from the SafeDB derives the
      range, twenty blocks after the first that does ([l1_head_covers_range]); the headers it collects are the ones the
      aggregation program accepts ([preimages_accepted]); that program ends with
      a claim exactly on acceptable inputs ([aggregation_claims]); the
      concurrent proving of a game equals the sequential one
      ([aggregate_order_independent]).
    - Termination: the L1 walk, the walk over factory indices, the two binary
      searches, and the wait for a proof within a bound on its time.
    - The game monitor: every game discovered after the first waits, has a
      primary attempt running or is counted as done, no two of these at once
      ([no_game_forgotten]); a game that is counted may have a background attempt,
      whose process can be left behind ([retry_child_is_orphaned]), and a restart
      can skip a game ([restart_skips_a_game]).
    - Several users: one signer shared by many tasks sends one transaction after
      the other ([sends_are_serial]); a start of the validity proposer respects
      the chain lock ([start_exclusive]), which is as old as the last completed
      turn ([lock_lapses_every_turn]).
    - Scripts: an estimate covers the blocks asked for, whatever order its
      executions end in, and sums what they counted ([estimate_covers_range]);
      precompiles answer as the hard fork in force says, in the zkVM and on the
      host, and their cycles are counted ([precompile_cycles_counted]);
      ranges proved beside each other are sent for aggregation on an input that
      claims their span ([multi_and_agg_claims_span]); what is deployed is what
      the proposers expect, from the output of the node ([deployed_keys_match]); a
      preflight requests a range proof of its ten blocks and an aggregation of
      that, and plays the proof on a fork ([preflight_claims]); a start of the
      fetcher settles its files, overwriting a rollup configuration of an earlier
      start ([fetcher_start_settles]). Two rows of names in one report ([two_headers]), an
      L1 head that comes too late ([late_head]) and blocks that are in no report
      ([block_data_rows]) are where the scripts go wrong.
    - Settings: a proposer that starts has settings within their widths
      ([proposer_settings_well_typed]), and with those the validity binary accepts
      planning ends ([accepted_settings_plan]).
    - Round trip of the backup file, partition theorems of the planners (with the
      ranges the gas limit does not bound, [by_gas_partition]), the
      equivalence of the subtree worklist with reachability.

    ** Fuel

    A loop that is not structural takes fuel, and its theorem gives enough:
    [fetch_fuel] is one more than the indices to walk, [descend_fuel] counts the
    links of the cache, [l1_walk] takes the difference of the block numbers,
    [SEARCH_FUEL] is 65 halvings of a [u64] interval, [wait_fuel] one pass per
    poll interval until the timeout and two more; the splitters take the length
    of the range, [chunk_fuel] one pass per thousand blocks and one more, the
    search for the implementation one pass per L1 block. [step] of [ValidityRun] allows any fuel for the planner of a
    turn, and running out of it is a panic of that turn.

    ** Logs of the model

    Some records hold, beside the fields of the source, what has been sent:
    [submitted] of the fault-proof services, the transactions, the latest first;
    [requests] of [ProvingScripts.World], the proof requests, the latest last.
    No operation reads them but to number the answers of a service.

    ** Not modelled

    Metrics, logs and tracing; the parsing of URLs, addresses, keys and fractions
    and the command lines (other libraries); the start of the processes and the
    [.env] files; HTTP and JSON below the calls of the fetcher; the
    connection pool and the batches of [insert_requests]; key set-up; kona, the
    EVM factory that only forwards to revm, and EigenDA's verification (third-party
    code with thin wrappers), with the preimage servers of the hosts; the log file
    names of the monitor; the tools that fetch one proof or write out keys; the
    Solidity contracts; the tonic server and its messages. *)

From stdpp Require Export base gmap strings list fin_maps sorting.
From Stdlib Require Export ZArith Lia.

#[global] Open Scope Z_scope.

(** ** Machine integers

    [u8], [u32], [u64], [i64] and [U256] values are integers in [Z]; the width
    shows in the operations the source uses. A release build wraps [+] on
    [u64], and [U256] addition always wraps. *)

Definition u8_max : Z := 2 ^ 8 - 1.
Definition u32_max : Z := 2 ^ 32 - 1.
Definition u64_max : Z := 2 ^ 64 - 1.
Definition i64_max : Z := 2 ^ 63 - 1.
Definition u256_max : Z := 2 ^ 256 - 1.

Definition is_u8 (x : Z) : Prop := 0 <= x <= u8_max.
Definition is_u32 (x : Z) : Prop := 0 <= x <= u32_max.
Definition is_u64 (x : Z) : Prop := 0 <= x <= u64_max.
Definition is_u256 (x : Z) : Prop := 0 <= x <= u256_max.

Definition wrap64 (x : Z) : Z := x mod 2 ^ 64.
Definition wrap256 (x : Z) : Z := x mod 2 ^ 256.

(** [x as i64] and [x as u64]: the same bits, read at the other sign. *)
Definition as_i64 (x : Z) : Z := (x + 2 ^ 63) mod 2 ^ 64 - 2 ^ 63.
Definition as_u64 (x : Z) : Z := x mod 2 ^ 64.

Lemma as_i64_id x : - 2 ^ 63 <= x <= i64_max -> as_i64 x = x.
Proof. unfold i64_max, as_i64. intros. rewrite Z.mod_small; lia. Qed.

Lemma as_i64_small x : 0 <= x <= i64_max -> as_i64 x = x.
Proof. intros. apply as_i64_id. lia. Qed.

Lemma as_i64_small_diff a b : 0 <= a <= i64_max -> 0 <= b <= i64_max -> as_i64 (b - a) = b - a.
Proof. intros. apply as_i64_id. unfold i64_max in *. lia. Qed.

Lemma as_u64_small x : 0 <= x <= u64_max -> as_u64 x = x.
Proof. unfold u64_max, as_u64. intros. apply Z.mod_small. lia. Qed.

(** [saturating_sub] at an unsigned type. *)
Definition saturating_sub (a b : Z) : Z := Z.max 0 (a - b).
(** [saturating_add] at width [max]. *)
Definition saturating_add (max a b : Z) : Z := Z.min max (a + b).
(** [checked_sub] at an unsigned type. *)
Definition checked_sub (a b : Z) : option Z := if a <? b then None else Some (a - b).
(** [checked_add] at width [max]. *)
Definition checked_add (max a b : Z) : option Z :=
  if max <? a + b then None else Some (a + b).
(** [div_ceil] at an unsigned type, for a nonzero divisor. *)
Definition div_ceil (a b : Z) : Z := (a + b - 1) / b.
(** [abs_diff]. *)
Definition abs_diff (a b : Z) : Z := Z.abs (a - b).

Lemma checked_sub_Some a b c : checked_sub a b = Some c <-> b <= a /\ c = a - b.
Proof. unfold checked_sub. destruct (Z.ltb_spec a b); naive_solver lia. Qed.

Lemma checked_sub_None a b : checked_sub a b = None <-> a < b.
Proof. unfold checked_sub. destruct (Z.ltb_spec a b); naive_solver lia. Qed.

Lemma checked_add_Some m a b c :
  checked_add m a b = Some c <-> a + b <= m /\ c = a + b.
Proof. unfold checked_add. destruct (Z.ltb_spec m (a + b)); naive_solver lia. Qed.

Lemma wrap64_small x : is_u64 x -> wrap64 x = x.
Proof. unfold is_u64, u64_max, wrap64. intros. apply Z.mod_small. lia. Qed.

Lemma wrap256_small x : is_u256 x -> wrap256 x = x.
Proof. unfold is_u256, u256_max, wrap256. intros. apply Z.mod_small. lia. Qed.

Lemma div_ceil_spec a b : 0 < b -> b * (div_ceil a b - 1) < a <= b * div_ceil a b.
Proof.
  intros Hb. unfold div_ceil.
  pose proof (Z.div_mod (a + b - 1) b ltac:(lia)) as Hd.
  pose proof (Z.mod_pos_bound (a + b - 1) b Hb). nia.
Qed.

Lemma div_ceil_pos a b : 0 < b -> 0 < a -> 0 < div_ceil a b.
Proof. intros Hb Ha. pose proof (div_ceil_spec a b Hb). nia. Qed.

(** ** Outcomes

    What a Rust computation can end with: a value, an [Err] (an
    [anyhow::Error] is its message), or a panic, which no [?] and no [match] on
    a [Result] intercepts. *)

Inductive outcome (A : Type) : Type :=
| Ok (a : A)
| Err (e : string)
| Panic.
Arguments Ok {A} _.
Arguments Err {A} _.
Arguments Panic {A}.

#[global] Instance outcome_ret : MRet outcome := @Ok.
#[global] Instance outcome_bind : MBind outcome := fun A B f m =>
  match m with Ok a => f a | Err e => Err e | Panic => Panic end.
#[global] Instance outcome_fmap : FMap outcome := fun A B f m =>
  match m with Ok a => Ok (f a) | Err e => Err e | Panic => Panic end.

(** [opt.context(msg)?] and [opt.ok_or_else(..)?]. *)
Definition with_context {A} (msg : string) (o : option A) : outcome A :=
  match o with Some a => Ok a | None => Err msg end.
(** [ensure!(b, msg)]. *)
Definition ensure (b : bool) (msg : string) : outcome unit :=
  if b then Ok tt else Err msg.
(** [unwrap] of an option. *)
Definition unwrap {A} (o : option A) : outcome A :=
  match o with Some a => Ok a | None => Panic end.

(** [bail!] on an error with another message: [.map_err(..)]. *)
Definition map_err {A} (f : string -> string) (m : outcome A) : outcome A :=
  match m with Err e => Err (f e) | o => o end.

Definition is_Ok {A} (m : outcome A) : bool :=
  match m with Ok _ => true | _ => false end.

Lemma outcome_bind_Ok {A B} (m : outcome A) (f : A -> outcome B) b :
  m ≫= f = Ok b <-> exists a, m = Ok a /\ f a = Ok b.
Proof. destruct m; naive_solver. Qed.

Lemma outcome_fmap_Ok {A B} (m : outcome A) (f : A -> B) b :
  f <$> m = Ok b <-> exists a, m = Ok a /\ f a = b.
Proof. destruct m; naive_solver. Qed.

Lemma with_context_Ok {A} msg (o : option A) a : with_context msg o = Ok a <-> o = Some a.
Proof. destruct o; naive_solver. Qed.

Lemma ensure_Ok b msg u : ensure b msg = Ok u <-> b = true.
Proof. destruct b, u; naive_solver. Qed.

(** Splits every hypothesis [m ≫= f = Ok b] into the successful steps. *)
Ltac ok_inv :=
  repeat match goal with
  | H : mbind _ _ = Ok _ |- _ =>
      apply outcome_bind_Ok in H; destruct H as (? & ? & H)
  | H : fmap _ _ = Ok _ |- _ =>
      apply outcome_fmap_Ok in H; destruct H as (? & ? & H)
  | H : with_context _ _ = Ok _ |- _ => apply with_context_Ok in H
  | H : ensure _ _ = Ok _ |- _ => apply ensure_Ok in H
  | H : mret _ = Ok _ |- _ => injection H as H
  | H : Ok _ = Ok _ |- _ => injection H as H
  | H : Err _ = Ok _ |- _ => discriminate H
  | H : Panic = Ok _ |- _ => discriminate H
  | x : unit |- _ => destruct x
  end.

(** Splits conjunctions and equivalences, and every hypothesis that is a
    conjunction, disjunction or existential. *)
Ltac destruct_hyps :=
  repeat match goal with
  | H : _ /\ _ |- _ => destruct H
  | H : exists _, _ |- _ => destruct H
  | H : _ \/ _ |- _ => destruct H
  end.
Ltac iff_cases :=
  repeat match goal with |- _ /\ _ => split | |- _ <-> _ => split end;
  intros; destruct_hyps; simplify_eq; try done; try congruence.

(** [.to::<u64>()] of a [U256]: it panics beyond the range. *)
Definition to_u64 (x : Z) : outcome Z := if x <=? u64_max then Ok x else Panic.

Lemma to_u64_Ok x y : to_u64 x = Ok y <-> x <= u64_max /\ y = x.
Proof.
  unfold to_u64. destruct (Z.leb_spec x u64_max); split; intros He; destruct_hyps; simplify_eq;
    (done || lia).
Qed.

(** [str::contains] *)
Definition str_contains (s pat : string) : bool :=
  match String.index 0 pat s with Some _ => true | None => false end.

(** ** A state monad with outcomes

    [M S A] runs on a shared state [S]. The state reached is kept when the
    computation fails, as a mutation made before a [?] stays made. *)

Definition M (S A : Type) : Type := S -> S * outcome A.

#[global] Instance M_ret S : MRet (M S) := fun A a s => (s, Ok a).
#[global] Instance M_bind S : MBind (M S) := fun A B f m s =>
  match m s with
  | (s', Ok a) => f a s'
  | (s', Err e) => (s', Err e)
  | (s', Panic) => (s', Panic)
  end.
#[global] Instance M_fmap S : FMap (M S) := fun A B f m s =>
  let '(s', o) := m s in (s', f <$> o).

Section monad.
Context {S : Type}.

(** A read of the environment, which leaves the shared state alone. *)
Definition lift {A} (o : outcome A) : M S A := fun s => (s, o).
Definition get_state : M S S := fun s => (s, Ok s).
Definition gets {A} (f : S -> A) : M S A := fun s => (s, Ok (f s)).
Definition modify (f : S -> S) : M S unit := fun s => (f s, Ok tt).
Definition fail {A} (msg : string) : M S A := lift (Err msg).
Definition panic {A} : M S A := lift Panic.

(** [match m.await { Ok(a) => .., Err(e) => .. }]: a panic still unwinds. *)
Definition attempt {A} (m : M S A) : M S (A + string) := fun s =>
  match m s with
  | (s', Ok a) => (s', Ok (inl a))
  | (s', Err e) => (s', Ok (inr e))
  | (s', Panic) => (s', Panic)
  end.

(** [for x in l { body }] with [?] inside the body. *)
Fixpoint for_each {A} (l : list A) (body : A -> M S unit) : M S unit :=
  match l with
  | [] => mret tt
  | x :: l' => body x ≫= fun _ => for_each l' body
  end.

(** [for x in l { acc = body(acc, x)? }]. *)
Fixpoint fold_each {A B} (l : list A) (acc : B) (body : B -> A -> M S B) : M S B :=
  match l with
  | [] => mret acc
  | x :: l' => body acc x ≫= fun acc' => fold_each l' acc' body
  end.

(** [m] only moves the shared state along [R], whatever it ends with. *)
Definition keeps {A} (R : relation S) (m : M S A) : Prop := forall s, R s (m s).1.

Context (R : relation S) `{!PreOrder R}.

Lemma keeps_ret {A} (a : A) : keeps R (mret a).
Proof. intros s. cbn. reflexivity. Qed.

Lemma keeps_lift {A} (o : outcome A) : keeps R (lift o).
Proof. intros s. cbn. reflexivity. Qed.

Lemma keeps_get_state : keeps R get_state.
Proof. intros s. cbn. reflexivity. Qed.

Lemma keeps_gets {A} (f : S -> A) : keeps R (gets f).
Proof. intros s. cbn. reflexivity. Qed.

Lemma keeps_fail {A} msg : keeps R (@fail A msg).
Proof. intros s. cbn. reflexivity. Qed.

Lemma keeps_panic {A} : keeps R (@panic A).
Proof. intros s. cbn. reflexivity. Qed.

Lemma keeps_modify f : (forall s, R s (f s)) -> keeps R (modify f).
Proof. intros Hf s. apply Hf. Qed.

Lemma keeps_bind {A B} (m : M S A) (f : A -> M S B) :
  keeps R m -> (forall a, keeps R (f a)) -> keeps R (m ≫= f).
Proof.
  intros Hm Hf s. specialize (Hm s). unfold mbind, M_bind.
  destruct (m s) as [s' [a| |]]; cbn in *; [|done..].
  etrans; [exact Hm | apply Hf].
Qed.

Lemma keeps_attempt {A} (m : M S A) : keeps R m -> keeps R (attempt m).
Proof.
  intros Hm s. specialize (Hm s). unfold attempt.
  destruct (m s) as [s' [a| |]]; exact Hm.
Qed.

Lemma keeps_for_each {A} (l : list A) body :
  (forall x, x ∈ l -> keeps R (body x)) -> keeps R (for_each l body).
Proof.
  induction l as [|x l IH]; intros Hb; cbn.
  - apply keeps_ret.
  - apply keeps_bind; [apply Hb; left|]. intros _. apply IH. intros y Hy.
    apply Hb. by right.
Qed.

Lemma keeps_fold_each {A B} (l : list A) (acc : B) body :
  (forall b x, x ∈ l -> keeps R (body b x)) -> keeps R (fold_each l acc body).
Proof.
  revert acc. induction l as [|x l IH]; intros acc Hb; cbn.
  - apply keeps_ret.
  - apply keeps_bind; [apply Hb; left|]. intros b. apply IH. intros b' y Hy.
    apply Hb. by right.
Qed.
End monad.

Create HintDb keeps.
#[export] Hint Resolve keeps_ret keeps_lift keeps_get_state keeps_gets keeps_fail
  keeps_panic keeps_modify keeps_attempt : keeps.

(** Walks through a monadic program, one rule per construct, and leaves the
    state updates to the [keeps] database. *)
Ltac keeps_step :=
  match goal with
  | |- keeps _ (mbind _ _) => apply keeps_bind; [typeclasses eauto| |intros ?]
  | |- keeps _ (for_each _ _) => apply keeps_for_each; [typeclasses eauto|intros ? ?]
  | |- keeps _ (fold_each _ _ _) => apply keeps_fold_each; [typeclasses eauto|intros ? ? ?]
  | |- keeps _ (attempt _) => apply keeps_attempt
  | |- keeps _ (match ?x with _ => _ end) => destruct x
  | |- keeps _ _ => solve [eauto with keeps typeclass_instances]
  end.
Ltac keeps_tac := repeat (keeps_step; cbn beta iota).

(** One successful run of [m ≫= f]. *)
Lemma M_bind_Ok {S A B} (m : M S A) (f : A -> M S B) s s' b :
  (m ≫= f) s = (s', Ok b) <-> exists s1 a, m s = (s1, Ok a) /\ f a s1 = (s', Ok b).
Proof.
  unfold mbind, M_bind. destruct (m s) as [s1 [a| |]]; naive_solver.
Qed.

Lemma M_lift_Ok {S A} (o : outcome A) (s s' : S) a :
  lift o s = (s', Ok a) <-> o = Ok a /\ s' = s.
Proof. unfold lift. naive_solver. Qed.

Lemma M_modify_Ok {S} (f : S -> S) s s' u : modify f s = (s', Ok u) <-> s' = f s.
Proof. unfold modify. destruct u. naive_solver. Qed.

Lemma M_get_Ok {S} (s s' a : S) : get_state s = (s', Ok a) <-> s' = s /\ a = s.
Proof. unfold get_state. naive_solver. Qed.

Lemma M_ret_Ok {S A} (x a : A) (s s' : S) : (mret x : M S A) s = (s', Ok a) <-> s' = s /\ a = x.
Proof. unfold mret, M_ret. naive_solver. Qed.

(** Splits a successful run of a monadic program into its steps. *)
Ltac m_inv :=
  repeat match goal with
  | H : mbind _ _ _ = (_, Ok _) |- _ =>
      apply M_bind_Ok in H; destruct H as (? & ? & ? & H)
  | H : lift _ _ = (_, Ok _) |- _ => apply M_lift_Ok in H; destruct H as [? ?]; subst
  | H : modify _ _ = (_, Ok _) |- _ => apply M_modify_Ok in H; subst
  | H : get_state _ = (_, Ok _) |- _ => apply M_get_Ok in H; destruct H; subst
  | H : mret _ _ = (_, Ok _) |- _ => apply M_ret_Ok in H; destruct H; subst
  | H : fail _ _ = (_, Ok _) |- _ => apply M_lift_Ok in H; destruct H as [H ?]; discriminate H
  | H : panic _ = (_, Ok _) |- _ => apply M_lift_Ok in H; destruct H as [H ?]; discriminate H
  | H : (let '(_, _) := ?x in _) _ = (_, Ok _) |- _ => destruct x
  | x : unit |- _ => destruct x
  end.

(** What [keeps] says of one run. *)
Lemma keeps_run {S A} (R : relation S) (m : M S A) s s' r :
  keeps R m -> m s = (s', r) -> R s s'.
Proof. intros Hk Hm. specialize (Hk s). by rewrite Hm in Hk. Qed.

(** A property of the result, by induction over [fold_each]. *)
Lemma fold_each_ind {S A B} (P : S -> B -> Prop) (l : list A) (acc : B) body s s' b :
  fold_each l acc body s = (s', Ok b) -> P s acc ->
  (forall x acc s s' acc', x ∈ l -> P s acc -> body acc x s = (s', Ok acc') -> P s' acc') ->
  P s' b.
Proof.
  revert acc s. induction l as [|x l IH]; intros acc s; cbn; intros Hr HP Hb.
  { by m_inv. }
  apply M_bind_Ok in Hr as (s1 & acc1 & H1 & H2).
  apply (IH _ _ H2); [eapply Hb; eauto; left|]. intros y * Hy. apply Hb. by right.
Qed.

Lemma for_each_ind {S A} (P : S -> Prop) (l : list A) body s s' u :
  for_each l body s = (s', Ok u) -> P s ->
  (forall x s s' u, x ∈ l -> P s -> body x s = (s', Ok u) -> P s') -> P s'.
Proof.
  revert s. induction l as [|x l IH]; intros s; cbn; intros Hr HP Hb.
  { by m_inv. }
  apply M_bind_Ok in Hr as (s1 & u1 & H1 & H2).
  apply (IH _ H2); [eapply Hb; eauto; left|]. intros y * Hy. apply Hb. by right.
Qed.

(** An invariant of the shared state that a program keeps however it ends,
    with what its result then satisfies. *)
Section spec.
Context {S : Type} (P : S -> Prop).

Definition spec {A} (m : M S A) (Q : A -> Prop) : Prop :=
  forall s, P s -> P (m s).1 /\ forall a, (m s).2 = Ok a -> Q a.

Lemma spec_ret {A} (a : A) (Q : A -> Prop) : Q a -> spec (mret a) Q.
Proof. intros Ha s Hs. cbn. split; [done|]. by intros ? [= <-]. Qed.

Lemma spec_lift {A} (o : outcome A) (Q : A -> Prop) :
  (forall a, o = Ok a -> Q a) -> spec (lift o) Q.
Proof. intros Ha s Hs. by split. Qed.

Lemma spec_read {A} (o : outcome A) : spec (lift o) (fun a => o = Ok a).
Proof. by apply spec_lift. Qed.

Lemma spec_get_state : spec get_state P.
Proof. intros s Hs. split; [done|]. by intros ? [= <-]. Qed.

Lemma spec_modify (f : S -> S) : (forall s, P s -> P (f s)) -> spec (modify f) (fun _ => True).
Proof. intros Hf s Hs. split; [by apply Hf|done]. Qed.

Lemma spec_bind {A B} (m : M S A) (f : A -> M S B) (Q : A -> Prop) (Q' : B -> Prop) :
  spec m Q -> (forall a, Q a -> spec (f a) Q') -> spec (m ≫= f) Q'.
Proof.
  intros Hm Hf s Hs. destruct (Hm s Hs) as [Hs' Ha]. unfold mbind, M_bind.
  destruct (m s) as [s' [a|e|]]; cbn in *; [|by split..].
  apply (Hf a); [by apply Ha|done].
Qed.

Lemma spec_weaken {A} (m : M S A) (Q Q' : A -> Prop) :
  spec m Q -> (forall a, Q a -> Q' a) -> spec m Q'.
Proof. intros Hm Hq s Hs. destruct (Hm s Hs) as [H1 H2]. split; [done|]. auto. Qed.

Lemma spec_any {A} (m : M S A) (Q : A -> Prop) : spec m Q -> spec m (fun _ => True).
Proof. intros Hm. by eapply spec_weaken. Qed.

Lemma spec_attempt {A} (m : M S A) (Q : A -> Prop) :
  spec m Q -> spec (attempt m) (fun r => match r with inl a => Q a | inr _ => True end).
Proof.
  intros Hm s Hs. destruct (Hm s Hs) as [Hs' Ha]. unfold attempt.
  destruct (m s) as [s' [a|e|]]; cbn in *; (split; [done|]); intros r [= <-]; auto.
Qed.

Lemma spec_for_each {A} (l : list A) (body : A -> M S unit) :
  (forall x, x ∈ l -> spec (body x) (fun _ => True)) -> spec (for_each l body) (fun _ => True).
Proof.
  induction l as [|x l IH]; intros Hb; cbn; [by apply spec_ret|].
  eapply spec_bind; [apply Hb; left|]. intros _ _. apply IH. intros y Hy. apply Hb. by right.
Qed.

Lemma spec_fold_each {A B} (l : list A) (acc : B) (body : B -> A -> M S B) (Q : B -> Prop) :
  Q acc -> (forall b x, x ∈ l -> Q b -> spec (body b x) Q) -> spec (fold_each l acc body) Q.
Proof.
  revert acc. induction l as [|x l IH]; intros acc Ha Hb; cbn; [by apply spec_ret|].
  eapply spec_bind; [apply Hb; [left|done]|]. intros b Hq. apply IH; [done|].
  intros b' y Hy. apply Hb. by right.
Qed.
End spec.

(** Reads at the head of a program become equations. *)
Ltac spec_reads :=
  repeat (eapply spec_bind; [apply spec_read|intros ? ?]).

(** ** Hash maps

    [HashMap] and [HashSet] iterate in an order the standard library leaves
    unspecified: an iteration is any enumeration of the entries. *)

Class HashOrder := {
  iter_map : forall {V : Type}, gmap Z V -> list (Z * V);
  iter_map_perm : forall {V : Type} (m : gmap Z V), iter_map m ≡ₚ map_to_list m;
  iter_set : gset Z -> list Z;
  iter_set_perm : forall X : gset Z, iter_set X ≡ₚ elements X;
}.

(** One order, for running the model. *)
#[global] Program Instance map_to_list_order : HashOrder | 100 := {
  iter_map V m := map_to_list m;
  iter_set X := elements X;
}.
Solve All Obligations with done.

Section hash_order.
Context {HO : HashOrder}.

Definition values {V} (m : gmap Z V) : list V := (iter_map m).*2.
Definition keys {V} (m : gmap Z V) : list Z := (iter_map m).*1.

Lemma elem_of_iter_map {V} (m : gmap Z V) k v : (k, v) ∈ iter_map m <-> m !! k = Some v.
Proof. rewrite (iter_map_perm m). apply elem_of_map_to_list. Qed.

Lemma elem_of_values {V} (m : gmap Z V) v : v ∈ values m <-> exists k, m !! k = Some v.
Proof.
  unfold values. rewrite list_elem_of_fmap. split.
  - intros ([k w] & -> & Hin). exists k. by apply elem_of_iter_map.
  - intros [k Hk]. exists (k, v). split; [done|]. by apply elem_of_iter_map.
Qed.

Lemma elem_of_keys {V} (m : gmap Z V) k : k ∈ keys m <-> k ∈ dom m.
Proof.
  unfold keys. rewrite list_elem_of_fmap, elem_of_dom. split.
  - intros ([k' w] & -> & Hin). exists w. by apply elem_of_iter_map.
  - intros [w Hw]. exists (k, w). split; [done|]. by apply elem_of_iter_map.
Qed.

Lemma elem_of_iter_set (X : gset Z) x : x ∈ iter_set X <-> x ∈ X.
Proof. rewrite (iter_set_perm X). apply elem_of_elements. Qed.

Lemma length_values {V} (m : gmap Z V) : length (values m) = size m.
Proof.
  unfold values. rewrite length_fmap, (iter_map_perm m).
  apply length_map_to_list.
Qed.
End hash_order.

Lemma size_list_to_set_le (l : list Z) : (size (list_to_set l : gset Z) <= length l)%nat.
Proof.
  induction l as [|x l IH]; cbn; [by rewrite size_empty|].
  rewrite size_union_alt, size_singleton.
  assert (Hd : (size (list_to_set l ∖ {[x]} : gset Z) <= size (list_to_set l : gset Z))%nat)
    by (apply subseteq_size; set_solver). lia.
Qed.

(** ** Iterator helpers *)

(** [Iterator::max_by_key]: the last of the maximal elements. *)
Fixpoint max_by_key {A} (f : A -> Z) (l : list A) : option A :=
  match l with
  | [] => None
  | x :: l' =>
      match max_by_key f l' with
      | None => Some x
      | Some y => Some (if f x <=? f y then y else x)
      end
  end.

(** [Iterator::min_by_key]: the first of the minimal elements. *)
Fixpoint min_by_key {A} (f : A -> Z) (l : list A) : option A :=
  match l with
  | [] => None
  | x :: l' =>
      match min_by_key f l' with
      | None => Some x
      | Some y => Some (if f x <=? f y then x else y)
      end
  end.

Lemma max_by_key_Some {A} (f : A -> Z) l x :
  max_by_key f l = Some x -> x ∈ l /\ forall y, y ∈ l -> f y <= f x.
Proof.
  revert x. induction l as [|z l IH]; intros x; cbn; [done|].
  destruct (max_by_key f l) as [y|] eqn:E.
  - intros [= <-]. destruct (IH y eq_refl) as [Hin Hmax].
    destruct (Z.leb_spec (f z) (f y)); (split; [set_solver|]);
      intros w [->|Hw]%elem_of_cons; try specialize (Hmax w Hw); lia.
  - intros [= ->]. split; [left|]. intros w [->|Hw]%elem_of_cons; [lia|].
    destruct l as [|w' l]; [by apply not_elem_of_nil in Hw|].
    cbn in E. by destruct (max_by_key f l).
Qed.

Lemma max_by_key_None {A} (f : A -> Z) l : max_by_key f l = None <-> l = [].
Proof.
  destruct l as [|x l]; cbn; [done|]. destruct (max_by_key f l); naive_solver.
Qed.

Lemma min_by_key_Some {A} (f : A -> Z) l x :
  min_by_key f l = Some x -> x ∈ l /\ forall y, y ∈ l -> f x <= f y.
Proof.
  revert x. induction l as [|z l IH]; intros x; cbn; [done|].
  destruct (min_by_key f l) as [y|] eqn:E.
  - intros [= <-]. destruct (IH y eq_refl) as [Hin Hmin].
    destruct (Z.leb_spec (f z) (f y)); (split; [set_solver|]);
      intros w [->|Hw]%elem_of_cons; try specialize (Hmin w Hw); lia.
  - intros [= ->]. split; [left|]. intros w [->|Hw]%elem_of_cons; [lia|].
    destruct l as [|w' l]; [by apply not_elem_of_nil in Hw|].
    cbn in E. by destruct (min_by_key f l).
Qed.

(** ** Block ranges

    A proving range [(start, end)] covers the blocks [start < n <= end]; a
    half-open [Range<i64>] covers [start <= n < end]. *)

(** [l] leads from [a] to [b] in contiguous, nonempty steps. *)
Fixpoint chain (a : Z) (l : list (Z * Z)) (b : Z) : Prop :=
  match l with
  | [] => a = b
  | (s, e) :: l' => s = a /\ s < e /\ chain e l' b
  end.

#[global] Instance chain_dec a l b : Decision (chain a l b).
Proof. revert a. induction l as [|[s e] l IH]; intros a; cbn; apply _. Defined.

Lemma chain_app a l1 l2 c :
  chain a (l1 ++ l2) c <-> exists b, chain a l1 b /\ chain b l2 c.
Proof.
  revert a. induction l1 as [|[s e] l1 IH]; intros a; cbn.
  - naive_solver.
  - rewrite IH. naive_solver.
Qed.

Lemma chain_le a l b : chain a l b -> a <= b.
Proof.
  revert a. induction l as [|[s e] l IH]; intros a; cbn; [lia|].
  intros (-> & ? & H%IH). lia.
Qed.

Lemma chain_within a l b s e : chain a l b -> (s, e) ∈ l -> a <= s /\ s < e <= b.
Proof.
  revert a. induction l as [|[s' e'] l IH]; intros a; cbn.
  - intros _ H. by apply not_elem_of_nil in H.
  - intros (-> & Hlt & Hc) [[= -> ->]|Hin]%elem_of_cons.
    + pose proof (chain_le _ _ _ Hc). lia.
    + destruct (IH _ Hc Hin). lia.
Qed.

(** A chain proves every block of its interval in exactly one range. *)
Lemma chain_cover a l b n :
  chain a l b -> a < n <= b ->
  exists i r, l !! i = Some r /\ r.1 < n <= r.2 /\
    forall j r', l !! j = Some r' -> r'.1 < n <= r'.2 -> j = i.
Proof.
  revert a. induction l as [|[s e] l IH]; intros a; cbn; [lia|].
  intros (-> & Hlt & Hc) Hn. destruct (decide (n <= e)) as [He|He].
  - exists 0%nat, (a, e). split; [done|]. split; [cbn; lia|].
    intros [|j] [s' e'] Hj Hin; [done|]. cbn in *.
    apply list_elem_of_lookup_2 in Hj.
    pose proof (chain_within _ _ _ _ _ Hc Hj). lia.
  - destruct (IH e Hc ltac:(lia)) as (i & r & Hi & Hr & Huniq).
    exists (S i), r. split; [done|]. split; [done|].
    intros [|j] r' Hj Hin; cbn in *; [|f_equal; eauto].
    injection Hj as <-. cbn in *. lia.
Qed.

(** [n] lies in one of the half-open ranges [l]. *)
Definition covered (n : Z) (l : list (Z * Z)) : Prop :=
  exists r, r ∈ l /\ r.1 <= n < r.2.

#[global] Instance covered_dec n l : Decision (covered n l).
Proof.
  refine (cast_if (decide (Exists (fun r => r.1 <= n < r.2) l)));
    unfold covered; rewrite <- Exists_exists; done.
Defined.

Lemma covered_nil n : ~ covered n [].
Proof. intros (r & H & _). by apply not_elem_of_nil in H. Qed.

Lemma covered_cons n r l : covered n (r :: l) <-> r.1 <= n < r.2 \/ covered n l.
Proof. unfold covered. setoid_rewrite elem_of_cons. naive_solver. Qed.

Lemma covered_app n l1 l2 : covered n (l1 ++ l2) <-> covered n l1 \/ covered n l2.
Proof. unfold covered. setoid_rewrite elem_of_app. naive_solver. Qed.

#[global] Instance covered_perm n : Proper ((≡ₚ) ==> iff) (covered n).
Proof.
  intros l1 l2 Hl. unfold covered.
  split; intros (r & Hr & Hn); exists r; (split; [|done]);
    [by rewrite <- Hl | by rewrite Hl].
Qed.
