(* ===== verification/AggregationProgram.v ===== *)
(** * The aggregation program

    [programs/aggregation/src/main.rs], with the types it shares with the
    services ([utils/client/src/boot.rs], [utils/client/src/types.rs]): the
    zkVM program that turns a list of verified range proofs into one claim.
    An [assert!], an [unwrap] or a proof that does not verify stops the
    program without a claim ([Panic]).

    Hashes, roots and addresses are opaque numbers. The hash of a header
    ([hash_slow]), the digest of the public values of a range proof, SP1's
    [verify_sp1_proof], the CBOR decoder and the packing of a verifying key
    into a word are parameters. *)

From S2P Require Import Prelude.

(** An L1 or L2 header: the fields the source reads, and the others together. *)
Record Header := {
  number : Z;
  timestamp : Z;
  parent_hash : Z;
  state_root : Z;
  withdrawals_root : option Z;
  other_fields : Z;
}.

Record BootInfoStruct := {
  l1Head : Z;
  l2PreRoot : Z;
  l2PostRoot : Z;
  l2BlockNumber : Z;
  rollupConfigHash : Z;
}.

Record AggregationInputs := {
  boot_infos : list BootInfoStruct;
  latest_l1_checkpoint_head : Z;
  multi_block_vkey : list Z;  (** eight words *)
  prover_address : Z;
}.

Record AggregationOutputs := {
  o_l1Head : Z;
  o_l2PreRoot : Z;
  o_l2PostRoot : Z;
  o_l2BlockNumber : Z;
  o_rollupConfigHash : Z;
  o_multiBlockVKey : Z;
  o_proverAddress : Z;
}.

(** [assert!] *)
Definition assert_ (b : bool) : outcome unit := if b then Ok tt else Panic.

Lemma assert_bind {A} b (m : outcome A) x :
  (_ ← assert_ b; m) = Ok x <-> b = true /\ m = Ok x.
Proof. destruct b; cbn; naive_solver. Qed.

(** [Header::hash_slow] *)
Class HeaderHash := hash_slow : Header -> Z.

Class Zkvm := {
  pv_digest : BootInfoStruct -> Z;  (** [Sha256::digest(bincode::serialize(..))] *)
  verify_sp1_proof : list Z -> Z -> bool;
  cbor_from_slice : list Z -> option (list Header);
  words_to_bytes_be : list Z -> Z;
}.

Section program.
Context `{HeaderHash, Zkvm}.

(** The [windows(2)] loop. *)
Fixpoint check_sequential (boot_infos : list BootInfoStruct) : outcome unit :=
  match boot_infos with
  | prev_boot_info :: ((boot_info :: _) as rest) =>
      _ ← assert_ (l2PostRoot prev_boot_info =? l2PreRoot boot_info);
      _ ← assert_ (rollupConfigHash prev_boot_info =? rollupConfigHash boot_info);
      check_sequential rest
  | _ => Ok tt
  end.

Fixpoint verify_proofs (multi_block_vkey : list Z) (boot_infos : list BootInfoStruct) : outcome unit :=
  match boot_infos with
  | [] => Ok tt
  | boot_info :: rest =>
      _ ← assert_ (verify_sp1_proof multi_block_vkey (pv_digest boot_info));
      verify_proofs multi_block_vkey rest
  end.

(** The loop over [headers.iter().rev()]; [headers] is already reversed. *)
Fixpoint walk_headers (headers : list Header) (current_hash : Z) (l1_heads_map : gmap Z bool)
    : outcome (gmap Z bool) :=
  match headers with
  | [] => Ok l1_heads_map
  | header :: rest =>
      _ ← assert_ (current_hash =? hash_slow header);
      let l1_heads_map :=
        match l1_heads_map !! current_hash with
        | Some _ => <[current_hash := true]> l1_heads_map
        | None => l1_heads_map
        end in
      walk_headers rest (parent_hash header) l1_heads_map
  end.

Definition all_found (l1_heads_map : gmap Z bool) : bool :=
  bool_decide (map_Forall (fun _ found => found = true) l1_heads_map).

Definition main (agg_inputs : AggregationInputs) (headers_bytes : list Z)
    : outcome AggregationOutputs :=
  headers ← unwrap (cbor_from_slice headers_bytes);
  _ ← assert_ (negb (bool_decide (boot_infos agg_inputs = [])));
  _ ← check_sequential (boot_infos agg_inputs);
  _ ← verify_proofs (multi_block_vkey agg_inputs) (boot_infos agg_inputs);
  let l1_heads_map : gmap Z bool :=
    list_to_map ((fun boot_info => (l1Head boot_info, false)) <$> boot_infos agg_inputs) in
  l1_heads_map ← walk_headers (reverse headers) (latest_l1_checkpoint_head agg_inputs) l1_heads_map;
  _ ← assert_ (all_found l1_heads_map);
  first_boot_info ← unwrap (head (boot_infos agg_inputs));
  last_boot_info ← unwrap (last (boot_infos agg_inputs));
  Ok {| o_l1Head := latest_l1_checkpoint_head agg_inputs;
        o_l2PreRoot := l2PreRoot first_boot_info;
        o_l2PostRoot := l2PostRoot last_boot_info;
        o_l2BlockNumber := l2BlockNumber last_boot_info;
        o_rollupConfigHash := rollupConfigHash last_boot_info;
        o_multiBlockVKey := words_to_bytes_be (multi_block_vkey agg_inputs);
        o_proverAddress := prover_address agg_inputs |}.

(** ** What the program checks *)

(** Each claim starts from the output root the one before it ends with, under
    one rollup configuration. *)
Definition sequential (bs : list BootInfoStruct) : Prop :=
  forall i b b', bs !! i = Some b -> bs !! S i = Some b' ->
    l2PostRoot b = l2PreRoot b' /\ rollupConfigHash b = rollupConfigHash b'.

(** Each header is the parent of the next, and the last one is the checkpoint. *)
Definition linked (headers : list Header) (checkpoint : Z) : Prop :=
  forall i h, headers !! i = Some h ->
    hash_slow h = match headers !! S i with Some h' => parent_hash h' | None => checkpoint end.

Lemma check_sequential_Ok bs : check_sequential bs = Ok tt <-> sequential bs.
Proof.
  induction bs as [|b [|b' bs] IH]; cbn [check_sequential].
  - split; [|done]. by intros _ i.
  - split; [|done]. by intros _ [|i] x y; cbn; [intros _|].
  - rewrite !assert_bind, !Z.eqb_eq, IH. split.
    + intros (H1 & H2 & Hs) [|i] x y; cbn; [by intros [= <-] [= <-]|]. by apply Hs.
    + intros Hs. destruct (Hs 0%nat b b' eq_refl eq_refl) as [-> ->]. split_and!; [done..|].
      intros i x y. apply (Hs (S i)).
Qed.

Lemma verify_proofs_Ok vkey bs :
  verify_proofs vkey bs = Ok tt <-> Forall (fun b => verify_sp1_proof vkey (pv_digest b) = true) bs.
Proof.
  induction bs as [|b bs IH]; cbn; [by split|]. by rewrite assert_bind, IH, Forall_cons.
Qed.

Fixpoint linked_back (current_hash : Z) (headers : list Header) : Prop :=
  match headers with
  | [] => True
  | header :: rest => current_hash = hash_slow header /\ linked_back (parent_hash header) rest
  end.

Lemma linked_snoc hs h c : linked (hs ++ [h]) c <-> hash_slow h = c /\ linked hs (parent_hash h).
Proof.
  unfold linked. split.
  - intros Hl. split.
    + specialize (Hl (length hs) h). rewrite lookup_app_r, Nat.sub_diag in Hl by done.
      rewrite (lookup_ge_None_2 (hs ++ [h])) in Hl; [by apply Hl|]. rewrite length_app. cbn. lia.
    + intros i x Hx. pose proof (lookup_lt_Some _ _ _ Hx). specialize (Hl i x).
      rewrite lookup_app_l in Hl by done. rewrite (Hl Hx).
      destruct (decide (S i < length hs)%nat) as [Hsi|].
      * destruct (lookup_lt_is_Some_2 hs (S i) Hsi) as [y Hy]. rewrite lookup_app_l by lia. by rewrite Hy.
      * replace (S i) with (length hs) by lia. rewrite lookup_app_r, Nat.sub_diag by done. cbn.
        by rewrite lookup_ge_None_2 by lia.
  - intros [Hh Hl] i x Hx. destruct (decide (i < length hs)%nat) as [Hi|Hi].
    + rewrite lookup_app_l in Hx by done. rewrite (Hl _ _ Hx).
      destruct (decide (S i < length hs)%nat) as [Hsi|].
      * destruct (lookup_lt_is_Some_2 hs (S i) Hsi) as [y Hy]. rewrite lookup_app_l by lia. by rewrite Hy.
      * replace (S i) with (length hs) by lia. rewrite lookup_app_r, Nat.sub_diag by done. cbn.
        by rewrite lookup_ge_None_2 by lia.
    + rewrite lookup_app_r in Hx by lia. destruct (i - length hs)%nat as [|k] eqn:E; [|done].
      injection Hx as <-. rewrite lookup_ge_None_2; [done|]. rewrite length_app. cbn. lia.
Qed.

Lemma linked_reverse hs c : linked_back c (reverse hs) <-> linked hs c.
Proof.
  revert c. induction hs as [|h hs IH] using rev_ind; intros c; [by split; [intros _ i|]|].
  rewrite reverse_snoc. cbn. rewrite IH, linked_snoc. naive_solver.
Qed.

(** The map after the walk: the heads the walk has met are marked. *)
Definition mark (hashes : list Z) (m : gmap Z bool) : gmap Z bool :=
  map_imap (fun k found => Some (found || bool_decide (k ∈ hashes))) m.

Lemma walk_headers_Ok hs c m m' :
  walk_headers hs c m = Ok m' <-> linked_back c hs /\ m' = mark (hash_slow <$> hs) m.
Proof.
  revert c m. induction hs as [|h hs IH]; intros c m; cbn.
  - assert (Hm : mark [] m = m); [|rewrite Hm; naive_solver].
    apply map_eq. intros k. unfold mark. rewrite map_lookup_imap.
    destruct (m !! k) as [f|]; cbn; [|done]. rewrite bool_decide_eq_false_2 by apply not_elem_of_nil.
    by rewrite orb_false_r.
  - rewrite assert_bind, Z.eqb_eq, IH.
    assert (Hm : mark (hash_slow <$> hs)
        match m !! hash_slow h with Some _ => <[hash_slow h := true]> m | None => m end =
        mark (hash_slow h :: (hash_slow <$> hs)) m).
    2: { split; [intros (-> & Hl & ->)|intros [[-> Hl] ->]]; by rewrite Hm. }
    apply map_eq. intros k. unfold mark. rewrite !map_lookup_imap.
    destruct (decide (k = hash_slow h)) as [->|Hne].
    + destruct (m !! hash_slow h) as [f|] eqn:E; [|by rewrite E].
      rewrite lookup_insert_eq. cbn. rewrite (bool_decide_eq_true_2 (_ ∈ _ :: _)) by left.
      by rewrite orb_true_r.
    + assert (Hk : bool_decide (k ∈ hash_slow h :: (hash_slow <$> hs)) = bool_decide (k ∈ hash_slow <$> hs)).
      { apply bool_decide_ext. rewrite elem_of_cons. naive_solver. }
      rewrite Hk. destruct (m !! hash_slow h); [|done]. by rewrite lookup_insert_ne.
Qed.

Lemma all_found_heads bs hashes :
  all_found (mark hashes (list_to_map ((fun b => (l1Head b, false)) <$> bs))) = true <->
  Forall (fun b => l1Head b ∈ hashes) bs.
Proof.
  unfold all_found. rewrite bool_decide_eq_true, Forall_forall. unfold map_Forall, mark.
  split.
  - intros Hm b Hb. destruct ((list_to_map ((fun b => (l1Head b, false)) <$> bs) : gmap Z bool) !! l1Head b)
      as [f|] eqn:E.
    + assert (f = false) as ->.
      { apply elem_of_list_to_map_2, list_elem_of_fmap in E as (x & [= _ ->] & _). done. }
      specialize (Hm (l1Head b) (bool_decide (l1Head b ∈ hashes))).
      rewrite map_lookup_imap, E in Hm. cbn in Hm. by apply (bool_decide_eq_true _), Hm.
    + apply not_elem_of_list_to_map_2 in E. exfalso. apply E.
      apply list_elem_of_fmap. exists (l1Head b, false). split; [done|]. apply list_elem_of_fmap. by exists b.
  - intros Hb k found. rewrite map_lookup_imap. intros (f & E & [= <-])%bind_Some.
    apply elem_of_list_to_map_2, list_elem_of_fmap in E as (x & [= -> ->] & Hx).
    cbn. by apply (bool_decide_eq_true _), Hb.
Qed.

Lemma sequential_config first rest b :
  sequential (first :: rest) -> b ∈ first :: rest -> rollupConfigHash b = rollupConfigHash first.
Proof.
  intros Hs [i Hi]%list_elem_of_lookup. revert b Hi. induction i as [|i IH]; intros b Hi.
  - by injection Hi as <-.
  - destruct (lookup_lt_is_Some_2 (first :: rest) i) as [x Hx].
    { apply lookup_lt_Some in Hi. lia. }
    destruct (Hs i x b Hx Hi) as [_ <-]. by apply IH.
Qed.

Definition claim (agg_inputs : AggregationInputs) (first last_ : BootInfoStruct) : AggregationOutputs := {|
  o_l1Head := latest_l1_checkpoint_head agg_inputs;
  o_l2PreRoot := l2PreRoot first; o_l2PostRoot := l2PostRoot last_;
  o_l2BlockNumber := l2BlockNumber last_; o_rollupConfigHash := rollupConfigHash first;
  o_multiBlockVKey := words_to_bytes_be (multi_block_vkey agg_inputs);
  o_proverAddress := prover_address agg_inputs |}.

(** What the program asks of its inputs. *)
Definition acceptable (agg_inputs : AggregationInputs) (headers : list Header) : Prop :=
  sequential (boot_infos agg_inputs) /\
  Forall (fun b => verify_sp1_proof (multi_block_vkey agg_inputs) (pv_digest b) = true)
    (boot_infos agg_inputs) /\
  linked headers (latest_l1_checkpoint_head agg_inputs) /\
  Forall (fun b => l1Head b ∈ hash_slow <$> headers) (boot_infos agg_inputs).

Lemma main_accepts (agg_inputs : AggregationInputs) headers_bytes headers first rest last_ :
  cbor_from_slice headers_bytes = Some headers -> boot_infos agg_inputs = first :: rest ->
  last (first :: rest) = Some last_ -> acceptable agg_inputs headers ->
  main agg_inputs headers_bytes = Ok (claim agg_inputs first last_).
Proof.
  intros Hcbor Hb Hl (Hs & Hv & Hlink & Hf). unfold main. rewrite Hcbor. cbn [unwrap mbind outcome_bind].
  rewrite (proj2 (check_sequential_Ok _) Hs), (proj2 (verify_proofs_Ok _ _) Hv). rewrite Hb in *.
  cbn [bool_decide decide mbind outcome_bind negb]. apply assert_bind. split; [done|].
  rewrite (proj2 (walk_headers_Ok _ _ _ _) (conj (proj2 (linked_reverse _ _) Hlink) eq_refl)).
  cbn [mbind outcome_bind]. apply assert_bind. split.
  - apply all_found_heads. eapply Forall_impl; [exact Hf|]. intros b.
    by rewrite fmap_reverse, elem_of_reverse.
  - rewrite Hl. cbn. unfold claim.
    by rewrite (sequential_config first rest last_) by (done || by apply last_Some_elem_of).
Qed.

Lemma main_claims (agg_inputs : AggregationInputs) headers_bytes out :
  main agg_inputs headers_bytes = Ok out ->
  exists headers first rest last_,
    cbor_from_slice headers_bytes = Some headers /\
    boot_infos agg_inputs = first :: rest /\ last (first :: rest) = Some last_ /\
    acceptable agg_inputs headers /\ out = claim agg_inputs first last_.
Proof.
  unfold main. rewrite outcome_bind_Ok. intros (headers & Hcbor & Hm). unfold unwrap in Hcbor.
  destruct (cbor_from_slice headers_bytes) as [headers'|]; [|done]. injection Hcbor as ->.
  apply assert_bind in Hm as [Hne Hm]. rewrite negb_true_iff, bool_decide_eq_false in Hne.
  apply outcome_bind_Ok in Hm as ([] & Hs%check_sequential_Ok & Hm).
  apply outcome_bind_Ok in Hm as ([] & Hv%verify_proofs_Ok & Hm).
  apply outcome_bind_Ok in Hm as (m & [Hl ->]%walk_headers_Ok & Hm). rewrite linked_reverse in Hl.
  apply assert_bind in Hm as [Hf%all_found_heads Hm].
  destruct (boot_infos agg_inputs) as [|first rest] eqn:Eb; [done|]. cbn [head unwrap] in Hm.
  destruct (last (first :: rest)) as [last_|] eqn:El; [|done]. cbn in Hm. injection Hm as <-.
  exists headers, first, rest, last_. split_and!; try done.
- unfold acceptable. rewrite Eb. split_and!; try done.
    eapply Forall_impl; [exact Hf|]. intros b. by rewrite fmap_reverse, elem_of_reverse.
- unfold claim. by rewrite (sequential_config first rest last_) by (done || by apply last_Some_elem_of).
Qed.

(** C21: The aggregation program ends with a claim exactly when it is given
    at least one range claim, the claims chain from output root to output root
    under one rollup configuration, every range proof verifies, the headers
    form a parent-hash chain that ends at the checkpoint, and the L1 head of
    every range is one of them; the claim then goes from the first root to the
    last one, at the checkpoint. *)
Theorem aggregation_claims (agg_inputs : AggregationInputs) headers_bytes out :
  main agg_inputs headers_bytes = Ok out <->
  exists headers first rest last_,
    cbor_from_slice headers_bytes = Some headers /\
    boot_infos agg_inputs = first :: rest /\ last (first :: rest) = Some last_ /\
    acceptable agg_inputs headers /\ out = claim agg_inputs first last_.
Proof.
  split; [apply main_claims|]. intros (headers & first & rest & last_ & Hcbor & Hb & Hl & Hacc & ->).
  by apply (main_accepts _ _ headers first rest).
Qed.
End program.

(** ** A sample *)

Definition sample_header (n : Z) : Header := {|
  number := n; timestamp := 12 * n; parent_hash := 1000 + (n - 1); state_root := 0;
  withdrawals_root := None; other_fields := 0 |}.

(** Headers are encoded by their numbers, and hash to 1000 and their number. *)
Definition sample_hash : HeaderHash := fun h => 1000 + number h.
Definition sample_zkvm : Zkvm := {|
  pv_digest b := l2PostRoot b;
  verify_sp1_proof _ digest := 0 <? digest;
  cbor_from_slice bytes := Some (sample_header <$> bytes);
  words_to_bytes_be := foldl (fun acc w => acc * 2 ^ 32 + w) 0 |}.

Definition sample_boot (i head : Z) : BootInfoStruct := {|
  l1Head := head; l2PreRoot := i; l2PostRoot := i + 1; l2BlockNumber := 10 * i;
  rollupConfigHash := 13 |}.

Definition sample_inputs : AggregationInputs := {|
  boot_infos := [sample_boot 1 1005; sample_boot 2 1003; sample_boot 3 1005];
  latest_l1_checkpoint_head := 1006; multi_block_vkey := [1; 2]; prover_address := 77 |}.

Example sample_claim :
  main (H := sample_hash) (H0 := sample_zkvm) sample_inputs [3; 4; 5; 6] =
  Ok {| o_l1Head := 1006; o_l2PreRoot := 1; o_l2PostRoot := 4; o_l2BlockNumber := 30;
        o_rollupConfigHash := 13; o_multiBlockVKey := 2 ^ 32 + 2; o_proverAddress := 77 |}.
Proof. vm_compute. reflexivity. Qed.

(** A header chain that misses the head of a range gives no claim. *)
Example sample_missing_head : main (H := sample_hash) (H0 := sample_zkvm) sample_inputs [4; 5; 6] = Panic.
Proof. vm_compute. reflexivity. Qed.
