(* ===== verification/Oracle.v ===== *)
(** * Computations over a preimage oracle

    The range program and the generation of its witness run one and the same
    code over two oracles: natively over a connection to the node, whose answers
    are recorded, and in the zkVM over the record. The code is generic in the
    oracle ([O: CommsClient + FlushableCache], [B: BlobProvider]); a [client] is
    such code, a finite tree of calls, and a handler answers the calls on a
    state of its own. *)

From S2P Require Import Prelude.

(** [Vec<u8>] *)
Notation bytes := (list Z).

Definition from_be (b : bytes) : Z := foldl (fun acc x => 256 * acc + x) 0 b.

(** The lowest [n] bytes, big-endian. *)
Definition to_be (n : nat) (x : Z) : bytes := reverse ((fun i => Z.shiftr x (8 * Z.of_nat i) mod 256) <$> seq 0 n).

(** A [B256], or [u8; 32], is the number its bytes spell; [try_from] a slice. *)
Definition hash_of_slice (b : bytes) : option Z :=
  if (length b =? 32)%nat then Some (from_be b) else None.

(** The kinds [check_preimage] distinguishes; a key is an opaque number. *)
Inductive PreimageKeyType := Local | Keccak256 | GlobalGeneric | Sha256 | Blob | Precompile.
Notation PreimageKey := Z.

#[global] Instance PreimageKeyType_eq_dec : EqDecision PreimageKeyType.
Proof. solve_decision. Defined.

(** What client code asks: the reads of [PreimageOracleClient] ([GetExact] for a
    buffer of that length), hints, [flush], and the blobs of some versioned
    hashes. *)
Inductive call : Type -> Type :=
| Get (key : PreimageKey) : call bytes
| GetExact (key : PreimageKey) (len : nat) : call bytes
| Write (ty : string) (data : bytes) : call unit
| Flush : call unit
| Blobs (block_ref : Z) (blob_hashes : list Z) : call (list Z).

Inductive client (A : Type) : Type :=
| Done (o : outcome A)
| Ask (X : Type) (c : call X) (k : X + string -> client A).
Arguments Done {A} _.
Arguments Ask {A} _ _ _.

Definition trigger {X} (c : call X) : client X :=
  Ask X c (fun r => match r with inl x => Done (Ok x) | inr e => Done (Err e) end).

Fixpoint client_bind_ {A B} (p : client A) (f : A -> client B) : client B :=
  match p with
  | Done (Ok a) => f a
  | Done (Err e) => Done (Err e)
  | Done Panic => Done Panic
  | Ask X c k => Ask X c (fun r => client_bind_ (k r) f)
  end.
#[global] Instance client_ret : MRet client := fun A a => Done (Ok a).
#[global] Instance client_mbind : MBind client := fun A B f p => client_bind_ p f.

(** [match p.await { Ok(a) => .., Err(e) => .. }] *)
Fixpoint attempt_ {A} (p : client A) : client (A + string) :=
  match p with
  | Done (Ok a) => Done (Ok (inl a))
  | Done (Err e) => Done (Ok (inr e))
  | Done Panic => Done Panic
  | Ask X c k => Ask X c (fun r => attempt_ (k r))
  end.

(** [.await.unwrap()] *)
Fixpoint unwrapped {A} (p : client A) : client A :=
  match p with
  | Done (Err _) => Done Panic
  | Done o => Done o
  | Ask X c k => Ask X c (fun r => unwrapped (k r))
  end.

(** ** Handlers *)

Definition Handler (W : Type) : Type := forall X, call X -> M W X.

Section perform.
Context {W : Type} (h : Handler W).

Fixpoint perform {A} (p : client A) : M W A := fun s =>
  match p with
  | Done o => (s, o)
  | Ask X c k =>
      match h X c s with
      | (s', Ok x) => perform (k (inl x)) s'
      | (s', Err e) => perform (k (inr e)) s'
      | (s', Panic) => (s', Panic)
      end
  end.

Lemma perform_bind {A B} (p : client A) (f : A -> client B) s :
  perform (p ≫= f) s = ((perform p : M W A) ≫= fun a => perform (f a)) s.
Proof.
  unfold mbind at 1, client_mbind. revert s.
  induction p as [[a|e|]|X c k IH]; intros s; cbn; [done..|].
  unfold mbind, M_bind in *. destruct (h X c s) as [s' [x|e|]]; [apply IH..|done].
Qed.

Lemma perform_bind_Ok {A B} (p : client A) (f : A -> client B) s s' b :
  perform (p ≫= f) s = (s', Ok b) <->
  exists s1 a, perform p s = (s1, Ok a) /\ perform (f a) s1 = (s', Ok b).
Proof. rewrite perform_bind. apply M_bind_Ok. Qed.

Lemma perform_trigger {X} (c : call X) s : perform (trigger c) s = h X c s.
Proof. cbn. by destruct (h X c s) as [s' []]. Qed.

Lemma perform_attempt {A} (p : client A) s : perform (attempt_ p) s = attempt (perform p) s.
Proof.
  unfold attempt. revert s. induction p as [[a|e|]|X c k IH]; intros s; cbn; [done..|].
  destruct (h X c s) as [s' [x|e|]]; [apply IH..|done].
Qed.

Lemma perform_unwrapped {A} (p : client A) s s' a :
  perform (unwrapped p) s = (s', Ok a) <-> perform p s = (s', Ok a).
Proof.
  revert s. induction p as [[b|e|]|X c k IH]; intros s; cbn; [done| |done|].
  - split; intros [=].
  - destruct (h X c s) as [s1 [x|e|]]; [apply IH..|done].
Qed.

Lemma unwrapped_Ok {A} (p : client A) s s' a : perform (unwrapped p) s = (s', Ok a) -> perform p s = (s', Ok a).
Proof. apply perform_unwrapped. Qed.

(** Every answer given along the run satisfies [P]. *)
Fixpoint heard (P : forall X, call X -> W -> outcome X -> Prop) {A} (p : client A) (s : W) : Prop :=
  match p with
  | Done _ => True
  | Ask X c k =>
      P X c s (h X c s).2 /\
      match h X c s with
      | (s', Ok x) => heard P (k (inl x)) s'
      | (s', Err e) => heard P (k (inr e)) s'
      | (_, Panic) => True
      end
  end.

Lemma heard_bind P {A B} (p : client A) (f : A -> client B) s : heard P (p ≫= f) s -> heard P p s.
Proof.
  unfold mbind, client_mbind. revert s. induction p as [[a|e|]|X c k IH]; intros s; cbn; [done..|].
  intros [HP Hk]. split; [done|]. destruct (h X c s) as [s' [x|e|]]; auto.
Qed.

(** What holds of every answer in every state of an invariant. *)
Lemma heard_always (I : W -> Prop) P {A} (p : client A) s :
  (forall X c s, I s -> P X c s (h X c s).2 /\ I (h X c s).1) -> I s -> heard P p s.
Proof.
  intros Hall. revert s. induction p as [o|X c k IH]; intros s Hs; cbn; [done|].
  destruct (Hall X c s Hs) as [HP HI]. split; [done|].
  destruct (h X c s) as [s' [x|e|]]; cbn in *; auto.
Qed.

(** A property of the state that every answer preserves. *)
Lemma perform_keeps (R : relation W) `{!PreOrder R} {A} (p : client A) s :
  (forall X c s, R s (h X c s).1) -> R s (perform p s).1.
Proof.
  intros Hall. revert s. induction p as [o|X c k IH]; intros s; cbn; [reflexivity|].
  pose proof (Hall X c s) as Hs. destruct (h X c s) as [s' [x|e|]]; cbn in *; [etrans; eauto..|done].
Qed.
End perform.

(** No call of the run was refused. *)
Definition flawless {W} (X : Type) (c : call X) (s : W) (o : outcome X) : Prop :=
  forall e, o <> Err e.

(** ** Replaying a run on another handler

    [h1] only ever grows its state; [F] is the state it ends in. While [R F]
    relates the two states, every answer of [h1] is also the answer of [h2]. *)
Section simulation.
Context {W1 W2 : Type} (h1 : Handler W1) (h2 : Handler W2).
Context (grows : relation W1) `{!PreOrder grows} (R : W1 -> W1 -> W2 -> Prop).
Hypothesis h1_grows : forall X c s, grows s (h1 X c s).1.
Hypothesis h2_answers : forall F X c s1 s2 s1' x,
  R F s1 s2 -> h1 X c s1 = (s1', Ok x) -> grows s1' F ->
  exists s2', h2 X c s2 = (s2', Ok x) /\ R F s1' s2'.

Lemma perform_replays F {A} (p : client A) s1 s2 s1' a :
  R F s1 s2 -> heard h1 flawless p s1 -> perform h1 p s1 = (s1', Ok a) -> grows s1' F ->
  exists s2', perform h2 p s2 = (s2', Ok a) /\ R F s1' s2'.
Proof.
  revert s1 s2. induction p as [o|X c k IH]; intros s1 s2 HR; cbn.
  - intros _ [= <- ->] _. by exists s2.
  - intros [Hok Hheard] Hp HF. destruct (h1 X c s1) as [t1 [x|e|]] eqn:E; cbn in Hok; [| |done].
    + destruct (h2_answers F X c s1 s2 t1 x HR E) as (t2 & -> & HR').
      { etrans; [|exact HF]. pose proof (perform_keeps h1 grows (k (inl x)) t1 h1_grows) as Hg.
        by rewrite Hp in Hg. }
      by apply (IH _ t1).
    + by destruct (Hok e).
Qed.
End simulation.
