(* ===== verification/WitnessStore.v ===== *)
(** * The witness of a range proof

    The data a range program runs on, and how it is recorded:
    [utils/client/src/witness] ([PreimageStore], [WitnessData]) and
    [utils/client/src/oracle/blob_provider.rs] ([BlobStore]) on the side of the
    zkVM, [utils/host/src/witness_generation] ([PreimageWitnessCollector],
    [OnlineBlobStore]) on the side of the host. Both sides answer the calls of
    [Oracle]: [guest_handler] and [host_handler]. *)

From S2P Require Import Prelude.
From S2P Require Import Oracle.

(** Hashing, the layout of a [PreimageKey] and the KZG library. A blob, a
    commitment and a proof are opaque numbers. *)
Class WitnessCrypto := {
  keccak256 : bytes -> Z;
  sha256 : bytes -> Z;
  key_new : Z -> PreimageKeyType -> PreimageKey;
  key_type : PreimageKey -> PreimageKeyType;
  kzg_to_versioned_hash : Z -> Z;
  blob_from_slice : Z -> outcome Z;  (** [kzg_rs::Blob::from_slice] *)
  verify_blob_kzg_proof_batch : list Z -> list Z -> list Z -> outcome bool;
  compute_commitment : Z -> outcome Z;       (** [blob_to_kzg_commitment] *)
  compute_blob_kzg_proof : Z -> Z -> outcome Z;
}.

Definition new_keccak256 `{WitnessCrypto} (hash : Z) : PreimageKey := key_new hash Keccak256.

(** [PreimageStore::preimage_map] *)
Notation PreimageStore := (gmap PreimageKey bytes).

Record BlobData := {
  blobs : list Z;
  commitments : list Z;
  proofs : list Z;
}.

(** [versioned_blobs], handed out from its end. *)
Notation BlobStore := (list (Z * Z)).

Record DefaultWitnessData := {
  preimage_store : PreimageStore;
  blob_data : BlobData;
}.

(** [expect], [unwrap] *)
Definition expect {A} (o : outcome A) : outcome A :=
  match o with Err _ => Panic | o => o end.

Lemma expect_Ok {A} (o : outcome A) a : expect o = Ok a -> o = Ok a.
Proof. by destruct o. Qed.

Definition from_parts (preimages : PreimageStore) (blobs : BlobData) : DefaultWitnessData :=
  {| preimage_store := preimages; blob_data := blobs |}.

Section store.
Context {HO : HashOrder} `{WitnessCrypto}.

(** ** Preimages *)

Definition check_preimage (key : PreimageKey) (value : bytes) : outcome unit :=
  expected ← (match key_type key with
              | Keccak256 => Ok (Some (keccak256 value))
              | Sha256 => Ok (Some (sha256 value))
              | Local | GlobalGeneric => Ok None
              | Precompile | Blob => Panic
              end);
  match expected with
  | Some expected_hash =>
      if negb (key =? key_new expected_hash (key_type key)) then Err "InvalidPreimageKey" else Ok tt
  | None => Ok tt
  end.

Fixpoint check_all (entries : list (PreimageKey * bytes)) : outcome unit :=
  match entries with
  | [] => Ok tt
  | (key, value) :: rest => _ ← check_preimage key value; check_all rest
  end.

Definition check_preimages (preimage_map : PreimageStore) : outcome unit :=
  check_all (iter_map preimage_map).

Definition save_preimage (key : PreimageKey) (value : bytes) : M PreimageStore unit :=
  fun preimage_map =>
  match check_preimage key value with
  | Ok _ =>
      match preimage_map !! key with
      | None => (<[key := value]> preimage_map, Ok tt)
      | Some old =>
          if bool_decide (old = value) then (preimage_map, Ok tt)
          else (preimage_map, Err "cannot overwrite key")
      end
  | Err e => (preimage_map, Err e)
  | Panic => (preimage_map, Panic)
  end.

Definition get (preimage_map : PreimageStore) (key : PreimageKey) : outcome bytes :=
  with_context "InvalidPreimageKey" (preimage_map !! key).

(** [copy_from_slice] panics on another length. *)
Definition get_exact (preimage_map : PreimageStore) (key : PreimageKey) (len : nat) : outcome bytes :=
  value ← get preimage_map key;
  if (length value =? len)%nat then Ok value else Panic.

(** ** Blobs *)

Fixpoint map_outcome {A B} (f : A -> outcome B) (l : list A) : outcome (list B) :=
  match l with
  | [] => Ok []
  | a :: rest => b ← f a; bs ← map_outcome f rest; Ok (b :: bs)
  end.

(** [BlobStore::from]: the pairs of versioned hash and blob, verified. *)
Definition blob_store_from (value : BlobData) : outcome BlobStore :=
  parsed ← expect (map_outcome blob_from_slice (blobs value));
  let versioned_blobs :=
    reverse (zip (kzg_to_versioned_hash <$> commitments value) parsed) in
  let nothing_to_verify :=
    bool_decide (parsed = []) && bool_decide (commitments value = []) &&
    bool_decide (proofs value = []) in
  if negb nothing_to_verify then
    match verify_blob_kzg_proof_batch parsed (commitments value) (proofs value) with
    | Ok true => Ok versioned_blobs
    | _ => Panic
    end
  else Ok versioned_blobs.

(** One blob is taken off the end for every hash, whether it matches or not. *)
Fixpoint get_and_validate_blobs (blob_hashes : list Z) : M BlobStore (list Z) :=
  fun versioned_blobs =>
  match blob_hashes with
  | [] => (versioned_blobs, Ok [])
  | hash :: rest =>
      match last versioned_blobs with
      | None => (versioned_blobs, Panic)
      | Some (blob_hash, blob) =>
          let '(s, served) := get_and_validate_blobs rest (removelast versioned_blobs) in
          (s, served ← served; Ok (if hash =? blob_hash then blob :: served else served))
      end
  end.

(** ** The guest *)

Record Guest := {
  g_oracle : PreimageStore;
  g_beacon : BlobStore;
}.

(** [WitnessData::get_oracle_and_blob_provider] *)
Definition get_oracle_and_blob_provider (witness : DefaultWitnessData) : outcome Guest :=
  _ ← expect (check_preimages (preimage_store witness));
  beacon ← blob_store_from (blob_data witness);
  Ok {| g_oracle := preimage_store witness; g_beacon := beacon |}.

(** [PreimageStore] as a [CommsClient], [BlobStore] as a [BlobProvider]. *)
Definition guest_handler : Handler Guest := fun X c s =>
  match c in call X return Guest * outcome X with
  | Get key => (s, get (g_oracle s) key)
  | GetExact key len => (s, get_exact (g_oracle s) key len)
  | Write _ _ => (s, Ok tt)
  | Flush => (s, Ok tt)
  | Blobs _ hashes =>
      let '(beacon, served) := get_and_validate_blobs hashes (g_beacon s) in
      ({| g_oracle := g_oracle s; g_beacon := beacon |}, served)
  end.
End store.

(** ** The host *)

(** The connection the host reads through ([CachingOracle],
    [OracleBlobProvider]), with a state of its own. *)
Class Online := {
  Net : Type;
  net_get : PreimageKey -> M Net bytes;
  net_get_exact : PreimageKey -> nat -> M Net bytes;
  net_write : string -> bytes -> M Net unit;
  net_flush : Net -> Net;
  net_blobs : Z -> list Z -> M Net (list Z);
}.

Section host.
Context `{WitnessCrypto, Online}.

Record Host := {
  net : Net;
  preimage_witness_store : PreimageStore;
  store : BlobData;
}.

(** [PreimageWitnessCollector::save] *)
Definition save (key : PreimageKey) (value : bytes) : M Host unit := fun s =>
  let '(preimages, o) := save_preimage key value (preimage_witness_store s) in
  ({| net := net s; preimage_witness_store := preimages; store := store s |}, o).

Definition on_net {A} (f : M Net A) : M Host A := fun s =>
  let '(n, o) := f (net s) in
  ({| net := n; preimage_witness_store := preimage_witness_store s; store := store s |}, o).

Definition get_blob_data (blob : Z) : outcome (Z * Z * Z) :=
  commitment ← expect (compute_commitment blob);
  proof ← expect (compute_blob_kzg_proof blob commitment);
  parsed ← expect (blob_from_slice blob);
  Ok (parsed, commitment, proof).

Definition push_blob (b : Z * Z * Z) (d : BlobData) : BlobData :=
  {| blobs := blobs d ++ [b.1.1]; commitments := commitments d ++ [b.1.2]; proofs := proofs d ++ [b.2] |}.

Fixpoint record_blobs (served : list Z) : M BlobData unit := fun d =>
  match served with
  | [] => (d, Ok tt)
  | blob :: rest =>
      match get_blob_data blob with
      | Ok b => record_blobs rest (push_blob b d)
      | Err e => (d, Err e)
      | Panic => (d, Panic)
      end
  end.

Definition on_store {A} (f : M BlobData A) : M Host A := fun s =>
  let '(d, o) := f (store s) in
  ({| net := net s; preimage_witness_store := preimage_witness_store s; store := d |}, o).

(** [OnlineBlobStore::get_and_validate_blobs] *)
Definition online_blobs (block_ref : Z) (blob_hashes : list Z) : M Host (list Z) :=
  served ← on_net (net_blobs block_ref blob_hashes);
  _ ← on_store (record_blobs served);
  mret served.

Definition host_handler : Handler Host := fun X c =>
  match c in call X return M Host X with
  | Get key => value ← on_net (net_get key); _ ← save key value; mret value
  | GetExact key len => buf ← on_net (net_get_exact key len); _ ← save key buf; mret buf
  | Write ty data => on_net (net_write ty data)
  | Flush => on_net (fun n => (net_flush n, Ok tt))
  | Blobs block_ref hashes => online_blobs block_ref hashes
  end.

(** The host before a run. *)
Definition host_start (n : Net) : Host :=
  {| net := n; preimage_witness_store := ∅;
     store := {| blobs := []; commitments := []; proofs := [] |} |}.

(** The witness it leaves. *)
Definition witness_of (s : Host) : DefaultWitnessData :=
  from_parts (preimage_witness_store s) (store s).
End host.

(** ** Sample cryptography and connection

    A hash is the number its bytes spell, a key its hash and its kind; the
    commitment of a blob [b] is [b + 1], its proof [b + 2], the versioned hash of
    a commitment [c] is [c + 100]. *)

Definition sample_kind (n : Z) : PreimageKeyType :=
  if n =? 0 then Local else if n =? 1 then Keccak256 else if n =? 2 then GlobalGeneric
  else if n =? 3 then Sha256 else if n =? 4 then Blob else Precompile.
Definition sample_code (ty : PreimageKeyType) : Z :=
  match ty with Local => 0 | Keccak256 => 1 | GlobalGeneric => 2 | Sha256 => 3 | Blob => 4 | Precompile => 5 end.

Definition sample_crypto : WitnessCrypto := {|
  keccak256 := from_be;
  sha256 := from_be;
  key_new hash ty := 8 * hash + sample_code ty;
  key_type key := sample_kind (key mod 8);
  kzg_to_versioned_hash c := c + 100;
  blob_from_slice b := Ok b;
  verify_blob_kzg_proof_batch bs cs ps :=
    Ok (bool_decide (cs = (fun b => b + 1) <$> bs) && bool_decide (ps = (fun b => b + 2) <$> bs));
  compute_commitment b := Ok (b + 1);
  compute_blob_kzg_proof b _ := Ok (b + 2);
|}.

(** An output root with 128 bytes behind it, which spell 5. *)
Definition sample_output : bytes := replicate 127 0 ++ [5].

(** A node that has the output root, every one-byte value, and every blob. *)
Definition sample_online : Online := {|
  Net := unit;
  net_get key n := (n, Ok [key / 8]);
  net_get_exact key len n :=
    (n, if (key =? 41) && (len =? 128)%nat then Ok sample_output else Err "no such preimage");
  net_write _ _ n := (n, Ok tt);
  net_flush n := n;
  net_blobs _ hashes n := (n, Ok ((fun h => h - 101) <$> hashes));
|}.
