(* ===== verification/WitnessLaws.v ===== *)
(** * What a witness is worth

    Soundness: in an accepted witness every answer the guest hears is genuine,
    whatever it asks ([guest_answers_genuine]). Completeness: a run the host has
    finished is repeated by the guest on the witness it left
    ([witness_replays]). *)

From S2P Require Import Prelude.
From S2P Require Import Oracle.
From S2P Require Import WitnessStore.

Section laws.
Context {HO : HashOrder} `{WitnessCrypto}.

(** ** Checked preimages *)

(** The value is the preimage its key names; keys of the host's own data
    ([Local], [GlobalGeneric]) name nothing. *)
Definition genuine (key : PreimageKey) (value : bytes) : Prop :=
  match key_type key with
  | Keccak256 => key = key_new (keccak256 value) Keccak256
  | Sha256 => key = key_new (sha256 value) Sha256
  | Local | GlobalGeneric => True
  | Precompile | Blob => False
  end.

Lemma check_preimage_Ok key value : check_preimage key value = Ok tt <-> genuine key value.
Proof.
  unfold check_preimage, genuine. destruct (key_type key) eqn:E; cbn; try done;
    match goal with |- context [key =? ?x] => destruct (Z.eqb_spec key x) end; cbn; naive_solver.
Qed.

Lemma check_all_Ok l : check_all l = Ok tt <-> Forall (fun e => genuine e.1 e.2) l.
Proof.
  induction l as [|[k v] l IH]; cbn [check_all]; [done|].
  rewrite outcome_bind_Ok, Forall_cons, <- IH, <- check_preimage_Ok. cbn.
  split; [intros ([] & ? & ?); done|]. intros [? ?]. by exists tt.
Qed.

Lemma check_preimages_Ok m : check_preimages m = Ok tt <-> map_Forall genuine m.
Proof.
  unfold check_preimages. rewrite check_all_Ok, Forall_forall. unfold map_Forall. split.
  - intros Hl k v Hkv. apply (Hl (k, v)). by apply elem_of_iter_map.
  - intros Hm [k v] Hin. by apply Hm, elem_of_iter_map.
Qed.

(** [save_preimage] adds checked values and never replaces one. *)
Lemma save_preimage_Ok key value m m' u :
  save_preimage key value m = (m', Ok u) ->
  genuine key value /\ m' = <[key := value]> m /\ (m !! key = None \/ m !! key = Some value).
Proof.
  unfold save_preimage. destruct (check_preimage key value) as [[]|e|] eqn:E; try done.
  apply check_preimage_Ok in E. destruct (m !! key) as [old|] eqn:Hk; [case_bool_decide; [subst|done]|];
    intros [= <-]; (split_and!; [done| |auto]); [|done]. by rewrite insert_id.
Qed.

Lemma save_preimage_grows key value m :
  m ⊆ (save_preimage key value m).1 /\ (map_Forall genuine m -> map_Forall genuine (save_preimage key value m).1).
Proof.
  unfold save_preimage. destruct (check_preimage key value) as [[]|e|] eqn:E; try done.
  destruct (m !! key) as [old|] eqn:Hk; [by case_bool_decide|]. cbn. split; [by apply insert_subseteq|].
  intros Hm. apply map_Forall_insert_2; [by apply check_preimage_Ok|done].
Qed.

(** ** Served blobs *)

(** A blob of the witness under the versioned hash of its commitment. *)
Definition witnessed_blob (d : BlobData) (hash blob : Z) : Prop :=
  exists i commitment raw, commitments d !! i = Some commitment /\
    kzg_to_versioned_hash commitment = hash /\ blobs d !! i = Some raw /\ blob_from_slice raw = Ok blob.

Lemma map_outcome_Ok {A B} (f : A -> outcome B) l l' :
  map_outcome f l = Ok l' <-> Forall2 (fun a b => f a = Ok b) l l'.
Proof.
  revert l'. induction l as [|a l IH]; intros l'; cbn [map_outcome].
  - split; [by intros [= <-]|]. by intros ->%Forall2_nil_inv_l.
  - rewrite outcome_bind_Ok. setoid_rewrite outcome_bind_Ok. setoid_rewrite IH. split.
    + intros (b & Hb & bs & Hbs & [= <-]). by constructor.
    + intros (b & bs & Hb & Hbs & ->)%Forall2_cons_inv_l. eauto 6.
Qed.

Lemma blob_store_from_Ok d st :
  blob_store_from d = Ok st -> exists parsed,
    Forall2 (fun raw blob => blob_from_slice raw = Ok blob) (blobs d) parsed /\
    st = reverse (zip (kzg_to_versioned_hash <$> commitments d) parsed) /\
    (parsed = [] /\ commitments d = [] /\ proofs d = [] \/
     verify_blob_kzg_proof_batch parsed (commitments d) (proofs d) = Ok true).
Proof.
  unfold blob_store_from. intros (parsed & Hp & Hv)%outcome_bind_Ok.
  apply expect_Ok, map_outcome_Ok in Hp. exists parsed. split; [done|]. revert Hv.
  destruct (_ && _) eqn:E; cbn.
  - intros [= <-]. rewrite !andb_true_iff, !bool_decide_eq_true in E. split; [done|left; tauto].
  - destruct (verify_blob_kzg_proof_batch _ _ _) as [[]|e|] eqn:Ev; try done. intros [= <-]. auto.
Qed.

(** What is handed out, and what is left. *)
Lemma get_and_validate_spec hashes st st' bs :
  get_and_validate_blobs hashes st = (st', Ok bs) ->
  exists taken asked, st = st' ++ taken /\ length taken = length hashes /\ asked `sublist_of` hashes /\
    Forall2 (fun h b => (h, b) ∈ taken) asked bs.
Proof.
  revert st st' bs. induction hashes as [|h hashes IH]; intros st st' bs; cbn [get_and_validate_blobs].
  - intros [= <- <-]. exists [], []. rewrite app_nil_r. by split_and!.
  - destruct (last st) as [[bh b]|] eqn:El; [|done].
    apply last_Some in El as [l ->]. rewrite removelast_last.
    destruct (get_and_validate_blobs hashes l) as [st1 o] eqn:E. intros [= -> Ho].
    apply outcome_bind_Ok in Ho as (served & -> & [= <-]).
    destruct (IH _ _ _ E) as (taken & asked & -> & Hlen & Hsub & HF).
    assert (HF' : Forall2 (fun h b0 => (h, b0) ∈ taken ++ [(bh, b)]) asked served).
    { eapply Forall2_impl; [exact HF|]. intros. apply elem_of_app. auto. }
    exists (taken ++ [(bh, b)]). rewrite app_assoc, length_app, Hlen. cbn.
    destruct (Z.eqb_spec h bh) as [->|Hne].
    + exists (bh :: asked). split_and!; [done|lia|by apply sublist_skip|].
      constructor; [|done]. apply elem_of_app. right. by apply list_elem_of_singleton.
    + exists asked. split_and!; [done|lia|by apply sublist_cons|done].
Qed.

Lemma get_and_validate_prefix hashes st :
  exists taken, st = (get_and_validate_blobs hashes st).1 ++ taken.
Proof.
  revert st. induction hashes as [|h hashes IH]; intros st; cbn; [exists []; by rewrite app_nil_r|].
  destruct (last st) as [[bh b]|] eqn:El; [|exists []; by rewrite app_nil_r].
  apply last_Some in El as [l ->]. rewrite removelast_last. destruct (IH l) as [taken Ht].
  destruct (get_and_validate_blobs hashes l) as [st1 o]. cbn in *.
  exists (taken ++ [(bh, b)]). by rewrite app_assoc, <- Ht.
Qed.

Lemma witnessed_served d st hash blob :
  blob_store_from d = Ok st -> (hash, blob) ∈ st -> witnessed_blob d hash blob.
Proof.
  intros (parsed & Hp & -> & _)%blob_store_from_Ok. rewrite elem_of_reverse, list_elem_of_lookup.
  intros [i Hi]. apply lookup_zip_with_Some in Hi as (h & b & [= -> ->] & Hh & Hb).
  rewrite list_lookup_fmap in Hh. destruct (commitments d !! i) as [c|] eqn:Hc; [|done]. injection Hh as <-.
  destruct (Forall2_lookup_r _ _ _ _ _ Hp Hb) as (raw & Hraw & Hslice). by exists i, c, raw.
Qed.
(** ** Soundness *)

(** What an answer of the guest means, for the witness [w]. *)
Definition genuine_answer (w : DefaultWitnessData) (X : Type) (c : call X) (s : Guest) (o : outcome X) : Prop :=
  match c in call Y return outcome Y -> Prop with
  | Get key => fun o => forall value, o = Ok value ->
      preimage_store w !! key = Some value /\ genuine key value
  | GetExact key len => fun o => forall value, o = Ok value ->
      preimage_store w !! key = Some value /\ genuine key value /\ length value = len
  | Write _ _ => fun _ => True
  | Flush => fun _ => True
  | Blobs _ hashes => fun o => forall bs, o = Ok bs ->
      exists asked, asked `sublist_of` hashes /\ Forall2 (witnessed_blob (blob_data w)) asked bs
  end o.

Lemma accepted_witness w g :
  get_oracle_and_blob_provider w = Ok g ->
  map_Forall genuine (preimage_store w) /\ g_oracle g = preimage_store w /\
  blob_store_from (blob_data w) = Ok (g_beacon g).
Proof.
  intros ([] & Hc%expect_Ok%check_preimages_Ok & (st & Hb & [= <-])%outcome_bind_Ok)%outcome_bind_Ok.
  by split_and!.
Qed.

(** C11: Whatever code runs on an accepted witness, and however it ends: a preimage
    it is given under a hash key hashes to that key, the same key is always
    answered by the same value, and every blob it is given under a versioned
    hash is the blob of a commitment with this hash whose proof the batch
    verification accepted. *)
Theorem guest_answers_genuine w g {A} (p : client A) :
  get_oracle_and_blob_provider w = Ok g ->
  heard guest_handler (genuine_answer w) p g /\
  (blobs (blob_data w) = [] \/ exists parsed,
     Forall2 (fun raw blob => blob_from_slice raw = Ok blob) (blobs (blob_data w)) parsed /\
     verify_blob_kzg_proof_batch parsed (commitments (blob_data w)) (proofs (blob_data w)) = Ok true).
Proof.
  intros (Hgen & Hor & Hblobs)%accepted_witness. split.
  - set (I (s : Guest) := g_oracle s = preimage_store w /\ exists rest, g_beacon g = g_beacon s ++ rest).
    apply (heard_always guest_handler I); [|by split; [|exists []; rewrite app_nil_r]].
    intros X c s HI. pose proof HI as [Ho [rest Hrest]].
    assert (Hlook : forall key value, get (g_oracle s) key = Ok value ->
      preimage_store w !! key = Some value /\ genuine key value).
    { intros key value Hv%with_context_Ok. rewrite Ho in Hv. by split; [|apply (Hgen key)]. }
    destruct c as [key|key len|ty data| |r hashes]; cbn; [by split; [apply Hlook|]|..|].
    + split; [|done]. intros value (v & Hv & E)%outcome_bind_Ok.
      destruct (Nat.eqb_spec (length v) len); [|done]. injection E as <-. by apply Hlook in Hv as [? ?].
    + done.
    + done.
    + destruct (get_and_validate_blobs hashes (g_beacon s)) as [st o] eqn:E. cbn. split.
      * intros bs ->. apply get_and_validate_spec in E as (taken & asked & Hst & _ & Hsub & HF).
        exists asked. split; [done|]. eapply Forall2_impl; [exact HF|]. intros h b Hin.
        apply (witnessed_served _ (g_beacon g)); [done|]. rewrite Hrest, Hst, !elem_of_app. auto.
      * split; [done|]. cbn. destruct (get_and_validate_prefix hashes (g_beacon s)) as [taken Ht].
        rewrite E in Ht. exists (taken ++ rest). by rewrite Hrest, Ht, app_assoc.
  - apply blob_store_from_Ok in Hblobs as (parsed & Hp & _ & [(-> & _)|Hv]); [left|eauto].
    by apply Forall2_nil_inv_r in Hp.
Qed.
End laws.

(** ** Completeness *)

Section replay.
Context {HO : HashOrder} `{WitnessCrypto, Online}.

(** A recorded blob, with its commitment and proof. *)
Definition recorded (b : Z * Z * Z) : Prop := exists blob, get_blob_data blob = Ok b.

(** What the host relies on: the bytes of a blob stay the same, proofs it has
    computed verify, a read into a buffer fills it, and a blob provider returns
    the blobs of the hashes it was asked for. *)
Class Faithful := {
  from_slice_id : forall blob parsed, blob_from_slice blob = Ok parsed -> parsed = blob;
  batch_verifies : forall bs, bs <> [] -> Forall recorded bs ->
    verify_blob_kzg_proof_batch bs.*1.*1 bs.*1.*2 bs.*2 = Ok true;
  exact_fills : forall key len n n' buf, net_get_exact key len n = (n', Ok buf) -> length buf = len;
  blobs_of_hashes : forall r hashes n n' bs, net_blobs r hashes n = (n', Ok bs) ->
    Forall2 (fun hash blob => exists c, compute_commitment blob = Ok c /\ kzg_to_versioned_hash c = hash)
      hashes bs;
}.
Context `{!Faithful}.

Lemma get_blob_data_Ok blob b :
  get_blob_data blob = Ok b -> b.1.1 = blob /\ compute_commitment blob = Ok b.1.2 /\ blob_from_slice blob = Ok blob.
Proof.
  unfold get_blob_data.
  intros (c & Hc%expect_Ok & (pf & Hp%expect_Ok & (raw & Hr%expect_Ok & [= <-])%outcome_bind_Ok)%outcome_bind_Ok)%outcome_bind_Ok.
  cbn. pose proof (from_slice_id _ _ Hr) as ->. by split_and!.
Qed.

(** The store of blobs after some more were recorded. *)
Definition extended (d : BlobData) (bs : list (Z * Z * Z)) : BlobData :=
  {| blobs := blobs d ++ bs.*1.*1; commitments := commitments d ++ bs.*1.*2; proofs := proofs d ++ bs.*2 |}.

Lemma extended_nil d : extended d [] = d.
Proof. unfold extended. cbn. rewrite !app_nil_r. by destruct d. Qed.

Lemma extended_app d bs bs' : extended (extended d bs) bs' = extended d (bs ++ bs').
Proof. unfold extended. cbn. by rewrite !fmap_app, !app_assoc. Qed.

Lemma record_blobs_spec served d :
  exists bs, (record_blobs served d).1 = extended d bs /\ Forall recorded bs /\
    forall u, (record_blobs served d).2 = Ok u -> Forall2 (fun blob b => get_blob_data blob = Ok b) served bs.
Proof.
  revert d. induction served as [|blob served IH]; intros d; cbn.
  - exists []. rewrite extended_nil. by split_and!.
  - destruct (get_blob_data blob) as [b|e|] eqn:E; cbn; [|by exists []; rewrite extended_nil..].
    destruct (IH (push_blob b d)) as (bs & -> & Hrec & Hok). exists (b :: bs). split_and!.
    + by change (push_blob b d) with (extended d [b]); rewrite extended_app.
    + constructor; [by exists blob|done].
    + intros u Hu. constructor; [done|]. by eapply Hok.
Qed.

(** ** What the host's store grows by *)

Definition grows (s s' : Host) : Prop :=
  preimage_witness_store s ⊆ preimage_witness_store s' /\
  (map_Forall genuine (preimage_witness_store s) -> map_Forall genuine (preimage_witness_store s')) /\
  exists bs, Forall recorded bs /\ store s' = extended (store s) bs.

#[local] Instance grows_preorder : PreOrder grows.
Proof.
  split; [intros s; split_and!; [done..|]; exists []; by rewrite extended_nil|].
  intros s1 s2 s3 (Hp1 & Hg1 & bs1 & Hb1 & Hs1) (Hp2 & Hg2 & bs2 & Hb2 & Hs2). split_and!; [by etrans|auto|].
  exists (bs1 ++ bs2). split; [by apply Forall_app|]. by rewrite Hs2, Hs1, extended_app.
Qed.

Lemma grows_same s s' :
  preimage_witness_store s' = preimage_witness_store s -> store s' = store s -> grows s s'.
Proof. intros Hp Hs. unfold grows. rewrite Hp, Hs. split_and!; [done..|]. exists []. by rewrite extended_nil. Qed.

Lemma on_net_spec {A} (f : M Net A) s s' o :
  on_net f s = (s', o) -> preimage_witness_store s' = preimage_witness_store s /\ store s' = store s /\
    exists n', f (net s) = (n', o).
Proof. unfold on_net. destruct (f (net s)) as [n' o']. intros [= <- <-]. eauto. Qed.

Lemma on_net_grows {A} (f : M Net A) s : grows s (on_net f s).1.
Proof.
  destruct (on_net f s) as [s' o] eqn:E. apply on_net_spec in E as (? & ? & _). by apply grows_same.
Qed.

Lemma save_grows key value s : grows s (save key value s).1.
Proof.
  unfold save. pose proof (save_preimage_grows key value (preimage_witness_store s)) as [Hp Hg].
  destruct (save_preimage key value (preimage_witness_store s)) as [m o]. cbn in *.
  split_and!; [done..|]. exists []. by rewrite extended_nil.
Qed.

Lemma on_store_grows served s : grows s (on_store (record_blobs served) s).1.
Proof.
  unfold on_store. destruct (record_blobs_spec served (store s)) as (bs & Hd & Hrec & _).
  destruct (record_blobs served (store s)) as [d o]. cbn in *. split_and!; [done..|]. by exists bs.
Qed.

(** A sequence grows the store by what its parts add. *)
Lemma grows_bind {A B} (m : M Host A) (f : A -> M Host B) s :
  grows s (m s).1 -> (forall a s, grows s (f a s).1) -> grows s ((m ≫= f) s).1.
Proof.
  intros Hm Hf. unfold mbind, M_bind. destruct (m s) as [s1 [a|e|]]; cbn in *; [|done..].
  etrans; [exact Hm|apply Hf].
Qed.

Lemma host_grows X (c : call X) s : grows s (host_handler X c s).1.
Proof.
  destruct c as [key|key len|ty data| |r hashes]; cbn -[on_net]; try apply on_net_grows.
  all: apply grows_bind; [apply on_net_grows|intros v s1].
  all: apply grows_bind; [apply save_grows || apply on_store_grows|by intros [] s2].
Qed.
(** ** The guest on the witness of a host that ends in [F] *)

Definition versioned (d : BlobData) : list (Z * Z) := zip (kzg_to_versioned_hash <$> commitments d) (blobs d).

Definition tracks (F s : Host) (g : Guest) : Prop :=
  g_oracle g = preimage_witness_store F /\
  length (commitments (store s)) = length (blobs (store s)) /\
  g_beacon g = reverse (drop (length (blobs (store s))) (versioned (store F))).

Lemma serve_all hashes bs rest :
  length hashes = length bs ->
  get_and_validate_blobs hashes (reverse (zip hashes bs ++ rest)) = (reverse rest, Ok bs).
Proof.
  revert bs. induction hashes as [|h hashes IH]; intros [|b bs] Hlen; try done.
  cbn [get_and_validate_blobs]. cbn [zip zip_with app]. rewrite reverse_cons, last_snoc, removelast_last.
  rewrite IH by (cbn in Hlen; lia). cbn. by rewrite Z.eqb_refl.
Qed.

Definition hashed (bs : list (Z * Z * Z)) : list (Z * Z) :=
  zip (kzg_to_versioned_hash <$> bs.*1.*2) bs.*1.*1.

Lemma versioned_extended d bs :
  length (commitments d) = length (blobs d) ->
  drop (length (blobs d)) (versioned (extended d bs)) = hashed bs.
Proof.
  intros Hlen. unfold versioned, hashed, extended. cbn. rewrite fmap_app, zip_with_app by (by rewrite length_fmap).
  rewrite drop_app_length'; [done|]. rewrite length_zip_with, length_fmap. lia.
Qed.

Lemma hashed_app bs bs' : hashed (bs ++ bs') = hashed bs ++ hashed bs'.
Proof.
  unfold hashed. rewrite !fmap_app, zip_with_app; [done|]. by rewrite !length_fmap.
Qed.

(** The recorded data of blobs that were served for [hashes]. *)
Lemma recorded_for hashes served bs :
  Forall2 (fun hash blob => exists c, compute_commitment blob = Ok c /\ kzg_to_versioned_hash c = hash)
    hashes served ->
  Forall2 (fun blob b => get_blob_data blob = Ok b) served bs ->
  length hashes = length served /\ hashed bs = zip hashes served.
Proof.
  intros Hh. revert bs. induction Hh as [|hash blob hashes served (c & Hc & <-) Hh IH];
    intros bs Hb.
  - by apply Forall2_nil_inv_l in Hb as ->.
  - apply Forall2_cons_inv_l in Hb as (b & bs' & (Hb1 & Hb2 & _)%get_blob_data_Ok & Hb' & ->).
    destruct (IH _ Hb') as [Hlen Hz]. split; [cbn; lia|]. unfold hashed in *. cbn. rewrite Hz.
    rewrite Hc in Hb2. injection Hb2 as ->. by rewrite Hb1.
Qed.

Lemma save_Ok key value s s' u F :
  save key value s = (s', Ok u) -> grows s' F ->
  preimage_witness_store F !! key = Some value /\ store s' = store s.
Proof.
  unfold save. destruct (save_preimage key value (preimage_witness_store s)) as [m o] eqn:E.
  intros [= <- ->] [Hsub _]. apply save_preimage_Ok in E as (_ & -> & _). split; [|done].
  eapply lookup_weaken; [|exact Hsub]. apply lookup_insert_eq.
Qed.

Lemma tracks_same F s s' g : tracks F s g -> store s' = store s -> tracks F s' g.
Proof. unfold tracks. by intros Ht ->. Qed.

Lemma blobs_answered F s g s' r hashes bs :
  tracks F s g -> online_blobs r hashes s = (s', Ok bs) -> grows s' F ->
  exists g', guest_handler _ (Blobs r hashes) g = (g', Ok bs) /\ tracks F s' g'.
Proof.
  intros (Ho & Hlen & Hb) Hr HF.
  apply M_bind_Ok in Hr as (s1 & v & (_ & Hs & n' & Hn)%on_net_spec & Hr).
  apply M_bind_Ok in Hr as (s2 & u & Hrec & [= <- <-]).
  unfold on_store in Hrec. destruct (record_blobs v (store s1)) as [d o] eqn:E.
  injection Hrec as <- ->. destruct (record_blobs_spec v (store s1)) as (new & Hd & _ & Hnew).
  rewrite E in Hd, Hnew. cbn in Hd, Hnew. specialize (Hnew u eq_refl). rewrite Hs in Hd.
  destruct HF as (_ & _ & later & _ & HF). cbn in HF. rewrite Hd, extended_app in HF.
  destruct (recorded_for _ _ _ (blobs_of_hashes _ _ _ _ _ Hn) Hnew) as [Hlen' Hz].
  rewrite HF, versioned_extended, hashed_app, Hz in Hb by done.
  exists {| g_oracle := g_oracle g; g_beacon := reverse (hashed later) |}. split.
  - cbn. by rewrite Hb, serve_all.
  - split_and!; [done|cbn; rewrite Hd; cbn; rewrite !length_app, !length_fmap; lia|]. cbn.
    rewrite HF, Hd, <- extended_app, versioned_extended; [done|].
    cbn. rewrite !length_app, !length_fmap. lia.
Qed.

Lemma guest_follows F X (c : call X) s g s' x :
  tracks F s g -> host_handler X c s = (s', Ok x) -> grows s' F ->
  exists g', guest_handler X c g = (g', Ok x) /\ tracks F s' g'.
Proof.
  intros Ht Hh HF. destruct c as [key|key len|ty data| |r hashes]; cbn -[on_net] in Hh.
  - apply M_bind_Ok in Hh as (s1 & v & (_ & Hs & _)%on_net_spec & Hh).
    apply M_bind_Ok in Hh as (s2 & u & Hsave & [= <- <-]).
    destruct (save_Ok _ _ _ _ _ _ Hsave HF) as [Hv Hs2]. exists g. split.
    + cbn. unfold get. by rewrite (proj1 Ht), Hv.
    + eapply tracks_same; [exact Ht|congruence].
  - apply M_bind_Ok in Hh as (s1 & v & (_ & Hs & n' & Hn)%on_net_spec & Hh).
    apply M_bind_Ok in Hh as (s2 & u & Hsave & [= <- <-]).
    destruct (save_Ok _ _ _ _ _ _ Hsave HF) as [Hv Hs2]. exists g. split.
    + cbn. unfold get_exact, get. rewrite (proj1 Ht), Hv. cbn.
      by rewrite (exact_fills _ _ _ _ _ Hn), Nat.eqb_refl.
    + eapply tracks_same; [exact Ht|congruence].
  - apply on_net_spec in Hh as (_ & Hs & _). destruct x. exists g. split; [done|]. by eapply tracks_same.
  - apply on_net_spec in Hh as (_ & Hs & _). destruct x. exists g. split; [done|]. by eapply tracks_same.
  - by eapply blobs_answered.
Qed.

Lemma recorded_parse bs :
  Forall recorded bs -> map_outcome blob_from_slice bs.*1.*1 = Ok bs.*1.*1.
Proof.
  intros Hrec. apply map_outcome_Ok.
  induction Hrec as [|b bs [blob (Hb & _ & Hp)%get_blob_data_Ok] Hrec IH]; constructor; [|done].
  by rewrite Hb.
Qed.

Lemma recorded_accepted bs :
  Forall recorded bs ->
  blob_store_from {| blobs := bs.*1.*1; commitments := bs.*1.*2; proofs := bs.*2 |} =
  Ok (reverse (hashed bs)).
Proof.
  intros Hrec. unfold blob_store_from. cbn [blobs commitments proofs]. rewrite recorded_parse by done.
  cbn [expect mbind outcome_bind]. destruct bs as [|b bs]; [done|].
  rewrite bool_decide_eq_false_2 by done. cbn [andb negb].
  by rewrite batch_verifies.
Qed.

(** The witness of a finished host is accepted. *)
Lemma witness_accepted n s :
  grows (host_start n) s ->
  exists g, get_oracle_and_blob_provider (witness_of s) = Ok g /\ tracks s (host_start n) g.
Proof.
  intros (_ & Hgen & bs & Hrec & Hs). cbn in Hs.
  assert (Hchk : check_preimages (preimage_witness_store s) = Ok tt).
  { apply check_preimages_Ok, Hgen. apply map_Forall_empty. }
  eexists. split.
  - unfold get_oracle_and_blob_provider. cbn [preimage_store blob_data witness_of from_parts].
    rewrite Hchk, Hs. unfold extended. cbn [expect mbind outcome_bind store host_start blobs commitments proofs app].
    rewrite (recorded_accepted bs Hrec). done.
  - split_and!; [done..|]. cbn. by rewrite Hs.
Qed.

(** Once the host has run some code to its end over its connection, with no
    call refused, the guest accepts the witness it recorded and the same code
    ends in the same value on it, using up all the blobs. *)
Theorem witness_replays n s {A} (p : client A) a :
  heard host_handler flawless p (host_start n) ->
  perform host_handler p (host_start n) = (s, Ok a) ->
  exists g g', get_oracle_and_blob_provider (witness_of s) = Ok g /\
    perform guest_handler p g = (g', Ok a) /\ g_beacon g' = [].
Proof.
  intros Hheard Hp.
  assert (Hg : grows (host_start n) s).
  { pose proof (perform_keeps host_handler grows p (host_start n) host_grows) as Hg. by rewrite Hp in Hg. }
  destruct (witness_accepted n s Hg) as (g & Hacc & Ht).
  destruct (perform_replays host_handler guest_handler grows tracks host_grows guest_follows
    s p (host_start n) g s a Ht Hheard Hp ltac:(reflexivity)) as (g' & Hp' & (_ & Hlen & Hb)).
  exists g, g'. split_and!; [done..|]. rewrite Hb. unfold versioned.
  rewrite drop_ge; [done|]. rewrite length_zip_with, length_fmap. lia.
Qed.
End replay.

(** ** A sample run *)

#[local] Existing Instances sample_crypto sample_online.

Lemma sample_faithful : @Faithful sample_crypto sample_online.
Proof.
  split.
  - by intros blob parsed [= <-].
  - intros bs _ Hrec. cbn.
    assert (Hall : bs.*1.*2 = (fun b => b + 1) <$> bs.*1.*1 /\ bs.*2 = (fun b => b + 2) <$> bs.*1.*1).
    { induction Hrec as [|b bs [blob [= <-]] _ [IH1 IH2]]; [done|]. cbn. by rewrite <- IH1, <- IH2. }
    destruct Hall as [Hc Hp]. by rewrite !bool_decide_eq_true_2.
  - intros key len n n' buf. cbn. destruct (key =? 41); [|done]. cbn.
    destruct (Nat.eqb_spec len 128) as [->|]; [|done]. by intros [= _ <-].
  - intros r hashes n n' bs [= _ <-]. apply Forall2_fmap_r, Forall_Forall2_diag, Forall_true.
    intros hash. exists (hash - 101 + 1). cbn. split; [done|lia].
Qed.

(** It reads a value, the output root and two blobs. *)
Definition sample_client : client Z :=
  v ← trigger (Get 33);
  out ← trigger (GetExact 41 128);
  bs ← trigger (Blobs 0 [150; 160]);
  mret (from_be v + from_be out + foldr Z.add 0 bs).

Lemma witness_replays_witness :
  let s := (perform host_handler sample_client (host_start tt)).1 in
  exists g g', get_oracle_and_blob_provider (witness_of s) = Ok g /\
    perform guest_handler sample_client g = (g', Ok 117) /\ g_beacon g' = [].
Proof.
  intros s. apply (@witness_replays _ _ _ sample_faithful tt s Z sample_client 117).
  - split_and!; try (intros e; vm_compute; discriminate). done.
  - vm_compute. reflexivity.
Defined.

Lemma guest_answers_genuine_witness :
  let w := witness_of (perform host_handler sample_client (host_start tt)).1 in
  exists g, get_oracle_and_blob_provider w = Ok g /\ heard guest_handler (genuine_answer w) sample_client g.
Proof.
  intros w. set (g := match get_oracle_and_blob_provider w with Ok g => g | _ => {| g_oracle := ∅; g_beacon := [] |} end).
  exists g. assert (Hg : get_oracle_and_blob_provider w = Ok g) by (vm_compute; reflexivity).
  split; [exact Hg|]. apply (guest_answers_genuine w g sample_client Hg).
Defined.
