(* ===== verification/AltDA.v ===== *)
(** * Batches behind commitments

    [utils/altda/client/src/data_source.rs] and [hint.rs], the data source of
    an AltDA chain: batcher data that is a commitment is replaced by the batch
    the oracle has for it; and [utils/altda/host/src/handler.rs], which fetches
    that batch on the host.

    The L1 data source it wraps is a parameter ([EthereumSource]). *)

From S2P Require Import Prelude.
From S2P Require Import Oracle.
From S2P Require Import WitnessStore.

Definition ALTDA_DERIVATION_VERSION : Z := 1.
Definition KECCAK256_COMMITMENT_TYPE : Z := 0.
Definition GENERIC_COMMITMENT_TYPE : Z := 1.
Definition DEFAULT_MAX_INPUT_SIZE : Z := 130672.

(** [AltDAHintType], as its [Display] prints it. *)
Definition AltDACommitment : string := "altda-commitment".

(** The errors of a derivation pipeline, those the source names. *)
Inductive PipelineError := Eof | NotEnoughData | Provider (message : string) | OtherError (code : Z).
Inductive PipelineErrorKind :=
| Temporary (e : PipelineError)
| Critical (e : PipelineError)
| Reset (code : Z).

#[global] Instance PipelineError_eq_dec : EqDecision PipelineError.
Proof. solve_decision. Defined.
#[global] Instance PipelineErrorKind_eq_dec : EqDecision PipelineErrorKind.
Proof. solve_decision. Defined.

Notation PipelineResult A := (A + PipelineErrorKind)%type.

(** [EthereumDataSource]: the next batcher data of an L1 block. *)
Class EthereumSource := {
  EthereumDataSource : Type;
  eth_next : EthereumDataSource -> Z -> Z -> client (EthereumDataSource * PipelineResult bytes);
  eth_clear : EthereumDataSource -> EthereumDataSource;
}.

Record PendingCommitment := {
  encoded : bytes;
  commitment_type : Z;
  commitment_data : bytes;
}.

Section source.
Context `{WitnessCrypto, EthereumSource}.

Record AltDADataSource := {
  ethereum_source : EthereumDataSource;
  max_input_size : Z;
  pending_commitment : option PendingCommitment;
}.

Definition with_source (e : EthereumDataSource) (s : AltDADataSource) : AltDADataSource :=
  {| ethereum_source := e; max_input_size := max_input_size s; pending_commitment := pending_commitment s |}.
Definition with_pending (c : option PendingCommitment) (s : AltDADataSource) : AltDADataSource :=
  {| ethereum_source := ethereum_source s; max_input_size := max_input_size s; pending_commitment := c |}.

(** [alt_da_config] is the optional limit of the optional AltDA configuration. *)
Definition new_source (source : EthereumDataSource) (alt_da_config : option (option Z)) : outcome AltDADataSource :=
  let max_input_size := default DEFAULT_MAX_INPUT_SIZE (mjoin alt_da_config) in
  _ ← ensure (0 <? max_input_size) "AltDA da_max_input_size must be greater than zero";
  Ok {| ethereum_source := source; max_input_size := max_input_size; pending_commitment := None |}.

Definition clear (s : AltDADataSource) : AltDADataSource :=
  with_pending None (with_source (eth_clear (ethereum_source s)) s).

(** What batcher data is: data of another version, which passes through, a
    commitment, or something to skip. *)
Inductive Batcher :=
| PassThrough
| Skip
| Commitment (c : PendingCommitment).

Definition classify (data : bytes) : Batcher :=
  match data with
  | [] => Skip
  | version :: commitment_bytes =>
      if negb (version =? ALTDA_DERIVATION_VERSION) then PassThrough
      else
        match commitment_bytes with
        | [] => Skip
        | ty :: commitment_data =>
            let c := {| encoded := commitment_bytes; commitment_type := ty;
                        commitment_data := commitment_data |} in
            if ty =? KECCAK256_COMMITMENT_TYPE then
              if negb (length commitment_data =? 32)%nat then Skip else Commitment c
            else if ty =? GENERIC_COMMITMENT_TYPE then
              if bool_decide (commitment_data = []) then Skip else Commitment c
            else Skip
        end
  end.

(** The error [e] of the oracle, as a [Provider] error. *)
Definition provider_error (e : string) : PipelineErrorKind := Temporary (Provider e).

Definition resolve_keccak256_commitment (commitment : PendingCommitment) : client (PipelineResult bytes) :=
  match hash_of_slice (commitment_data commitment) with
  | None => mret (inr (Critical (Provider "keccak256 commitment must be 32 bytes")))
  | Some commitment_hash =>
      sent ← attempt_ (trigger (Write AltDACommitment (encoded commitment)));
      match sent with
      | inr e => mret (inr (provider_error e))
      | inl _ =>
          read ← attempt_ (trigger (Get (new_keccak256 commitment_hash)));
          match read with
          | inr e => mret (inr (provider_error e))
          | inl resolved_data =>
              if negb (keccak256 resolved_data =? commitment_hash) then
                mret (inr (Critical (Provider "AltDA input does not match Keccak256 commitment")))
              else mret (inl resolved_data)
          end
      end
  end.

(** The second half of [next]: the pending commitment. *)
Definition resolve_pending (s : AltDADataSource) (commitment : PendingCommitment)
    : client (AltDADataSource * PipelineResult bytes) :=
  if commitment_type commitment =? KECCAK256_COMMITMENT_TYPE then
    result ← resolve_keccak256_commitment commitment;
    match result with
    | inl data =>
        let s := with_pending None s in
        if max_input_size s <? Z.of_nat (length data)
        then mret (s, inr (Temporary NotEnoughData))
        else mret (s, inl data)
    | inr (Temporary e) => mret (s, inr (Temporary e))
    | inr e => mret (with_pending None s, inr e)
    end
  else mret (with_pending None s, inr (Temporary NotEnoughData)).

Definition next (s : AltDADataSource) (block_ref batcher_addr : Z)
    : client (AltDADataSource * PipelineResult bytes) :=
  match pending_commitment s with
  | Some commitment => resolve_pending s commitment
  | None =>
      fetched ← eth_next (ethereum_source s) block_ref batcher_addr;
      let s := with_source fetched.1 s in
      match fetched.2 with
      | inr e => mret (if bool_decide (e = Temporary Eof) then clear s else s, inr e)
      | inl data =>
          match classify data with
          | Skip => mret (s, inr (Temporary NotEnoughData))
          | PassThrough => mret (s, inl data)
          | Commitment commitment => resolve_pending (with_pending (Some commitment) s) commitment
          end
      end
  end.

(** ** The host *)

(** The DA server is asked by [GET {url}/get/0x{hex(encoded)}]; [http_get]
    stands for the request, the check of its status and its body. What is
    fetched is stored under the key the client reads. *)
Definition fetch_altda_commitment (http_get : bytes -> outcome bytes) (encoded_commitment : bytes)
    : M PreimageStore unit := fun kv =>
  match encoded_commitment with
  | [] => (kv, Err "AltDA commitment hint data is empty")
  | ty :: commitment_data =>
      if ty =? KECCAK256_COMMITMENT_TYPE then
        if negb (length commitment_data =? 32)%nat
        then (kv, Err "Keccak256 commitment must be 32 bytes")
        else
          match hash_of_slice commitment_data with
          | None => (kv, Panic)
          | Some commitment_hash =>
              match http_get encoded_commitment with
              | Ok batch_data => (<[new_keccak256 commitment_hash := batch_data]> kv, Ok tt)
              | Err e => (kv, Err e)
              | Panic => (kv, Panic)
              end
          end
      else if ty =? GENERIC_COMMITMENT_TYPE
      then (kv, Err "Generic AltDA commitments are not supported")
      else (kv, Err "Unknown AltDA commitment type")
  end.

(** ** Derivation over many calls *)

Context {W : Type} (h : Handler W).

(** The data a call takes from L1, and the data it delivers. *)
Definition item_read (s : AltDADataSource) (block_ref batcher_addr : Z) (w : W) : list bytes :=
  match pending_commitment s with
  | Some _ => []
  | None =>
      match perform h (eth_next (ethereum_source s) block_ref batcher_addr) w with
      | (_, Ok (_, inl data)) => [data]
      | _ => []
      end
  end.

Definition delivered (r : PipelineResult bytes) : list bytes :=
  match r with inl data => [data] | inr _ => [] end.

(** Calls of [next], none of which fails for good: the data taken from L1 and
    the data delivered, in order. *)
Inductive calls : AltDADataSource -> W -> list bytes -> list bytes -> AltDADataSource -> W -> Prop :=
| calls_done s w : calls s w [] [] s w
| calls_next s w block_ref batcher_addr s1 w1 r items outs s2 w2 :
    perform h (next s block_ref batcher_addr) w = (w1, Ok (s1, r)) ->
    (forall e, r <> inr (Critical e)) ->
    calls s1 w1 items outs s2 w2 ->
    calls s w (item_read s block_ref batcher_addr w ++ items) (delivered r ++ outs) s2 w2.

(** What becomes of one piece of batcher data. *)
Definition settles (limit : Z) (item : bytes) (out : option bytes) : Prop :=
  match classify item with
  | PassThrough => out = Some item
  | Skip => out = None
  | Commitment c =>
      if commitment_type c =? KECCAK256_COMMITMENT_TYPE then
        exists data, hash_of_slice (commitment_data c) = Some (keccak256 data) /\
          out = if Z.of_nat (length data) <=? limit then Some data else None
      else out = None
  end.

(** The data waiting for its commitment to be resolved. *)
Definition waiting (s : AltDADataSource) (l : list bytes) : Prop :=
  match pending_commitment s with
  | None => l = []
  | Some c => exists item, l = [item] /\ classify item = Commitment c
  end.

(** One call settles at most one piece of data. *)
Definition accounts (limit : Z) (l items outs l' : list bytes) : Prop :=
  exists settled, l ++ items = settled.*1 ++ l' /\ outs = omap snd settled /\
    Forall (fun p => settles limit p.1 p.2) settled.

Lemma accounts_one limit item out : settles limit item out ->
  accounts limit [item] [] (option_list out) [].
Proof. intros Hs. exists [(item, out)]. split_and!; [done|by destruct out|by apply Forall_singleton]. Qed.

Lemma resolve_keccak_cases c w w1 r :
  perform h (resolve_keccak256_commitment c) w = (w1, Ok r) ->
  match r with
  | inl data => hash_of_slice (commitment_data c) = Some (keccak256 data)
  | inr (Reset _) => False
  | _ => True
  end.
Proof.
  unfold resolve_keccak256_commitment. destruct (hash_of_slice (commitment_data c)) as [hash|]; [|by intros [= _ <-]].
  intros (w2 & [u|e] & _ & Hr)%perform_bind_Ok; [|by injection Hr as _ <-].
  apply perform_bind_Ok in Hr as (w3 & [data|e] & _ & Hr); [|by injection Hr as _ <-].
  destruct (Z.eqb_spec (keccak256 data) hash) as [<-|]; by injection Hr as _ <-.
Qed.

Lemma resolve_pending_accounts s c item w w1 s1 r :
  pending_commitment s = Some c -> classify item = Commitment c ->
  perform h (resolve_pending s c) w = (w1, Ok (s1, r)) -> (forall e, r <> inr (Critical e)) ->
  max_input_size s1 = max_input_size s /\
  exists l', waiting s1 l' /\ accounts (max_input_size s) [item] [] (delivered r) l'.
Proof.
  intros Hp Hc Hr Hcrit. unfold resolve_pending in Hr.
  assert (Hsettle : forall out, settles (max_input_size s) item out ->
    exists l', waiting (with_pending None s) l' /\ accounts (max_input_size s) [item] [] (option_list out) l').
  { intros out Hs. exists []. split; [done|]. by apply accounts_one. }
  unfold settles in Hsettle. rewrite Hc in Hsettle.
  destruct (commitment_type c =? KECCAK256_COMMITMENT_TYPE).
  - apply perform_bind_Ok in Hr as (w2 & res & Hres%resolve_keccak_cases & Hr).
    destruct res as [data|[e|e|e]]; [| |by injection Hr as _ <- <-; destruct (Hcrit e)|done].
    + destruct (Z.ltb_spec (max_input_size (with_pending None s)) (Z.of_nat (length data))) as [Hlt|Hge];
        cbn in *; injection Hr as _ <- <-; (split; [done|]).
      * apply (Hsettle None). exists data. split; [done|]. by rewrite (proj2 (Z.leb_gt _ _)).
      * apply (Hsettle (Some data)). exists data. split; [done|]. by rewrite (proj2 (Z.leb_le _ _)).
    + injection Hr as _ <- <-. split; [done|]. exists [item]. split; [unfold waiting; rewrite Hp; eauto|].
      by exists [].
  - injection Hr as _ <- <-. split; [done|]. by apply (Hsettle None).
Qed.

Lemma next_accounts s l block_ref batcher_addr w w1 s1 r :
  waiting s l -> perform h (next s block_ref batcher_addr) w = (w1, Ok (s1, r)) ->
  (forall e, r <> inr (Critical e)) ->
  max_input_size s1 = max_input_size s /\
  exists l', waiting s1 l' /\
    accounts (max_input_size s) l (item_read s block_ref batcher_addr w) (delivered r) l'.
Proof.
  unfold waiting at 1, next, item_read. destruct (pending_commitment s) as [c|] eqn:Hp.
  - intros (item & -> & Hc) Hr Hcrit. by eapply resolve_pending_accounts.
  - intros -> (w2 & [e [data|err]] & He & Hr)%perform_bind_Ok Hcrit; rewrite He.
    + cbn [fst snd] in Hr. destruct (classify data) as [| |c] eqn:Hc.
      * injection Hr as _ <- <-. split; [done|]. exists []. split; [unfold waiting; cbn; by rewrite Hp|].
        apply (accounts_one _ _ (Some data)). unfold settles. by rewrite Hc.
      * injection Hr as _ <- <-. split; [done|]. exists []. split; [unfold waiting; cbn; by rewrite Hp|].
        apply (accounts_one _ _ None). unfold settles. by rewrite Hc.
      * by apply (resolve_pending_accounts _ c data) in Hr.
    + cbn [fst snd] in Hr. destruct (bool_decide _); injection Hr as _ <- <-; (split; [done|]); exists [];
        (split; [unfold waiting; cbn; by rewrite ?Hp|by exists []]).
Qed.

(** C13: From a cleared source on, whatever the oracle answers and however often a
    call has to be retried, as long as no call fails for good: the batcher data
    taken from L1 are settled one by one in their order, each exactly once, the
    last one possibly still waiting. Data of another version are delivered
    unchanged; a commitment is delivered as data that hash to all its 32 bytes,
    or dropped if these exceed the limit; malformed and generic commitments are
    dropped. *)
Theorem altda_settles_in_order s w items outs s' w' :
  pending_commitment s = None -> calls s w items outs s' w' ->
  exists settled rest, items = settled.*1 ++ rest /\ outs = omap snd settled /\ waiting s' rest /\
    Forall (fun p => settles (max_input_size s) p.1 p.2) settled.
Proof.
  intros Hp Hcalls.
  enough (Hgen : forall l, waiting s l -> exists rest, waiting s' rest /\
    accounts (max_input_size s) l items outs rest).
  { destruct (Hgen []) as (rest & Hw & settled & He & Ho & Hs); [unfold waiting; by rewrite Hp|]. eauto 7. }
  clear Hp. induction Hcalls as [s w|s w b a s1 w1 r items outs s2 w2 Hn Hcrit _ IH]; intros l Hl.
  - exists l. split; [done|]. exists []. by rewrite app_nil_r.
  - destruct (next_accounts _ _ _ _ _ _ _ _ Hl Hn Hcrit) as (Hmax & l1 & Hl1 & set1 & He1 & Ho1 & Hs1).
    destruct (IH l1 Hl1) as (rest & Hrest & set2 & He2 & Ho2 & Hs2). exists rest. split; [done|].
    exists (set1 ++ set2). rewrite fmap_app, omap_app, app_assoc, He1, <- app_assoc, He2, app_assoc, Ho1, Ho2.
    split_and!; [done..|]. apply Forall_app. split; [done|]. by rewrite <- Hmax.
Qed.

(** The host stores the batch of a commitment the source sends under the key
    the source then reads. *)
Lemma hint_is_served http_get data c kv batch :
  classify data = Commitment c -> commitment_type c = KECCAK256_COMMITMENT_TYPE ->
  http_get (encoded c) = Ok batch ->
  exists hash, hash_of_slice (commitment_data c) = Some hash /\
    fetch_altda_commitment http_get (encoded c) kv = (<[new_keccak256 hash := batch]> kv, Ok tt).
Proof.
  unfold classify. destruct data as [|version [|ty rest]]; [done|by destruct (version =? _)|].
  destruct (version =? _); [|done]. cbn [negb]. destruct (Z.eqb_spec ty KECCAK256_COMMITMENT_TYPE) as [->|Hty].
  - destruct (length rest =? 32)%nat eqn:Hlen; [|done]. cbn [negb]. intros [= <-] _. cbn.
    unfold hash_of_slice. rewrite Hlen. cbn. intros ->. by exists (from_be rest).
  - destruct (ty =? GENERIC_COMMITMENT_TYPE); [|done]. case_bool_decide; [done|]. by intros [= <-].
Qed.
End source.

(** ** A sample source *)

#[local] Existing Instance sample_crypto.

(** Batcher data in a queue. *)
#[local] Instance sample_source : EthereumSource := {|
  EthereumDataSource := list bytes;
  eth_next s _ _ := match s with
                    | [] => mret ([], inr (Temporary Eof))
                    | data :: rest => mret (rest, inl data)
                    end;
  eth_clear _ := [];
|}.

(** Plain data, a commitment to [[42]], a generic commitment, a commitment to
    [[1; 1]], which is above the limit of one byte, and a commitment without a
    preimage. *)
Definition sample_commitment (hash : Z) : bytes := 1 :: 0 :: to_be 32 hash.
Definition sample_data : list bytes :=
  [[0; 7]; sample_commitment 42; [1; 1; 9]; sample_commitment 257; sample_commitment 3].
Definition sample_guest : Guest :=
  {| g_oracle := <[new_keccak256 42 := [42]]> (<[new_keccak256 257 := [1; 1]]> ∅); g_beacon := [] |}.
Definition sample_altda : AltDADataSource :=
  {| ethereum_source := sample_data; max_input_size := 1; pending_commitment := None |}.

(** Seven calls: the last two wait for the preimage. *)
Fixpoint call_times (n : nat) (s : AltDADataSource) : AltDADataSource * list (PipelineResult bytes) :=
  match n with
  | O => (s, [])
  | S n =>
      match (perform guest_handler (next s 0 0) sample_guest).2 with
      | Ok (s, r) => let '(s, rs) := call_times n s in (s, r :: rs)
      | _ => (s, [])
      end
  end.

Example sample_calls : (call_times 7 sample_altda).2 =
  let skipped := inr (Temporary NotEnoughData) in
  let missing := inr (Temporary (Provider "InvalidPreimageKey")) in
  [inl [0; 7]; inl [42]; skipped; skipped; missing; missing; missing].
Proof. vm_compute. reflexivity. Qed.

Lemma altda_settles_in_order_witness :
  exists s' settled, sample_data = settled.*1 ++ [sample_commitment 3] /\ omap snd settled = [[0; 7]; [42]] /\
    s' = (call_times 7 sample_altda).1 /\ Forall (fun p => settles 1 p.1 p.2) settled.
Proof.
  set (s' := (call_times 7 sample_altda).1).
  assert (Hcalls : calls guest_handler sample_altda sample_guest sample_data [[0; 7]; [42]] s' sample_guest).
  { refine (calls_next guest_handler _ _ 0 0 _ sample_guest (inl [0; 7]) (drop 1 sample_data) [[42]] _ _ _ _ _);
      [vm_compute; reflexivity|done|].
    refine (calls_next guest_handler _ _ 0 0 _ sample_guest (inl [42]) (drop 2 sample_data) [] _ _ _ _ _);
      [vm_compute; reflexivity|done|].
    refine (calls_next guest_handler _ _ 0 0 _ sample_guest (inr _) (drop 3 sample_data) [] _ _ _ _ _);
      [vm_compute; reflexivity|done|].
    refine (calls_next guest_handler _ _ 0 0 _ sample_guest (inr _) (drop 4 sample_data) [] _ _ _ _ _);
      [vm_compute; reflexivity|done|].
    do 3 (refine (calls_next guest_handler _ _ 0 0 _ sample_guest (inr _) [] [] _ _ _ _ _);
      [vm_compute; reflexivity|done|]). apply calls_done. }
  destruct (altda_settles_in_order guest_handler sample_altda sample_guest _ _ _ _ eq_refl Hcalls)
    as (settled & rest & Hi & Ho & Hw & Hs).
  assert (Hrest : rest = [sample_commitment 3]).
  { destruct Hw as (item & -> & _). change sample_data with ([[0; 7]; sample_commitment 42; [1; 1; 9]; sample_commitment 257] ++ [sample_commitment 3]) in Hi.
    by apply app_inj_2 in Hi as [_ <-]. }
  subst rest. exists s', settled. by split_and!.
Defined.
