(* ===== verification/RangeProgram.v ===== *)
(** * The range program and its witness

    The zkVM program that proves a range of L2 blocks
    ([programs/range/ethereum], [programs/range/altda],
    [programs/range/utils]), the code it shares with the generation of its
    witness ([utils/client/src/witness/executor.rs], [client.rs], [boot.rs]),
    and that generation ([utils/host/src/witness_generation/traits.rs]).

    The derivation of blocks is kona's: its pipeline and driver are a parameter
    ([Kona]) that asks the oracle whatever it likes. A [Pipeline] is built on a
    data source, given by its steps. *)

From S2P Require Import Prelude.
From S2P Require Import AggregationProgram.
From S2P Require Import Oracle.
From S2P Require Import WitnessStore.
From S2P Require Import WitnessLaws.
From S2P Require Import AltDA.

(** [kona_proof::BootInfo]; the two configurations are opaque. *)
Record BootInfo := {
  l1_head : Z;
  agreed_l2_output_root : Z;
  claimed_l2_output_root : Z;
  claimed_l2_block_number : Z;
  rollup_config : Z;
  l1_config : Z;
}.

Record CeloBootInfo := { op_boot_info : BootInfo; espresso : Z }.
(** [CeloRollupConfig::new] has no espresso configuration. *)
Record CeloRollupConfig := { op_rollup_config : Z; cfg_espresso : option Z }.
Definition celo_rollup_config_new (config : Z) : CeloRollupConfig :=
  {| op_rollup_config := config; cfg_espresso := None |}.

(** A [DataAvailabilityProvider]. *)
Record DataSource := {
  DaState : Type;
  da_start : DaState;
  da_next : DaState -> Z -> Z -> client (DaState * PipelineResult bytes);
  da_clear : DaState -> DaState;
}.

Class Kona := {
  L1Provider : Type;
  L2Provider : Type;
  Cursor : Type;
  Pipeline : Type;
  load_boot : client CeloBootInfo;
  StartingL2Output : string;
  oracle_l1_provider : Z -> L1Provider;
  oracle_l2_provider : Z -> Z -> L2Provider;
  header_by_hash : L2Provider -> Z -> client Header;
  new_oracle_pipeline_cursor : Z -> Header -> Z -> Z -> L1Provider -> L2Provider -> client Cursor;
  set_cursor : Cursor -> L2Provider -> L2Provider;
  to_oracle_l2_chain_provider : L2Provider -> L2Provider;
  oracle_pipeline : CeloRollupConfig -> Z -> Cursor -> DataSource -> L1Provider -> L2Provider -> client Pipeline;
  advance_to_target : Cursor -> L2Provider -> Pipeline -> Z -> option Z -> client (Z * Z);
  alt_da_config : Z -> option (option Z);
  rollup_config_json : Z -> outcome bytes;
}.

(** [WitnessExecutor::create_pipeline], by data availability. *)
Class WitnessExecutor `{Kona} :=
  create_pipeline : CeloRollupConfig -> Z -> Cursor -> L1Provider -> L2Provider -> client Pipeline.

Section program.
Context {HO : HashOrder} `{WitnessCrypto, Kona}.

(** [client.rs] *)
Definition fetch_safe_head_hash (agreed_l2_output_root : Z) : client Z :=
  _ ← trigger (Write StartingL2Output (to_be 32 agreed_l2_output_root));
  output_preimage ← trigger (GetExact (new_keccak256 agreed_l2_output_root) 128);
  Done (with_context "SliceConversion" (hash_of_slice (take 32 (drop 96 output_preimage)))).

Definition get_inputs_for_pipeline : client (BootInfo * Z * option (Cursor * L1Provider * L2Provider)) :=
  loaded ← attempt_ load_boot;
  match loaded with
  | inr e => Done (Err ("Failed to load boot info: " +:+ e))
  | inl celo_boot =>
      let boot := op_boot_info celo_boot in
      safe_head_hash ← fetch_safe_head_hash (agreed_l2_output_root boot);
      let l1_provider := oracle_l1_provider (l1_head boot) in
      let l2_provider := oracle_l2_provider safe_head_hash (rollup_config boot) in
      safe_head ← header_by_hash l2_provider safe_head_hash;
      if claimed_l2_block_number boot <? number safe_head then
        Done (Err "Claimed L2 block number is less than the safe head")
      else
        cursor ← new_oracle_pipeline_cursor (rollup_config boot) safe_head safe_head_hash
                   (agreed_l2_output_root boot) l1_provider l2_provider;
        mret (boot, espresso celo_boot, Some (cursor, l1_provider, set_cursor cursor l2_provider))
  end.

Definition ensure_derived_block_matches_claim (safe_head_number claimed_block_number : Z) : outcome unit :=
  if negb (safe_head_number =? claimed_block_number)
  then Err "Derived safe head L2 block does not match claimed L2 block number"
  else Ok tt.

(** [WitnessExecutor::run] *)
Definition executor_run (boot : BootInfo) (pipeline : Pipeline) (cursor : Cursor) (l2_provider : L2Provider)
    : client BootInfo :=
  derived ← advance_to_target cursor l2_provider pipeline (rollup_config boot)
              (Some (claimed_l2_block_number boot));
  let '(safe_head_number, output_root) := derived in
  if negb (output_root =? claimed_l2_output_root boot) then
    Done (Err "Failed to validate L2 block with claimed output root")
  else
    _ ← Done (ensure_derived_block_matches_claim safe_head_number (claimed_l2_block_number boot));
    mret boot.

Definition hash_rollup_config (config : CeloRollupConfig) : outcome Z :=
  serialized_config ← expect (rollup_config_json (op_rollup_config config));
  Ok (sha256 serialized_config).

(** [BootInfoStruct::from] *)
Definition boot_info_struct (boot_info : BootInfo) : outcome BootInfoStruct :=
  config_hash ← hash_rollup_config (celo_rollup_config_new (rollup_config boot_info));
  Ok {| l1Head := l1_head boot_info;
        l2PreRoot := agreed_l2_output_root boot_info;
        l2PostRoot := claimed_l2_output_root boot_info;
        l2BlockNumber := claimed_l2_block_number boot_info;
        rollupConfigHash := config_hash |}.

Context `{!WitnessExecutor}.

Definition with_espresso (e : Z) (config : Z) : CeloRollupConfig :=
  {| op_rollup_config := config; cfg_espresso := Some e |}.

(** [run_range_program]: what it commits. *)
Definition run_range_program : client BootInfoStruct :=
  inputs ← unwrapped get_inputs_for_pipeline;
  let '(boot_info, espresso, input) := inputs in
  boot_info ← (match input with
               | Some (cursor, l1_provider, l2_provider) =>
                   pipeline ← unwrapped (create_pipeline (with_espresso espresso (rollup_config boot_info))
                                (l1_config boot_info) cursor l1_provider l2_provider);
                   unwrapped (executor_run boot_info pipeline cursor (to_oracle_l2_chain_provider l2_provider))
               | None => mret boot_info
               end);
  Done (boot_info_struct boot_info).

(** [main] of the Ethereum and the AltDA program; [from_bytes] is rkyv's. *)
Definition range_main (from_bytes : bytes -> outcome DefaultWitnessData) (witness_rkyv_bytes : bytes)
    : outcome BootInfoStruct :=
  witness_data ← expect (from_bytes witness_rkyv_bytes);
  guest ← expect (get_oracle_and_blob_provider witness_data);
  (perform guest_handler run_range_program guest).2.

(** [WitnessGenerator::run]: the code it runs on the recording oracle, up to the
    boot information, and as a whole. *)
Definition derive_range : client BootInfo :=
  inputs ← get_inputs_for_pipeline;
  let '(boot_info, espresso, input) := inputs in
  match input with
  | Some (cursor, l1_provider, l2_provider) =>
      pipeline ← unwrapped (create_pipeline (with_espresso espresso (rollup_config boot_info))
                   (l1_config boot_info) cursor l1_provider l2_provider);
      executor_run boot_info pipeline cursor (to_oracle_l2_chain_provider l2_provider)
  | None => mret boot_info
  end.
Definition generation : client unit := _ ← derive_range; mret tt.

Definition generate_witness `{Online} (n : Net) : outcome DefaultWitnessData :=
  match perform host_handler generation (host_start n) with
  | (s, Ok _) => Ok (witness_of s)
  | (_, Err e) => Err e
  | (_, Panic) => Panic
  end.
End program.

(** ** Executors *)

(** The L1 data sources of kona ([EthereumDataSource]) and of celo-kona
    ([CeloEthereumDataSource]). *)
Class L1Sources `{Kona} := {
  l1_source :: EthereumSource;
  new_from_parts : L1Provider -> CeloRollupConfig -> EthereumDataSource;
  celo_new_from_parts : L1Provider -> CeloRollupConfig -> outcome DataSource;
}.

Section executors.
Context `{WitnessCrypto, L1Sources}.

Definition ETHDAWitnessExecutor : WitnessExecutor :=
  fun rollup_config l1_config cursor l1_provider l2_provider =>
  da_provider ← Done (map_err (fun e => "failed to build Celo Ethereum data source: " +:+ e)
                        (celo_new_from_parts l1_provider rollup_config));
  oracle_pipeline rollup_config l1_config cursor da_provider l1_provider l2_provider.

Definition AltDAWitnessExecutor : WitnessExecutor :=
  fun rollup_config l1_config cursor l1_provider l2_provider =>
  let ethereum_data_source := new_from_parts l1_provider rollup_config in
  da_provider ← Done (new_source ethereum_data_source (alt_da_config (op_rollup_config rollup_config)));
  oracle_pipeline rollup_config l1_config cursor
    {| DaState := AltDADataSource; da_start := da_provider; da_next := AltDA.next; da_clear := clear |}
    l1_provider l2_provider.
End executors.

(** ** What a claim of the program means *)

Section laws.
Context {HO : HashOrder} `{WitnessCrypto, !Kona, !WitnessExecutor}.

Lemma executor_run_Ok {W} (h : Handler W) boot pipeline cursor l2 s s' boot' :
  perform h (executor_run boot pipeline cursor l2) s = (s', Ok boot') ->
  boot' = boot /\
  perform h (advance_to_target cursor l2 pipeline (rollup_config boot) (Some (claimed_l2_block_number boot))) s
    = (s', Ok (claimed_l2_block_number boot, claimed_l2_output_root boot)).
Proof.
  intros (s1 & [num root] & Ha & Hr)%perform_bind_Ok.
  destruct (Z.eqb_spec root (claimed_l2_output_root boot)) as [->|]; [|done]. cbn [negb] in Hr.
  apply perform_bind_Ok in Hr as (s2 & u & He & [= <- <-]). injection He as <- He.
  unfold ensure_derived_block_matches_claim in He.
  destruct (Z.eqb_spec num (claimed_l2_block_number boot)) as [->|]; [|done]. done.
Qed.

(** The program commits what deriving the range ends with. *)
Lemma range_program_Ok {W} (h : Handler W) s s' claim :
  perform h run_range_program s = (s', Ok claim) <->
  exists boot, perform h derive_range s = (s', Ok boot) /\ boot_info_struct boot = Ok claim.
Proof.
  unfold run_range_program, derive_range. split.
  - intros (s1 & [[boot e] input] & Hi%unwrapped_Ok & Hr)%perform_bind_Ok.
    apply perform_bind_Ok in Hr as (s2 & boot' & Hb & [= <- Hc]). exists boot'. split; [|done].
    apply perform_bind_Ok. exists s1, (boot, e, input). split; [done|].
    destruct input as [[[cursor l1] l2]|]; [|done].
    apply perform_bind_Ok in Hb as (s3 & pipe & Hp & Hr%unwrapped_Ok).
    apply perform_bind_Ok. by exists s3, pipe.
  - intros (boot' & (s1 & [[boot e] input] & Hi & Hb)%perform_bind_Ok & Hc).
    apply perform_bind_Ok. exists s1, (boot, e, input). split; [by apply perform_unwrapped|].
    apply perform_bind_Ok. exists s', boot'. split; [|by cbn; rewrite Hc].
    destruct input as [[[cursor l1] l2]|]; [|done].
    apply perform_bind_Ok in Hb as (s3 & pipe & Hp & Hr).
    apply perform_bind_Ok. exists s3, pipe. split; [done|]. by apply perform_unwrapped.
Qed.

(** A later state of the guest: the same preimages, and some blobs used up. *)
Definition later (s s' : Guest) : Prop :=
  g_oracle s' = g_oracle s /\ exists taken, g_beacon s = g_beacon s' ++ taken.
#[local] Instance later_preorder : PreOrder later.
Proof.
  split; [intros s; split; [done|]; exists []; by rewrite app_nil_r|].
  intros s1 s2 s3 [Ho1 [l1 Hb1]] [Ho2 [l2 Hb2]]. split; [congruence|].
  exists (l2 ++ l1). by rewrite app_assoc, <- Hb2.
Qed.
Lemma guest_later X (c : call X) s : later s (guest_handler X c s).1.
Proof.
  destruct c as [key|key len|ty data| |r hashes]; try reflexivity. cbn.
  destruct (get_and_validate_prefix hashes (g_beacon s)) as [taken Ht].
  destruct (get_and_validate_blobs hashes (g_beacon s)) as [st o]. split; [done|]. by exists taken.
Qed.

Lemma later_perform {A} (p : client A) s s' o : perform guest_handler p s = (s', o) -> later s s'.
Proof.
  intros Hp. pose proof (perform_keeps guest_handler later p s guest_later) as Hl. by rewrite Hp in Hl.
Qed.

(** The guest reads the safe head's hash off the preimage of the root, and is left
    as it was. *)
Lemma guest_safe_head_hash root s s' hash :
  perform guest_handler (fetch_safe_head_hash root) s = (s', Ok hash) <->
  s' = s /\ exists preimage, g_oracle s !! new_keccak256 root = Some preimage /\
    length preimage = 128%nat /\ hash_of_slice (take 32 (drop 96 preimage)) = Some hash.
Proof.
  unfold fetch_safe_head_hash. rewrite perform_bind_Ok. split.
  - intros (s1 & u & [= <- _] & (s2 & preimage & Hp & [= <- Hh%with_context_Ok])%perform_bind_Ok).
    rewrite perform_trigger in Hp. cbn in Hp.
    injection Hp as <- (v & Hv%with_context_Ok & Hlen)%outcome_bind_Ok.
    destruct (Nat.eqb_spec (length v) 128); [|done]. injection Hlen as <-. eauto.
  - intros (-> & preimage & Hv & Hlen & Hh). exists s, tt. split; [done|].
    apply perform_bind_Ok. exists s, preimage. rewrite perform_trigger. cbn.
    unfold get_exact, get. rewrite Hv. cbn. rewrite Hlen. by rewrite Hh.
Qed.

(** What the range program is given: the boot information, and a cursor and the
    providers built from the header of the safe head the agreed root names. *)
Lemma guest_inputs_Ok s s' boot e input :
  perform guest_handler get_inputs_for_pipeline s = (s', Ok (boot, e, input)) <->
  exists s0 celo_boot preimage safe_head_hash safe_head cursor s1,
    let l1 := oracle_l1_provider (l1_head boot) in
    let l2 := oracle_l2_provider safe_head_hash (rollup_config boot) in
    perform guest_handler load_boot s = (s0, Ok celo_boot) /\
    boot = op_boot_info celo_boot /\ e = espresso celo_boot /\
    g_oracle s0 !! new_keccak256 (agreed_l2_output_root boot) = Some preimage /\
    length preimage = 128%nat /\ hash_of_slice (take 32 (drop 96 preimage)) = Some safe_head_hash /\
    perform guest_handler (header_by_hash l2 safe_head_hash) s0 = (s1, Ok safe_head) /\
    number safe_head <= claimed_l2_block_number boot /\
    perform guest_handler (new_oracle_pipeline_cursor (rollup_config boot) safe_head safe_head_hash
      (agreed_l2_output_root boot) l1 l2) s1 = (s', Ok cursor) /\
    input = Some (cursor, l1, set_cursor cursor l2).
Proof.
  unfold get_inputs_for_pipeline. rewrite perform_bind_Ok. split.
  - intros (s0 & [cb|er] & Hl & Hr); [|done]. rewrite perform_attempt in Hl.
    apply perform_bind_Ok in Hr as (s2 & hash & (-> & pre & Hp)%guest_safe_head_hash & Hr).
    apply perform_bind_Ok in Hr as (s3 & header & Hh & Hr).
    destruct (Z.ltb_spec (claimed_l2_block_number (op_boot_info cb)) (number header)); [done|].
    apply perform_bind_Ok in Hr as (s4 & cursor & Hc & [= <- <- <- <-]).
    exists s0, cb, pre, hash, header, cursor, s3. cbv zeta. unfold attempt in Hl.
    destruct (perform guest_handler load_boot s) as [? [?|?|]]; [|done..].
    injection Hl as <- <-. naive_solver.
  - intros (s0 & cb & pre & hash & header & cursor & s1 & Hl & -> & -> & Hp & Hlen & Hh & Hhead & Hle & Hc & ->).
    exists s0, (inl cb). split; [rewrite perform_attempt; unfold attempt; by rewrite Hl|].
    apply perform_bind_Ok. exists s0, hash. split; [apply guest_safe_head_hash; eauto|].
    apply perform_bind_Ok. exists s1, header. split; [done|].
    destruct (Z.ltb_spec (claimed_l2_block_number (op_boot_info cb)) (number header)); [lia|].
    apply perform_bind_Ok. by exists s', cursor.
Qed.

(** [w] is an accepted witness for [claim]: the run of the program over the preimages
    and blobs of [w] loads the boot information; its pre-state root has a
    preimage that names the safe head; the cursor is the one built from the
    header of this safe head, and the pipeline starts at that cursor; and it
    reached exactly the claimed block and root. The states are those of one run,
    each step starting where the one before it ended. *)
Definition derivation_of (w : DefaultWitnessData) (claim : BootInfoStruct) : Prop :=
  exists g celo_boot preimage safe_head_hash safe_head cursor pipeline s0 s1 s2 s3 s4 json,
    let boot := op_boot_info celo_boot in
    let l1 := oracle_l1_provider (l1_head boot) in
    let l2 := oracle_l2_provider safe_head_hash (rollup_config boot) in
    get_oracle_and_blob_provider w = Ok g /\ Forall (later g) [s0; s1; s2; s3; s4] /\
    perform guest_handler load_boot g = (s0, Ok celo_boot) /\
    preimage_store w !! new_keccak256 (agreed_l2_output_root boot) = Some preimage /\
    genuine (new_keccak256 (agreed_l2_output_root boot)) preimage /\ length preimage = 128%nat /\
    hash_of_slice (take 32 (drop 96 preimage)) = Some safe_head_hash /\
    perform guest_handler (header_by_hash l2 safe_head_hash) s0 = (s1, Ok safe_head) /\
    number safe_head <= claimed_l2_block_number boot /\
    perform guest_handler (new_oracle_pipeline_cursor (rollup_config boot) safe_head safe_head_hash
      (agreed_l2_output_root boot) l1 l2) s1 = (s2, Ok cursor) /\
    perform guest_handler (create_pipeline (with_espresso (espresso celo_boot) (rollup_config boot))
      (l1_config boot) cursor l1 (set_cursor cursor l2)) s2 = (s3, Ok pipeline) /\
    perform guest_handler (advance_to_target cursor (to_oracle_l2_chain_provider (set_cursor cursor l2))
      pipeline (rollup_config boot) (Some (claimed_l2_block_number boot))) s3
      = (s4, Ok (claimed_l2_block_number boot, claimed_l2_output_root boot)) /\
    rollup_config_json (rollup_config boot) = Ok json /\
    claim = {| l1Head := l1_head boot; l2PreRoot := agreed_l2_output_root boot;
               l2PostRoot := claimed_l2_output_root boot; l2BlockNumber := claimed_l2_block_number boot;
               rollupConfigHash := sha256 json |}.

Lemma range_main_derives from_bytes b claim :
  range_main from_bytes b = Ok claim -> exists w, from_bytes b = Ok w /\ derivation_of w claim.
Proof.
  intros (w & Hw%expect_Ok & (g & Hg%expect_Ok & Hrun)%outcome_bind_Ok)%outcome_bind_Ok.
  destruct (perform guest_handler run_range_program g) as [s4 o] eqn:E. cbn in Hrun. subst o.
  apply range_program_Ok in E as (boot' & (s2 & [[boot e] input] & Hi & Hr)%perform_bind_Ok & Hc).
  apply guest_inputs_Ok in Hi
    as (s0 & cb & pre & hash & header & cursor & s1 & Hl & -> & -> & Hp & Hlen & Hh & Hhead & Hle & Hcur & ->).
  apply perform_bind_Ok in Hr as (s3 & pipe & Hpipe%unwrapped_Ok & [-> Hadv]%executor_run_Ok).
  apply outcome_bind_Ok in Hc as (hc & (json & Hj%expect_Ok & [= <-])%outcome_bind_Ok & [= <-]).
  destruct (accepted_witness _ _ Hg) as (Hgen & Hor & _).
  pose proof (later_perform _ _ _ _ Hl) as Hs0. pose proof (later_perform _ _ _ _ Hhead) as Hs1.
  pose proof (later_perform _ _ _ _ Hcur) as Hs2. pose proof (later_perform _ _ _ _ Hpipe) as Hs3.
  pose proof (later_perform _ _ _ _ Hadv) as Hs4.
  assert (Hpre : preimage_store w !! new_keccak256 (agreed_l2_output_root (op_boot_info cb)) = Some pre)
    by (rewrite <- Hor, <- (proj1 Hs0); exact Hp).
  exists w. split; [done|].
  exists g, cb, pre, hash, header, cursor, pipe, s0, s1, s2, s3, s4, json. cbv zeta.
  split_and!; try done; [|by apply (Hgen _ pre)].
  assert (later g s1) by by etrans. assert (later g s2) by by etrans. assert (later g s3) by by etrans.
  assert (later g s4) by by etrans.
  repeat first [by apply Forall_nil | apply Forall_cons; split; [done|]].
Qed.

(** Such a derivation is also enough. *)
Lemma derivation_is_claimed from_bytes b w claim :
  from_bytes b = Ok w -> derivation_of w claim -> range_main from_bytes b = Ok claim.
Proof.
  intros Hw (g & cb & pre & hash & header & cursor & pipe & s0 & s1 & s2 & s3 & s4 & json & Hg & Hlater &
    Hl & Hp & _ & Hlen & Hh & Hhead & Hle & Hcur & Hpipe & Hadv & Hj & ->).
  unfold range_main. rewrite Hw. cbn [expect mbind outcome_bind]. rewrite Hg. cbn [expect mbind outcome_bind].
  enough (perform guest_handler run_range_program g = (s4, boot_info_struct (op_boot_info cb))) as ->.
  { cbn. unfold boot_info_struct, hash_rollup_config. cbn. by rewrite Hj. }
  destruct (boot_info_struct (op_boot_info cb)) as [c| |] eqn:Hc;
    [|unfold boot_info_struct, hash_rollup_config in Hc; cbn in Hc; by rewrite Hj in Hc..].
  apply range_program_Ok. exists (op_boot_info cb). split; [|done].
  destruct (accepted_witness _ _ Hg) as (_ & Hor & _). apply Forall_cons in Hlater as [[Hs0 _] _].
  apply perform_bind_Ok. eexists s2, (_, _, _). split.
  { apply guest_inputs_Ok. exists s0, cb, pre, hash, header, cursor, s1. cbv zeta.
    rewrite Hs0, Hor. by split_and!. }
  apply perform_bind_Ok. exists s3, pipe. split; [by apply perform_unwrapped|].
  unfold executor_run. apply perform_bind_Ok. eexists s4, (_, _). split; [exact Hadv|].
  cbn. unfold ensure_derived_block_matches_claim. by rewrite !Z.eqb_refl.
Qed.

(** C9: The whole program, exactly: it claims what an accepted witness derives, and
    nothing else. The bytes it is given decode to a witness that is accepted;
    the boot information is the one loaded over it; the agreed root has a
    preimage in it, 128 bytes that hash to the root and name the safe head; the
    safe head is not above the claimed block; the cursor is the one kona builds
    from the header, the hash and the root of this safe head; and the pipeline
    created at this cursor and advanced from it, over the preimages and the
    blobs of the witness, reached exactly the claimed block with exactly the
    claimed root. The claim names the L1 head, the roots and the configuration
    of the boot information. *)
Theorem range_claim_sound from_bytes b claim :
  range_main from_bytes b = Ok claim <->
  exists w g celo_boot preimage safe_head_hash safe_head cursor pipeline s0 s1 s2 s3 s4 json,
    let boot := op_boot_info celo_boot in
    let l1 := oracle_l1_provider (l1_head boot) in
    let l2 := oracle_l2_provider safe_head_hash (rollup_config boot) in
    from_bytes b = Ok w /\ get_oracle_and_blob_provider w = Ok g /\
    Forall (later g) [s0; s1; s2; s3; s4] /\
    perform guest_handler load_boot g = (s0, Ok celo_boot) /\
    preimage_store w !! new_keccak256 (agreed_l2_output_root boot) = Some preimage /\
    genuine (new_keccak256 (agreed_l2_output_root boot)) preimage /\ length preimage = 128%nat /\
    hash_of_slice (take 32 (drop 96 preimage)) = Some safe_head_hash /\
    perform guest_handler (header_by_hash l2 safe_head_hash) s0 = (s1, Ok safe_head) /\
    number safe_head <= claimed_l2_block_number boot /\
    perform guest_handler (new_oracle_pipeline_cursor (rollup_config boot) safe_head safe_head_hash
      (agreed_l2_output_root boot) l1 l2) s1 = (s2, Ok cursor) /\
    perform guest_handler (create_pipeline (with_espresso (espresso celo_boot) (rollup_config boot))
      (l1_config boot) cursor l1 (set_cursor cursor l2)) s2 = (s3, Ok pipeline) /\
    perform guest_handler (advance_to_target cursor (to_oracle_l2_chain_provider (set_cursor cursor l2))
      pipeline (rollup_config boot) (Some (claimed_l2_block_number boot))) s3
      = (s4, Ok (claimed_l2_block_number boot, claimed_l2_output_root boot)) /\
    rollup_config_json (rollup_config boot) = Ok json /\
    claim = {| l1Head := l1_head boot; l2PreRoot := agreed_l2_output_root boot;
               l2PostRoot := claimed_l2_output_root boot; l2BlockNumber := claimed_l2_block_number boot;
               rollupConfigHash := sha256 json |}.
Proof.
  split.
  - intros (w & Hw & g & cb & pre & hash & header & cursor & pipe & s0 & s1 & s2 & s3 & s4 & json & Hd)%range_main_derives.
    by exists w, g, cb, pre, hash, header, cursor, pipe, s0, s1, s2, s3, s4, json.
  - intros (w & g & cb & pre & hash & header & cursor & pipe & s0 & s1 & s2 & s3 & s4 & json & Hw & Hd).
    apply (derivation_is_claimed _ _ w); [done|].
    by exists g, cb, pre, hash, header, cursor, pipe, s0, s1, s2, s3, s4, json.
Qed.

Lemma generated_witness_proves `{Online, !Faithful} from_bytes to_bytes n s boot claim :
  (forall w, from_bytes (to_bytes w) = Ok w) ->
  heard host_handler flawless derive_range (host_start n) ->
  perform host_handler derive_range (host_start n) = (s, Ok boot) ->
  boot_info_struct boot = Ok claim ->
  generate_witness n = Ok (witness_of s) /\ range_main from_bytes (to_bytes (witness_of s)) = Ok claim.
Proof.
  intros Hserde Hheard Hrun Hclaim. split.
  - unfold generate_witness, generation.
    assert (Hg : perform host_handler (_ ← derive_range; mret tt) (host_start n) = (s, Ok tt))
      by (apply perform_bind_Ok; by exists s, boot).
    by rewrite Hg.
  - destruct (witness_replays n s derive_range boot Hheard Hrun) as (g & g' & Hg & Hp & _).
    assert (Hr : perform guest_handler run_range_program g = (g', Ok claim))
      by (apply range_program_Ok; by exists boot).
    unfold range_main. rewrite Hserde. cbn [expect mbind outcome_bind]. rewrite Hg. cbn. by rewrite Hr.
Qed.

(** C12: Generation of a witness and the program agree: when the host has derived a
    range, with no call of its connection refused, the program accepts the bytes
    of the witness it left and commits the boot information the host derived
    for. *)
Theorem witness_proves `{Online, !Faithful} from_bytes to_bytes n s boot claim :
  (forall w, from_bytes (to_bytes w) = Ok w) ->
  heard host_handler flawless derive_range (host_start n) ->
  perform host_handler derive_range (host_start n) = (s, Ok boot) ->
  boot_info_struct boot = Ok claim ->
  generate_witness n = Ok (witness_of s) /\ range_main from_bytes (to_bytes (witness_of s)) = Ok claim.
Proof. apply generated_witness_proves. Qed.
End laws.

(** ** A sample derivation

    The boot information is behind a local key, the safe head is block 100 with
    hash 5, and block [n] is derived from the blob with versioned hash [n + 40];
    its root is 1000 more than the blob. *)

#[local] Existing Instances sample_crypto sample_online.

#[local] Instance sample_kona : Kona := {|
  L1Provider := Z; L2Provider := Z; Cursor := Z; Pipeline := Z;
  load_boot := v ← trigger (Get (key_new 110 Local));
               mret {| op_boot_info := {| l1_head := 71; agreed_l2_output_root := 5;
                         claimed_l2_output_root := 1049; claimed_l2_block_number := from_be v;
                         rollup_config := 13; l1_config := 1 |}; espresso := 0 |};
  StartingL2Output := "starting-l2-output";
  oracle_l1_provider head := head;
  oracle_l2_provider hash _ := hash;
  header_by_hash _ _ := mret {| number := 100; timestamp := 0; parent_hash := 0; state_root := 0;
                                withdrawals_root := None; other_fields := 0 |};
  new_oracle_pipeline_cursor _ header _ _ _ _ := mret (number header);
  set_cursor _ l2 := l2;
  to_oracle_l2_chain_provider l2 := l2;
  oracle_pipeline _ _ _ _ _ _ := mret 0;
  advance_to_target _ _ _ _ target :=
    let n := default 0 target in
    bs ← trigger (Blobs 0 [n + 40]);
    mret (n, foldr Z.add 1000 bs);
  alt_da_config _ := None;
  rollup_config_json config := Ok [config];
|}.

#[local] Instance sample_l1_sources : L1Sources := {|
  l1_source := {| EthereumDataSource := unit;
                  eth_next s _ _ := mret (s, inr (Temporary Eof)); eth_clear s := s |};
  new_from_parts _ _ := tt;
  celo_new_from_parts _ _ := Ok {| DaState := unit; da_start := tt;
                                   da_next s _ _ := mret (s, inr (Temporary Eof)); da_clear s := s |};
|}.
#[local] Existing Instance ETHDAWitnessExecutor.

Definition sample_net : @Net sample_online := tt.
Definition sample_claim : BootInfoStruct :=
  {| l1Head := 71; l2PreRoot := 5; l2PostRoot := 1049; l2BlockNumber := 110; rollupConfigHash := 13 |}.
Definition sample_witness : DefaultWitnessData :=
  match generate_witness sample_net with Ok w => w | _ => from_parts ∅ {| blobs := []; commitments := []; proofs := [] |} end.

(** A proof of other blobs, or another block, is not claimed. *)
Example sample_other_blob :
  range_main (fun _ => Ok (from_parts (preimage_store sample_witness)
    {| blobs := [50]; commitments := [51]; proofs := [52] |})) []
  = Panic.
Proof. vm_compute. reflexivity. Qed.

Lemma range_claim_sound_witness :
  range_main (fun _ => Ok sample_witness) [] = Ok sample_claim /\
  exists w preimage, preimage_store w !! new_keccak256 5 = Some preimage /\ length preimage = 128%nat.
Proof.
  assert (Hrun : range_main (fun _ => Ok sample_witness) [] = Ok sample_claim) by (vm_compute; reflexivity).
  split; [exact Hrun|].
  destruct (proj1 (range_claim_sound _ _ _) Hrun) as (w & g & cb & pre & hash & head & cursor & pipe &
    s0 & s1 & s2 & s3 & s4 & json & _ & _ & _ & _ & Hpre & _ & Hlen & _ & _ & _ & _ & _ & _ & _ & Hc).
  exists w, pre. split; [|exact Hlen]. injection Hc as _ Hroot _ _ _. rewrite Hroot. exact Hpre.
Defined.

(** An encoding of witnesses for which decoding undoes encoding. *)
Definition sample_to_bytes (w : DefaultWitnessData) : bytes :=
  [Z.pos (encode (preimage_store w, (blobs (blob_data w), commitments (blob_data w), proofs (blob_data w))))].
Definition sample_from_bytes (b : bytes) : outcome DefaultWitnessData :=
  match b with
  | [Z.pos p] =>
      match decode p : option (PreimageStore * (list Z * list Z * list Z)) with
      | Some (m, (bs, cs, ps)) => Ok (from_parts m {| blobs := bs; commitments := cs; proofs := ps |})
      | None => Err "malformed"
      end
  | _ => Err "malformed"
  end.

Lemma sample_serde w : sample_from_bytes (sample_to_bytes w) = Ok w.
Proof. destruct w as [m [bs cs ps]]. unfold sample_from_bytes, sample_to_bytes. cbn -[encode decode]. by rewrite decode_encode. Qed.

Lemma witness_proves_witness :
  exists w, generate_witness sample_net = Ok w /\
    range_main sample_from_bytes (sample_to_bytes w) = Ok sample_claim.
Proof.
  set (r := perform host_handler derive_range (host_start sample_net)).
  set (boot := match r.2 with Ok boot => boot
               | _ => {| l1_head := 0; agreed_l2_output_root := 0; claimed_l2_output_root := 0;
                         claimed_l2_block_number := 0; rollup_config := 0; l1_config := 0 |} end).
  assert (Hrun : perform host_handler derive_range (host_start sample_net) = (r.1, Ok boot)) by (vm_compute; reflexivity).
  exists (witness_of r.1).
  apply (@witness_proves _ _ _ _ _ sample_faithful sample_from_bytes sample_to_bytes sample_net r.1 boot sample_claim).
  - exact sample_serde.
  - split_and!; try (intros e; vm_compute; discriminate). done.
  - exact Hrun.
  - vm_compute. reflexivity.
Defined.
