(* ===== verification/RangeSplit.v ===== *)
(** * Splitting block ranges

    [RangeSplitCount] is [fault-proof/src/config.rs]: how the proposer of the
    fault-proof service divides a game into range proofs. [BlockRange] is
    [utils/host/src/block_range.rs]: the splitters of the estimation tools. *)

From S2P Require Import Prelude.

Module RangeSplitCount.
(** A [RangeSplitCount] wraps a [NonZeroU8]. *)
Record RangeSplitCount := mk { get : Z }.

Definition MAX : Z := 16.

Definition new (count : Z) : outcome RangeSplitCount :=
  if (count =? 0) || (MAX <? count)
  then Err "range splits must be between 1 and 16"
  else Ok (mk count).

Definition one : RangeSplitCount := mk 1.

(** [TryFrom<u64>]: the [u8] conversion comes first. *)
Definition try_from (value : Z) : outcome RangeSplitCount :=
  if u8_max <? value then Err "range splits must be between 1 and 16" else new value.

(** The [for _ in 0..segments] loop of [split]. *)
Fixpoint split_loop (segments : nat) (cur end_ step : Z) : list (Z * Z) :=
  match segments with
  | O => []
  | S k =>
      if end_ <=? cur then []
      else
        let next := Z.min (saturating_add u64_max cur step) end_ in
        (cur, next) :: split_loop k next end_ step
  end.

Definition split (n : RangeSplitCount) (start end_ : Z) : outcome (list (Z * Z)) :=
  total ← with_context "end block is not greater than start block" (checked_sub end_ start);
  if total =? 0 then Err "start block equals end block; nothing to prove"
  else
    let splits := get n in
    if splits =? 1 then Ok [(start, end_)]
    else
      let segments := Z.min splits total in
      let step := div_ceil total segments in
      Ok (split_loop (Z.to_nat segments) start end_ step).

Definition valid (n : RangeSplitCount) : Prop := 1 <= get n <= MAX.

Lemma new_valid count n : 0 <= count -> new count = Ok n -> valid n /\ get n = count.
Proof.
  unfold new, valid. intros H0.
  destruct (Z.eqb_spec count 0), (Z.ltb_spec MAX count); cbn; try done.
  intros [= <-]. cbn. lia.
Qed.

(** Enough iterations reach [end_] whatever the ceiling rounded up. *)
Lemma split_loop_chain k cur end_ step :
  0 < step -> 0 <= cur <= end_ -> end_ <= u64_max -> end_ - cur <= Z.of_nat k * step ->
  chain cur (split_loop k cur end_ step) end_.
Proof.
  revert cur. induction k as [|k IH]; intros cur Hs Hc He Hk; cbn [split_loop].
  - cbn. lia.
  - destruct (Z.leb_spec end_ cur); [cbn; lia|].
    unfold saturating_add. cbn. split; [done|]. split; [lia|]. apply IH; lia.
Qed.

Lemma split_loop_sizes k cur end_ step s e :
  0 < step -> 0 <= cur -> (s, e) ∈ split_loop k cur end_ step -> e - s <= step.
Proof.
  revert cur. induction k as [|k IH]; intros cur Hs Hc; cbn [split_loop].
  - by intros Hin%elem_of_nil.
  - destruct (Z.leb_spec end_ cur) as [|Hlt]; [by intros Hin%elem_of_nil|].
    unfold saturating_add. intros [[= -> ->]|Hin]%elem_of_cons; [lia|].
    revert Hin. apply IH; [done|]. unfold u64_max. lia.
Qed.

Lemma split_loop_length k cur end_ step :
  (length (split_loop k cur end_ step) <= k)%nat.
Proof.
  revert cur. induction k as [|k IH]; intros cur; cbn; [lia|].
  destruct (end_ <=? cur); cbn; [lia|]. specialize (IH (Z.min (saturating_add u64_max cur step) end_)). lia.
Qed.

(** [split] succeeds exactly on a nonempty range, and then partitions it. *)
Definition split_spec (n : RangeSplitCount) (start end_ : Z) (l : list (Z * Z)) : Prop :=
  chain start l end_ /\
  Z.of_nat (length l) <= Z.min (get n) (end_ - start) /\
  forall s e, (s, e) ∈ l ->
    e - s <= div_ceil (end_ - start) (Z.min (get n) (end_ - start)).

(** splitting a nonempty [u64] range with any valid count succeeds, and
    the result is a partition of [(start, end]]: contiguous nonempty
    subranges from [start] to [end], no more of them than the count or than
    there are blocks, none longer than the rounded-up even share. *)
Theorem split_partition n start end_ :
  valid n -> 0 <= start < end_ -> end_ <= u64_max ->
  exists l, split n start end_ = Ok l /\ split_spec n start end_ l.
Proof.
  intros Hv Hr He. unfold split, split_spec, valid, MAX in *.
  rewrite (proj2 (checked_sub_Some end_ start (end_ - start)) ltac:(lia)). cbn.
  destruct (Z.eqb_spec (end_ - start) 0); [lia|].
  destruct (Z.eqb_spec (get n) 1) as [->|Hn].
  - eexists. split; [done|]. cbn. repeat split; [lia..|].
    intros s e [[= -> ->]|Hin%elem_of_nil]%elem_of_cons; [|done].
    rewrite Z.min_l by lia. unfold div_ceil. rewrite Z.div_1_r. lia.
  - set (k := Z.min (get n) (end_ - start)).
    pose proof (div_ceil_pos (end_ - start) k ltac:(lia) ltac:(lia)).
    pose proof (div_ceil_spec (end_ - start) k ltac:(lia)).
    eexists. split; [done|]. split; [|split].
    + apply split_loop_chain; [lia..|]. rewrite Z2Nat.id by lia. lia.
    + pose proof (split_loop_length (Z.to_nat k) start end_ (div_ceil (end_ - start) k)). lia.
    + intros s e Hin. by apply split_loop_sizes in Hin; [|lia..].
Qed.

(** 9 blocks in 4 parts: the step of 3 yields only 3 segments. *)
Lemma split_partition_witness :
  exists l, split (mk 4) 0 9 = Ok l /\ split_spec (mk 4) 0 9 l.
Proof. apply (split_partition (mk 4) 0 9); unfold valid, MAX, u64_max; cbn; lia. Defined.
End RangeSplitCount.

Module BlockRange.
(** The [while current_start < end] loop of [split_range_basic]; release
    arithmetic wraps [current_start + max_range_size]. [None] is a loop that
    has not ended within [fuel] iterations. *)
Fixpoint split_range_basic (fuel : nat) (current_start end_ max_range_size : Z)
    : option (list (Z * Z)) :=
  if current_start <? end_ then
    match fuel with
    | O => None
    | S fuel' =>
        let current_end := Z.min (wrap64 (current_start + max_range_size)) end_ in
        rest ← split_range_basic fuel' current_end end_ max_range_size;
        Some ((current_start, current_end) :: rest)
    end
  else Some [].

(** The inner [while range_start + max_range_size < min(l2_end, safe_head)]. *)
Fixpoint split_upto (fuel : nat) (range_start bound max_range_size : Z)
    : option (list (Z * Z)) :=
  if wrap64 (range_start + max_range_size) <? bound then
    match fuel with
    | O => None
    | S fuel' =>
        let next := wrap64 (range_start + max_range_size) in
        rest ← split_upto fuel' next bound max_range_size;
        Some ((range_start, next) :: rest)
    end
  else Some [(range_start, bound)].

(** The loop over the sorted safe heads of [split_range_based_on_safe_heads];
    fetching them is the caller's RPC. *)
Fixpoint split_by_safe_heads (fuel : nat) (safe_heads : list Z)
    (current_l2_start l2_end max_range_size : Z) : option (list (Z * Z)) :=
  match safe_heads with
  | [] => Some []
  | safe_head :: rest =>
      if (current_l2_start <? safe_head) && (current_l2_start <? l2_end) then
        here ← split_upto fuel current_l2_start (Z.min l2_end safe_head) max_range_size;
        later ← split_by_safe_heads fuel rest safe_head l2_end max_range_size;
        Some (here ++ later)
      else split_by_safe_heads fuel rest current_l2_start l2_end max_range_size
  end.

(** [get_validated_block_range], after the RPC for the provable head. *)
Definition get_validated_block_range (max_provable : Z) (start end_ : option Z)
    (default_range : Z) : outcome (Z * Z) :=
  l2_end_block ← match end_ with
    | Some e => if max_provable <? e
                then Err "The end block is greater than the max provable L2 block"
                else Ok e
    | None => Ok max_provable
    end;
  let l2_start_block :=
    match start with
    | Some s => s
    | None => Z.max 1 (saturating_sub l2_end_block default_range)
    end in
  if l2_end_block <=? l2_start_block then Err "Start block must be less than end block"
  else Ok (l2_start_block, l2_end_block).

Definition get_rolling_block_range (max_provable range : Z) : outcome (Z * Z) :=
  l2_start_block ← with_context "requested rolling range exceeds current end block"
    (checked_sub max_provable range);
  Ok (l2_start_block, max_provable).

Lemma split_range_basic_chain fuel a b m :
  0 < m -> 0 <= a <= b -> b + m <= u64_max -> b - a <= Z.of_nat fuel ->
  exists l, split_range_basic fuel a b m = Some l /\ chain a l b /\
    forall s e, (s, e) ∈ l -> e - s <= m.
Proof.
  revert a. induction fuel as [|fuel IH]; intros a Hm Ha Hb Hf; cbn;
    (destruct (Z.ltb_spec a b);
      [|exists []; split; [done|]; split; [cbn; lia|];
        by intros s e Hin%elem_of_nil]).
  { lia. }
  rewrite wrap64_small by (unfold is_u64; lia).
  destruct (IH (Z.min (a + m) b)) as (l & -> & Hc & Hl); [lia..|].
  eexists. split; [done|]. split; [cbn; repeat split; [lia|done]|].
  intros s e [[= -> ->]|Hin]%elem_of_cons; [lia|eauto].
Qed.

Lemma split_upto_chain fuel a b m :
  0 < m -> 0 <= a < b -> b + m <= u64_max -> b - a <= Z.of_nat fuel ->
  exists l, split_upto fuel a b m = Some l /\ chain a l b /\
    forall s e, (s, e) ∈ l -> e - s <= m.
Proof.
  revert a. induction fuel as [|fuel IH]; intros a Hm Ha Hb Hf; [lia|].
  cbn. rewrite wrap64_small by (unfold is_u64; lia).
  destruct (Z.ltb_spec (a + m) b).
  - destruct (IH (a + m)) as (l & -> & Hc & Hl); [lia..|].
    eexists. split; [done|]. split; [cbn; repeat split; [lia|done]|].
    intros s e [[= -> ->]|Hin]%elem_of_cons; [lia|eauto].
  - eexists. split; [done|]. split; [cbn; lia|].
    intros s e [[= -> ->]|Hin%elem_of_nil]%elem_of_cons; [lia|done].
Qed.

Lemma split_done fuel heads cur l2_end m :
  l2_end <= cur -> split_by_safe_heads fuel heads cur l2_end m = Some [].
Proof.
  intros Hc. induction heads as [|h heads IH]; cbn; [done|].
  destruct (Z.ltb_spec cur h), (Z.ltb_spec cur l2_end); cbn; (done || lia).
Qed.

(** when some safe head reaches [l2_end], the safe-head splitter returns
    a partition of [(l2_start, l2_end]] into contiguous nonempty ranges of at
    most [max_range_size] blocks, whatever the intermediate safe heads are
    (duplicates and heads at or below the start included). *)
Theorem split_by_safe_heads_partition fuel heads l2_start l2_end m :
  0 < m -> 0 <= l2_start <= l2_end -> l2_end + m <= u64_max ->
  l2_end - l2_start <= Z.of_nat fuel ->
  Exists (fun h => l2_end <= h) heads ->
  exists l, split_by_safe_heads fuel heads l2_start l2_end m = Some l /\
    chain l2_start l l2_end /\ Forall (fun r => r.2 - r.1 <= m) l.
Proof.
  intros Hm. revert l2_start.
  induction heads as [|h heads IH]; intros a Ha Hb Hf Hex; [by inversion Hex|].
  destruct (decide (l2_end <= a)).
  { rewrite split_done by done. exists []. cbn. split; [done|]. split; [lia|done]. }
  cbn. destruct (Z.ltb_spec a h), (Z.ltb_spec a l2_end); cbn; try lia.
  - destruct (split_upto_chain fuel a (Z.min l2_end h) m)
      as (here & -> & Hc & Hs); [lia..|]. cbn.
    assert (Hs' : Forall (fun r => r.2 - r.1 <= m) here)
      by (apply Forall_forall; intros [s e]; apply Hs).
    destruct (decide (l2_end <= h)).
    + rewrite split_done by lia. cbn. eexists. split; [done|].
      rewrite app_nil_r. rewrite Z.min_l in Hc by lia. done.
    + inversion_clear Hex; [lia|].
      destruct (IH h) as (later & -> & Hc' & Hs''); [lia..|done|]. cbn.
      eexists. split; [done|]. rewrite chain_app, Forall_app.
      rewrite Z.min_r in Hc by lia. eauto.
  - inversion_clear Hex; [lia|]. apply IH; [lia..|done].
Qed.

(** The example of the source: safe heads 27, 49, 90 and size 30. *)
Lemma split_by_safe_heads_partition_witness :
  exists l, split_by_safe_heads 90 [27; 49; 90] 0 90 30 = Some l /\
    chain 0 l 90 /\ Forall (fun r => r.2 - r.1 <= 30) l.
Proof.
  apply (split_by_safe_heads_partition 90 [27; 49; 90] 0 90 30);
    unfold u64_max; cbn; try lia.
  do 2 apply Exists_cons_tl. apply Exists_cons_hd. lia.
Defined.

Example split_by_safe_heads_doc :
  split_by_safe_heads 90 [27; 49; 90] 0 90 30 = Some [(0, 27); (27, 49); (49, 79); (79, 90)].
Proof. reflexivity. Qed.
End BlockRange.
