(* ===== verification/ValidityRanges.v ===== *)
(** * Range planning of the validity proposer

    [validity/src/utils.rs]: which block ranges still need a proof request.
    A [Range<i64>] is a pair [(start, end)] of numbers in [i64]; sums and
    differences wrap around as in a release build ([as_i64]), and the theorems
    say for which ranges they do not ([plannable], [in_i64]). *)

From S2P Require Import Prelude.

(** ** [merge_ranges] *)

(** The comparison of [sort_unstable_by]: by start, then by end. *)
Definition range_le (a b : Z * Z) : Prop := a.1 < b.1 \/ (a.1 = b.1 /\ a.2 <= b.2).
#[global] Instance range_le_dec a b : Decision (range_le a b).
Proof. unfold range_le. apply _. Defined.
#[global] Instance range_le_total : Total range_le.
Proof. intros a b. unfold range_le. lia. Qed.
#[global] Instance range_le_trans : Transitive range_le.
Proof. intros a b c. unfold range_le. lia. Qed.

Fixpoint merge_loop (current : Z * Z) (ranges : list (Z * Z)) : list (Z * Z) :=
  match ranges with
  | [] => [current]
  | range :: rest =>
      if range.1 <=? current.2
      then merge_loop (current.1, Z.max current.2 range.2) rest
      else current :: merge_loop range rest
  end.

Definition merge_ranges (ranges : list (Z * Z)) : list (Z * Z) :=
  match merge_sort range_le ranges with
  | [] => []
  | current :: rest => merge_loop current rest
  end.

(** Sorted and apart: no two ranges touch. *)
Fixpoint separated (l : list (Z * Z)) : Prop :=
  match l with
  | [] => True
  | r :: l' => (forall r', r' ∈ l' -> r.2 < r'.1) /\ separated l'
  end.

Definition start_le (a b : Z * Z) : Prop := a.1 <= b.1.

Lemma merge_sort_start_sorted l : StronglySorted start_le (merge_sort range_le l).
Proof.
  assert (H : StronglySorted range_le (merge_sort range_le l))
    by apply (StronglySorted_merge_sort range_le).
  induction H as [|r l' Hs IH Hf]; constructor; [done|].
  eapply Forall_impl; [exact Hf|]. unfold range_le, start_le. lia.
Qed.

Lemma merge_loop_covered n c l :
  StronglySorted start_le (c :: l) -> covered n (merge_loop c l) <-> covered n (c :: l).
Proof.
  revert c. induction l as [|r l IH]; intros c Hs; cbn; [done|].
  inversion_clear Hs as [|? ? Hs' Hc]. inversion_clear Hs' as [|? ? Hl Hr].
  apply Forall_cons in Hc as [Hcr Hcl]. unfold start_le in Hcr.
  destruct (Z.leb_spec r.1 c.2).
  - rewrite IH by (constructor; [done|]; exact Hcl).
    rewrite !covered_cons. cbn.
    split; [|intros [?|[?|?]]; [left; lia|left; lia|by right]].
    intros [Hn|]; [|tauto]. destruct (decide (n < c.2)); [left|right; left]; lia.
  - rewrite covered_cons, (covered_cons _ c), IH; [done|]. by constructor.
Qed.

Lemma merge_loop_starts c l r :
  r ∈ merge_loop c l -> r.1 = c.1 \/ exists r', r' ∈ l /\ r.1 = r'.1.
Proof.
  revert c. induction l as [|x l IH]; intros c; cbn.
  - intros ->%list_elem_of_singleton. by left.
  - destruct (x.1 <=? c.2).
    + intros [?|(r' & ? & ?)]%IH; [by left|]. right. exists r'. split; [by right|done].
    + intros [->|[?|(r' & ? & ?)]%IH]%elem_of_cons; [by left|..];
        right; [exists x|exists r']; (split; [|done]); [left|by right].
Qed.

Lemma merge_loop_separated c l :
  StronglySorted start_le (c :: l) -> separated (merge_loop c l).
Proof.
  revert c. induction l as [|r l IH]; intros c Hs; cbn.
  - split; [|done]. by intros r' ?%elem_of_nil.
  - inversion_clear Hs as [|? ? Hs' Hc]. inversion_clear Hs' as [|? ? Hl Hr].
    apply Forall_cons in Hc as [Hcr Hcl].
    destruct (Z.leb_spec r.1 c.2); [apply IH; by constructor|].
    cbn. split; [|apply IH; by constructor].
    intros r' [->|(x & Hx & ->)]%merge_loop_starts; [done|].
    rewrite Forall_forall in Hr. specialize (Hr x Hx). unfold start_le in Hr. lia.
Qed.

Lemma merge_ranges_covered n l : covered n (merge_ranges l) <-> covered n l.
Proof.
  unfold merge_ranges. pose proof (merge_sort_start_sorted l) as Hs.
  rewrite <- (merge_sort_Permutation range_le l) at 2.
  destruct (merge_sort range_le l); [done|]. by apply merge_loop_covered.
Qed.

Lemma merge_ranges_separated l : separated (merge_ranges l).
Proof.
  unfold merge_ranges. pose proof (merge_sort_start_sorted l) as Hs.
  destruct (merge_sort range_le l); [done|]. by apply merge_loop_separated.
Qed.

(** Merging keeps exactly the blocks of its input, and leaves no two
    ranges that overlap or touch, in increasing order. *)
Lemma merge_ranges_spec l :
  separated (merge_ranges l) /\ forall n, covered n (merge_ranges l) <-> covered n l.
Proof. split; [apply merge_ranges_separated | intros; apply merge_ranges_covered]. Qed.

(** ** [find_gaps] *)

Fixpoint gaps_loop (current_start overall_end : Z) (ranges : list (Z * Z)) : list (Z * Z) :=
  match ranges with
  | [] => if current_start <? overall_end then [(current_start, overall_end)] else []
  | (start, end_) :: rest =>
      let later := gaps_loop (Z.max end_ current_start) overall_end rest in
      if current_start <? start then (current_start, start) :: later else later
  end.

Definition find_gaps (overall_start overall_end : Z) (ranges : list (Z * Z)) : list (Z * Z) :=
  merge_ranges (gaps_loop overall_start overall_end ranges).

Lemma gaps_loop_ge cur oe l n : covered n (gaps_loop cur oe l) -> cur <= n.
Proof.
  revert cur. induction l as [|[s e] l IH]; intros cur; cbn.
  - destruct (Z.ltb_spec cur oe); [|by intros ?%covered_nil].
    rewrite covered_cons; cbn. intros [?|?%covered_nil]; [lia|done].
  - destruct (Z.ltb_spec cur s); [rewrite covered_cons; cbn; intros [?|H0%IH]; lia|].
    intros H0%IH. lia.
Qed.

Lemma gaps_loop_spec cur oe l n :
  StronglySorted start_le l -> cur <= n < oe ->
  covered n (gaps_loop cur oe l) <-> ~ covered n l.
Proof.
  revert cur. induction l as [|[s e] l IH]; intros cur Hs Hn; cbn.
  - destruct (Z.ltb_spec cur oe); [|lia]. rewrite covered_cons; cbn.
    split; [intros _ ?%covered_nil; done|lia].
  - inversion_clear Hs as [|? ? Hl Hr]. rewrite (covered_cons _ _ l); cbn.
    assert (Hlt : n < s -> ~ covered n l).
    { intros ? (r & Hin & Hr'). rewrite Forall_forall in Hr. specialize (Hr r Hin).
      unfold start_le in Hr; cbn in Hr. lia. }
    destruct (decide (n < Z.max e cur)) as [Hmax|Hmax].
    + assert (Hno : ~ covered n (gaps_loop (Z.max e cur) oe l))
        by (intros ?%gaps_loop_ge; lia).
      destruct (Z.ltb_spec cur s); [rewrite covered_cons; cbn|].
      * split; [intros [?|]; [|tauto]|intros; left; lia].
        intros [?|?]; [lia|]. apply Hlt; [lia|done].
      * split; [tauto|]. intros Hc. exfalso. apply Hc. left. lia.
    + pose proof (IH (Z.max e cur) Hl ltac:(lia)) as IH'.
      destruct (Z.ltb_spec cur s); [rewrite covered_cons; cbn|];
        rewrite IH'; (destruct (decide (n < s)); [specialize (Hlt ltac:(done))|]);
        split; try lia; intuition lia.
Qed.

Lemma gaps_loop_lt cur oe l n :
  Forall (fun r => r.1 <= oe) l -> covered n (gaps_loop cur oe l) -> n < oe.
Proof.
  revert cur. induction l as [|[s e] l IH]; intros cur Hf; cbn.
  - destruct (Z.ltb_spec cur oe); [|by intros ?%covered_nil].
    rewrite covered_cons; cbn. intros [?|?%covered_nil]; [lia|done].
  - apply Forall_cons in Hf as [H1 Hf]. cbn in H1.
    destruct (Z.ltb_spec cur s); [rewrite covered_cons; cbn; intros [?|H0]; [lia|]|];
      eauto.
Qed.

(** For requests sorted by their start, none of which starts beyond the
    overall range, the gaps are exactly the uncovered blocks of the overall
    range, in disjoint increasing ranges that do not touch. *)
Lemma find_gaps_complement os oe ranges :
  StronglySorted start_le ranges -> Forall (fun r => r.1 <= oe) ranges ->
  separated (find_gaps os oe ranges) /\
  forall n, covered n (find_gaps os oe ranges) <-> os <= n < oe /\ ~ covered n ranges.
Proof.
  intros Hs Hf. split; [apply merge_ranges_separated|]. intros n.
  unfold find_gaps. rewrite merge_ranges_covered. split.
  - intros Hc. pose proof (gaps_loop_ge _ _ _ _ Hc).
    pose proof (gaps_loop_lt _ _ _ _ Hf Hc). split; [lia|].
    by apply (gaps_loop_spec os oe).
  - intros [Hn Hc]. by apply gaps_loop_spec.
Qed.

Example find_gaps_sample : find_gaps 1 10 [(2, 5); (7, 9)] = [(1, 2); (5, 7); (9, 10)].
Proof. vm_compute. reflexivity. Qed.

(** Even a gap that leaves the overall range covers no block of a request. *)
Lemma gaps_loop_disjoint cur oe l n :
  StronglySorted start_le l -> covered n (gaps_loop cur oe l) -> ~ covered n l.
Proof.
  revert cur. induction l as [|[s e] l IH]; intros cur Hs; cbn.
  { intros _. apply covered_nil. }
  inversion_clear Hs as [|? ? Hl Hr]. rewrite (covered_cons _ _ l); cbn. intros Hc.
  assert (Hlater : covered n (gaps_loop (Z.max e cur) oe l) -> ~ (s <= n < e \/ covered n l)).
  { intros Hg [Hn|Hn]; [|by eapply IH]. pose proof (gaps_loop_ge _ _ _ _ Hg). lia. }
  destruct (Z.ltb_spec cur s); [|by apply Hlater].
  apply covered_cons in Hc as [Hc|Hc]; [cbn in Hc|by apply Hlater].
  intros [Hn|(r & Hin & Hn)]; [lia|]. rewrite Forall_forall in Hr. specialize (Hr r Hin).
  unfold start_le in Hr. cbn in Hr. lia.
Qed.

Lemma find_gaps_disjoint os oe l n :
  StronglySorted start_le l -> covered n (find_gaps os oe l) -> os <= n /\ ~ covered n l.
Proof.
  unfold find_gaps. rewrite merge_ranges_covered. intros Hs Hc. split; [exact (gaps_loop_ge _ _ _ _ Hc)|].
  exact (gaps_loop_disjoint _ _ _ _ Hs Hc).
Qed.

Definition nonempty (r : Z * Z) : Prop := r.1 < r.2.

Lemma merge_loop_nonempty c l : nonempty c -> Forall nonempty l -> Forall nonempty (merge_loop c l).
Proof.
  revert c. induction l as [|r l IH]; intros c Hc Hl; cbn; [by constructor|].
  apply Forall_cons in Hl as [Hr Hl]. unfold nonempty in *.
  destruct (Z.leb_spec r.1 c.2); [apply IH; [cbn; lia|done]|]. constructor; [done|]. by apply IH.
Qed.

Lemma gaps_loop_nonempty cur oe l : Forall nonempty (gaps_loop cur oe l).
Proof.
  revert cur. induction l as [|[s e] l IH]; intros cur; cbn.
  - destruct (Z.ltb_spec cur oe); by constructor.
  - destruct (Z.ltb_spec cur s); [constructor; [done|]|]; apply IH.
Qed.

Lemma find_gaps_nonempty os oe l : Forall nonempty (find_gaps os oe l).
Proof.
  unfold find_gaps, merge_ranges. pose proof (gaps_loop_nonempty os oe l) as H.
  rewrite <- (merge_sort_Permutation range_le (gaps_loop os oe l)) in H.
  destruct (merge_sort range_le _) as [|r rs]; [done|]. apply Forall_cons in H as [Hr Hrs].
  by apply merge_loop_nonempty.
Qed.

Lemma gaps_loop_below cur oe b l n :
  oe <= b -> Forall (fun r => r.1 <= b) l -> covered n (gaps_loop cur oe l) -> n < b.
Proof.
  intros Hb. revert cur. induction l as [|[s e] l IH]; intros cur Hf; cbn.
  - destruct (Z.ltb_spec cur oe); [|by intros ?%covered_nil].
    rewrite covered_cons; cbn. intros [?|?%covered_nil]; [lia|done].
  - apply Forall_cons in Hf as [H1 Hf]. cbn in H1.
    destruct (Z.ltb_spec cur s); [rewrite covered_cons; cbn; intros [?|H0]; [lia|]|]; eauto.
Qed.

(** A gap ends where the overall range or a request begins at the latest. *)
Lemma find_gaps_within os oe b l r :
  oe <= b -> Forall (fun r => r.1 <= b) l -> r ∈ find_gaps os oe l -> os <= r.1 /\ r.1 < r.2 <= b.
Proof.
  intros Hb Hf Hr. pose proof (find_gaps_nonempty os oe l) as Hne. rewrite Forall_forall in Hne.
  specialize (Hne r Hr). unfold nonempty in Hne.
  assert (Hc : forall n, r.1 <= n < r.2 -> covered n (gaps_loop os oe l))
    by (intros n Hn; apply merge_ranges_covered; by exists r).
  pose proof (gaps_loop_ge os oe l r.1 (Hc r.1 ltac:(lia))).
  pose proof (gaps_loop_below os oe b l (r.2 - 1) Hb Hf (Hc (r.2 - 1) ltac:(lia))). lia.
Qed.

(** Nonempty, in increasing order, and without overlaps, from [a] on. *)
Fixpoint ascending (a : Z) (l : list (Z * Z)) : Prop :=
  match l with
  | [] => True
  | (s, e) :: l' => a <= s /\ s < e /\ ascending e l'
  end.

Lemma ascending_le a b l : a <= b -> ascending b l -> ascending a l.
Proof. destruct l as [|[s e] l]; cbn; [done|]. intros ? (? & ? & ?). split_and!; [lia|done..]. Qed.

Lemma chain_ascending a p b l : chain a p b -> ascending b l -> ascending a (p ++ l).
Proof.
  revert a. induction p as [|[s e] p IH]; intros a; cbn; [by intros ->|].
  intros (-> & ? & Hc) Hl. split_and!; [done..|]. by apply IH.
Qed.

Lemma ascending_app a l1 l2 : ascending a (l1 ++ l2) -> ascending a l1.
Proof.
  revert a. induction l1 as [|[s e] l1 IH]; intros a; cbn; [done|].
  intros (? & ? & ?). split_and!; [done..|]. by apply IH.
Qed.

Lemma chain_covered a l b n : chain a l b -> covered n l <-> a <= n < b.
Proof.
  revert a. induction l as [|[s e] l IH]; intros a; cbn.
  - intros ->. split; [by intros ?%covered_nil|lia].
  - intros (-> & Hlt & Hc). pose proof (chain_le _ _ _ Hc). rewrite covered_cons, IH by done. cbn. lia.
Qed.

(** Gaps, each cut into a contiguous chain. *)
Definition cut (r : Z * Z) (p : list (Z * Z)) : Prop := chain r.1 p (Z.max r.1 r.2).

Lemma cuts_ascending a rs ps :
  separated rs -> Forall nonempty rs -> Forall (fun r => a <= r.1) rs -> Forall2 cut rs ps ->
  ascending a (concat ps).
Proof.
  intros Hs Hn Ha HF. revert a Ha. induction HF as [|r p rs ps Hp HF IH]; intros a Ha; cbn; [done|].
  destruct Hs as [Hr Hs]. apply Forall_cons in Hn as [Hnr Hn]. apply Forall_cons in Ha as [Har Ha].
  unfold nonempty, cut in *. rewrite Z.max_r in Hp by lia.
  apply (ascending_le _ r.1); [done|]. eapply chain_ascending; [done|]. apply IH; [done..|].
  apply Forall_forall. intros r' Hr'. specialize (Hr r' Hr'). lia.
Qed.

Lemma cuts_covered n rs ps : Forall2 cut rs ps -> covered n (concat ps) <-> covered n rs.
Proof.
  induction 1 as [|r p rs ps Hp HF IH]; cbn; [done|]. unfold cut in Hp.
  rewrite covered_app, covered_cons, (chain_covered _ _ _ n Hp), IH.
  assert (r.1 <= n < Z.max r.1 r.2 <-> r.1 <= n < r.2) by lia. tauto.
Qed.

Lemma cuts_nonempty rs ps s e : Forall2 cut rs ps -> (s, e) ∈ concat ps -> s < e.
Proof.
  induction 1 as [|r p rs' ps' Hc HF IH]; cbn; [by intros ?%elem_of_nil|].
  intros [Hin|Hin]%elem_of_app; [|auto]. pose proof (chain_within _ _ _ _ _ Hc Hin). lia.
Qed.

(** A request beyond the overall range makes a gap that leaves the range: the
    bound of [find_gaps_complement] on the starts is needed. *)
Lemma find_gaps_overshoot : find_gaps 1 5 [(8, 9)] = [(1, 8)].
Proof. vm_compute. reflexivity. Qed.

(** Every piece lies in one of the gaps. *)
Lemma cuts_within rs ps s e : Forall2 cut rs ps -> (s, e) ∈ concat ps ->
  exists r, r ∈ rs /\ r.1 <= s /\ s < e /\ e <= r.2.
Proof.
  induction 1 as [|r p rs' ps' Hc HF IH]; cbn; [by intros ?%elem_of_nil|].
  intros [Hin|Hin]%elem_of_app.
  - pose proof (chain_within _ _ _ _ _ Hc Hin). exists r. split; [by left|lia].
  - destruct (IH Hin) as (r' & Hr' & H). exists r'. split; [by right|done].
Qed.

(** Ranges whose arithmetic stays in [i64]: as they are, and with the interval
    [m] added to their end. *)
Definition in_i64 (r : Z * Z) : Prop := 0 <= r.1 < i64_max /\ r.2 <= i64_max.
Definition plannable (m : Z) (r : Z * Z) : Prop := 0 <= r.1 < i64_max /\ r.2 + Z.max 0 m <= i64_max.

Lemma plannable_in m r : plannable m r -> in_i64 r.
Proof. unfold plannable, in_i64. lia. Qed.

(** ** [get_ranges_to_prove_by_blocks] *)

(** The [while current_start < end] loop; [None] is a loop that has not ended
    within [fuel] iterations. *)
Fixpoint blocks_loop (fuel : nat) (current_start end_ interval : Z) : option (list (Z * Z)) :=
  if current_start <? end_ then
    match fuel with
    | O => None
    | S fuel' =>
        let current_end := Z.min (as_i64 (current_start + interval)) end_ in
        rest ← blocks_loop fuel' current_end end_ interval;
        Some ((current_start, current_end) :: rest)
    end
  else Some [].

(** [if let Some(r) = ranges.last() { if r.end - r.start < interval { pop } }] *)
Definition drop_short_last (interval : Z) (ranges : list (Z * Z)) : list (Z * Z) :=
  match last ranges with
  | Some r => if as_i64 (r.2 - r.1) <? interval then removelast ranges else ranges
  | None => ranges
  end.

Definition get_ranges_to_prove_by_blocks (fuel : nat) (disjoint_ranges : list (Z * Z))
    (interval : Z) : option (list (Z * Z)) :=
  pieces ← mapM (fun r => blocks_loop fuel r.1 r.2 interval) disjoint_ranges;
  Some (drop_short_last interval (concat pieces)).

(** What the loop makes of one input range: nothing of an empty one. *)
Definition piece_of (interval : Z) (r : Z * Z) (p : list (Z * Z)) : Prop :=
  chain r.1 p (Z.max r.1 r.2) /\ Forall (fun q => q.2 - q.1 <= interval) p.

Lemma blocks_loop_piece fuel a b m :
  0 < m -> plannable m (a, b) -> b - a <= Z.of_nat fuel ->
  exists p, blocks_loop fuel a b m = Some p /\ piece_of m (a, b) p.
Proof.
  unfold piece_of, plannable; cbn [fst snd].
  revert a. induction fuel as [|fuel IH]; intros a Hm Hi Hf; cbn [blocks_loop];
    (destruct (Z.ltb_spec a b); [|exists []; cbn; repeat split; [lia|done]]); [lia|].
  rewrite as_i64_small by lia.
  destruct (decide (b <= a + m)) as [Hb|Hb].
  - rewrite Z.min_r by lia. exists [(a, b)].
    replace (blocks_loop fuel b b m) with (Some [] : option (list (Z * Z)))
      by (destruct fuel; cbn; by rewrite Z.ltb_irrefl).
    split; [done|]. cbn. repeat split; [lia..|]. constructor; [cbn; lia|done].
  - rewrite Z.min_l by lia. destruct (IH (a + m)) as (p & -> & Hc & Hp); [lia..|].
    eexists. split; [done|]. cbn. repeat split; [lia| |].
    + rewrite Z.max_r in Hc by lia. by rewrite Z.max_r by lia.
    + constructor; [cbn; lia|done].
Qed.

(** With an interval of zero the loop of a nonempty range never ends. *)
Lemma blocks_loop_stuck fuel a b : in_i64 (a, b) -> a < b -> blocks_loop fuel a b 0 = None.
Proof.
  unfold in_i64; cbn [fst snd]. intros Hi Hab. induction fuel as [|fuel IH]; cbn;
    destruct (Z.ltb_spec a b); try lia; [done|].
  rewrite Z.add_0_r, as_i64_small, Z.min_l by lia. by rewrite IH.
Qed.

(** A loop that has ended has cut its range. *)
Lemma blocks_loop_cut fuel a b m p :
  0 <= m -> plannable m (a, b) -> blocks_loop fuel a b m = Some p -> cut (a, b) p.
Proof.
  intros Hm. destruct (decide (m = 0)) as [->|Hpos].
  { intros Hi%plannable_in Hp. destruct (decide (a < b)); [by rewrite blocks_loop_stuck in Hp|].
    unfold cut. cbn [fst snd]. destruct fuel; cbn in Hp; destruct (Z.ltb_spec a b); try lia;
      injection Hp as <-; cbn; lia. }
  unfold cut, plannable. cbn [fst snd]. revert a p. induction fuel as [|fuel IH]; intros a p Hi; cbn [blocks_loop];
    (destruct (Z.ltb_spec a b) as [Hab|Hab]; [|intros [= <-]; cbn; lia]); [done|].
  rewrite as_i64_small by lia. intros (q & Hq & H)%bind_Some. injection H as <-.
  destruct (decide (b <= a + m)).
  - rewrite Z.min_r in * by lia. assert (q = []) as ->.
    { destruct fuel; cbn in Hq; rewrite Z.ltb_irrefl in Hq; by injection Hq. }
    cbn. lia.
  - rewrite Z.min_l in * by lia. apply IH in Hq; [|lia]. cbn. rewrite Z.max_r in * by lia. split_and!; [done|lia|done].
Qed.

Lemma blocks_cut fuel rs m out :
  0 <= m -> Forall (plannable m) rs -> get_ranges_to_prove_by_blocks fuel rs m = Some out ->
  exists ps, Forall2 cut rs ps /\
    (concat ps = out \/ exists r, concat ps = out ++ [r] /\ r.2 - r.1 < m).
Proof.
  unfold get_ranges_to_prove_by_blocks. intros Hm Hi (ps & Hps & H)%bind_Some. injection H as <-.
  assert (HF : Forall2 cut rs ps).
  { apply mapM_Some in Hps. revert Hi. induction Hps as [|[a b] p rs ps Hp _ IH]; intros Hi; constructor;
      apply Forall_cons in Hi as [Hr Hi]; [by eapply blocks_loop_cut|by apply IH]. }
  exists ps. split; [done|].
  unfold drop_short_last. destruct (last (concat ps)) as [[s e]|] eqn:Hl; [|by left].
  apply last_Some in Hl as [l Hl]. destruct (cuts_within rs ps s e HF) as (r & Hr & Hw); [rewrite Hl; set_solver|].
  rewrite Forall_forall in Hi. pose proof (Hi r Hr) as Hb. unfold plannable in Hb. cbn [fst snd].
  rewrite as_i64_small by lia.
  destruct (Z.ltb_spec (e - s) m); [|by left]. right. exists (s, e). split; [|done].
  by rewrite Hl, removelast_last.
Qed.

(** A range no longer than the interval. *)
Definition short (interval : Z) (r : Z * Z) : Prop := r.2 - r.1 <= interval.

Lemma Forall_removelast {A} (P : A -> Prop) l : Forall P l -> Forall P (removelast l).
Proof. induction 1 as [|x l Hx Hl IH]; [done|]. destruct l; cbn in *; [done|]. by constructor. Qed.

Lemma blocks_loop_short fuel a b m p :
  0 < m -> plannable m (a, b) -> blocks_loop fuel a b m = Some p -> Forall (short m) p.
Proof.
  intros Hm. unfold plannable. cbn [fst snd]. revert a p. induction fuel as [|fuel IH]; intros a p Hi; cbn [blocks_loop];
    (destruct (Z.ltb_spec a b) as [Hab|Hab]; [|intros [= <-]; done]); [done|].
  rewrite as_i64_small by lia. intros (q & Hq & H)%bind_Some. injection H as <-.
  constructor; [unfold short; cbn; lia|]. destruct (decide (b <= a + m)).
  - rewrite Z.min_r in Hq by lia. destruct fuel; cbn in Hq; rewrite Z.ltb_irrefl in Hq; by injection Hq as <-.
  - rewrite Z.min_l in Hq by lia. apply IH in Hq; [done|lia].
Qed.

Lemma blocks_short fuel rs m out :
  0 < m -> Forall (plannable m) rs -> get_ranges_to_prove_by_blocks fuel rs m = Some out -> Forall (short m) out.
Proof.
  unfold get_ranges_to_prove_by_blocks. intros Hm Hi (ps & Hps & H)%bind_Some. injection H as <-.
  assert (HF : Forall (short m) (concat ps)).
  { apply mapM_Some in Hps. revert Hi. induction Hps as [|[a b] p rs ps Hp _ IH]; intros Hi; [done|]. cbn.
    apply Forall_cons in Hi as [Hr Hi]. apply Forall_app. split; [by eapply blocks_loop_short|by apply IH]. }
  unfold drop_short_last. case_match; [|done]. case_match; [by apply Forall_removelast|done].
Qed.

(** with a positive interval, on ranges whose ends are below [i64::MAX] by at
    least the interval, the block planner always returns, and its
    result is, input range by input range, a partition into contiguous
    nonempty ranges of at most the interval, from which only a final range
    shorter than the interval is dropped. *)
Theorem by_blocks_partition fuel rs m :
  0 < m -> Forall (plannable m) rs -> Forall (fun r => r.2 - r.1 <= Z.of_nat fuel) rs ->
  exists out pieces, get_ranges_to_prove_by_blocks fuel rs m = Some out /\
    Forall2 (piece_of m) rs pieces /\
    ((out = concat pieces /\ forall r, last out = Some r -> m <= r.2 - r.1) \/
     exists r, concat pieces = out ++ [r] /\ r.2 - r.1 < m).
Proof.
  intros Hm Hi Hf. unfold get_ranges_to_prove_by_blocks.
  assert (Hp : exists pieces,
      mapM (fun r => blocks_loop fuel r.1 r.2 m) rs = Some pieces /\
      Forall2 (piece_of m) rs pieces).
  { revert Hi. induction Hf as [|[a b] rs Hr Hf IH]; intros Hi; [by exists []|].
    apply Forall_cons in Hi as [Ha Hi]. destruct (IH Hi) as (ps & IH1 & IH2).
    destruct (blocks_loop_piece fuel a b m Hm Ha Hr) as (p & Hp & Hpo).
    exists (p :: ps). cbn. rewrite Hp. cbn. rewrite IH1. cbn. by split; [|constructor]. }
  destruct Hp as (ps & -> & HF). cbn. eexists _, ps. split; [done|]. split; [done|].
  unfold drop_short_last. destruct (last (concat ps)) as [[s e]|] eqn:Hl.
  - apply last_Some in Hl as [l Hl]. destruct (cuts_within rs ps s e) as (r & Hr & Hw).
    { eapply Forall2_impl; [exact HF|]. by intros r p [Hc _]. }
    { rewrite Hl; set_solver. }
    rewrite Forall_forall in Hi. pose proof (Hi r Hr) as Hb. unfold plannable in Hb. cbn [fst snd].
    rewrite Hl, as_i64_small by lia. destruct (Z.ltb_spec (e - s) m).
    + right. exists (s, e). by rewrite removelast_last.
    + left. split; [done|]. intros r'. rewrite last_snoc. intros [= <-]. done.
  - left. split; [done|]. rewrite Hl. done.
Qed.

Lemma by_blocks_partition_witness :
  exists out pieces, get_ranges_to_prove_by_blocks 100 [(0, 50); (100, 200); (200, 210)] 25 = Some out /\
    Forall2 (piece_of 25) [(0, 50); (100, 200); (200, 210)] pieces /\
    ((out = concat pieces /\ forall r, last out = Some r -> 25 <= r.2 - r.1) \/
     exists r, concat pieces = out ++ [r] /\ r.2 - r.1 < 25).
Proof.
  apply (by_blocks_partition 100 [(0, 50); (100, 200); (200, 210)] 25); [lia|..];
    repeat constructor; cbn; unfold i64_max; lia.
Defined.

(** With an interval of zero blocks the loop would never end; the binary
    refuses a configuration whose interval and gas limit are both zero. *)
Lemma by_blocks_zero_interval_diverges fuel start end_ :
  in_i64 (start, end_) -> start < end_ -> get_ranges_to_prove_by_blocks fuel [(start, end_)] 0 = None.
Proof.
  intros Hi Hlt. unfold get_ranges_to_prove_by_blocks; cbn. by rewrite blocks_loop_stuck.
Qed.

(** Less than an interval below [i64::MAX] the sum wraps around, and the plan
    runs backwards: the bound of [by_blocks_partition] is needed. *)
Example by_blocks_wraps :
  get_ranges_to_prove_by_blocks 3 [(i64_max - 5, i64_max - 4)] ((2 ^ 64 + 2) / 3) =
    Some [(i64_max - 5, -3074457345618258608); (-3074457345618258608, 3074457345618258598)].
Proof. vm_compute. reflexivity. Qed.

(** ** [get_ranges_to_prove_by_gas] *)

(** [op_succinct_host_utils::fetcher::BlockInfo]. *)
Record BlockInfo := {
  block_number : Z;
  transaction_count : Z;
  gas_used : Z;
  total_l1_fees : Z;
  total_tx_fees : Z;
}.

Section by_gas.
Context (evm_gas_limit range_proof_interval : Z) (block_infos : gmap Z BlockInfo).

(** The [for block_num in (start + 1)..=end] loop and the push after it. *)
Fixpoint gas_loop (blocks : list Z) (end_ current_start accumulated_gas : Z)
    : outcome (list (Z * Z)) :=
  match blocks with
  | [] => Ok (if current_start <? end_ then [(current_start, end_)] else [])
  | block_num :: rest =>
      info ← with_context "Missing BlockInfo for block" (block_infos !! block_num);
      if negb (as_i64 (block_number info) =? block_num)
      then Err "BlockInfo has inconsistent block number"
      else if ((0 <? accumulated_gas) &&
               (evm_gas_limit <? wrap64 (accumulated_gas + gas_used info))) ||
              ((0 <? range_proof_interval) &&
               (range_proof_interval <? as_i64 (block_num - current_start)))
      then
        ranges ← gas_loop rest end_ (as_i64 (block_num - 1)) (gas_used info);
        Ok ((current_start, as_i64 (block_num - 1)) :: ranges)
      else gas_loop rest end_ current_start (wrap64 (accumulated_gas + gas_used info))
  end.

Fixpoint gas_ranges (disjoint_ranges : list (Z * Z)) : outcome (list (Z * Z)) :=
  match disjoint_ranges with
  | [] => Ok []
  | (start, end_) :: rest =>
      let first := as_i64 (start + 1) in
      here ← gas_loop (seqZ first (end_ + 1 - first)) end_ start 0;
      later ← gas_ranges rest;
      Ok (here ++ later)
  end.

(** [Range::is_empty] of the last range. *)
Definition drop_empty_last (ranges : list (Z * Z)) : list (Z * Z) :=
  match last ranges with
  | Some r => if r.2 <=? r.1 then removelast ranges else ranges
  | None => ranges
  end.

Definition get_ranges_to_prove_by_gas (disjoint_ranges : list (Z * Z))
    : outcome (list (Z * Z)) :=
  ranges ← gas_ranges disjoint_ranges; Ok (drop_empty_last ranges).

Definition gas_at (n : Z) : Z :=
  match block_infos !! n with Some i => gas_used i | None => 0 end.

(** Gas of the blocks [s < n <= e]. *)
Definition gas_between (s e : Z) : Z := foldr Z.add 0 (gas_at <$> seqZ (s + 1) (e - s)).

(** A planned range respects the interval, and the gas limit unless all its
    gas is in its last block, which then exceeds the limit by itself. *)
Definition range_ok (r : Z * Z) : Prop :=
  (0 < range_proof_interval -> r.2 - r.1 <= range_proof_interval) /\
  (gas_between r.1 r.2 <= evm_gas_limit \/ gas_between r.1 (r.2 - 1) = 0).

(** A range that could not have taken the next block as well. *)
Definition full (r : Z * Z) : Prop :=
  (0 < gas_between r.1 r.2 /\ evm_gas_limit < gas_between r.1 (r.2 + 1)) \/
  (0 < range_proof_interval /\ range_proof_interval < r.2 + 1 - r.1).

Lemma full_cons r l : full r -> Forall full (removelast l) -> Forall full (removelast (r :: l)).
Proof. intros Hr Hl. destruct l; cbn; [done|]. by constructor. Qed.

Lemma gas_between_nil s e : e <= s -> gas_between s e = 0.
Proof. intros. unfold gas_between. by rewrite seqZ_nil by lia. Qed.

Lemma foldr_add_snoc l x : foldr Z.add 0 (l ++ [x]) = foldr Z.add 0 l + x.
Proof. induction l; cbn; lia. Qed.

Lemma gas_between_S s e : s <= e -> gas_between s (e + 1) = gas_between s e + gas_at (e + 1).
Proof.
  intros. unfold gas_between. replace (e + 1 - s) with ((e - s) + 1) by lia.
  rewrite seqZ_app by lia. rewrite fmap_app.
  replace (s + 1 + (e - s)) with (e + 1) by lia.
  rewrite (seqZ_cons (e + 1)), (seqZ_nil _ (Z.pred 1)) by lia. apply foldr_add_snoc.
Qed.

Lemma drop_empty_last_id l : (forall s e, (s, e) ∈ l -> s < e) -> drop_empty_last l = l.
Proof.
  intros Hne. unfold drop_empty_last. destruct (last l) as [[s e]|] eqn:Hl; [|done].
  apply last_Some in Hl as [l' ->]. cbn.
  destruct (Z.leb_spec e s); [|done]. specialize (Hne s e). set_solver by lia.
Qed.

(** Whatever the gas figures, a successful plan cuts its ranges. *)
Lemma gas_loop_cut k b cur acc l :
  0 <= cur <= b -> b + Z.of_nat k <= i64_max -> (cur = b -> acc = 0) ->
  gas_loop (seqZ (b + 1) (Z.of_nat k)) (b + Z.of_nat k) cur acc = Ok l ->
  chain cur l (b + Z.of_nat k).
Proof.
  revert b cur acc l. induction k as [|k IH]; intros b cur acc l Hcur Hmax Hz.
  { cbn. rewrite Z.add_0_r. intros [= <-]. destruct (Z.ltb_spec cur b); cbn; lia. }
  rewrite Nat2Z.inj_succ, seqZ_cons by lia.
  replace (Z.succ (b + 1)) with ((b + 1) + 1) by lia.
  replace (Z.pred (Z.succ (Z.of_nat k))) with (Z.of_nat k) by lia.
  replace (b + Z.succ (Z.of_nat k)) with (b + 1 + Z.of_nat k) by lia.
  cbn [gas_loop]. rewrite !as_i64_small by lia. intros H. ok_inv.
  destruct (negb _); [done|]. destruct (_ || _) eqn:Hsplit; [ok_inv; subst l|].
  - replace (b + 1 - 1) with b in * by lia.
    assert (Hlt : cur < b).
    { apply orb_true_iff in Hsplit as [Ha|Ha]; apply andb_true_iff in Ha as [Ha1 Ha2];
        rewrite Z.ltb_lt in Ha1, Ha2; [|lia].
      destruct (decide (cur = b)); [|lia]. specialize (Hz ltac:(done)). lia. }
    cbn. split_and!; [done..|].
    match goal with H : gas_loop _ _ _ _ = Ok _ |- _ => apply IH in H; [done|lia..] end.
  - apply IH in H; [done|lia..].
Qed.

Lemma gas_ranges_cut rs l : Forall nonempty rs -> Forall in_i64 rs -> gas_ranges rs = Ok l ->
  exists ps, l = concat ps /\ Forall2 cut rs ps.
Proof.
  intros Hn. revert l. induction Hn as [|[s e] rs Hr Hn IH]; intros l Hi; cbn [gas_ranges]; intros H.
  - injection H as <-. by exists [].
  - apply Forall_cons in Hi as [Hse Hi]. unfold in_i64 in Hse. cbn [fst snd] in Hse.
    cbv zeta in H. rewrite as_i64_small in H by lia.
    ok_inv. subst l. destruct (IH _ Hi ltac:(eassumption)) as (ps & -> & HF).
    eexists (_ :: ps). split; [done|]. constructor; [|done].
    unfold nonempty in Hr. cbn in Hr. unfold cut. cbn [fst snd]. rewrite Z.max_r by lia.
    match goal with H : gas_loop (seqZ _ _) _ _ _ = Ok _ |- _ => revert H end.
    replace (e + 1 - (s + 1)) with (e - s) by lia.
    replace (e - s) with (Z.of_nat (Z.to_nat (e - s))) by lia.
    replace e with (s + Z.of_nat (Z.to_nat (e - s))) at 2 3 by lia. apply gas_loop_cut; lia.
Qed.

Lemma gas_cut rs out : Forall nonempty rs -> Forall in_i64 rs -> get_ranges_to_prove_by_gas rs = Ok out ->
  exists ps, out = concat ps /\ Forall2 cut rs ps.
Proof.
  unfold get_ranges_to_prove_by_gas. intros Hn Hi H. ok_inv. subst out.
  match goal with H : gas_ranges _ = Ok _ |- _ =>
    destruct (gas_ranges_cut _ _ Hn Hi H) as (ps & -> & HF) end.
  exists ps. split; [|done]. apply drop_empty_last_id. intros s e. by apply cuts_nonempty with rs.
Qed.

(** No planned range is longer than a positive interval. *)
Lemma gas_loop_short k b cur acc l :
  0 < range_proof_interval -> 0 <= cur <= b -> b - cur <= range_proof_interval -> b + Z.of_nat k <= i64_max ->
  gas_loop (seqZ (b + 1) (Z.of_nat k)) (b + Z.of_nat k) cur acc = Ok l -> Forall (short range_proof_interval) l.
Proof.
  intros Hm. revert b cur acc l. induction k as [|k IH]; intros b cur acc l Hcur Hlen Hmax.
  { cbn. rewrite Z.add_0_r. intros [= <-]. destruct (Z.ltb_spec cur b); [|done].
    apply Forall_cons. split; [exact Hlen|by apply Forall_nil]. }
  rewrite Nat2Z.inj_succ, seqZ_cons by lia.
  replace (Z.succ (b + 1)) with ((b + 1) + 1) by lia.
  replace (Z.pred (Z.succ (Z.of_nat k))) with (Z.of_nat k) by lia.
  replace (b + Z.succ (Z.of_nat k)) with (b + 1 + Z.of_nat k) by lia.
  cbn [gas_loop]. rewrite !as_i64_small by lia. intros H. ok_inv.
  destruct (negb _); [done|]. destruct (_ || _) eqn:Hsplit; [ok_inv; subst l|].
  - replace (b + 1 - 1) with b in * by lia. constructor; [exact Hlen|].
    match goal with H : gas_loop _ _ _ _ = Ok _ |- _ => apply IH in H; [done|lia..] end.
  - apply orb_false_iff in Hsplit as [_ Hs]. rewrite (proj2 (Z.ltb_lt _ _) Hm) in Hs. apply Z.ltb_ge in Hs.
    apply IH in H; [done|lia..].
Qed.

Lemma gas_short rs out : 0 < range_proof_interval -> Forall nonempty rs -> Forall in_i64 rs ->
  get_ranges_to_prove_by_gas rs = Ok out -> Forall (short range_proof_interval) out.
Proof.
  intros Hm Hn Hi H. unfold get_ranges_to_prove_by_gas in H. ok_inv. subst out.
  match goal with H : gas_ranges _ = Ok ?l |- _ => enough (HF : Forall (short range_proof_interval) l); [|revert H; generalize l] end.
  { unfold drop_empty_last. case_match; [|done]. case_match; [by apply Forall_removelast|done]. }
  revert Hi. induction Hn as [|[s e] rs Hr Hn IH]; intros Hi l; cbn [gas_ranges]; intros H; [by injection H as <-|].
  apply Forall_cons in Hi as [Hse Hi]. unfold in_i64 in Hse. cbn [fst snd] in Hse.
  cbv zeta in H. rewrite as_i64_small in H by lia. ok_inv. subst l.
  apply Forall_app. split; [|by apply IH]. unfold nonempty in Hr. cbn in Hr.
  match goal with H : gas_loop (seqZ _ _) _ _ _ = Ok _ |- _ => revert H end.
  replace (e + 1 - (s + 1)) with (Z.of_nat (Z.to_nat (e - s))) by lia.
  replace e with (s + Z.of_nat (Z.to_nat (e - s))) at 2 by lia. apply gas_loop_short; lia.
Qed.

Context (G : Z) (Hlimit : 0 <= evm_gas_limit) (HG : evm_gas_limit + G + G <= u64_max).
Context (Hgas : forall n i, block_infos !! n = Some i -> 0 <= gas_used i <= G).

Lemma gas_loop_spec k end_ b cur acc l :
  0 <= G -> end_ = b + Z.of_nat k -> 0 <= cur <= b -> end_ <= i64_max ->
  acc = gas_between cur b -> 0 <= acc <= evm_gas_limit + G ->
  (cur = b -> acc = 0) ->
  (cur < b -> range_ok (cur, b)) ->
  gas_loop (seqZ (b + 1) (Z.of_nat k)) end_ cur acc = Ok l ->
  chain cur l end_ /\ Forall range_ok l /\ Forall full (removelast l).
Proof.
  intros HG0. revert b cur acc l.
  induction k as [|k IH]; intros b cur acc l Hend Hcur Hmax Hacc Hb Hz Hok.
  { cbn. intros [= <-]. assert (end_ = b) as -> by lia.
    destruct (Z.ltb_spec cur b); cbn; [|split; [lia|done]]. split_and!; auto. }
  rewrite Nat2Z.inj_succ, seqZ_cons by lia.
  replace (Z.succ (b + 1)) with ((b + 1) + 1) by lia.
  replace (Z.pred (Z.succ (Z.of_nat k))) with (Z.of_nat k) by lia.
  cbn [gas_loop]. rewrite (as_i64_small (b + 1 - 1)), (as_i64_small (b + 1 - cur)) by lia. intros H. ok_inv.
  match goal with H : block_infos !! _ = Some _ |- _ => rename H into Hi end.
  pose proof (Hgas _ _ Hi) as Hg.
  assert (Hga : gas_at (b + 1) = gas_used x) by (unfold gas_at; by rewrite Hi).
  destruct (Z.eqb_spec (as_i64 (block_number x)) (b + 1)); cbn [negb] in H; [|done].
  rewrite wrap64_small in H by (unfold is_u64; lia).
  pose proof (gas_between_S cur b (proj2 Hcur)) as HS.
  destruct (_ || _) eqn:Hsplit; [ok_inv; subst l|].
  - assert (Hlt : cur < b).
    { apply orb_true_iff in Hsplit as [Ha|Ha]; apply andb_true_iff in Ha as [Ha1 Ha2];
        rewrite Z.ltb_lt in Ha1, Ha2; [|lia].
      destruct (decide (cur = b)); [|lia]. specialize (Hz ltac:(done)). lia. }
    match goal with H : gas_loop _ _ _ _ = Ok _ |- _ => rename H into Hrec end.
    replace (b + 1 - 1) with b in * by lia.
    assert (Hfull : full (cur, b)).
    { unfold full. cbn [fst snd]. apply orb_true_iff in Hsplit as [Ha|Ha]; apply andb_true_iff in Ha as [Ha1 Ha2];
        rewrite Z.ltb_lt in Ha1, Ha2; [left|right]; lia. }
    apply (IH (b + 1)) in Hrec as (Hc & Hf & Hm); try lia.
    + cbn [chain]. split; [done|]. split; [constructor; auto|by apply full_cons].
    + rewrite gas_between_S, gas_between_nil by lia. lia.
    + intros _. split; cbn; [lia|]. right. apply gas_between_nil. lia.
  - apply orb_false_iff in Hsplit as [H1 H2].
    apply (IH (b + 1)) in H; try lia; [exact H|]. intros _. split; cbn.
    + intros Hp. apply andb_false_iff in H2. rewrite !Z.ltb_ge in H2. lia.
    + apply andb_false_iff in H1. rewrite !Z.ltb_ge in H1.
      replace (b + 1 - 1) with b by lia. destruct H1; [right|left]; lia.
Qed.

(** What the planner makes of one input range. *)
Definition gas_piece (r : Z * Z) (p : list (Z * Z)) : Prop :=
  chain r.1 p (Z.max r.1 r.2) /\ Forall range_ok p /\ Forall full (removelast p).

Lemma gas_loop_piece start end_ l :
  0 <= G -> in_i64 (start, end_) ->
  gas_loop (seqZ (start + 1) (end_ - start)) end_ start 0 = Ok l -> gas_piece (start, end_) l.
Proof.
  intros HG0 [Hi1 Hi2] H. unfold gas_piece; cbn [fst snd] in *. destruct (decide (start <= end_)).
  - rewrite Z.max_r by lia. replace (end_ - start) with (Z.of_nat (Z.to_nat (end_ - start))) in H by lia.
    eapply (gas_loop_spec (Z.to_nat (end_ - start)) end_ start start 0); try done; try lia.
    by rewrite gas_between_nil by lia.
  - rewrite Z.max_l by lia. rewrite seqZ_nil in H by lia. cbn in H.
    destruct (Z.ltb_spec start end_); [lia|]. injection H as <-. by split_and!.
Qed.

Lemma gas_ranges_pieces rs l :
  0 <= G -> Forall in_i64 rs -> gas_ranges rs = Ok l -> exists ps, l = concat ps /\ Forall2 gas_piece rs ps.
Proof.
  intros HG0. revert l. induction rs as [|[s e] rs IH]; intros l Hi; cbn [gas_ranges]; intros H.
  - injection H as <-. by exists [].
  - apply Forall_cons in Hi as [Hse Hi]. pose proof Hse as [Hs He]. cbn [fst snd] in Hs, He.
    cbv zeta in H. rewrite as_i64_small in H by lia. replace (e + 1 - (s + 1)) with (e - s) in H by lia.
    ok_inv. subst l. destruct (IH _ Hi ltac:(eassumption)) as (ps & -> & HF).
    eexists (_ :: ps). split; [done|]. constructor; [|done]. by apply gas_loop_piece.
Qed.

(** C40: whenever the gas-based planner succeeds on ranges of [i64], every input
    range is partitioned into contiguous nonempty ranges, none longer than a
    positive interval. A range stays within the gas limit, or its last block
    alone exceeds the limit and no block before it uses gas: the limit is not a
    bound on every range. Every range but the last of an input range is as long
    as it can be: it uses gas and would exceed the limit with the next block, or
    it would be longer than the interval with it. *)
Theorem by_gas_partition rs out :
  0 <= G -> Forall in_i64 rs -> get_ranges_to_prove_by_gas rs = Ok out ->
  exists pieces, out = concat pieces /\ Forall2 gas_piece rs pieces.
Proof.
  intros HG0 Hi H. unfold get_ranges_to_prove_by_gas in H. ok_inv. subst out.
  match goal with H : gas_ranges _ = Ok _ |- _ =>
    destruct (gas_ranges_pieces _ _ HG0 Hi H) as (ps & -> & HF) end.
  exists ps. split; [|done]. apply drop_empty_last_id. intros s e.
  apply (cuts_nonempty rs ps).
  eapply Forall2_impl; [exact HF|]. by intros r p [Hc _].
Qed.
End by_gas.

(** Blocks [1..n] with the given gas. *)
Definition sample_infos (gas : list Z) : gmap Z BlockInfo :=
  list_to_map (imap (fun i g => (Z.of_nat i + 1,
    {| block_number := Z.of_nat i + 1; transaction_count := 10; gas_used := g;
       total_l1_fees := 1000; total_tx_fees := 2000 |})) gas).

(** The last range of the second plan uses 150 gas, over the limit of 100. *)
Lemma by_gas_partition_witness :
  (let infos := sample_infos [50; 20; 40; 10; 60] in
   get_ranges_to_prove_by_gas 100 600 infos [(0, 5)] = Ok [(0, 2); (2, 4); (4, 5)] /\
   exists pieces, [(0, 2); (2, 4); (4, 5)] = concat pieces /\
     Forall2 (gas_piece 100 600 infos) [(0, 5)] pieces) /\
  (let infos := sample_infos [0; 0; 150] in
   get_ranges_to_prove_by_gas 100 600 infos [(0, 3)] = Ok [(0, 3)] /\ gas_between infos 0 3 = 150 /\
   exists pieces, [(0, 3)] = concat pieces /\ Forall2 (gas_piece 100 600 infos) [(0, 3)] pieces).
Proof.
  split; cbv zeta.
  - split; [vm_compute; reflexivity|].
    apply (by_gas_partition 100 600 (sample_infos [50; 20; 40; 10; 60]) 60);
      [lia|unfold u64_max; lia| |lia|repeat constructor; cbn; unfold i64_max; lia|vm_compute; reflexivity].
    intros n i Hi. apply elem_of_list_to_map_2 in Hi. cbn in Hi.
    repeat (apply elem_of_cons in Hi as [Hi|Hi]; [injection Hi as -> ->; cbn; lia|]).
    by apply elem_of_nil in Hi.
  - split; [vm_compute; reflexivity|]. split; [vm_compute; reflexivity|].
    apply (by_gas_partition 100 600 (sample_infos [0; 0; 150]) 150);
      [lia|unfold u64_max; lia| |lia|repeat constructor; cbn; unfold i64_max; lia|vm_compute; reflexivity].
    intros n i Hi. apply elem_of_list_to_map_2 in Hi. cbn in Hi.
    repeat (apply elem_of_cons in Hi as [Hi|Hi]; [injection Hi as -> ->; cbn; lia|]).
    by apply elem_of_nil in Hi.
Defined.
