(* ===== verification/FaultTypes.v ===== *)
(** * Data of the fault-proof services, and what they read from the chains

    The enums and structs of [fault-proof/src/contract.rs] and [lib.rs], the
    L1 reads the services make through RPC ([L1Rpc]) and the L2 ones ([L2Rpc]).
    An operation runs against one answer per request: a request that names its
    block by hash always has one, and the operations here do not repeat a
    [latest] request whose answer could have moved. *)

From S2P Require Import Prelude.

(** ** Identifiers: [Address], [B256] and [U256] are numbers. *)
Definition ZERO : Z := 0.
Definition Address_ZERO : Z := 0.

(** [u32::MAX] as a parent index: the game is rooted in the anchor state. *)
Definition GENESIS_PARENT : Z := u32_max.

Inductive GameStatus :=
| IN_PROGRESS
| CHALLENGER_WINS
| DEFENDER_WINS
| GameStatus_Invalid.  (** the out-of-range variant the ABI decoder adds *)
#[global] Instance GameStatus_eq_dec : EqDecision GameStatus.
Proof. solve_decision. Defined.

Inductive ProposalStatus :=
| Unchallenged
| Challenged
| UnchallengedAndValidProofProvided
| ChallengedAndValidProofProvided
| Resolved
| ProposalStatus_Invalid.
#[global] Instance ProposalStatus_eq_dec : EqDecision ProposalStatus.
Proof. solve_decision. Defined.

Record ClaimData := {
  parentIndex : Z;
  counteredBy : Z;
  claim_prover : Z;
  claim : Z;
  claim_status : ProposalStatus;
  claim_deadline : Z;
}.

(** [BondDistributionMode.UNDECIDED], and the cap on close attempts. *)
Definition BOND_DISTRIBUTION_MODE_UNDECIDED : Z := 0.
Definition MAX_CLOSE_GAME_FAILURES : Z := 5.

(** ** Blocks *)

Record Header := {
  h_number : Z;
  h_hash : Z;
  h_parent_hash : Z;
  h_timestamp : Z;
}.
#[global] Instance Header_eq_dec : EqDecision Header.
Proof. solve_decision. Defined.

(** [alloy_eips::BlockNumHash]. *)
Record BlockNumHash := { bn_number : Z; bn_hash : Z }.
#[global] Instance BlockNumHash_eq_dec : EqDecision BlockNumHash.
Proof. solve_decision. Defined.

Inductive BlockNumberOrTag := Latest | Finalized | Number (n : Z).

(** [BlockId]: a read at the latest block, or pinned by canonical hash. *)
Inductive BlockId := AtLatest | AtHash (h : Z).

(** ** Reads of the L1 node and of the dispute contracts *)

Class L1Rpc := {
  get_block_by_number : BlockNumberOrTag -> outcome (option Header);
  get_block_by_hash : Z -> outcome (option Header);
  (** DisputeGameFactory *)
  gameImpls : Z -> outcome Z;
  initBonds : Z -> outcome Z;
  gameCount : BlockId -> outcome Z;
  gameAtIndex : Z -> BlockId -> outcome (Z * Z);  (** game type, proxy *)
  factory_games : Z -> Z -> list Z -> BlockId -> outcome Z;  (** proxy *)
  (** AnchorStateRegistry *)
  getAnchorRoot : BlockId -> outcome Z;  (** the L2 block number *)
  isGameFinalized : Z -> BlockId -> outcome bool;
  anchorGame : BlockId -> outcome Z;
  respectedGameType : outcome Z;
  (** OPSuccinctFaultDisputeGame at an address *)
  gameType : Z -> BlockId -> outcome Z;
  gameCreator : Z -> BlockId -> outcome Z;
  l2BlockNumber : Z -> BlockId -> outcome Z;
  startingBlockNumber : Z -> outcome Z;
  rootClaim : Z -> BlockId -> outcome Z;
  l1Head : Z -> BlockId -> outcome Z;
  status_of : Z -> BlockId -> outcome GameStatus;
  claimData : Z -> BlockId -> outcome ClaimData;
  wasRespectedGameTypeWhenCreated : Z -> BlockId -> outcome bool;
  maxChallengeDuration : Z -> outcome Z;
  maxProveDuration : Z -> outcome Z;
  anchorStateRegistry : Z -> BlockId -> outcome Z;
  challengerBond : Z -> outcome Z;
  aggregationVkey : Z -> BlockId -> outcome Z;
  rangeVkeyCommitment : Z -> BlockId -> outcome Z;
  rollupConfigHash : Z -> BlockId -> outcome Z;
  bondDistributionMode : Z -> BlockId -> outcome Z;
  credit : Z -> Z -> BlockId -> outcome Z;  (** game, recipient *)
}.

(** [FactoryTrait::game_impl] *)
Definition game_impl `{L1Rpc} (game_type : Z) : outcome Z :=
  game_impl_address ← gameImpls game_type;
  if game_impl_address =? Address_ZERO
  then Err "Game type is not registered in the factory"
  else Ok game_impl_address.

(** [FactoryTrait::fetch_init_bond] *)
Definition fetch_init_bond `{L1Rpc} (game_type : Z) : outcome Z := initBonds game_type.

(** [FactoryTrait::fetch_latest_game_index] *)
Definition fetch_latest_game_index `{L1Rpc} (block : BlockId) : outcome (option Z) :=
  game_count ← gameCount block;
  if game_count =? 0 then Ok None else Ok (Some (game_count - 1)).

Definition is_parent_resolved `{L1Rpc} (parent_index : Z) (pinned_block : BlockId)
    : outcome bool :=
  if parent_index =? GENESIS_PARENT then Ok true
  else
    parent ← gameAtIndex parent_index pinned_block;
    status ← status_of parent.2 pinned_block;
    Ok (negb (bool_decide (status = IN_PROGRESS))).

Definition is_parent_challenger_wins `{L1Rpc} (parent_index : Z) (pinned_block : BlockId)
    : outcome bool :=
  if parent_index =? GENESIS_PARENT then Ok false
  else
    parent ← gameAtIndex parent_index pinned_block;
    status ← status_of parent.2 pinned_block;
    Ok (bool_decide (status = CHALLENGER_WINS)).

(** ** L2 reads *)

Record L2Header := {
  l2_number : Z;
  l2_hash : Z;
  l2_state_root : Z;
  l2_withdrawals_root : option Z;
}.

Class L2Rpc := {
  l2_header_by_number : BlockNumberOrTag -> outcome (option L2Header);
  (** [eth_getProof] of the message passer at a block: its storage root *)
  l2_storage_root : Z -> outcome Z;
  (** [keccak256] of the ABI encoding of an [L2Output] *)
  keccak_l2_output : Z -> Z -> Z -> Z -> Z;
  EMPTY_ROOT_HASH : Z;
}.

(** [checked_l2_block_number]: [u64::try_from] of a [U256]. *)
Definition checked_l2_block_number (l2_block_number : Z) : outcome Z :=
  if u64_max <? l2_block_number then Err "L2 block number exceeds u64::MAX"
  else Ok l2_block_number.

(** [L2ProviderTrait::get_l2_header_by_number] *)
Definition get_l2_header_by_number `{L2Rpc} (n : BlockNumberOrTag) : outcome L2Header :=
  header ← l2_header_by_number n;
  with_context "Failed to get L2 block header by number" header.

(** [L2ProviderTrait::compute_output_root_at_block] *)
Definition compute_output_root_at_block `{L2Rpc} (l2_block_number : Z) : outcome Z :=
  number ← checked_l2_block_number l2_block_number;
  l2_header ← get_l2_header_by_number (Number number);
  l2_storage_root ←
    match l2_withdrawals_root l2_header with
    | Some root => if root =? EMPTY_ROOT_HASH then l2_storage_root number else Ok root
    | None => l2_storage_root number
    end;
  Ok (keccak_l2_output 0 (l2_state_root l2_header) l2_storage_root (l2_hash l2_header)).

(** ** Errors that mark a reverted transaction *)

Definition TX_REVERTED_PREFIX : string := "transaction reverted:".

(** [TxErrorExt::is_revert]: [to_string().starts_with(TX_REVERTED_PREFIX)]. *)
Definition is_revert (error : string) : bool := String.prefix TX_REVERTED_PREFIX error.

(** What a submitted transaction asks of a contract. *)
Inductive TxRequest :=
| TxCreate (game_type output_root : Z) (extra_data : list Z) (value : Z)
| TxResolve (game : Z)
| TxClose (game : Z) (sender : Z)
| TxClaimCredit (game claimant : Z)
| TxChallenge (game : Z) (value : Z)
| TxProve (game : Z) (proof : Z).

(** The receipt of an included transaction: did it succeed, and its block. *)
Record Receipt := {
  r_status : bool;
  r_block_number : option Z;
  r_created_game : option Z;  (** the [DisputeGameCreated] log, if any *)
  r_hash : Z;
}.

(** The signer and its gas estimates. [send] answers the [k]-th submission:
    it fails when the transaction is not confirmed in time. *)
Class Wallet := {
  signer_address : Z;
  estimate_gas : TxRequest -> outcome Z;
  send_transaction : nat -> TxRequest -> outcome Receipt;
}.

(** [if !receipt.status() { bail!("{TX_REVERTED_PREFIX} {receipt:?}") }] *)
Definition check_receipt (receipt : Receipt) : outcome Receipt :=
  if r_status receipt then Ok receipt else Err (TX_REVERTED_PREFIX +:+ " receipt").

(** [claim_credit_transaction] and [close_game_transaction]: no request is
    built when the gas estimate fails. *)
Definition claim_credit_transaction `{Wallet} (game claimant : Z) : outcome TxRequest :=
  let call := TxClaimCredit game claimant in
  _ ← estimate_gas call; Ok call.
Definition close_game_transaction `{Wallet} (game sender : Z) : outcome TxRequest :=
  let call := TxClose game sender in
  _ ← estimate_gas call; Ok call.

(** ** Deadlines *)

Definition MAX_GAME_DEADLINE_LAG : Z := 60 * 60 * 24 * 14.
Definition DEADLINE_WARNING_DIVISOR : Z := 2.

Inductive DeadlineStatus :=
| DeadlinePassed
| DeadlineApproaching (seconds_remaining : Z)  (** the source divides by 3600.0 to log hours *)
| DeadlineOk.
#[global] Instance DeadlineStatus_eq_dec : EqDecision DeadlineStatus.
Proof. solve_decision. Defined.

Definition check_deadline_status (now deadline max_duration : Z) : DeadlineStatus :=
  if deadline <=? now then DeadlinePassed
  else
    let time_remaining := saturating_sub deadline now in
    let warning_threshold := max_duration / DEADLINE_WARNING_DIVISOR in
    if time_remaining <? warning_threshold then DeadlineApproaching time_remaining
    else DeadlineOk.

(** the output root of an L2 block is computed from its own header, and
    from the header's withdrawals root alone whenever that is present and not
    the empty root; a block number above [u64::MAX] never reaches the node. *)
Theorem output_root_sources `{L2Rpc} n root :
  compute_output_root_at_block n = Ok root ->
  n <= u64_max /\ exists h storage,
    l2_header_by_number (Number n) = Ok (Some h) /\
    root = keccak_l2_output 0 (l2_state_root h) storage (l2_hash h) /\
    (l2_withdrawals_root h = Some storage /\ storage <> EMPTY_ROOT_HASH \/
     (l2_withdrawals_root h = None \/ l2_withdrawals_root h = Some EMPTY_ROOT_HASH) /\
      l2_storage_root n = Ok storage).
Proof.
  unfold compute_output_root_at_block, checked_l2_block_number, get_l2_header_by_number.
  destruct (Z.ltb_spec u64_max n); [done|]. intros Hr. ok_inv. subst.
  split; [lia|]. repeat match goal with H : Ok _ = Ok _ |- _ => injection H as <- end.
  eexists _, _. split; [done|]. split; [done|].
  match goal with H : match l2_withdrawals_root ?h with _ => _ end = _ |- _ =>
    destruct (l2_withdrawals_root h) as [w|] eqn:Hw; [|by eauto] end.
  destruct (Z.eqb_spec w EMPTY_ROOT_HASH) as [->|]; naive_solver.
Qed.

(** A node for running the model: block [n] has state root [n + 1]; an Isthmus
    header carries root 7, block 0 predates it. *)
Definition sample_l2 : L2Rpc := {|
  l2_header_by_number t :=
    match t with
    | Number n => Ok (Some {| l2_number := n; l2_hash := n * 10; l2_state_root := n + 1;
                              l2_withdrawals_root := if n =? 0 then None else Some 7 |})
    | _ => Ok None
    end;
  l2_storage_root n := Ok (n + 5);
  keccak_l2_output z s st h := z + s + 1000 * st + 1000000 * h;
  EMPTY_ROOT_HASH := 9;
|}.

Lemma output_root_sources_witness :
  compute_output_root_at_block (H := sample_l2) 3 = Ok 30007004 /\
  3 <= u64_max /\ exists h storage,
    l2_header_by_number (L2Rpc := sample_l2) (Number 3) = Ok (Some h) /\
    30007004 = keccak_l2_output (L2Rpc := sample_l2) 0 (l2_state_root h) storage (l2_hash h) /\
    (l2_withdrawals_root h = Some storage /\ storage <> EMPTY_ROOT_HASH (L2Rpc := sample_l2) \/
     (l2_withdrawals_root h = None \/
      l2_withdrawals_root h = Some (EMPTY_ROOT_HASH (L2Rpc := sample_l2))) /\
      l2_storage_root (L2Rpc := sample_l2) 3 = Ok storage).
Proof.
  split; [vm_compute; reflexivity|].
  apply (@output_root_sources sample_l2). vm_compute. reflexivity.
Defined.

(** Exactly the three cases of [check_deadline_status], at their boundaries. *)
Lemma check_deadline_status_spec now deadline max_duration :
  check_deadline_status now deadline max_duration =
    if decide (deadline <= now) then DeadlinePassed
    else if decide (deadline - now < max_duration / 2)
    then DeadlineApproaching (deadline - now) else DeadlineOk.
Proof.
  unfold check_deadline_status, saturating_sub, DEADLINE_WARNING_DIVISOR.
  destruct (Z.leb_spec deadline now); case_decide; try lia; [done|].
  rewrite Z.max_r by lia. destruct (Z.ltb_spec (deadline - now) (max_duration / 2));
    case_decide; (done || lia).
Qed.

(** ** A small L1 for running the model

    Block [n] of the chain has hash [1000 + n]; the factory lists [gs]. *)

Record SampleGame := {
  sg_address : Z; sg_parent : Z; sg_block : Z; sg_status : GameStatus;
  sg_proposal_status : ProposalStatus; sg_deadline : Z; sg_mode : Z; sg_credit : Z;
  sg_creator : Z; sg_claim : option Z;  (** [None]: the right root *)
}.

Definition sample_header (n : Z) : Header :=
  {| h_number := n; h_hash := 1000 + n; h_parent_hash := 999 + n; h_timestamp := 12 * n |}.

Definition sample_find (gs : list SampleGame) (a : Z) : outcome SampleGame :=
  with_context "execution reverted" (List.find (fun g => sg_address g =? a) gs).

Definition sample_l1 (tip finalized anchor : Z) (gs : list SampleGame) : L1Rpc := {|
  get_block_by_number t :=
    match t with
    | Latest => Ok (Some (sample_header tip))
    | Finalized => Ok (Some (sample_header finalized))
    | Number n => Ok (if n <=? tip then Some (sample_header n) else None)
    end;
  get_block_by_hash h := Ok (if h <=? 1000 + tip then Some (sample_header (h - 1000)) else None);
  gameImpls _ := Ok 600;
  initBonds _ := Ok 80;
  gameCount _ := Ok (Z.of_nat (length gs));
  gameAtIndex i _ := g ← with_context "execution reverted" (gs !! Z.to_nat i);
                     Ok (42, sg_address g);
  factory_games _ _ extra _ :=
    Ok (default 0 (sg_address <$> List.find (fun g => bool_decide (Some (sg_block g) = head extra)) gs));
  getAnchorRoot _ := Ok 5;
  isGameFinalized _ _ := Ok true;
  anchorGame _ := Ok anchor;
  respectedGameType := Ok 42;
  gameType _ _ := Ok 42;
  gameCreator a _ := sg_creator <$> sample_find gs a;
  l2BlockNumber a _ := sg_block <$> sample_find gs a;
  startingBlockNumber a := (fun g => sg_block g - 10) <$> sample_find gs a;
  rootClaim a _ := g ← sample_find gs a;
    match sg_claim g with
    | Some c => Ok c
    | None => compute_output_root_at_block (H := sample_l2) (sg_block g)
    end;
  l1Head _ _ := Ok 1000;
  status_of a _ := sg_status <$> sample_find gs a;
  claimData a _ :=
    (fun g => {| parentIndex := sg_parent g; counteredBy := 0; claim_prover := 0; claim := 0;
                 claim_status := sg_proposal_status g; claim_deadline := sg_deadline g |})
      <$> sample_find gs a;
  wasRespectedGameTypeWhenCreated _ _ := Ok true;
  maxChallengeDuration _ := Ok 100;
  maxProveDuration _ := Ok 100;
  anchorStateRegistry _ _ := Ok 500;
  challengerBond _ := Ok 80;
  aggregationVkey _ _ := Ok 1;
  rangeVkeyCommitment _ _ := Ok 2;
  rollupConfigHash _ _ := Ok 3;
  bondDistributionMode a _ := sg_mode <$> sample_find gs a;
  credit a _ _ := sg_credit <$> sample_find gs a;
|}.
