(* ===== verification/GameCache.v ===== *)
(** * The proposer's cache of dispute games

    [Game], [ProposerState], [Cursor] and the backup of
    [fault-proof/src/proposer.rs] and [backup.rs]. *)

From S2P Require Import Prelude FaultTypes.

Record ProposerIdentity := {
  id_aggregation_vkey : Z;
  id_range_vkey_commitment : Z;
  id_rollup_config_hash : Z;
}.

Record Game := {
  index : Z;
  address : Z;
  parent_index : Z;
  l2_block : Z;
  status : GameStatus;
  proposal_status : ProposalStatus;
  deadline : Z;
  should_attempt_to_resolve : bool;
  should_attempt_to_close_game : bool;
  should_attempt_to_claim_bond : bool;
  aggregation_vkey : Z;
  range_vkey_commitment : Z;
  rollup_config_hash : Z;
}.
#[global] Instance Game_eq_dec : EqDecision Game.
Proof. solve_decision. Defined.

Definition is_owned (g : Game) (identity : ProposerIdentity) : bool :=
  (aggregation_vkey g =? id_aggregation_vkey identity) &&
  (range_vkey_commitment g =? id_range_vkey_commitment identity) &&
  (rollup_config_hash g =? id_rollup_config_hash identity).

(** The assignments of [GameSyncAction::Update]. *)
Definition update_game (g : Game) (st : GameStatus) (pst : ProposalStatus) (dl : Z)
    (resolve close bond : bool) : Game :=
  {| index := index g; address := address g; parent_index := parent_index g;
     l2_block := l2_block g; status := st; proposal_status := pst; deadline := dl;
     should_attempt_to_resolve := resolve; should_attempt_to_close_game := close;
     should_attempt_to_claim_bond := bond; aggregation_vkey := aggregation_vkey g;
     range_vkey_commitment := range_vkey_commitment g;
     rollup_config_hash := rollup_config_hash g |}.

(** ** [Cursor]: a derived [Ord], in which [None] is below every index. *)

Definition Cursor : Type := option Z.

Definition cursor_lt (a b : Cursor) : bool :=
  match a, b with
  | None, Some _ => true
  | Some i, Some j => i <? j
  | _, None => false
  end.

Definition step_back (c : Cursor) : Cursor :=
  match c with
  | Some idx => if 0 <? idx then Some (saturating_sub idx 1) else None
  | None => None
  end.

(** ** [ProposerState] *)

Record ProposerState := {
  anchor_game : option Game;
  canonical_head_index : option Z;
  canonical_head_l2_block : option Z;
  cursor : Cursor;
  games : gmap Z Game;
  removed_games : gmap Z BlockNumHash;
}.

Definition default_state : ProposerState :=
  {| anchor_game := None; canonical_head_index := None; canonical_head_l2_block := None;
     cursor := None; games := ∅; removed_games := ∅ |}.

Definition set_anchor_game (a : option Game) (s : ProposerState) : ProposerState :=
  {| anchor_game := a; canonical_head_index := canonical_head_index s;
     canonical_head_l2_block := canonical_head_l2_block s; cursor := cursor s;
     games := games s; removed_games := removed_games s |}.
Definition set_head (i b : option Z) (s : ProposerState) : ProposerState :=
  {| anchor_game := anchor_game s; canonical_head_index := i;
     canonical_head_l2_block := b; cursor := cursor s;
     games := games s; removed_games := removed_games s |}.
Definition set_cursor (c : Cursor) (s : ProposerState) : ProposerState :=
  {| anchor_game := anchor_game s; canonical_head_index := canonical_head_index s;
     canonical_head_l2_block := canonical_head_l2_block s; cursor := c;
     games := games s; removed_games := removed_games s |}.
Definition set_cache (gs : gmap Z Game) (r : gmap Z BlockNumHash) (s : ProposerState)
    : ProposerState :=
  {| anchor_game := anchor_game s; canonical_head_index := canonical_head_index s;
     canonical_head_l2_block := canonical_head_l2_block s; cursor := cursor s;
     games := gs; removed_games := r |}.

(** The indices the proposer still tracks: cached, or removed and recoverable. *)
Definition tracked (s : ProposerState) : gset Z := dom (games s) ∪ dom (removed_games s).

(** The cache is keyed by the games' own indices, and an index is either
    cached or recorded as removed. *)
Record wf_state (s : ProposerState) : Prop := {
  wf_keys : forall i g, games s !! i = Some g -> index g = i;
  wf_disjoint : dom (games s) ## dom (removed_games s);
}.

Section cache.
Context {HO : HashOrder}.

(** *** [descendants_of]

    [stack.pop()] takes the end of the vector: the head of the list here is
    its end. The iterations are bounded by a measure that pairs the indices
    not yet reached with the stack. *)

Definition children (gs : list Game) (i : Z) : list Z :=
  index <$> filter (fun g => parent_index g = i) gs.

Fixpoint descend (fuel : nat) (gs : list Game) (stack : list Z) (reachable : gset Z)
    : option (gset Z) :=
  match stack with
  | [] => Some reachable
  | i :: stack' =>
      match fuel with
      | O => None
      | S fuel' =>
          if decide (i ∈ reachable) then descend fuel' gs stack' reachable
          else descend fuel' gs (reverse (children gs i) ++ stack') ({[i]} ∪ reachable)
      end
  end.

Definition descend_fuel (gs : list Game) : nat :=
  (S (length gs) * S (length gs) + 1)%nat.

Definition descendants_of (s : ProposerState) (root_index : Z) : gset Z :=
  let gs := values (games s) in
  default ∅ (descend (descend_fuel gs) gs [root_index] ∅).

(** What it means: the least set with the root, closed under children. *)
Inductive reachable_from (gs : gmap Z Game) (root : Z) : Z -> Prop :=
| reachable_root : reachable_from gs root root
| reachable_child k g :
    gs !! k = Some g -> reachable_from gs root (parent_index g) ->
    reachable_from gs root (index g).

(** *** Removing games *)

Definition remove_game (s : ProposerState) (i : Z) (block : BlockNumHash) : ProposerState :=
  match games s !! i with
  | Some _ => set_cache (delete i (games s)) (<[i := block]> (removed_games s)) s
  | None => s
  end.

Definition remove_games (s : ProposerState) (idxs : list Z) (block : BlockNumHash)
    : ProposerState :=
  foldl (fun s i => remove_game s i block) s idxs.

Definition remove_subtree (s : ProposerState) (root_index : Z) (block : BlockNumHash)
    : ProposerState :=
  remove_games s (iter_set (descendants_of s root_index)) block.

(** *** [select_canonical_head] *)

Definition override_root (reachable : gset Z) (anchor g : Game) : bool :=
  bool_decide (index g ∉ reachable) && (l2_block anchor <? l2_block g) &&
  ((parent_index g =? GENESIS_PARENT) || (parent_index g <? parent_index anchor)).

Definition select_canonical_head (s : ProposerState) : option Game :=
  match anchor_game s with
  | None => max_by_key l2_block (values (games s))
  | Some anchor =>
      let reachable := descendants_of s (index anchor) in
      let anchor_head :=
        max_by_key l2_block (filter (fun g => index g ∈ reachable) (values (games s))) in
      let override_head :=
        head ← anchor_head;
        let roots :=
          index <$> filter (fun g => override_root reachable head g) (values (games s)) in
        max_by_key l2_block
          (omap (fun i => games s !! i)
             (roots ≫= fun root => iter_set (descendants_of s root))) in
      match override_head with Some h => Some h | None => anchor_head end
  end.

(** [compute_canonical_head] *)
Definition compute_canonical_head (s : ProposerState) : ProposerState :=
  match select_canonical_head s with
  | Some head => set_head (Some (index head)) (Some (l2_block head)) s
  | None => set_head None (canonical_head_l2_block s) s
  end.

(** *** [descendants_of] terminates with the reachable set *)

Lemma elem_of_children gs i c :
  c ∈ children gs i <-> exists g, g ∈ gs /\ parent_index g = i /\ index g = c.
Proof.
  unfold children. rewrite list_elem_of_fmap. setoid_rewrite list_elem_of_filter.
  naive_solver.
Qed.

Lemma length_children gs i : (length (children gs i) <= length gs)%nat.
Proof. unfold children. rewrite length_fmap. apply length_filter. Qed.

Lemma descend_terminates fuel gs stack reach (U : gset Z) :
  (forall g, g ∈ gs -> index g ∈ U) -> (forall i, i ∈ stack -> i ∈ U) ->
  (size (U ∖ reach) * S (length gs) + length stack <= fuel)%nat ->
  is_Some (descend fuel gs stack reach).
Proof.
  intros HU. revert stack reach. induction fuel as [|fuel IH];
    intros [|i stack] reach Hst Hf; cbn [descend]; try (by eexists);
    [cbn in Hf; lia|].
  case_decide as Hi.
  - apply IH; [set_solver|]. cbn in Hf. lia.
  - assert (Hsz : (size (U ∖ reach) = S (size (U ∖ ({[i]} ∪ reach))))%nat).
    { assert (Hin : i ∈ U ∖ reach) by (apply elem_of_difference; split; [apply Hst; left|done]).
      replace (U ∖ ({[i]} ∪ reach)) with ((U ∖ reach) ∖ {[i]}) by set_solver.
      assert (Hsub : {[i]} ⊆ U ∖ reach) by set_solver.
      rewrite (size_difference _ _ Hsub), size_singleton.
      apply subseteq_size in Hsub. rewrite size_singleton in Hsub. lia. }
    apply IH.
    + intros j [Hj|Hj]%elem_of_app; [|set_solver].
      rewrite elem_of_reverse, elem_of_children in Hj. naive_solver.
    + rewrite length_app, length_reverse. pose proof (length_children gs i).
      cbn in Hf. lia.
Qed.

Lemma descend_spec fuel gs stack reach R (P : Z -> Prop) :
  descend fuel gs stack reach = Some R ->
  (forall i, i ∈ stack -> P i) -> (forall i, i ∈ reach -> P i) ->
  (forall g, g ∈ gs -> P (parent_index g) -> P (index g)) ->
  (forall g, g ∈ gs -> parent_index g ∈ reach -> index g ∈ reach \/ index g ∈ stack) ->
  (forall i, i ∈ R -> P i) /\ reach ⊆ R /\ (forall i, i ∈ stack -> i ∈ R) /\
  (forall g, g ∈ gs -> parent_index g ∈ R -> index g ∈ R).
Proof.
  revert stack reach. induction fuel as [|fuel IH];
    intros [|i stack] reach; cbn [descend]; try done.
  1, 2: intros [= <-] Hs Hr HP Hcl; split_and!;
    [done|done|set_solver|intros g Hg Hp; specialize (Hcl g Hg Hp); set_solver].
  case_decide as Hi; intros Hd Hs Hr HP Hcl.
  - destruct (IH _ _ Hd) as (H1 & H2 & H3 & H4); [set_solver|done|done| |].
    { intros g Hg Hp. destruct (Hcl g Hg Hp) as [|[->|]%elem_of_cons]; auto. }
    split_and!; [done|done| |done]. intros j [->|]%elem_of_cons; auto.
  - destruct (IH _ _ Hd) as (H1 & H2 & H3 & H4).
    + intros j [Hj|Hj]%elem_of_app; [|set_solver].
      rewrite elem_of_reverse, elem_of_children in Hj.
      destruct Hj as (g & Hg & <- & <-). apply HP; [done|]. set_solver.
    + set_solver.
    + done.
    + intros g Hg Hp. rewrite elem_of_union, elem_of_singleton in Hp.
      destruct Hp as [Hp|Hp].
      * right. rewrite elem_of_app, elem_of_reverse, elem_of_children. eauto.
      * destruct (Hcl g Hg Hp) as [|[->|]%elem_of_cons]; set_solver.
    + split_and!; [done|set_solver| |done].
      intros j [->|]%elem_of_cons; set_solver.
Qed.

Lemma descend_total s root :
  is_Some (descend (descend_fuel (values (games s))) (values (games s)) [root] ∅).
Proof.
  set (gs := values (games s)).
  apply (descend_terminates _ _ _ _ ({[root]} ∪ list_to_set (index <$> gs))).
  - intros g Hg. rewrite elem_of_union, elem_of_list_to_set. right.
    by apply list_elem_of_fmap_2.
  - set_solver.
  - rewrite difference_empty_L. unfold descend_fuel. cbn [length].
    assert (Hl : (size (list_to_set (index <$> gs) : gset Z) <= length gs)%nat)
      by (rewrite <- (length_fmap index); apply size_list_to_set_le).
    assert (Hu : (size ({[root]} ∪ list_to_set (index <$> gs) : gset Z)
                  <= S (length gs))%nat).
    { rewrite size_union_alt, size_singleton.
      assert (Hd : (size (list_to_set (index <$> gs) ∖ {[root]} : gset Z)
                    <= size (list_to_set (index <$> gs) : gset Z))%nat)
        by (apply subseteq_size; set_solver). lia. }
    nia.
Qed.

Lemma elem_of_descendants s root i :
  i ∈ descendants_of s root <-> reachable_from (games s) root i.
Proof.
  unfold descendants_of. destruct (descend_total s root) as [R HR]. rewrite HR. cbn.
  destruct (descend_spec _ _ _ _ _ (reachable_from (games s) root) HR)
    as (H1 & _ & H3 & H4).
  - intros j ->%list_elem_of_singleton. constructor.
  - set_solver.
  - intros g [k Hk]%elem_of_values Hp. by econstructor.
  - set_solver.
  - split; [auto|]. induction 1 as [|k g Hk _ IH]; [apply H3; left|].
    apply H4; [|done]. apply elem_of_values. eauto.
Qed.

(** the worklist search of [descendants_of] always ends within its fuel
    and computes exactly the games reachable from the root through parent
    links, the root included, for any cache (cycles and unknown parents
    included) and any iteration order of the hash map. *)
Theorem descendants_of_reachable s root :
  is_Some (descend (descend_fuel (values (games s))) (values (games s)) [root] ∅) /\
  forall i, i ∈ descendants_of s root <-> reachable_from (games s) root i.
Proof. split; [apply descend_total | intros; apply elem_of_descendants]. Qed.

(** *** Removal *)

Lemma remove_games_cons s j l b :
  remove_games s (j :: l) b = remove_games (remove_game s j b) l b.
Proof. done. Qed.

Lemma remove_games_lookup s l b i :
  games (remove_games s l b) !! i = (if decide (i ∈ l) then None else games s !! i) /\
  removed_games (remove_games s l b) !! i =
    (if decide (i ∈ l /\ is_Some (games s !! i)) then Some b else removed_games s !! i).
Proof.
  revert s. induction l as [|j l IH]; intros s.
  { rewrite !decide_False by set_solver. done. }
  rewrite remove_games_cons.
  destruct (IH (remove_game s j b)) as [-> ->]. clear IH.
  unfold remove_game. destruct (games s !! j) as [g|] eqn:Hj; cbn [games removed_games set_cache].
  - destruct (decide (i = j)) as [->|Hne].
    + rewrite lookup_delete_eq, lookup_insert_eq.
      rewrite (decide_True (P := j ∈ j :: l)) by left.
      rewrite (decide_True (P := j ∈ j :: l /\ _)) by (split; [left|by eexists]).
      split; [by case_decide|]. rewrite decide_False; [done|].
      intros [_ ?%is_Some_None]. done.
    + rewrite lookup_delete_ne, lookup_insert_ne by done.
      split; repeat case_decide; try done; set_solver.
  - destruct (decide (i = j)) as [->|Hne].
    + rewrite Hj. split; [by repeat case_decide|].
      rewrite !decide_False; [done|..]; by intros [_ ?%is_Some_None].
    + split; repeat case_decide; try done; set_solver.
Qed.

Lemma remove_games_fields s l b :
  anchor_game (remove_games s l b) = anchor_game s /\
  canonical_head_index (remove_games s l b) = canonical_head_index s /\
  canonical_head_l2_block (remove_games s l b) = canonical_head_l2_block s /\
  cursor (remove_games s l b) = cursor s.
Proof.
  revert s. induction l as [|j l IH]; intros s; [done|]. rewrite remove_games_cons.
  destruct (IH (remove_game s j b)) as (-> & -> & -> & ->).
  unfold remove_game. by destruct (games s !! j).
Qed.

Lemma remove_games_tracked s l b : tracked (remove_games s l b) = tracked s.
Proof.
  unfold tracked. apply set_eq. intros i. rewrite !elem_of_union, !elem_of_dom.
  destruct (remove_games_lookup s l b i) as [-> ->].
  destruct (decide (i ∈ l)) as [Hi|Hi].
  - destruct (games s !! i) as [g|] eqn:Hg.
    + rewrite decide_True by (split; [done|by eexists]). split; intros _; [left|right]; by eexists.
    + rewrite decide_False by (by intros [_ ?%is_Some_None]). done.
  - rewrite decide_False by tauto. done.
Qed.

Lemma remove_games_wf s l b : wf_state s -> wf_state (remove_games s l b).
Proof.
  intros [Hk Hd]. split.
  - intros i g. destruct (remove_games_lookup s l b i) as [-> _].
    case_decide; [done|]. apply Hk.
  - apply elem_of_disjoint. intros i. rewrite !elem_of_dom.
    destruct (remove_games_lookup s l b i) as [-> ->].
    case_decide; [by intros ?%is_Some_None|].
    rewrite decide_False by tauto. rewrite <- !elem_of_dom. set_solver.
Qed.

Lemma remove_game_as_list s i b : remove_game s i b = remove_games s [i] b.
Proof. done. Qed.

(** [remove_subtree] drops from the cache exactly the games reachable
    from the root, records each of them under the snapshot that removed it,
    and leaves every other game and record, the anchor and the cursor as they
    were; the tracked indices stay the same and the cache stays well formed. *)
Theorem remove_subtree_spec s root b :
  wf_state s ->
  let s' := remove_subtree s root b in
  (forall i, reachable_from (games s) root i ->
     games s' !! i = None /\ (is_Some (games s !! i) -> removed_games s' !! i = Some b)) /\
  (forall i, ~ reachable_from (games s) root i ->
     games s' !! i = games s !! i /\ removed_games s' !! i = removed_games s !! i) /\
  anchor_game s' = anchor_game s /\ cursor s' = cursor s /\
  tracked s' = tracked s /\ wf_state s'.
Proof.
  intros Hwf. cbn. unfold remove_subtree.
  pose proof (remove_games_fields s (iter_set (descendants_of s root)) b)
    as (H1 & _ & _ & H2).
  split_and!; [| |done|done|apply remove_games_tracked|by apply remove_games_wf];
    intros i Hi;
    destruct (remove_games_lookup s (iter_set (descendants_of s root)) b i) as [-> ->];
    rewrite <- elem_of_descendants, <- elem_of_iter_set in Hi.
  - rewrite decide_True by done. split; [done|]. intros Hs. by rewrite decide_True.
  - rewrite !decide_False by tauto. done.
Qed.

(** *** The canonical head *)

Definition cached (s : ProposerState) (g : Game) : Prop := exists i, games s !! i = Some g.

(** A game from which a chain outside the anchor's subtree may take over. *)
Definition takeover_root (s : ProposerState) (a ah root : Game) : Prop :=
  cached s root /\ ~ reachable_from (games s) (index a) (index root) /\
  l2_block ah < l2_block root /\
  (parent_index root = GENESIS_PARENT \/ parent_index root < parent_index ah).

Definition head_spec (s : ProposerState) (h : option Game) : Prop :=
  match anchor_game s, h with
  | None, None => forall g, ~ cached s g
  | None, Some h => cached s h /\ forall g, cached s g -> l2_block g <= l2_block h
  | Some a, None => forall g, cached s g -> ~ reachable_from (games s) (index a) (index g)
  | Some a, Some h =>
      cached s h /\
      exists ah, cached s ah /\ reachable_from (games s) (index a) (index ah) /\
        (forall g, cached s g -> reachable_from (games s) (index a) (index g) ->
           l2_block g <= l2_block ah) /\
        (h = ah /\ (forall root, ~ takeover_root s a ah root) \/
         (exists root, takeover_root s a ah root /\
            reachable_from (games s) (index root) (index h)) /\
         l2_block ah < l2_block h /\
         forall root g, takeover_root s a ah root -> cached s g ->
           reachable_from (games s) (index root) (index g) -> l2_block g <= l2_block h)
  end.

Lemma override_root_true s a ah g :
  override_root (descendants_of s (index a)) ah g = true <->
  ~ reachable_from (games s) (index a) (index g) /\ l2_block ah < l2_block g /\
  (parent_index g = GENESIS_PARENT \/ parent_index g < parent_index ah).
Proof.
  unfold override_root. rewrite !andb_true_iff, bool_decide_eq_true, elem_of_descendants,
    orb_true_iff, Z.eqb_eq, !Z.ltb_lt. tauto.
Qed.

Lemma elem_of_cached s g : g ∈ values (games s) <-> cached s g.
Proof. apply elem_of_values. Qed.

Definition takeover_pool (s : ProposerState) (a ah : Game) : list Game :=
  omap (fun i => games s !! i)
    ((index <$> filter (fun g => override_root (descendants_of s (index a)) ah g)
        (values (games s))) ≫= fun root => iter_set (descendants_of s root)).

Lemma elem_of_takeover_pool s a ah g :
  wf_state s ->
  g ∈ takeover_pool s a ah <-> cached s g /\ exists root, takeover_root s a ah root /\
    reachable_from (games s) (index root) (index g).
Proof.
  intros [Hk _]. unfold takeover_pool. rewrite list_elem_of_omap. split.
  - intros (i & Hi & Hg). split; [by eexists|].
    apply list_elem_of_bind in Hi as (r & Hr & Hroot).
    apply list_elem_of_fmap in Hroot as (root & -> & Hroot).
    apply list_elem_of_filter in Hroot as [Ho Hroot%elem_of_cached].
    apply Is_true_true, override_root_true in Ho. exists root. split; [by split|].
    rewrite (Hk _ _ Hg). by apply elem_of_descendants, elem_of_iter_set.
  - intros [[i Hg] (root & [Hroot Ho] & Hr)]. exists i. split; [|done].
    apply list_elem_of_bind. exists (index root). split.
    + apply elem_of_iter_set, elem_of_descendants. by rewrite <- (Hk _ _ Hg).
    + apply list_elem_of_fmap. exists root. split; [done|].
      apply list_elem_of_filter. split; [|by apply elem_of_cached].
      by apply Is_true_true, override_root_true.
Qed.

Lemma anchor_pool s a g :
  g ∈ filter (fun g => index g ∈ descendants_of s (index a)) (values (games s)) <->
  cached s g /\ reachable_from (games s) (index a) (index g).
Proof. rewrite list_elem_of_filter, elem_of_cached, elem_of_descendants. tauto. Qed.

(** the head is a cached game. Without an anchor it is a highest one.
    With an anchor it is a highest game [ah] of the anchor's subtree, unless
    some chain rooted outside the subtree, above [ah] and at an earlier
    lineage, takes over: then it is the highest game of all such chains, and
    strictly above [ah]. There is no head only when the cache (the anchor's
    subtree) is empty. *)
Theorem select_canonical_head_spec s :
  wf_state s -> head_spec s (select_canonical_head s).
Proof.
  intros Hwf. unfold head_spec, select_canonical_head.
  destruct (anchor_game s) as [a|].
  2: { destruct (max_by_key l2_block (values (games s))) as [h|] eqn:Hm.
       - apply max_by_key_Some in Hm as [Hin Hmax]. rewrite elem_of_cached in Hin.
         split; [done|]. intros g. rewrite <- elem_of_cached. apply Hmax.
       - apply max_by_key_None in Hm. intros g. rewrite <- elem_of_cached, Hm.
         apply not_elem_of_nil. }
  destruct (max_by_key l2_block (filter _ _)) as [ah|] eqn:Hm;
    cbn beta iota zeta delta [mbind option_bind].
  2: { apply max_by_key_None in Hm. intros g Hc Hr.
       apply (not_elem_of_nil g). rewrite <- Hm. by apply anchor_pool. }
  apply max_by_key_Some in Hm as [Hin Hmax]. apply anchor_pool in Hin as [Hc Hr].
  assert (Hbest : forall g, cached s g -> reachable_from (games s) (index a) (index g) ->
            l2_block g <= l2_block ah) by (intros; apply Hmax; by apply anchor_pool).
  fold (takeover_pool s a ah).
  destruct (max_by_key l2_block (takeover_pool s a ah)) as [h|] eqn:Ho.
  - apply max_by_key_Some in Ho as [Hh Hhmax].
    apply (elem_of_takeover_pool s a ah h Hwf) in Hh as (Hch & root & Hroot & Hrh).
    assert (Hall : forall r g, takeover_root s a ah r -> cached s g ->
              reachable_from (games s) (index r) (index g) -> l2_block g <= l2_block h)
      by (intros; apply Hhmax, elem_of_takeover_pool; eauto).
    split; [done|]. exists ah. split_and!; [done..|]. right. split_and!; [by eauto| |done].
    destruct Hroot as (Hcr & Hnr & Hlt & Hp).
    pose proof (Hall root root ltac:(by split) Hcr ltac:(constructor)). lia.
  - split; [done|]. exists ah. split_and!; [done..|]. left. split; [done|].
    intros root Hroot. apply max_by_key_None in Ho. apply (not_elem_of_nil root).
    rewrite <- Ho. apply elem_of_takeover_pool; [done|]. split; [apply Hroot|].
    exists root. split; [done|constructor].
Qed.
End cache.

(** The recovery situation of the source's tests: the anchor 5 cannot be a
    parent, so a genesis-rooted chain 6, 7 grows above it. *)
Definition sample_game (i p b : Z) : Game :=
  {| index := i; address := i; parent_index := p; l2_block := b; status := IN_PROGRESS;
     proposal_status := Unchallenged; deadline := 0; should_attempt_to_resolve := false;
     should_attempt_to_close_game := false; should_attempt_to_claim_bond := false;
     aggregation_vkey := 0; range_vkey_commitment := 0; rollup_config_hash := 0 |}.

Definition sample_state (gs : list Game) (anchor : option Game) : ProposerState :=
  set_anchor_game anchor (set_cache (list_to_map ((fun g => (index g, g)) <$> gs)) ∅ default_state).

Lemma sample_state_wf gs anchor : wf_state (sample_state gs anchor).
Proof.
  split; cbn; [|set_solver]. intros i g Hg.
  apply elem_of_list_to_map_2, list_elem_of_fmap in Hg as (g' & [= -> ->] & _). done.
Qed.

Definition catchup_state : ProposerState :=
  sample_state [sample_game 5 4 100; sample_game 6 GENESIS_PARENT 200; sample_game 7 6 300]
    (Some (sample_game 5 4 100)).

Lemma select_canonical_head_spec_witness :
  index <$> select_canonical_head catchup_state = Some 7 /\
  head_spec catchup_state (select_canonical_head catchup_state).
Proof.
  split; [vm_compute; reflexivity|].
  apply select_canonical_head_spec. apply sample_state_wf.
Defined.

Lemma remove_subtree_spec_witness :
  let b := {| bn_number := 9; bn_hash := 99 |} in
  let s := catchup_state in
  let s' := remove_subtree s 6 b in
  keys (games s') = [5] /\
  (forall i, reachable_from (games s) 6 i ->
     games s' !! i = None /\ (is_Some (games s !! i) -> removed_games s' !! i = Some b)) /\
  (forall i, ~ reachable_from (games s) 6 i ->
     games s' !! i = games s !! i /\ removed_games s' !! i = removed_games s !! i) /\
  anchor_game s' = anchor_game s /\ cursor s' = cursor s /\
  tracked s' = tracked s /\ wf_state s'.
Proof.
  cbv zeta. split; [vm_compute; reflexivity|].
  apply (remove_subtree_spec catchup_state 6 {| bn_number := 9; bn_hash := 99 |}).
  apply sample_state_wf.
Defined.
