(* ===== verification/Backup.v ===== *)
(** * Persisting the proposer's state

    [fault-proof/src/backup.rs] and the backup functions of
    [fault-proof/src/proposer.rs]. The JSON codec (serde) is a parameter: what
    it is relied on for is that decoding an encoded backup gives it back, with
    the field the source marks [#[serde(skip)]] at its default. *)

From S2P Require Import Prelude FaultTypes GameCache.

Definition BACKUP_VERSION : Z := 1.

Record GameCreation := {
  observed_l1_block : Z;
  gc_output_root : Z;
  gc_extra_data : list Z;
}.
#[global] Instance GameCreation_eq_dec : EqDecision GameCreation.
Proof. solve_decision. Defined.

(** One creation guard, with its observed L1 height and factory identity. *)
Record CreationGuard := {
  guard_l2_block : Z;
  guard_address : Z;
  guard_observation : option GameCreation;
}.
#[global] Instance CreationGuard_eq_dec : EqDecision CreationGuard.
Proof. solve_decision. Defined.
Definition default_guard : CreationGuard :=
  {| guard_l2_block := 0; guard_address := Address_ZERO; guard_observation := None |}.

Record ProposerBackup := {
  version : Z;
  b_cursor : option Z;
  b_games : list Game;
  anchor_game_index : option Z;
  b_removed_games : gmap Z BlockNumHash;
  last_created_game_l2_block : Z;
  last_created_game_address : Z;
  last_created_game_observation : option GameCreation;
}.

(** [ProposerBackup::new] *)
Definition new_backup (c : option Z) (gs : list Game) (anchor : option Z) : ProposerBackup :=
  {| version := BACKUP_VERSION; b_cursor := c; b_games := gs; anchor_game_index := anchor;
     b_removed_games := ∅; last_created_game_l2_block := 0;
     last_created_game_address := Address_ZERO; last_created_game_observation := None |}.

(** [ProposerBackup::validate] *)
Definition validate (b : ProposerBackup) : outcome unit :=
  _ ← match b_cursor b with
      | Some cursor =>
          if bool_decide (b_games b = []) && bool_decide (b_removed_games b = ∅) && (0 <? cursor)
          then Err "cursor exists but no games" else Ok tt
      | None => Ok tt
      end;
  match anchor_game_index b with
  | Some anchor_idx =>
      if existsb (fun g => index g =? anchor_idx) (b_games b) then Ok tt
      else Err "anchor game index references non-existent game"
  | None => Ok tt
  end.

(** [ProposerState::to_backup]; [backup()] then copies the creation guard. *)
Definition to_backup `{HashOrder} (s : ProposerState) (guard : CreationGuard) : ProposerBackup :=
  let b := new_backup (cursor s) (values (games s)) (index <$> anchor_game s) in
  {| version := version b; b_cursor := b_cursor b; b_games := b_games b;
     anchor_game_index := anchor_game_index b; b_removed_games := removed_games s;
     last_created_game_l2_block := guard_l2_block guard;
     last_created_game_address := guard_address guard;
     last_created_game_observation := guard_observation guard |}.

(** [into_iter().map(|g| (g.index, g)).collect()]: a later entry wins. *)
Definition collect_games (gs : list Game) : gmap Z Game :=
  foldl (fun m g => <[index g := g]> m) ∅ gs.

(** [ProposerState::from_backup] *)
Definition from_backup (b : ProposerBackup) : ProposerState :=
  let gs := collect_games (b_games b) in
  {| anchor_game := idx ← anchor_game_index b; gs !! idx;
     canonical_head_index := None; canonical_head_l2_block := None;
     cursor := b_cursor b; games := gs; removed_games := b_removed_games b |}.

(** [#[serde(skip)] should_attempt_to_close_game]. *)
Definition skip_game (g : Game) : Game :=
  update_game g (status g) (proposal_status g) (deadline g)
    (should_attempt_to_resolve g) false (should_attempt_to_claim_bond g).
Definition skip_fields (b : ProposerBackup) : ProposerBackup :=
  {| version := version b; b_cursor := b_cursor b; b_games := skip_game <$> b_games b;
     anchor_game_index := anchor_game_index b; b_removed_games := b_removed_games b;
     last_created_game_l2_block := last_created_game_l2_block b;
     last_created_game_address := last_created_game_address b;
     last_created_game_observation := last_created_game_observation b |}.

(** The serde codec of the backup file. *)
Class BackupCodec (J : Type) := {
  encode : ProposerBackup -> J;
  decode : J -> outcome ProposerBackup;
  decode_encode : forall b, decode (encode b) = Ok (skip_fields b);
}.

Section codec.
Context `{HO : HashOrder} {J : Type} `{!BackupCodec J}.

(** [ProposerBackup::load], on the file's content ([None]: unreadable). *)
Definition load (content : option J) : option ProposerBackup :=
  json ← content;
  match decode json with
  | Ok backup =>
      if version backup =? BACKUP_VERSION then
        match validate backup with Ok _ => Some backup | _ => None end
      else None
  | _ => None
  end.

(** [ProposerState::try_restore]: the state and the guard it carries. *)
Definition try_restore (content : option J) : option (ProposerState * CreationGuard) :=
  backup ← load content;
  Some (from_backup backup,
        {| guard_l2_block := last_created_game_l2_block backup;
           guard_address := last_created_game_address backup;
           guard_observation := last_created_game_observation backup |}).

(** What a save and a restore make of a state: the head is recomputed by the
    next sync and the close flags are not persisted. *)
Definition persisted (s : ProposerState) : ProposerState :=
  {| anchor_game := skip_game <$> anchor_game s;
     canonical_head_index := None; canonical_head_l2_block := None;
     cursor := cursor s; games := skip_game <$> games s; removed_games := removed_games s |}.

Lemma collect_games_snoc gs g : collect_games (gs ++ [g]) = <[index g := g]> (collect_games gs).
Proof. unfold collect_games. by rewrite foldl_app. Qed.

Lemma collect_games_lookup gs i g :
  NoDup (index <$> gs) -> collect_games gs !! i = Some g <-> g ∈ gs /\ index g = i.
Proof.
  induction gs as [|g' gs IH] using rev_ind; intros Hn.
  { split; [done|]. by intros [?%elem_of_nil _]. }
  rewrite fmap_app in Hn. apply NoDup_app in Hn as (Hn & Hd & _).
  rewrite collect_games_snoc, elem_of_app, list_elem_of_singleton.
  destruct (decide (index g' = i)) as [<-|Hne].
  - rewrite lookup_insert_eq. split; [intros [= ->]; auto|].
    intros [[Hin| ->] Hi]; [|done]. destruct (Hd (index g)); [by apply list_elem_of_fmap_2|].
    rewrite Hi. apply list_elem_of_singleton. done.
  - rewrite lookup_insert_ne by done. rewrite IH by done. naive_solver.
Qed.

Lemma collect_values (f : Game -> Game) s :
  wf_state s -> (forall g, index (f g) = index g) ->
  collect_games (f <$> values (games s)) = f <$> games s.
Proof.
  intros [Hk _] Hf. apply map_eq. intros i. apply option_eq. intros g.
  rewrite collect_games_lookup.
  - rewrite list_elem_of_fmap, lookup_fmap, fmap_Some. setoid_rewrite elem_of_values.
    split.
    + intros [(g' & -> & k & Hg') Hi]. exists g'. split; [|done].
      rewrite Hf in Hi. rewrite (Hk _ _ Hg') in Hi. by subst.
    + intros (g' & Hg' & ->). rewrite Hf. split; [by eauto|]. by apply Hk in Hg'.
  - rewrite <- list_fmap_compose.
    assert (Hkeys : index ∘ f <$> values (games s) = keys (games s)).
    { unfold values, keys. rewrite <- list_fmap_compose. apply list_fmap_ext.
      intros ? [k g'] Hin%list_elem_of_lookup_2%elem_of_iter_map. cbn.
      rewrite Hf. by apply Hk. }
    rewrite Hkeys. unfold keys. rewrite (iter_map_perm (games s)).
    apply NoDup_fst_map_to_list.
Qed.

(** The anchor pointer is a cached game. *)
Definition anchor_cached (s : ProposerState) : Prop :=
  forall a, anchor_game s = Some a -> games s !! index a = Some a.

Lemma values_nil_iff {V} (m : gmap Z V) : values m = [] <-> m = ∅.
Proof. by rewrite <- length_zero_iff_nil, length_values, map_size_empty_iff. Qed.

Lemma from_to_backup s guard :
  wf_state s -> anchor_cached s ->
  from_backup (skip_fields (to_backup s guard)) = persisted s.
Proof.
  intros Hwf Ha. unfold from_backup, persisted. cbn [b_games skip_fields to_backup new_backup
    anchor_game_index b_cursor b_removed_games]. rewrite collect_values by done. f_equal.
  destruct (anchor_game s) as [a|] eqn:Hag; [|done]. cbn.
  by rewrite lookup_fmap, (Ha a).
Qed.

Lemma backup_validates s guard :
  anchor_cached s ->
  validate (skip_fields (to_backup s guard)) =
    match cursor s with
    | Some c => if bool_decide (tracked s = ∅) && (0 <? c)
                then Err "cursor exists but no games" else Ok tt
    | None => Ok tt
    end.
Proof.
  intros Ha. unfold validate. cbn [b_games skip_fields to_backup new_backup
    anchor_game_index b_cursor b_removed_games].
  assert (Hempty : bool_decide (skip_game <$> values (games s) = []) &&
            bool_decide (removed_games s = ∅) = bool_decide (tracked s = ∅)).
  { rewrite <- bool_decide_and. apply bool_decide_ext. unfold tracked.
    rewrite empty_union_L, !dom_empty_iff_L, <- (values_nil_iff (games s)).
    destruct (values (games s)); naive_solver. }
  rewrite Hempty.
  assert (Hanchor : match index <$> anchor_game s with
    | Some i => if existsb (fun g => index g =? i) (skip_game <$> values (games s))
                then Ok tt else Err "anchor game index references non-existent game"
    | None => Ok tt end = Ok tt).
  { destruct (anchor_game s) as [a|] eqn:Hag; [|done]. cbn.
    assert (He : existsb (fun g => index g =? index a) (skip_game <$> values (games s)) = true).
    { apply existsb_exists. exists (skip_game a). split; [|apply Z.eqb_refl].
      apply list_elem_of_In. apply list_elem_of_fmap_2. apply elem_of_values.
      exists (index a). by apply Ha. }
    by rewrite He. }
  rewrite Hanchor. destruct (cursor s); [|done].
  by destruct (bool_decide (tracked s = ∅) && (0 <? _)).
Qed.

(** C39: saving a well-formed state and restoring the file gives back the
    state (up to the recomputed head and the skipped flag) and the creation
    guard, except in one case: a positive cursor with nothing tracked, which
    validation rejects as stale, so that the proposer starts fresh. *)
Theorem backup_roundtrip s guard :
  wf_state s -> anchor_cached s ->
  try_restore (Some (encode (to_backup s guard))) =
    match cursor s with
    | Some c => if bool_decide (tracked s = ∅) && (0 <? c) then None
                else Some (persisted s, guard)
    | None => Some (persisted s, guard)
    end.
Proof.
  intros Hwf Ha. unfold try_restore, load.
  cbn beta iota zeta delta [mbind option_bind]. rewrite decode_encode.
  rewrite backup_validates by done.
  change (version (skip_fields (to_backup s guard))) with BACKUP_VERSION.
  rewrite Z.eqb_refl. destruct (cursor s) as [c|] eqn:Hc;
    [destruct (bool_decide (tracked s = ∅) && (0 <? c)); [done|]|];
    cbn beta iota zeta delta [mbind option_bind]; rewrite from_to_backup by done;
    by destruct guard.
Qed.
End codec.

(** A codec that keeps the struct and drops what serde skips. *)
#[export] Program Instance sample_codec : BackupCodec ProposerBackup :=
  {| encode := skip_fields; decode b := Ok b |}.
Next Obligation. done. Qed.

Lemma backup_roundtrip_witness :
  let s := set_cursor (Some 7) catchup_state in
  let s' := set_cursor (Some 7) default_state in
  try_restore (Some (encode (to_backup s default_guard))) =
    Some (persisted s, default_guard) /\
  try_restore (Some (encode (to_backup s' default_guard))) = None.
Proof.
  cbv zeta. split.
  - etrans; [apply backup_roundtrip|vm_compute; reflexivity].
    + destruct (sample_state_wf _ _ : wf_state catchup_state). by split.
    + intros a [= <-]. vm_compute. reflexivity.
  - etrans; [apply backup_roundtrip|vm_compute; reflexivity].
    + split; [done|]. set_solver.
    + done.
Defined.
