(* ===== verification/ProposerService.v ===== *)
(** * The proposer's shared state

    [OPSuccinctProposer] of [fault-proof/src/proposer.rs]: its configuration,
    the fields its tasks share behind locks, and its startup. An operation is a
    program of the state monad over [Proposer]; each runs as one critical
    section, and what a failing one has written stays written. *)

From S2P Require Import Prelude RangeSplit FaultTypes GameCache Backup.

Record ProposerConfig := {
  anchor_state_registry_address : Z;
  mock_mode : bool;
  fast_finality_mode : bool;
  proposal_interval_in_blocks : Z;
  cfg_game_type : Z;
  max_concurrent_defense_tasks : Z;
  fast_finality_proving_limit : Z;
  range_split_count : RangeSplitCount.RangeSplitCount;
  max_concurrent_range_proofs : Z;
  backup_path : bool;  (** is one configured *)
  sync_l1_confirmations : Z;
}.

Record L1SyncState := { sync_block : option (Z * Z); sync_complete : bool }.
Definition default_sync : L1SyncState := {| sync_block := None; sync_complete := false |}.

Record ContractParams := { max_challenge_duration : Z; max_prove_duration : Z }.

Inductive TaskInfo :=
| GameCreationTask (block_number : Z)
| GameProvingTask (game_address : Z) (is_defense : bool)
| GameResolutionTask
| GameCloseTask
| BondClaimTask.
#[global] Instance TaskInfo_eq_dec : EqDecision TaskInfo.
Proof. solve_decision. Defined.

(** A [JoinHandle]: still running, or what the task ended with. *)
Inductive TaskHandle := Running | Finished (result : outcome unit).

Definition is_finished (h : TaskHandle) : bool :=
  match h with Finished _ => true | Running => false end.

Record Proposer := {
  contract_params : option ContractParams;
  init_bond : option Z;
  tasks : gmap Z (TaskHandle * TaskInfo);
  close_game_failures : gmap Z Z;
  next_task_id : Z;
  state : ProposerState;
  l1_sync : L1SyncState;
  creation_guard : CreationGuard;
  saved : option ProposerBackup;    (** what the backup file holds *)
  submitted : list TxRequest;       (** the transactions sent, newest first *)
}.

(** [OPSuccinctProposer::new] *)
Definition new_proposer : Proposer :=
  {| contract_params := None; init_bond := None; tasks := ∅; close_game_failures := ∅;
     next_task_id := 1; state := default_state; l1_sync := default_sync;
     creation_guard := default_guard; saved := None; submitted := [] |}.

Definition with_params (cp : option ContractParams) (ib : option Z) (p : Proposer) : Proposer :=
  {| contract_params := cp; init_bond := ib; tasks := tasks p;
     close_game_failures := close_game_failures p; next_task_id := next_task_id p;
     state := state p; l1_sync := l1_sync p; creation_guard := creation_guard p;
     saved := saved p; submitted := submitted p |}.
Definition with_tasks (t : gmap Z (TaskHandle * TaskInfo)) (n : Z) (p : Proposer) : Proposer :=
  {| contract_params := contract_params p; init_bond := init_bond p; tasks := t;
     close_game_failures := close_game_failures p; next_task_id := n;
     state := state p; l1_sync := l1_sync p; creation_guard := creation_guard p;
     saved := saved p; submitted := submitted p |}.
Definition with_failures (f : gmap Z Z) (p : Proposer) : Proposer :=
  {| contract_params := contract_params p; init_bond := init_bond p; tasks := tasks p;
     close_game_failures := f; next_task_id := next_task_id p;
     state := state p; l1_sync := l1_sync p; creation_guard := creation_guard p;
     saved := saved p; submitted := submitted p |}.
Definition with_state (s : ProposerState) (p : Proposer) : Proposer :=
  {| contract_params := contract_params p; init_bond := init_bond p; tasks := tasks p;
     close_game_failures := close_game_failures p; next_task_id := next_task_id p;
     state := s; l1_sync := l1_sync p; creation_guard := creation_guard p;
     saved := saved p; submitted := submitted p |}.
Definition with_sync (y : L1SyncState) (p : Proposer) : Proposer :=
  {| contract_params := contract_params p; init_bond := init_bond p; tasks := tasks p;
     close_game_failures := close_game_failures p; next_task_id := next_task_id p;
     state := state p; l1_sync := y; creation_guard := creation_guard p;
     saved := saved p; submitted := submitted p |}.
Definition with_guard (g : CreationGuard) (p : Proposer) : Proposer :=
  {| contract_params := contract_params p; init_bond := init_bond p; tasks := tasks p;
     close_game_failures := close_game_failures p; next_task_id := next_task_id p;
     state := state p; l1_sync := l1_sync p; creation_guard := g;
     saved := saved p; submitted := submitted p |}.
Definition with_saved (b : option ProposerBackup) (p : Proposer) : Proposer :=
  {| contract_params := contract_params p; init_bond := init_bond p; tasks := tasks p;
     close_game_failures := close_game_failures p; next_task_id := next_task_id p;
     state := state p; l1_sync := l1_sync p; creation_guard := creation_guard p;
     saved := b; submitted := submitted p |}.
Definition with_submitted (l : list TxRequest) (p : Proposer) : Proposer :=
  {| contract_params := contract_params p; init_bond := init_bond p; tasks := tasks p;
     close_game_failures := close_game_failures p; next_task_id := next_task_id p;
     state := state p; l1_sync := l1_sync p; creation_guard := creation_guard p;
     saved := saved p; submitted := l |}.

(** The L2 data fetcher's bound on what can be proven now. *)
Class Fetcher := { get_max_provable_l2_block_number : outcome Z }.

(** The backup path as startup sees it: does its parent directory exist, can
    a file be created there, and what the file holds. *)
Class BackupFile (J : Type) := {
  parent_exists : bool;
  path_writable : bool;
  backup_content : option J;
}.

(** [send_transaction_request_with_timeout] *)
Definition send `{Wallet} (tx : TxRequest) : M Proposer Receipt :=
  p ← get_state;
  _ ← modify (with_submitted (tx :: submitted p));
  lift (send_transaction (length (submitted p)) tx).

Section startup.
Context `{L1 : L1Rpc, F : Fetcher, HO : HashOrder} {J : Type}
  `{JC : !BackupCodec J, BF : !BackupFile J} (config : ProposerConfig).

Definition validate_anchor_state_registry : outcome unit :=
  impl ← game_impl (cfg_game_type config);
  expected_registry ← anchorStateRegistry impl AtLatest;
  if anchor_state_registry_address config =? expected_registry then Ok tt
  else Err "Anchor state registry address mismatch".

Definition validate_anchor_l2_block (anchor_l2_block : Z) : outcome unit :=
  max_provable ← get_max_provable_l2_block_number;
  if max_provable <? anchor_l2_block then Err "Contract misconfiguration detected" else Ok tt.

Definition startup_validations : outcome (Z * Z * ContractParams) :=
  _ ← validate_anchor_state_registry;
  anchor_l2_block ← getAnchorRoot AtLatest;
  _ ← validate_anchor_l2_block anchor_l2_block;
  bond ← fetch_init_bond (cfg_game_type config);
  impl ← game_impl (cfg_game_type config);
  challenge ← maxChallengeDuration impl;
  prove ← maxProveDuration impl;
  Ok (anchor_l2_block, bond,
      {| max_challenge_duration := challenge; max_prove_duration := prove |}).

(** The [backup_path] block of [init_state]. *)
Definition init_backup : M Proposer unit :=
  if backup_path config then
    _ ← lift (ensure parent_exists "backup path parent directory does not exist");
    _ ← lift (ensure path_writable "backup path is not writable");
    match try_restore backup_content with
    | Some (restored, guard) =>
        _ ← modify (with_guard guard);
        modify (fun p => with_state
          {| anchor_game := anchor_game restored;
             canonical_head_index := canonical_head_index (state p);
             canonical_head_l2_block := canonical_head_l2_block (state p);
             cursor := cursor restored; games := games restored;
             removed_games := removed_games restored |} p)
    | None => mret tt
    end
  else mret tt.

Definition init_state (anchor_l2_block bond : Z) (params : ContractParams)
    : M Proposer unit :=
  _ ← modify (fun p =>
    with_state (set_head (canonical_head_index (state p)) (Some anchor_l2_block) (state p)) p);
  p ← get_state;
  _ ← match init_bond p with
      | None => modify (with_params (contract_params p) (Some bond))
      | Some _ => fail "init_bond must not already be set"
      end;
  p ← get_state;
  _ ← match contract_params p with
      | None => modify (with_params (Some params) (init_bond p))
      | Some _ => fail "contract_params must not already be set"
      end;
  init_backup.

Definition validate_and_init : M Proposer unit :=
  v ← lift startup_validations;
  let '(anchor_l2_block, bond, params) := v in
  init_state anchor_l2_block bond params.
End startup.

(** [try_init] retries [validate_and_init] until it succeeds; each attempt meets
    its own environment. *)
Section try_init.
Context {HO : HashOrder} {J : Type} {JC : BackupCodec J} (config : ProposerConfig).

Record InitEnv := {
  ie_l1 : L1Rpc; ie_fetcher : Fetcher; ie_file : BackupFile J;
}.

Definition init_attempt (e : InitEnv) : M Proposer unit :=
  validate_and_init (L1 := ie_l1 e) (F := ie_fetcher e) (BF := ie_file e) config.

Fixpoint try_init (envs : list InitEnv) (p : Proposer) : option Proposer :=
  match envs with
  | [] => None
  | e :: envs' =>
      match init_attempt e p with
      | (p', Ok _) => Some p'
      | (p', Err _) => try_init envs' p'
      | (_, Panic) => None
      end
  end.

Lemma init_attempt_bond_set e p b :
  init_bond p = Some b ->
  is_Ok (init_attempt e p).2 = false /\ init_bond (init_attempt e p).1 = Some b.
Proof.
  intros Hb. unfold init_attempt, validate_and_init.
  unfold mbind, M_bind, lift.
  destruct (@startup_validations (ie_l1 e) (ie_fetcher e) config) as [[[a bond] cp]|msg|];
    [|done..].
  unfold init_state, mbind, M_bind, modify, get_state, fail, lift. cbn. by rewrite Hb.
Qed.

Lemma try_init_bond_set envs p b : init_bond p = Some b -> try_init envs p = None.
Proof.
  revert p. induction envs as [|e envs IH]; intros p Hb; [done|]. cbn.
  destruct (init_attempt_bond_set e p b Hb) as [Hn Hb'].
  destruct (init_attempt e p) as [p' [u|msg|]]; cbn in *; [done| |done]. by apply IH.
Qed.

(** a startup attempt that passes the contract checks but finds the
    backup path unusable poisons every retry: [init_bond] stays set by the
    failed attempt, so no later attempt succeeds, whatever the node and the
    file system then answer. *)
Theorem failed_backup_path_blocks_startup e envs v :
  @startup_validations (ie_l1 e) (ie_fetcher e) config = Ok v ->
  backup_path config = true ->
  @parent_exists J (ie_file e) && @path_writable J (ie_file e) = false ->
  try_init (e :: envs) new_proposer = None.
Proof.
  intros Hv Hpath Hbad. cbn [try_init].
  assert (Ha : exists p b msg, init_attempt e new_proposer = (p, Err msg) /\
                 init_bond p = Some b).
  { unfold init_attempt, validate_and_init, mbind, M_bind, lift. rewrite Hv.
    destruct v as [[a b] cp].
    unfold init_state, init_backup, mbind, M_bind, modify, get_state, fail, lift. cbn.
    rewrite Hpath. unfold ensure. apply andb_false_iff in Hbad.
    destruct (@parent_exists J (ie_file e)); cbn; [|by eexists _, _, _].
    destruct Hbad as [Hbad|Hbad]; [done|]. rewrite Hbad. by eexists _, _, _. }
  destruct Ha as (p & b & msg & -> & Hb). by eapply try_init_bond_set.
Qed.
End try_init.

Definition sample_config : ProposerConfig :=
  {| anchor_state_registry_address := 500; mock_mode := false; fast_finality_mode := false;
     proposal_interval_in_blocks := 10; cfg_game_type := 42;
     max_concurrent_defense_tasks := 1; fast_finality_proving_limit := 1;
     range_split_count := RangeSplitCount.one; max_concurrent_range_proofs := 1;
     backup_path := true; sync_l1_confirmations := 0 |}.

Definition sample_init (exists_ : bool) : InitEnv (J := ProposerBackup) :=
  {| ie_l1 := sample_l1 20 10 0 []; ie_fetcher := {| get_max_provable_l2_block_number := Ok 50 |};
     ie_file := {| parent_exists := exists_; path_writable := true; backup_content := None |} |}.

(** With the directory there from the start the same startup succeeds. *)
Lemma failed_backup_path_blocks_startup_witness :
  is_Some (try_init sample_config [sample_init true] new_proposer) /\
  try_init sample_config [sample_init false; sample_init true; sample_init true] new_proposer
    = None.
Proof.
  split; [vm_compute; by eexists|].
  eapply failed_backup_path_blocks_startup; [|done|done]. vm_compute. reflexivity.
Defined.

(** A wallet whose every transaction succeeds; creations deploy at [900 + k]. *)
Definition sample_wallet : Wallet :=
  {| signer_address := 77; estimate_gas _ := Ok 21000;
     send_transaction k tx := Ok {| r_status := true; r_block_number := Some 20;
       r_created_game := match tx with TxCreate _ _ _ _ => Some (900 + Z.of_nat k) | _ => None end;
       r_hash := Z.of_nat k |} |}.

Definition sample_identity : ProposerIdentity :=
  {| id_aggregation_vkey := 1; id_range_vkey_commitment := 2; id_rollup_config_hash := 3 |}.

(** Three games: a resolved one with credit, a resolved one to close, and a
    child of it whose challenge period is over; the last one claims a wrong root. *)
Definition sample_games : list SampleGame :=
  [ {| sg_address := 800; sg_parent := GENESIS_PARENT; sg_block := 10; sg_status := DEFENDER_WINS;
       sg_proposal_status := Resolved; sg_deadline := 100; sg_mode := 1; sg_credit := 5;
       sg_creator := 77; sg_claim := None |};
    {| sg_address := 801; sg_parent := 0; sg_block := 20; sg_status := DEFENDER_WINS;
       sg_proposal_status := Resolved; sg_deadline := 110; sg_mode := 0; sg_credit := 0;
       sg_creator := 77; sg_claim := None |};
    {| sg_address := 802; sg_parent := 1; sg_block := 30; sg_status := IN_PROGRESS;
       sg_proposal_status := Unchallenged; sg_deadline := 120; sg_mode := 0; sg_credit := 0;
       sg_creator := 77; sg_claim := None |};
    {| sg_address := 803; sg_parent := 2; sg_block := 40; sg_status := IN_PROGRESS;
       sg_proposal_status := Unchallenged; sg_deadline := 130; sg_mode := 0; sg_credit := 0;
       sg_creator := 66; sg_claim := Some 1 |} ].
