(* ===== verification/L1Chain.v ===== *)
(** * Following the L1 chain

    [l1_ancestor] and [prune_finalized_removals] of
    [fault-proof/src/proposer.rs]: the walk along parent hashes, and the
    release of removal records that L1 finality has proven. *)

From S2P Require Import Prelude FaultTypes GameCache Backup ProposerService.

(** [a] is reached from [h] along parent hashes. *)
Inductive ancestor (a : Header) : Header -> Prop :=
| ancestor_refl : ancestor a a
| ancestor_step h p :
    h_hash p = h_parent_hash h -> h_number p + 1 = h_number h -> ancestor a p ->
    ancestor a h.

Lemma ancestor_trans a b c : ancestor a b -> ancestor b c -> ancestor a c.
Proof. intros Hab Hbc. induction Hbc; [done|]. by econstructor. Qed.

Section chain.
Context `{L1 : L1Rpc, HO : HashOrder}.

(** The body of the loop: one verified step to the parent. *)
Definition l1_parent (header : Header) : outcome Header :=
  let parent_hash := h_parent_hash header in
  block ← get_block_by_hash parent_hash;
  parent ← with_context "L1 ancestor is unavailable; retrying sync" block;
  _ ← ensure ((h_hash parent =? parent_hash) &&
              bool_decide (checked_add u64_max (h_number parent) 1 = Some (h_number header)))
        "L1 ancestor does not match the selected block's parent";
  Ok parent.

(** The [while] loop; [None] when the fuel runs out first. *)
Fixpoint l1_walk (fuel : nat) (header : Header) (number : Z) : option (outcome Header) :=
  if number <? h_number header then
    match fuel with
    | O => None
    | S fuel' =>
        match l1_parent header with
        | Ok parent => l1_walk fuel' parent number
        | Err e => Some (Err e)
        | Panic => Some Panic
        end
    end
  else Some (Ok header).

Definition l1_ancestor (header : Header) (number : Z) : outcome Header :=
  _ ← ensure (number <=? h_number header) "Requested L1 ancestor is above the selected block";
  default Panic (l1_walk (Z.to_nat (h_number header - number)) header number).

(** [for (index, block) in &candidates] *)
Fixpoint collect_finalized (anc : Header) (candidates : list (Z * BlockNumHash))
    : outcome (list Z) :=
  match candidates with
  | [] => Ok []
  | (index, block) :: rest =>
      anc' ← l1_ancestor anc (bn_number block);
      more ← collect_finalized anc' rest;
      Ok (if h_hash anc' =? bn_hash block then index :: more else more)
  end.

(** [sort_unstable_by_key(|(_, block)| Reverse(block.number))] *)
Definition later_block (x y : Z * BlockNumHash) : Prop := bn_number y.2 <= bn_number x.2.
#[local] Instance later_block_dec : RelDecision later_block.
Proof. intros x y. unfold later_block. apply _. Defined.

(** [let mut ancestor = if finalized.number <= selected.number ..] *)
Definition finality_start (selected fin : Header) : outcome Header :=
  if h_number fin <=? h_number selected then
    anc ← l1_ancestor selected (h_number fin);
    _ ← ensure (h_hash anc =? h_hash fin) "Finalized L1 block is on another fork";
    Ok anc
  else
    anc ← l1_ancestor fin (h_number selected);
    _ ← ensure (h_hash anc =? h_hash selected) "Selected L1 block is on another fork";
    Ok anc.

Definition finalized_removals (removals : gmap Z BlockNumHash) (selected : Header)
    : outcome (list Z) :=
  if bool_decide (removals = ∅) then Ok []
  else
    block ← get_block_by_number Finalized;
    fin ← with_context "Finalized L1 block is unavailable; retrying sync" block;
    let limit := Z.min (h_number selected) (h_number fin) in
    let candidates := filter (fun r => bn_number r.2 <= limit) (iter_map removals) in
    if bool_decide (candidates = []) then Ok []
    else
      anc ← finality_start selected fin;
      collect_finalized anc (merge_sort later_block candidates).

Definition release (s : ProposerState) (idxs : list Z) : ProposerState :=
  set_cache (games s) (foldl (fun m i => delete i m) (removed_games s) idxs) s.

Definition prune_finalized_removals (selected : Header) : M Proposer unit :=
  p ← get_state;
  idxs ← lift (finalized_removals (removed_games (state p)) selected);
  modify (fun p => with_state (release (state p) idxs) p).

(** ** Lemmas *)

Lemma l1_parent_Ok h p :
  l1_parent h = Ok p -> h_hash p = h_parent_hash h /\ h_number p + 1 = h_number h.
Proof.
  unfold l1_parent. cbv zeta. intros Hp. ok_inv. subst.
  match goal with H : (_ && _) = true |- _ => apply andb_true_iff in H as [He Hn] end.
  apply Z.eqb_eq in He. apply bool_decide_eq_true, checked_add_Some in Hn.
  split; [done|lia].
Qed.

Lemma l1_walk_total fuel h n :
  (Z.to_nat (h_number h - n) <= fuel)%nat -> is_Some (l1_walk fuel h n).
Proof.
  revert h. induction fuel as [|fuel IH]; intros h Hf; cbn;
    (destruct (Z.ltb_spec n (h_number h)); [|by eexists]); [lia|].
  destruct (l1_parent h) as [p|e|] eqn:Hp; [|by eexists..].
  apply l1_parent_Ok in Hp as [_ Hp]. apply IH. lia.
Qed.

Lemma l1_walk_Ok fuel h n a :
  l1_walk fuel h n = Some (Ok a) -> n <= h_number h -> ancestor a h /\ h_number a = n.
Proof.
  revert h. induction fuel as [|fuel IH]; intros h; cbn;
    (destruct (Z.ltb_spec n (h_number h));
      [|intros [= <-] ?; split; [constructor|lia]]); [done|].
  destruct (l1_parent h) as [p|e|] eqn:Hp; [|done..].
  apply l1_parent_Ok in Hp as [Hh Hn]. intros Hw Hle.
  destruct (IH p Hw) as [Ha Hna]; [lia|]. split; [by econstructor|done].
Qed.

Lemma l1_ancestor_Ok h n a :
  l1_ancestor h n = Ok a -> ancestor a h /\ h_number a = n.
Proof.
  unfold l1_ancestor. intros Ha. ok_inv.
  match goal with H : (_ <=? _) = true |- _ => apply Z.leb_le in H as Hle end.
  destruct (l1_walk _ h n) as [o|] eqn:Hw; cbn in Ha; [subst o|done].
  by eapply l1_walk_Ok.
Qed.

(** the walk to an ancestor always ends, and what it returns is the
    block of that number on the chain of parent hashes below the start,
    whatever the node answers; asking above the start is an error. *)
Theorem l1_ancestor_spec h n :
  is_Some (l1_walk (Z.to_nat (h_number h - n)) h n) /\
  (forall a, l1_ancestor h n = Ok a -> ancestor a h /\ h_number a = n) /\
  (h_number h < n -> exists e, l1_ancestor h n = Err e).
Proof.
  split_and!; [by apply l1_walk_total|by apply l1_ancestor_Ok|].
  intros Hlt. unfold l1_ancestor. rewrite (proj2 (Z.leb_gt _ _) Hlt). by eexists.
Qed.

Lemma collect_finalized_Ok anc cs idxs i :
  collect_finalized anc cs = Ok idxs -> i ∈ idxs ->
  exists block a, (i, block) ∈ cs /\ ancestor a anc /\
    h_number a = bn_number block /\ h_hash a = bn_hash block.
Proof.
  revert anc idxs. induction cs as [|[j b] cs IH]; intros anc idxs; cbn.
  { intros [= <-] Hi. by apply not_elem_of_nil in Hi. }
  intros Hc Hi. ok_inv. subst.
  match goal with H : l1_ancestor _ _ = Ok ?x |- _ =>
    apply l1_ancestor_Ok in H as [Ha Hn]; rename x into anc' end.
  match goal with H : collect_finalized _ _ = Ok ?x |- _ => rename x into more; rename H into Hm end.
  assert (Hmore : i ∈ more -> exists block a, (i, block) ∈ (j, b) :: cs /\ ancestor a anc /\
            h_number a = bn_number block /\ h_hash a = bn_hash block).
  { intros Hin. destruct (IH _ _ Hm Hin) as (block & a & ? & ? & ? & ?).
    exists block, a. split_and!; [by right|by eapply ancestor_trans|done|done]. }
  destruct (Z.eqb_spec (h_hash anc') (bn_hash b)) as [He|]; [|by apply Hmore].
  apply elem_of_cons in Hi as [->|Hi]; [|by apply Hmore].
  exists b, anc'. split_and!; [by left|done..].
Qed.

(** A removal record that finality has proven: its block is on the selected
    chain and on the finalized one. *)
Definition proven_final (selected : Header) (block : BlockNumHash) : Prop :=
  exists fin a, get_block_by_number Finalized = Ok (Some fin) /\
    h_number a = bn_number block /\ h_hash a = bn_hash block /\
    (h_number fin <= h_number selected /\
      (exists f, ancestor f selected /\ h_number f = h_number fin /\
                 h_hash f = h_hash fin /\ ancestor a f) \/
     h_number selected < h_number fin /\
      (exists f, ancestor f fin /\ h_number f = h_number selected /\
                 h_hash f = h_hash selected /\ ancestor a f)).

Lemma finality_start_Ok selected fin anc a :
  finality_start selected fin = Ok anc -> ancestor a anc ->
  h_number fin <= h_number selected /\
    (exists f, ancestor f selected /\ h_number f = h_number fin /\
               h_hash f = h_hash fin /\ ancestor a f) \/
  h_number selected < h_number fin /\
    (exists f, ancestor f fin /\ h_number f = h_number selected /\
               h_hash f = h_hash selected /\ ancestor a f).
Proof.
  unfold finality_start.
  destruct (Z.leb_spec (h_number fin) (h_number selected)) as [Hle|Hlt]; intros Hs Ha;
    [left|right]; (split; [done|]); ok_inv; subst;
    match goal with H : l1_ancestor _ _ = Ok _ |- _ => apply l1_ancestor_Ok in H as [Hf Hfn] end;
    match goal with H : (_ =? _) = true |- _ => apply Z.eqb_eq in H end;
    by exists anc.
Qed.

Lemma finalized_removals_Ok removals selected idxs i :
  finalized_removals removals selected = Ok idxs -> i ∈ idxs ->
  exists block, removals !! i = Some block /\ proven_final selected block.
Proof.
  unfold finalized_removals.
  case_bool_decide; [intros [= <-] Hi; by apply not_elem_of_nil in Hi|].
  intros Hr Hi. ok_inv. subst x.
  case_bool_decide; [injection Hr as <-; by apply not_elem_of_nil in Hi|]. ok_inv.
  destruct (collect_finalized_Ok _ _ _ _ Hr Hi) as (block & a & Hin & Ha & Hn & Hh).
  rewrite merge_sort_Permutation in Hin.
  apply list_elem_of_filter in Hin as [_ Hin%elem_of_iter_map].
  exists block. split; [done|]. exists x0, a. split_and!; [done..|].
  by eapply finality_start_Ok.
Qed.

Lemma release_lookup s idxs i :
  removed_games (release s idxs) !! i = if decide (i ∈ idxs) then None else removed_games s !! i.
Proof.
  unfold release; cbn. generalize (removed_games s) as m. clear s.
  induction idxs as [|j idxs IH]; intros m; cbn.
  - rewrite decide_False by apply not_elem_of_nil. done.
  - rewrite IH. destruct (decide (i = j)) as [->|Hne].
    + rewrite lookup_delete_eq, (decide_True (P := j ∈ j :: idxs)) by left. by case_decide.
    + rewrite lookup_delete_ne by done. repeat case_decide; set_solver.
Qed.

Lemma prune_removals_spec p selected p' r :
  prune_finalized_removals selected p = (p', r) ->
  p' = with_state (set_cache (games (state p)) (removed_games (state p')) (state p)) p /\
  removed_games (state p') ⊆ removed_games (state p) /\
  forall i block, removed_games (state p) !! i = Some block ->
    removed_games (state p') !! i = Some block \/
    removed_games (state p') !! i = None /\ proven_final selected block.
Proof.
  unfold prune_finalized_removals, mbind, M_bind, get_state, lift.
  destruct (finalized_removals _ selected) as [idxs|e|] eqn:Hf; intros [= <- <-];
    [|split_and!; [by destruct p as [? ? ? ? ? []]|done|by auto]..].
  cbn [state with_state]. split_and!; [done| |].
  - apply map_subseteq_spec. intros i block. rewrite release_lookup. by case_decide.
  - intros i block Hi. rewrite release_lookup.
    destruct (decide (i ∈ idxs)) as [Hin|]; [right|by left].
    destruct (finalized_removals_Ok _ _ _ _ Hf Hin) as (block' & Hb & Hp).
    split; [done|]. by simplify_eq.
Qed.

(** [prune_finalized_removals] changes nothing but the removal records,
    and drops one only when the node's finalized block, connected hash by
    hash to the selected block, has the recorded block among its ancestors
    (or is itself above a selected block that has): a rollback that could
    still revert the removal never loses its record. *)
Theorem released_removals_are_final p selected p' r :
  prune_finalized_removals selected p = (p', r) ->
  p' = with_state (set_cache (games (state p)) (removed_games (state p')) (state p)) p /\
  forall i block, removed_games (state p) !! i = Some block ->
    removed_games (state p') !! i = Some block \/
    removed_games (state p') !! i = None /\ proven_final selected block.
Proof.
  intros Hr. destruct (prune_removals_spec p selected p' r Hr) as (Hp & _ & Hl). by split.
Qed.
End chain.

(** At tip 20 with block 15 final: the removal of game 3 is final, game 4 was
    removed on a fork, and game 5 after the finalized block. *)
Definition removal_sample : Proposer :=
  with_state (set_cache ∅
    (<[3 := {| bn_number := 12; bn_hash := 1012 |}]>
      (<[4 := {| bn_number := 12; bn_hash := 7 |}]>
        {[5 := {| bn_number := 18; bn_hash := 1018 |}]})) default_state) new_proposer.

Lemma released_removals_are_final_witness :
  let L := sample_l1 20 15 0 [] in
  let r := prune_finalized_removals (L1 := L) (sample_header 20) removal_sample in
  map_to_list (removed_games (state r.1)) =
    [(5, {| bn_number := 18; bn_hash := 1018 |}); (4, {| bn_number := 12; bn_hash := 7 |})] /\
  r.1 = with_state (set_cache (games (state removal_sample)) (removed_games (state r.1))
          (state removal_sample)) removal_sample /\
  forall i block, removed_games (state removal_sample) !! i = Some block ->
    removed_games (state r.1) !! i = Some block \/
    removed_games (state r.1) !! i = None /\ @proven_final L (sample_header 20) block.
Proof.
  cbv zeta. split; [vm_compute; reflexivity|].
  eapply released_removals_are_final. apply surjective_pairing.
Defined.
