(* ===== verification/ProposerSync.v ===== *)
(** * Synchronizing the proposer's cache with the chain

    [read_game], [load_game], [fetch_game], [sync_games], [sync_anchor_game] and
    [sync_state] of [fault-proof/src/proposer.rs]. *)

From S2P Require Import Prelude FaultTypes GameCache Backup ProposerService L1Chain.

Inductive GameFetchResult :=
| ValidGame (game_address deadline : Z)
| UnsupportedType (game_address : Z)
| UnsupportedAnchorStateRegistry (game_address : Z)
| InvalidGame (index : Z)
| AlreadyExists.

(** The local enum of [sync_games]. *)
Inductive GameSyncAction :=
| Update (index : Z) (status : GameStatus) (proposal_status : ProposalStatus) (deadline : Z)
    (should_attempt_to_resolve should_attempt_to_close_game should_attempt_to_claim_bond : bool)
| Remove (index : Z)
| RemoveSubtree (index : Z).

Section sync.
Context `{L1 : L1Rpc, L2 : L2Rpc, W : Wallet, HO : HashOrder}
  (config : ProposerConfig) (identity : ProposerIdentity).

(** ** Reading one game *)

Definition read_game (i : Z) (pinned_block : BlockId)
    : outcome (GameFetchResult * option Game) :=
  '(game_type, game_address) ← gameAtIndex i pinned_block;
  if negb (game_type =? cfg_game_type config) then Ok (UnsupportedType game_address, None)
  else
    game_asr ← anchorStateRegistry game_address pinned_block;
    if negb (game_asr =? anchor_state_registry_address config)
    then Ok (UnsupportedAnchorStateRegistry game_address, None)
    else
      l2_block ← l2BlockNumber game_address pinned_block;
      output_root ← compute_output_root_at_block l2_block;
      claim ← rootClaim game_address pinned_block;
      was_respected ← wasRespectedGameTypeWhenCreated game_address pinned_block;
      status ← status_of game_address pinned_block;
      claim_data ← claimData game_address pinned_block;
      agg ← aggregationVkey game_address pinned_block;
      range ← rangeVkeyCommitment game_address pinned_block;
      rollup ← rollupConfigHash game_address pinned_block;
      if negb was_respected then Ok (InvalidGame i, None)
      else if negb (output_root =? claim) then Ok (InvalidGame i, None)
      else
        Ok (ValidGame game_address (claim_deadline claim_data), Some
          {| index := i; address := game_address; parent_index := parentIndex claim_data;
             l2_block := l2_block; status := status;
             proposal_status := claim_status claim_data;
             deadline := claim_deadline claim_data; should_attempt_to_resolve := false;
             should_attempt_to_close_game := false; should_attempt_to_claim_bond := false;
             aggregation_vkey := agg; range_vkey_commitment := range;
             rollup_config_hash := rollup |}).

Definition load_game (gs : gmap Z Game) (i : Z) (pinned_block : BlockId)
    : outcome (GameFetchResult * option Game) :=
  match gs !! i with
  | Some _ => Ok (AlreadyExists, None)
  | None => read_game i pinned_block
  end.

Definition fetch_game (i : Z) (pinned_block : BlockId) : M Proposer GameFetchResult :=
  p ← get_state;
  '(r, game) ← lift (load_game (games (state p)) i pinned_block);
  _ ← match game with
      | Some g => modify (fun p =>
          with_state (set_cache (<[i := g]> (games (state p))) (removed_games (state p))
            (state p)) p)
      | None => mret tt
      end;
  mret r.

(** ** Step 0: games above the pinned snapshot *)

Definition future_games (s : ProposerState) (pinned_latest_index : option Z) : list Z :=
  filter (fun idx => match pinned_latest_index with
                     | Some max => max <? idx | None => true end = true) (keys (games s)).

Definition tracks_guard (s : ProposerState) (guard : CreationGuard) (idxs : list Z) : bool :=
  negb (guard_address guard =? Address_ZERO) &&
  existsb (fun idx => match games s !! idx with
                      | Some g => address g =? guard_address guard | None => false end) idxs.

Definition prune_future (snapshot : BlockNumHash) (pinned_latest_index : option Z)
    (p : Proposer) : Proposer :=
  let future := future_games (state p) pinned_latest_index in
  if bool_decide (future = []) then p
  else
    let guard_in_pruned := tracks_guard (state p) (creation_guard p) future in
    let s := remove_games (state p) future snapshot in
    let should_clear_anchor :=
      match anchor_game s with
      | Some a => bool_decide (games s !! index a = None) | None => false end in
    let s := if should_clear_anchor then set_anchor_game None s else s in
    with_state s (if guard_in_pruned then with_guard default_guard p else p).

(** ** Step 1: the walk back from the latest game to the cursor *)

(** [abs_diff] of the deadlines against the lag bound. *)
Definition lagging (anchor_deadline : option Z) (deadline : Z) : bool :=
  match anchor_deadline with
  | Some anchor_d => MAX_GAME_DEADLINE_LAG <? abs_diff anchor_d deadline
  | None => false
  end.

(** One game of the walk: the loaded game, whether its index is invalid, the
    anchor deadline known from here on, and whether to stop. *)
Definition visit_game (gs : gmap Z Game) (pinned_block : BlockId) (anchor_address : Z)
    (anchor_deadline : option Z) (i : Z)
    : outcome (option Game * list Z * option Z * bool) :=
  '(fetch_result, game) ← load_game gs i pinned_block;
  fetch_result ←
    match fetch_result with
    | AlreadyExists =>
        g ← with_context "Cached game disappeared during sync" (gs !! i);
        Ok (ValidGame (address g) (deadline g))
    | r => Ok r
    end;
  Ok (match fetch_result with
      | ValidGame game_address deadline =>
          let anchor_deadline :=
            if game_address =? anchor_address then Some deadline else anchor_deadline in
          (game, [], anchor_deadline, lagging anchor_deadline deadline)
      | UnsupportedType game_address =>
          (game, [], anchor_deadline, game_address =? anchor_address)
      | UnsupportedAnchorStateRegistry _ => (game, [], anchor_deadline, false)
      | InvalidGame idx => (game, [idx], anchor_deadline, false)
      | AlreadyExists => (game, [], anchor_deadline, false)
      end).

(** The loop. [None] when the fuel runs out; [expect] on an index past zero
    panics. *)
Fixpoint fetch_loop (fuel : nat) (gs : gmap Z Game) (pinned_block : BlockId)
    (anchor_address : Z) (cur : Cursor) (idx : Cursor) (anchor_deadline : option Z)
    (invalid_game_ids : list Z) (fetched_games : list Game)
    : option (outcome (list Game * list Z)) :=
  if bool_decide (idx = cur) then Some (Ok (fetched_games, invalid_game_ids))
  else
    match fuel, idx with
    | O, _ => None
    | S _, None => Some Panic
    | S fuel', Some i =>
        match visit_game gs pinned_block anchor_address anchor_deadline i with
        | Ok (game, invalid, anchor_deadline', stop) =>
            let fetched_games' := fetched_games ++ option_list game in
            let invalid_game_ids' := invalid_game_ids ++ invalid in
            if stop then Some (Ok (fetched_games', invalid_game_ids'))
            else fetch_loop fuel' gs pinned_block anchor_address cur (step_back idx)
                   anchor_deadline' invalid_game_ids' fetched_games'
        | Err e => Some (Err e)
        | Panic => Some Panic
        end
    end.

Definition fetch_fuel (latest : Z) : nat := S (S (Z.to_nat latest)).

(** A factory that shrank below the cursor was reset. *)
Definition start_cursor (latest : Cursor) (current : Cursor) : Cursor :=
  if cursor_lt latest current then None else current.

Definition commit_game (s : ProposerState) (g : Game) : ProposerState :=
  set_cache (<[index g := g]> (games s)) (delete (index g) (removed_games s)) s.
Definition commit_fetched (fetched : list Game) (latest : Cursor) (s : ProposerState)
    : ProposerState :=
  set_cursor latest (foldl commit_game s fetched).
Definition remove_invalid (invalid : list Z) (snapshot : BlockNumHash) (s : ProposerState)
    : ProposerState :=
  foldl (fun s idx => remove_subtree s idx snapshot) s invalid.

(** ** Step 2: the status of every cached game *)

Definition sync_action (pinned_block : BlockId) (now_ts anchor_address : Z)
    (i game_address : Z) (owned : bool) : M Proposer GameSyncAction :=
  claim_data ← lift (claimData game_address pinned_block);
  st ← lift (status_of game_address pinned_block);
  let pst := claim_status claim_data in
  let dl := claim_deadline claim_data in
  finalized ← lift (isGameFinalized game_address pinned_block);
  match st with
  | IN_PROGRESS =>
      game_type ← lift (gameType game_address pinned_block);
      parent_resolved ← lift (is_parent_resolved (parentIndex claim_data) pinned_block);
      let is_game_over :=
        match pst with
        | Unchallenged => dl <=? now_ts
        | UnchallengedAndValidProofProvided | ChallengedAndValidProofProvided => true
        | _ => false
        end in
      creator ← lift (gameCreator game_address pinned_block);
      let is_own_game :=
        match pst with
        | Unchallenged => creator =? signer_address
        | UnchallengedAndValidProofProvided | ChallengedAndValidProofProvided =>
            (creator =? signer_address) || (claim_prover claim_data =? signer_address)
        | _ => false
        end in
      mret (Update i st pst dl
              ((game_type =? cfg_game_type config) && parent_resolved && is_game_over &&
                 is_own_game) false false)
  | DEFENDER_WINS =>
      if negb finalized then mret (Update i st pst dl false false false)
      else
        mode ← lift (bondDistributionMode game_address pinned_block);
        if owned && (mode =? BOND_DISTRIBUTION_MODE_UNDECIDED)
        then mret (Update i st pst dl false true false)
        else
          _ ← modify (fun p =>
                with_failures (delete game_address (close_game_failures p)) p);
          cr ← lift (credit game_address signer_address pinned_block);
          if 0 <? cr then mret (Update i st pst dl false false true)
          else
            p ← get_state;
            if bool_decide (canonical_head_index (state p) = Some i)
               || (anchor_address =? game_address)
            then mret (Update i st pst dl false false false)
            else mret (Remove i)
  | CHALLENGER_WINS => mret (RemoveSubtree i)
  | GameStatus_Invalid => panic
  end.

Definition apply_action (snapshot : BlockNumHash) (action : GameSyncAction) (p : Proposer)
    : Proposer :=
  match action with
  | Update i st pst dl resolve close bond =>
      let upd g := update_game g st pst dl resolve close bond in
      with_state (set_cache (alter upd i (games (state p))) (removed_games (state p))
        (state p)) p
  | Remove i => with_state (remove_game (state p) i snapshot) p
  | RemoveSubtree i =>
      let guard_in_subtree :=
        tracks_guard (state p) (creation_guard p)
          (i :: iter_set (descendants_of (state p) i)) in
      let p := if guard_in_subtree then with_guard default_guard p else p in
      with_state (remove_subtree (state p) i snapshot) p
  end.

Definition sync_statuses (snapshot : BlockNumHash) (now_ts anchor_address : Z)
    : M Proposer unit :=
  let pinned_block := AtHash (bn_hash snapshot) in
  p ← get_state;
  let listed := (fun g => (index g, address g, is_owned g identity)) <$>
                  values (games (state p)) in
  actions ← fold_each listed [] (fun actions '(i, a, owned) =>
    action ← sync_action pinned_block now_ts anchor_address i a owned;
    mret (actions ++ [action]));
  for_each actions (fun action => modify (apply_action snapshot action)).

(** ** [sync_games] *)

Definition sync_games (snapshot : BlockNumHash) (pinned_timestamp : Z) : M Proposer unit :=
  let pinned_block := AtHash (bn_hash snapshot) in
  pinned_latest_index ← lift (fetch_latest_game_index pinned_block);
  _ ← modify (prune_future snapshot pinned_latest_index);
  match pinned_latest_index with
  | None => modify (fun p => with_state (set_cursor None (state p)) p)
  | Some latest =>
      anchor_address ← lift (anchorGame pinned_block);
      p ← get_state;
      let cur := start_cursor (Some latest) (cursor (state p)) in
      '(fetched_games, invalid_game_ids) ← lift (default Panic
         (fetch_loop (fetch_fuel latest) (games (state p)) pinned_block anchor_address cur
            (Some latest) None [] []));
      _ ← modify (fun p =>
            with_state (commit_fetched fetched_games (Some latest) (state p)) p);
      _ ← modify (fun p => with_state (remove_invalid invalid_game_ids snapshot (state p)) p);
      sync_statuses snapshot pinned_timestamp anchor_address
  end.

(** ** [sync_anchor_game] *)

Definition find_address (s : ProposerState) (a : Z) : option Game :=
  snd <$> List.find (fun r => address r.2 =? a) (iter_map (games s)).

Definition sync_anchor_game (pinned_block : BlockId) : M Proposer unit :=
  anchor_address ← lift (anchorGame pinned_block);
  modify (fun p =>
    with_state (set_anchor_game
      (if anchor_address =? Address_ZERO then None
       else find_address (state p) anchor_address) (state p)) p).

(** ** [sync_state] *)

(** The confirmed header the pass is pinned to. *)
Definition confirmed_header (latest_header : Header) : outcome Header :=
  if sync_l1_confirmations config =? 0 then Ok latest_header
  else
    block ← get_block_by_number
      (Number (saturating_sub (h_number latest_header) (sync_l1_confirmations config)));
    with_context "Confirmed L1 block is unavailable; retrying sync" block.

(** [rebuild] and [unchanged]. *)
Definition snapshot_changed (sync : L1SyncState) (confirmed_number : Z)
    (confirmed : Header) : outcome (bool * bool) :=
  match sync_block sync with
  | Some (previous_number, previous_hash) =>
      if confirmed_number <? previous_number then Ok (true, false)
      else
        canonical_hash ←
          (if confirmed_number =? previous_number then Ok (h_hash confirmed)
           else h_hash <$> l1_ancestor confirmed previous_number);
        let rebuild := negb (canonical_hash =? previous_hash) in
        Ok (rebuild, negb rebuild && (confirmed_number =? previous_number) &&
                     sync_complete sync)
  | None => Ok (true, false)
  end.

(** Re-reads the proposal the guard protects at the selected tip. *)
Definition reconcile_guard (created : CreationGuard) (latest_header : Header)
    : M Proposer unit :=
  match guard_observation created with
  | Some observation =>
      if observed_l1_block observation <=? h_number latest_header then
        addr ← lift (factory_games (cfg_game_type config) (gc_output_root observation)
                  (gc_extra_data observation) (AtHash (h_hash latest_header)));
        let reconciled :=
          if addr =? Address_ZERO then default_guard
          else {| guard_l2_block := guard_l2_block created; guard_address := addr;
                  guard_observation := Some
                    {| observed_l1_block := h_number latest_header;
                       gc_output_root := gc_output_root observation;
                       gc_extra_data := gc_extra_data observation |} |} in
        modify (fun p =>
          if bool_decide (creation_guard p = created) then with_guard reconciled p else p)
      else mret tt
  | None => mret tt
  end.

(** One tracked index of the rebuild: refreshed, or recorded as removed. *)
Definition rebuild_index (pinned_block : BlockId) (latest_index : option Z)
    (snapshot : BlockNumHash) (acc : gmap Z Game * gmap Z BlockNumHash) (i : Z)
    : M Proposer (gmap Z Game * gmap Z BlockNumHash) :=
  let removed := (acc.1, <[i := snapshot]> acc.2) in
  if match latest_index with Some latest => i <=? latest | None => false end then
    '(_, game) ← lift (read_game i pinned_block);
    mret (match game with Some g => (<[i := g]> acc.1, acc.2) | None => removed end)
  else mret removed.

Definition rebuild_cache (confirmed : Header) (snapshot : BlockNumHash) : M Proposer unit :=
  let pinned_block := AtHash (bn_hash snapshot) in
  _ ← prune_finalized_removals confirmed;
  anchor_l2_block ← lift (getAnchorRoot pinned_block);
  latest_index ← lift (fetch_latest_game_index pinned_block);
  p ← get_state;
  '(gs, removed) ← fold_each (iter_set (tracked (state p))) (∅, ∅)
                    (rebuild_index pinned_block latest_index snapshot);
  _ ← modify (with_state
    {| anchor_game := None; canonical_head_index := None;
       canonical_head_l2_block := Some anchor_l2_block; cursor := None;
       games := gs; removed_games := removed |});
  modify (with_failures ∅).

(** The pass at a selected tip and confirmed header. *)
Definition sync_snapshot (created : CreationGuard) (sync : L1SyncState)
    (latest_header confirmed : Header) : M Proposer unit :=
  let confirmed_number :=
    saturating_sub (h_number latest_header) (sync_l1_confirmations config) in
  let snapshot := {| bn_number := confirmed_number; bn_hash := h_hash confirmed |} in
  '(rebuild, unchanged) ← lift (snapshot_changed sync confirmed_number confirmed);
  _ ← reconcile_guard created latest_header;
  if (unchanged : bool) then mret tt
  else
    _ ← (if (rebuild : bool) then rebuild_cache confirmed snapshot else mret tt);
    _ ← modify (with_sync {| sync_block := Some (confirmed_number, h_hash confirmed);
                             sync_complete := false |});
    _ ← sync_games snapshot (h_timestamp confirmed);
    _ ← sync_anchor_game (AtHash (bn_hash snapshot));
    _ ← modify (fun p => with_state (compute_canonical_head (state p)) p);
    _ ← prune_finalized_removals confirmed;
    modify (fun p => with_sync {| sync_block := sync_block (l1_sync p);
                                  sync_complete := true |} p).

Definition sync_state : M Proposer unit :=
  p ← get_state;
  block ← lift (get_block_by_number Latest);
  latest_header ← lift (with_context "Failed to fetch latest L1 block" block);
  confirmed ← lift (confirmed_header latest_header);
  sync_snapshot (creation_guard p) (l1_sync p) latest_header confirmed.

(** ** No tracked index is lost *)

Section tracks.
Variable snap : BlockNumHash.

(** The cache along a sync at [snap]: what is tracked stays tracked, a new
    removal record names [snap], and the cache stays well formed. *)
Definition tracks (p p' : Proposer) : Prop :=
  tracked (state p) ⊆ tracked (state p') /\
  (forall i b, removed_games (state p') !! i = Some b ->
     removed_games (state p) !! i = Some b \/ b = snap) /\
  (wf_state (state p) -> wf_state (state p')).

#[local] Instance tracks_preorder : PreOrder tracks.
Proof.
  split; unfold tracks; [naive_solver|].
  intros p q r (H1 & H2 & H3) (H4 & H5 & H6). split_and!; [set_solver| |auto].
  intros i b [Hi| ->]%H5; auto.
Qed.

Lemma tracks_cache p p' :
  games (state p') = games (state p) -> removed_games (state p') = removed_games (state p) ->
  tracks p p'.
Proof.
  unfold tracks, tracked. intros Hg Hr. rewrite Hg, Hr. split_and!; [done|auto|].
  intros [Hk Hd]. split; rewrite Hg; [done|]. by rewrite Hr.
Qed.

Lemma tracks_remove_games p p' idxs :
  state p' = remove_games (state p) idxs snap -> tracks p p'.
Proof.
  unfold tracks. intros ->. rewrite remove_games_tracked.
  split_and!; [done| |apply remove_games_wf]. intros i b.
  rewrite (proj2 (remove_games_lookup _ _ _ _)). case_decide; [intros [= <-]|]; auto.
Qed.

Lemma tracks_prune_future latest p : tracks p (prune_future snap latest p).
Proof.
  unfold prune_future. case_bool_decide; [done|]. cbv zeta.
  etrans; [by eapply (tracks_remove_games p (with_state (remove_games (state p)
    (future_games (state p) latest) snap) p))|].
  destruct (match anchor_game _ with Some _ => _ | None => _ end); destruct (tracks_guard _ _ _);
    by apply tracks_cache.
Qed.

Lemma tracks_commit_game g p : tracks p (with_state (commit_game (state p) g) p).
Proof.
  unfold tracks, commit_game, tracked. cbn. rewrite dom_insert_L, dom_delete_L. split_and!.
  - intros i. rewrite !elem_of_union, elem_of_difference, elem_of_singleton.
    destruct (decide (i = index g)); tauto.
  - intros i b [_ Hb]%lookup_delete_Some. by left.
  - intros [Hk Hd]. split; cbn; [|rewrite dom_insert_L, dom_delete_L; set_solver].
    intros i g' [[<- <-]|[_ Hi]]%lookup_insert_Some; [done|by apply Hk].
Qed.

Lemma tracks_commit fetched latest p :
  tracks p (with_state (commit_fetched fetched latest (state p)) p).
Proof.
  etrans; [|by apply (tracks_cache (with_state (foldl commit_game (state p) fetched) p))].
  revert p. induction fetched as [|g gs IH]; intros p; [by apply tracks_cache|]. cbn.
  etrans; [apply (tracks_commit_game g)|].
  exact (IH (with_state (commit_game (state p) g) p)).
Qed.

Lemma tracks_remove_invalid invalid p :
  tracks p (with_state (remove_invalid invalid snap (state p)) p).
Proof.
  revert p. induction invalid as [|i l IH]; intros p; [by apply tracks_cache|].
  etrans; [by eapply (tracks_remove_games p (with_state (remove_subtree (state p) i snap) p))|].
  etrans; [apply IH|]. by apply tracks_cache.
Qed.

Lemma tracks_update i st pst dl r c b p :
  tracks p (with_state (set_cache (alter (fun g => update_game g st pst dl r c b) i
    (games (state p))) (removed_games (state p)) (state p)) p).
Proof.
  unfold tracks, tracked. cbn. rewrite dom_alter_L. split_and!; [done|auto|].
  intros [Hk Hd]. split; cbn; [|by rewrite dom_alter_L]. intros j g.
  rewrite lookup_alter. case_decide as Hij; [|by apply Hk].
  intros (g' & Hg%Hk & ->)%fmap_Some. by subst.
Qed.

Lemma tracks_apply action p : tracks p (apply_action snap action p).
Proof.
  destruct action as [i st pst dl r c b|i|i]; cbn [apply_action].
  - apply tracks_update.
  - by apply (tracks_remove_games _ _ [i]).
  - destruct (tracks_guard _ _ _); by eapply tracks_remove_games.
Qed.

Lemma sync_action_failures_only pinned now anchor i a owned p p' r :
  sync_action pinned now anchor i a owned p = (p', r) ->
  p' = p \/ p' = with_failures (delete a (close_game_failures p)) p.
Proof.
  intros H. apply (f_equal fst) in H. cbn [fst] in H. subst p'.
  unfold sync_action, mbind, M_bind, lift, modify, get_state, mret, M_ret, panic, lift.
  repeat (case_match; subst; cbn [fst]; simplify_eq; auto).
Qed.

Lemma tracks_sync_action pinned now anchor i a owned :
  keeps tracks (sync_action pinned now anchor i a owned).
Proof.
  intros p. destruct (sync_action _ _ _ _ _ _ p) as [p' r] eqn:H.
  apply sync_action_failures_only in H as [->| ->]; [done|by apply tracks_cache].
Qed.

#[local] Hint Resolve tracks_sync_action tracks_apply tracks_commit tracks_remove_invalid
  tracks_prune_future : keeps.
#[local] Hint Extern 1 (tracks _ _) => by apply tracks_cache : keeps.

Lemma tracks_sync_statuses now anchor : keeps tracks (sync_statuses snap now anchor).
Proof. unfold sync_statuses. cbv zeta. keeps_tac. Qed.
#[local] Hint Resolve tracks_sync_statuses : keeps.

Lemma tracks_sync_games now : keeps tracks (sync_games snap now).
Proof. unfold sync_games. cbv zeta. keeps_tac. Qed.

Lemma tracks_sync_anchor pinned : keeps tracks (sync_anchor_game pinned).
Proof. unfold sync_anchor_game. keeps_tac. Qed.

Lemma tracks_compute_head p :
  tracks p (with_state (compute_canonical_head (state p)) p).
Proof. unfold compute_canonical_head. destruct (select_canonical_head _); by apply tracks_cache. Qed.

Lemma tracks_reconcile created latest : keeps tracks (reconcile_guard created latest).
Proof.
  unfold reconcile_guard. keeps_tac. apply keeps_modify. intros p.
  case_bool_decide; [by apply tracks_cache|done].
Qed.
End tracks.

(** An index may leave the tracked set in one way: L1 finality has proven the
    removal it was recorded with. *)
Definition released_by (selected : Header) (snap : BlockNumHash) (p : Proposer) (i : Z) : Prop :=
  exists block, (removed_games (state p) !! i = Some block \/ block = snap) /\
    proven_final selected block.

Definition loses_only_final (selected : Header) (snap : BlockNumHash) (p p' : Proposer) : Prop :=
  (forall i, i ∈ tracked (state p) -> i ∈ tracked (state p') \/ released_by selected snap p i) /\
  (forall i b, removed_games (state p') !! i = Some b ->
     removed_games (state p) !! i = Some b \/ b = snap) /\
  (wf_state (state p) -> wf_state (state p')).

#[local] Instance loses_only_final_preorder selected snap :
  PreOrder (loses_only_final selected snap).
Proof.
  split; unfold loses_only_final, released_by; [intros p; split_and!; auto|].
  intros p q r (H1 & H2 & H3) (H4 & H5 & H6). split_and!; [| |auto].
  - intros i [Hi|Hi]%H1; [|by right]. apply H4 in Hi as [Hi|(b & [Hb| ->] & Hf)]; [by left| |eauto 6].
    apply H2 in Hb. eauto.
  - intros i b [Hi| ->]%H5; auto.
Qed.

Lemma loses_tracks selected snap {A} (m : M Proposer A) :
  keeps (tracks snap) m -> keeps (loses_only_final selected snap) m.
Proof.
  intros Hm p. destruct (Hm p) as (H1 & H2 & H3). split_and!; [|done..]. intros i Hi. left. set_solver.
Qed.

#[local] Hint Resolve tracks_sync_games tracks_sync_anchor tracks_compute_head
  tracks_reconcile loses_tracks : keeps.

Lemma loses_prune selected snap :
  keeps (loses_only_final selected snap) (prune_finalized_removals selected).
Proof.
  intros p. destruct (prune_finalized_removals selected p) as [p' r] eqn:H. cbn [fst].
  apply prune_removals_spec in H as (Hp & Hs & H). rewrite map_subseteq_spec in Hs.
  assert (Hg : games (state p') = games (state p)) by (by rewrite Hp).
  split_and!; [|by auto|].
  - intros i. unfold tracked. rewrite !elem_of_union, Hg.
    intros [Hi|[b Hb]%elem_of_dom]; [by left; left|].
    destruct (H i b Hb) as [Hb'|[_ Hf]]; [left; right; by eapply elem_of_dom_2|].
    right. exists b. auto.
  - intros [Hk Hd]. split; rewrite Hg; [done|]. intros i Hi [b Hb]%elem_of_dom.
    apply (Hd i Hi). apply Hs in Hb. by eapply elem_of_dom_2.
Qed.

(** What the rebuild loop has made of the indices seen so far. *)
Definition rebuilt (snap : BlockNumHash) (latest : option Z) (seen : gset Z)
    (acc : gmap Z Game * gmap Z BlockNumHash) : Prop :=
  dom acc.1 ∪ dom acc.2 = seen /\ dom acc.1 ## dom acc.2 /\
  (forall i g, acc.1 !! i = Some g -> index g = i /\ exists l, latest = Some l /\ i <= l) /\
  (forall i b, acc.2 !! i = Some b -> b = snap).

Lemma read_game_index i pinned r g : read_game i pinned = Ok (r, Some g) -> index g = i.
Proof.
  unfold read_game. intros H. ok_inv. destruct x as [t a].
  repeat (case_match || (progress ok_inv)); by simplify_eq.
Qed.

Lemma rebuild_index_spec pinned latest snap acc i p p' acc' seen :
  rebuild_index pinned latest snap acc i p = (p', Ok acc') -> i ∉ seen ->
  rebuilt snap latest seen acc -> p' = p /\ rebuilt snap latest ({[i]} ∪ seen) acc'.
Proof.
  intros Hr Hi (Hd & Hdis & Hk & Hb). destruct acc as [gs rm]; cbn in *.
  assert (Hrem : rebuilt snap latest ({[i]} ∪ seen) (gs, <[i := snap]> rm)).
  { unfold rebuilt. cbn. rewrite dom_insert_L. split_and!; [set_solver..|done|].
    intros j b [[_ <-]|[_ Hj]]%lookup_insert_Some; [done|by apply Hb in Hj]. }
  unfold rebuild_index in Hr. cbn [fst snd] in Hr.
  destruct latest as [l|]; [destruct (Z.leb_spec i l) as [Hle|]|]; [|by m_inv..].
  apply M_bind_Ok in Hr as (p1 & [r [g|]] & Hread & Hr); apply M_lift_Ok in Hread as [Hread ->];
    m_inv; (split; [done|]); [|done].
  apply read_game_index in Hread. unfold rebuilt. cbn. rewrite dom_insert_L.
  split_and!; [set_solver..| |done].
  intros j g' [[<- <-]|[_ Hj]]%lookup_insert_Some; [eauto|by apply Hk in Hj].
Qed.

Lemma rebuild_loop_spec pinned latest snap l acc p p' acc' seen :
  fold_each l acc (rebuild_index pinned latest snap) p = (p', Ok acc') -> NoDup l ->
  (forall i, i ∈ l -> i ∉ seen) -> rebuilt snap latest seen acc ->
  p' = p /\ rebuilt snap latest (list_to_set l ∪ seen) acc'.
Proof.
  revert acc p seen. induction l as [|i l IH]; intros acc p seen; cbn.
  { intros H _ _ Hr. m_inv. by rewrite union_empty_l_L. }
  intros H [Hi Hn]%NoDup_cons Hs Hr. apply M_bind_Ok in H as (p1 & acc1 & H1 & H2).
  destruct (rebuild_index_spec _ _ _ _ _ _ _ _ seen H1) as [-> Hr1]; [apply Hs; left|done|].
  apply IH with (seen := {[i]} ∪ seen) in H2; [|done| |done].
  - destruct H2 as [-> H2]. split; [done|].
    by replace ({[i]} ∪ list_to_set l ∪ seen) with (list_to_set l ∪ ({[i]} ∪ seen)) by set_solver.
  - intros j Hj. assert (j <> i) by (by intros ->). specialize (Hs j ltac:(by right)). set_solver.
Qed.

Lemma rebuild_loop_reads pinned latest snap l acc :
  keeps (=) (fold_each l acc (rebuild_index pinned latest snap)).
Proof.
  apply keeps_fold_each; [apply _|]. intros b x _. unfold rebuild_index. cbv zeta. keeps_tac.
Qed.

Lemma loses_rebuild confirmed snap :
  keeps (loses_only_final confirmed snap) (rebuild_cache confirmed snap).
Proof.
  unfold rebuild_cache. cbv zeta.
  apply keeps_bind; [apply _|apply loses_prune|intros _].
  keeps_step; [eauto with keeps typeclass_instances|].
  keeps_step; [eauto with keeps typeclass_instances|].
  rename a into anchor_l2_block, a0 into latest. intros p.
  unfold mbind, M_bind, get_state. cbn beta iota zeta.
  match goal with |- context [fold_each ?l ?a ?b p] =>
    destruct (fold_each l a b p) as [p' r] eqn:Hf end.
  assert (p = p') as <- by (eapply (keeps_run (=)); [apply rebuild_loop_reads|exact Hf]).
  destruct r as [[gs rm]|e|]; cbn [fst]; [|done..].
  apply (rebuild_loop_spec _ _ _ _ _ _ _ _ ∅) in Hf as [_ (Hd & Hdis & Hk & Hb)]; cbn in *.
  - assert (Ht : dom gs ∪ dom rm = tracked (state p)).
    { rewrite Hd, union_empty_r_L. apply set_eq. intros i.
      by rewrite elem_of_list_to_set, elem_of_iter_set. }
    split_and!; cbn.
    + intros i Hi. left. unfold tracked at 1. cbn. by rewrite Ht.
    + intros i b Hi. right. by eapply Hb.
    + intros _. split; cbn; [|done]. intros i g Hi. by destruct (Hk _ _ Hi).
  - rewrite iter_set_perm. apply NoDup_elements.
  - set_solver.
  - unfold rebuilt; cbn. rewrite !dom_empty_L. split_and!; [set_solver|set_solver|done|done].
Qed.

Lemma loses_sync_snapshot created sync latest confirmed :
  keeps (loses_only_final confirmed
    {| bn_number := saturating_sub (h_number latest) (sync_l1_confirmations config);
       bn_hash := h_hash confirmed |}) (sync_snapshot created sync latest confirmed).
Proof.
  unfold sync_snapshot. cbv zeta. keeps_step; [apply keeps_lift; apply _|].
  destruct a as [rebuild unchanged]. keeps_step; [by auto with keeps|].
  destruct unchanged; [apply keeps_ret; apply _|].
  keeps_step; [destruct rebuild; [apply loses_rebuild|apply keeps_ret; apply _]|].
  repeat (keeps_step; [solve [apply loses_tracks; auto with keeps; apply keeps_modify;
    intros; (apply tracks_compute_head || by apply tracks_cache)]|]).
  keeps_step; [apply loses_prune|].
  apply loses_tracks, keeps_modify. intros q. by apply tracks_cache.
Qed.

Lemma sync_state_wf p : wf_state (state p) -> wf_state (state (sync_state p).1).
Proof.
  unfold sync_state, mbind, M_bind, get_state, lift.
  destruct (get_block_by_number Latest) as [[latest|]|e|]; cbn; [|done..].
  destruct (confirmed_header latest) as [confirmed|e|]; [|done..].
  apply (loses_sync_snapshot (creation_guard p) (l1_sync p) latest confirmed p).
Qed.

(** C1: whatever a sync meets (a reorg, a lagging node, an RPC failure at any
    point) and however it ends, no tracked game index is lost: it stays
    cached or recorded as removed, unless L1 finality, checked hash by hash
    against the confirmed header the sync selected, has proven the removal
    it was recorded with. The cache stays well formed. *)
Theorem sync_state_loses_only_final p :
  let p' := (sync_state p).1 in
  (wf_state (state p) -> wf_state (state p')) /\
  forall i, i ∈ tracked (state p) -> i ∈ tracked (state p') \/
    exists latest confirmed,
      get_block_by_number Latest = Ok (Some latest) /\
      confirmed_header latest = Ok confirmed /\
      released_by confirmed
        {| bn_number := saturating_sub (h_number latest) (sync_l1_confirmations config);
           bn_hash := h_hash confirmed |} p i.
Proof.
  cbv zeta. unfold sync_state.
  unfold mbind, M_bind, get_state, lift.
  destruct (get_block_by_number Latest) as [[latest|]|e|] eqn:Hl; cbn; [|by auto..].
  destruct (confirmed_header latest) as [confirmed|e|] eqn:Hc; [|by auto..].
  destruct (loses_sync_snapshot (creation_guard p) (l1_sync p) latest confirmed p)
    as (H1 & _ & H3).
  split; [done|]. intros i [Hi|Hi]%H1; [by left|right]. eauto.
Qed.

(** ** The walk back from the latest game *)

Lemma read_game_shape i pinned r o :
  read_game i pinned = Ok (r, o) ->
  match o with
  | Some g => r = ValidGame (address g) (deadline g) /\ index g = i
  | None => match r with
            | InvalidGame j => j = i
            | UnsupportedType _ | UnsupportedAnchorStateRegistry _ => True
            | _ => False
            end
  end.
Proof.
  unfold read_game. intros H. ok_inv. destruct x as [t a].
  repeat (case_match || (progress ok_inv)); by simplify_eq.
Qed.

(** The cache, or else the chain, has a valid game with this address and
    deadline at index [i]. *)
Definition valid_at (gs : gmap Z Game) (pinned : BlockId) (i a d : Z) : Prop :=
  match gs !! i with
  | Some g => address g = a /\ deadline g = d
  | None => exists g, read_game i pinned = Ok (ValidGame a d, Some g)
  end.

(** The walk may end at [i], above the cursor, for two reasons only. *)
Definition may_stop (gs : gmap Z Game) (pinned : BlockId) (anchor_address latest i : Z) : Prop :=
  (exists a d j anchor_d, valid_at gs pinned i a d /\ i <= j <= latest /\
     valid_at gs pinned j anchor_address anchor_d /\
     MAX_GAME_DEADLINE_LAG < abs_diff anchor_d d) \/
  (gs !! i = None /\ read_game i pinned = Ok (UnsupportedType anchor_address, None)).

Lemma visit_game_Ok gs pinned anchor ad i game invalid ad' stop :
  visit_game gs pinned anchor ad i = Ok (game, invalid, ad', stop) ->
  (forall g, game = Some g <-> gs !! i = None /\ exists r, read_game i pinned = Ok (r, Some g)) /\
  (forall j, j ∈ invalid <->
     j = i /\ gs !! i = None /\ read_game i pinned = Ok (InvalidGame i, None)) /\
  (ad' = ad \/ exists d, ad' = Some d /\ valid_at gs pinned i anchor d) /\
  (stop = true ->
     (exists a d anchor_d, valid_at gs pinned i a d /\ ad' = Some anchor_d /\
        MAX_GAME_DEADLINE_LAG < abs_diff anchor_d d) \/
     gs !! i = None /\ read_game i pinned = Ok (UnsupportedType anchor, None)).
Proof.
  unfold visit_game, load_game. intros H.
  assert (Hvalid : forall a d, valid_at gs pinned i a d ->
    ((if a =? anchor then Some d else ad) = ad \/
      exists d', (if a =? anchor then Some d else ad) = Some d' /\
        valid_at gs pinned i anchor d') /\
    (lagging (if a =? anchor then Some d else ad) d = true ->
      exists a' d' anchor_d, valid_at gs pinned i a' d' /\
        (if a =? anchor then Some d else ad) = Some anchor_d /\
        MAX_GAME_DEADLINE_LAG < abs_diff anchor_d d')).
  { intros a d Hv. split; [destruct (Z.eqb_spec a anchor) as [->|]; eauto|].
    unfold lagging. intros Hlag. destruct (if a =? anchor then Some d else ad) as [ad0|]; [|done].
    apply Z.ltb_lt in Hlag. eauto 6. }
  destruct (gs !! i) as [g|] eqn:Hi.
  - cbn in H. injection H as <- <- <- <-.
    destruct (Hvalid (address g) (deadline g)) as [H1 H2]; [by unfold valid_at; rewrite Hi|].
    split_and!; [by split; [|intros [? _]]|set_solver|done|]. intros Hs. left. by apply H2.
  - ok_inv. destruct x as [r o].
    match goal with H : read_game _ _ = Ok _ |- _ =>
      pose proof (read_game_shape _ _ _ _ H) as Hshape; rename H into Hread end.
    destruct o as [g|].
    + destruct Hshape as [-> Hidx]. ok_inv. subst. cbn in H.
      injection H as <- <- <- <-.
      destruct (Hvalid (address g) (deadline g)) as [H1 H2];
        [unfold valid_at; rewrite Hi; eauto|].
      split_and!; [|by split; [intros ?%not_elem_of_nil|intros (_ & _ & ?); congruence]|done|].
      * intros g'. split; [intros [= <-]; eauto|]. intros [_ [r Hr]]. congruence.
      * intros Hs. left. by apply H2.
    + assert (Hn : forall g', None = Some g' <-> (None : option Game) = None /\
                exists r', read_game (i) pinned = Ok (r', Some g')).
      { split; [done|]. intros [_ [r' Hr]]. congruence. }
      destruct r; try done; ok_inv; subst; cbn in H; injection H as <- <- <- <-;
        (split_and!; [done| |by left|]); try done.
      * intros j. split; [by intros ?%not_elem_of_nil|intros (_ & _ & ?); congruence].
      * intros ->%Z.eqb_eq. by right.
      * intros j. split; [by intros ?%not_elem_of_nil|intros (_ & _ & ?); congruence].
      * intros j. rewrite list_elem_of_singleton. naive_solver.
Qed.

Definition cursor_num (c : Cursor) : Z := match c with Some i => i | None => -1 end.

(** What a walk from [idx] down to [lo] has collected. *)
Definition collected (gs : gmap Z Game) (pinned : BlockId) (lo idx : Z)
    (fetched : list Game) (invalid : list Z) : Prop :=
  (forall g, g ∈ fetched <-> lo <= index g <= idx /\ gs !! index g = None /\
     exists r, read_game (index g) pinned = Ok (r, Some g)) /\
  (forall i, i ∈ invalid <-> lo <= i <= idx /\ gs !! i = None /\
     read_game i pinned = Ok (InvalidGame i, None)).

Lemma step_back_num i : 0 <= i -> cursor_num (step_back (Some i)) = i - 1.
Proof. intros Hi. cbn. unfold saturating_sub. destruct (Z.ltb_spec 0 i); cbn; lia. Qed.

Lemma collected_nil gs pinned lo idx : idx < lo -> collected gs pinned lo idx [] [].
Proof.
  intros Hlt. split; intros; (split; [by intros ?%not_elem_of_nil|intros [? _]; lia]).
Qed.

Lemma collected_step gs pinned lo i game invalid F I :
  (forall g, game = Some g <-> gs !! i = None /\ exists r, read_game i pinned = Ok (r, Some g)) ->
  (forall j, j ∈ invalid <->
     j = i /\ gs !! i = None /\ read_game i pinned = Ok (InvalidGame i, None)) ->
  lo <= i -> collected gs pinned lo (i - 1) F I ->
  collected gs pinned lo i (option_list game ++ F) (invalid ++ I).
Proof.
  intros Hg Hi Hlo [HF HI]. split.
  - intros g. rewrite elem_of_app, HF.
    assert (Ho : g ∈ option_list game <-> game = Some g)
      by (destruct game; cbn; [rewrite list_elem_of_singleton; naive_solver
                              |split; [by intros ?%not_elem_of_nil|done]]).
    rewrite Ho, Hg. split.
    + intros [[Hn (r & Hr)]|(Hle & Hn & Hr)]; [|split_and!; [lia..|done|done]].
      pose proof (read_game_index _ _ _ _ Hr) as <-. split_and!; [lia..|done|by eauto].
    + intros (Hle & Hn & Hr). destruct (decide (index g = i)) as [<-|]; [by left|right].
      split_and!; [lia..|done|done].
  - intros j. rewrite elem_of_app, HI, Hi. split.
    + intros [(-> & Hn & Hr)|(Hle & Hn & Hr)]; split_and!; (lia || done).
    + intros (Hle & Hn & Hr). destruct (decide (j = i)) as [->|]; [by left|right].
      split_and!; (lia || done).
Qed.

Lemma fetch_loop_Ok fuel gs pinned anchor latest cur idx ad inv0 fet0 fet inv :
  fetch_loop fuel gs pinned anchor cur idx ad inv0 fet0 = Some (Ok (fet, inv)) ->
  (forall c, idx = Some c -> 0 <= c <= latest) ->
  (forall d, ad = Some d -> exists j, cursor_num idx < j <= latest /\ valid_at gs pinned j anchor d) ->
  cursor_num cur <= cursor_num idx -> (forall c, cur = Some c -> 0 <= c) ->
  exists lo F I, fet = fet0 ++ F /\ inv = inv0 ++ I /\
    cursor_num cur + 1 <= lo <= cursor_num idx + 1 /\
    collected gs pinned lo (cursor_num idx) F I /\
    (lo = cursor_num cur + 1 \/ may_stop gs pinned anchor latest lo).
Proof.
  revert idx ad inv0 fet0. induction fuel as [|fuel IH];
    intros idx ad inv0 fet0; cbn [fetch_loop]; case_bool_decide as Hidx; try done.
  1, 2: intros [= <- <-] _ _ Hle _; exists (cursor_num idx + 1), [], []; rewrite !app_nil_r;
    split_and!; [done..|lia|lia|apply collected_nil; lia|left; by rewrite Hidx].
  destruct idx as [i|]; [|done].
  destruct (visit_game gs pinned anchor ad i) as [[[[game invalid] ad'] stop]|e|] eqn:Hv; [|done..].
  intros Hl Hpos Had Hle Hcur. destruct (Hpos i eq_refl) as [Hi0 Hil].
  assert (Hlt : cursor_num cur < i).
  { destruct cur as [c|]; cbn in *; [|lia]. assert (c <> i) by congruence. lia. }
  apply visit_game_Ok in Hv as (Hg & Hinv & Had' & Hstop).
  assert (Hanchor : forall d, ad' = Some d -> exists j, i <= j <= latest /\ valid_at gs pinned j anchor d).
  { intros d Hd. destruct Had' as [->|(d' & -> & Hd')].
    - destruct (Had d Hd) as (j & Hj & Hvj). cbn in Hj. exists j. split; [lia|done].
    - injection Hd as ->. exists i. split; [lia|done]. }
  destruct stop.
  - injection Hl as <- <-. exists i, (option_list game), invalid.
    split_and!; [done..|lia|cbn; lia| |].
    + pose proof (collected_step gs pinned i i game invalid [] [] Hg Hinv ltac:(lia)) as Hc.
      rewrite !app_nil_r in Hc. apply Hc, collected_nil. lia.
    + right. destruct (Hstop eq_refl) as [(a & d & anchor_d & Hva & Hd & Hlag)|?]; [left|by right].
      destruct (Hanchor _ Hd) as (j & Hj & Hvj). by exists a, d, j, anchor_d.
  - pose proof (step_back_num i Hi0) as Hnum.
    apply IH in Hl as (lo & F & I & -> & -> & Hlo & Hc & Hend).
    + rewrite Hnum in Hlo, Hc. exists lo, (option_list game ++ F), (invalid ++ I).
      rewrite <- !app_assoc. change (cursor_num (Some i)) with i.
      split_and!; [done..|lia|lia| |done].
      apply collected_step; [done|done|lia|done].
    + intros c Hc. rewrite Hc in Hnum. cbn in Hnum.
      assert (0 <= c) by (cbn in Hc; unfold saturating_sub in Hc;
        destruct (Z.ltb_spec 0 i); [injection Hc as <-; lia|done]). lia.
    + intros d Hd. destruct (Hanchor d Hd) as (j & Hj & Hvj). exists j. split; [lia|done].
    + lia.
    + done.
Qed.

Lemma fetch_loop_total fuel gs pinned anchor cur idx ad inv0 fet0 :
  cursor_num cur <= cursor_num idx -> (forall c, cur = Some c -> 0 <= c) ->
  (forall i, idx = Some i -> 0 <= i) -> (Z.to_nat (cursor_num idx + 1) <= fuel)%nat ->
  exists o, fetch_loop fuel gs pinned anchor cur idx ad inv0 fet0 = Some o /\
    (o = Panic -> exists i, read_game i pinned = Panic).
Proof.
  revert idx ad inv0 fet0. induction fuel as [|fuel IH];
    intros idx ad inv0 fet0 Hle Hc Hi Hf; cbn [fetch_loop];
    (case_bool_decide as Hidx; [by eexists|]).
  - destruct idx as [i|]; [specialize (Hi i eq_refl); cbn in Hf; lia|].
    destruct cur as [c|]; [specialize (Hc c eq_refl); cbn in Hle; lia|done].
  - destruct idx as [i|].
    2: { destruct cur as [c|]; [specialize (Hc c eq_refl); cbn in Hle; lia|done]. }
    specialize (Hi i eq_refl). pose proof (step_back_num i Hi) as Hnum.
    destruct (visit_game gs pinned anchor ad i) as [[[[game invalid] ad'] []]|e|] eqn:Hv;
      [by eexists| |by eexists|].
    + apply IH.
      * rewrite Hnum. destruct cur as [c|]; cbn in *; [|lia].
        assert (c <> i) by congruence. lia.
      * done.
      * intros c Hs. cbn in Hs. unfold saturating_sub in Hs.
        destruct (Z.ltb_spec 0 i); [injection Hs as <-; lia|done].
      * rewrite Hnum. cbn in Hf. lia.
    + eexists. split; [done|]. intros _. exists i. unfold visit_game, load_game in Hv.
      destruct (gs !! i) as [g|] eqn:Hg; [done|].
      destruct (read_game i pinned) as [[r o]|e|] eqn:Hr; [|done|done].
      pose proof (read_game_shape _ _ _ _ Hr) as Hs.
      by destruct r, o.
Qed.

(** the walk back from the latest factory index always ends, never
    meets the [expect] on a missing index, and when it succeeds it has
    loaded, for a contiguous run of indices ending at the latest one, exactly
    the valid games not yet cached and reported exactly the invalid ones. The
    run reaches down to the cursor unless it was cut at a game whose deadline
    is further than the bound from the anchor's, or at the anchor itself when
    its type is unsupported. *)
Theorem fetch_loop_spec gs pinned anchor latest current :
  0 <= latest -> (forall c, current = Some c -> 0 <= c) ->
  let cur := start_cursor (Some latest) current in
  exists o,
    fetch_loop (fetch_fuel latest) gs pinned anchor cur (Some latest) None [] [] = Some o /\
    (o = Panic -> exists i, read_game i pinned = Panic) /\
    forall fetched invalid, o = Ok (fetched, invalid) ->
      exists lo, cursor_num cur + 1 <= lo <= latest + 1 /\
        collected gs pinned lo latest fetched invalid /\
        (lo = cursor_num cur + 1 \/ may_stop gs pinned anchor latest lo).
Proof.
  intros Hl Hc cur.
  assert (Hcur : cursor_num cur <= latest /\ forall c, cur = Some c -> 0 <= c).
  { unfold cur, start_cursor. destruct current as [c|]; cbn; [|split; [lia|done]].
    destruct (Z.ltb_spec latest c); cbn; (split; [lia|]); [done|]. intros ? [= <-]. by apply Hc. }
  destruct (fetch_loop_total (fetch_fuel latest) gs pinned anchor cur (Some latest) None [] [])
    as (o & Ho & Hp); [cbn; lia|apply Hcur|by intros ? [= <-]|unfold fetch_fuel; cbn; lia|].
  exists o. split_and!; [done|done|]. intros fetched invalid ->.
  apply fetch_loop_Ok with (latest := latest) in Ho as (lo & F & I & -> & -> & Hlo & Hcol & Hend);
    [|by intros ? [= <-]|done|cbn; lia|apply Hcur].
  by exists lo.
Qed.

(** ** What the status of a game makes the proposer do *)

Definition may_resolve (pinned : BlockId) (now a : Z) : Prop :=
  status_of a pinned = Ok IN_PROGRESS /\ gameType a pinned = Ok (cfg_game_type config) /\
  exists cd creator, claimData a pinned = Ok cd /\ gameCreator a pinned = Ok creator /\
    is_parent_resolved (parentIndex cd) pinned = Ok true /\
    (claim_status cd = Unchallenged /\ claim_deadline cd <= now /\ creator = signer_address \/
     (claim_status cd = UnchallengedAndValidProofProvided \/
      claim_status cd = ChallengedAndValidProofProvided) /\
     (creator = signer_address \/ claim_prover cd = signer_address)).

Definition may_close (pinned : BlockId) (a : Z) (owned : bool) : Prop :=
  status_of a pinned = Ok DEFENDER_WINS /\ isGameFinalized a pinned = Ok true /\
  owned = true /\ bondDistributionMode a pinned = Ok BOND_DISTRIBUTION_MODE_UNDECIDED.

(** Finalized for the defender, with nothing left to close. *)
Definition settled (pinned : BlockId) (a : Z) (owned : bool) : Prop :=
  status_of a pinned = Ok DEFENDER_WINS /\ isGameFinalized a pinned = Ok true /\
  exists mode, bondDistributionMode a pinned = Ok mode /\
    owned && (mode =? BOND_DISTRIBUTION_MODE_UNDECIDED) = false.

Definition may_claim (pinned : BlockId) (a : Z) (owned : bool) : Prop :=
  settled pinned a owned /\ exists c, credit a signer_address pinned = Ok c /\ 0 < c.

Definition may_evict (pinned : BlockId) (p : Proposer) (anchor i a : Z) (owned : bool) : Prop :=
  settled pinned a owned /\ (exists c, credit a signer_address pinned = Ok c /\ c <= 0) /\
  canonical_head_index (state p) <> Some i /\ anchor <> a.

Definition action_flags (action : GameSyncAction) : bool * bool * bool :=
  match action with
  | Update _ _ _ _ resolve close bond => (resolve, close, bond)
  | _ => (false, false, false)
  end.

Lemma resolve_flag_true (cd : ClaimData) (now creator game_type : Z) (resolved : bool) :
  (game_type =? cfg_game_type config) && resolved &&
    match claim_status cd with
    | Unchallenged => claim_deadline cd <=? now
    | UnchallengedAndValidProofProvided | ChallengedAndValidProofProvided => true
    | _ => false
    end &&
    match claim_status cd with
    | Unchallenged => creator =? signer_address
    | UnchallengedAndValidProofProvided | ChallengedAndValidProofProvided =>
        (creator =? signer_address) || (claim_prover cd =? signer_address)
    | _ => false
    end = true <->
  game_type = cfg_game_type config /\ resolved = true /\
    (claim_status cd = Unchallenged /\ claim_deadline cd <= now /\ creator = signer_address \/
     (claim_status cd = UnchallengedAndValidProofProvided \/
      claim_status cd = ChallengedAndValidProofProvided) /\
     (creator = signer_address \/ claim_prover cd = signer_address)).
Proof.
  rewrite !andb_true_iff, Z.eqb_eq.
  destruct (claim_status cd); rewrite ?orb_true_iff, ?Z.leb_le, ?Z.eqb_eq;
    intuition congruence.
Qed.

(** one game's sync flags it for resolution, for closing or for a bond
    claim exactly when the pinned chain state calls for it (so never for two
    of them), evicts it exactly when it is finalized for the defender with
    nothing to close or claim and is neither the head nor the anchor, and
    drops its subtree exactly when the challenger won. The recorded close
    failures are forgotten exactly for the games with nothing left to close. *)
Theorem sync_action_decides pinned now anchor i a owned p p' action :
  sync_action pinned now anchor i a owned p = (p', Ok action) ->
  let '(resolve, close, bond) := action_flags action in
  (resolve = true <-> may_resolve pinned now a) /\
  (close = true <-> may_close pinned a owned) /\
  (bond = true <-> may_claim pinned a owned) /\
  (action = Remove i <-> may_evict pinned p anchor i a owned) /\
  (action = RemoveSubtree i <-> status_of a pinned = Ok CHALLENGER_WINS) /\
  (settled pinned a owned /\ p' = with_failures (delete a (close_game_failures p)) p \/
   ~ settled pinned a owned /\ p' = p).
Proof.
  unfold sync_action, may_resolve, may_close, may_claim, may_evict, settled. intros H.
  m_inv. rename x0 into cd, x2 into st, x4 into fin.
  repeat match goal with E : _ = Ok _ |- _ => rewrite E; clear E end.
  destruct st; [|m_inv; cbn|..|m_inv].
  - m_inv. cbn.
    repeat match goal with E : _ = Ok _ |- _ => rewrite E; clear E end.
    rewrite resolve_flag_true. iff_cases; try (right; split; [intros (?&?&?)|]; done).
    all: first [ split; [done|]; split; [done|]; eexists _, _; split_and!; by auto
               | split_and!; [done|congruence|by auto] ].
  - iff_cases. right. split; [intros (?&?&?)|]; done.
  - destruct fin; cbn in H; [|m_inv; cbn; iff_cases; right; split; [intros (?&?&?)|]; done].
    m_inv. rename x0 into mode.
    match goal with E : bondDistributionMode a pinned = Ok mode |- _ => rewrite E; clear E end.
    destruct (owned && (mode =? BOND_DISTRIBUTION_MODE_UNDECIDED)) eqn:Hmode.
    + m_inv. cbn. apply andb_true_iff in Hmode as [-> ->%Z.eqb_eq]. iff_cases.
      right. split; [|done]. by intros (_ & _ & m & [= <-] & Hne).
    + m_inv. rename x2 into cr.
      match goal with E : credit a signer_address pinned = Ok cr |- _ => rewrite E; clear E end.
      destruct (Z.ltb_spec 0 cr) as [Hcr|Hcr].
      * m_inv. cbn. iff_cases; eauto 10; lia.
      * m_inv. cbn [state with_failures] in *.
        destruct (bool_decide _ || _) eqn:Hkeep; m_inv; cbn;
          [rewrite orb_true_iff, bool_decide_eq_true, Z.eqb_eq in Hkeep
          |rewrite orb_false_iff, bool_decide_eq_false, Z.eqb_neq in Hkeep];
          iff_cases; first [lia | by left; eauto 10 | tauto | by split_and!; eauto 10].
Qed.

(** ** The creation guard during a sync *)

Definition guarded_leaves (p p' : Proposer) : Prop :=
  guard_address (creation_guard p) <> Address_ZERO /\
  exists i g, games (state p) !! i = Some g /\
    address g = guard_address (creation_guard p) /\ games (state p') !! i = None.

Lemma tracks_guard_leaves p p' idxs snap :
  games (state p') = games (remove_games (state p) idxs snap) ->
  tracks_guard (state p) (creation_guard p) idxs = true <-> guarded_leaves p p'.
Proof.
  intros Hg. unfold tracks_guard, guarded_leaves.
  rewrite andb_true_iff, negb_true_iff, Z.eqb_neq, existsb_exists, Hg. split.
  - intros [Hz (i & Hi%list_elem_of_In & Ha)]. split; [done|].
    destruct (games (state p) !! i) as [g|] eqn:Hgi; [|done]. exists i, g.
    rewrite (proj1 (remove_games_lookup _ _ _ _)), decide_True by done.
    by rewrite Z.eqb_eq in Ha.
  - intros [Hz (i & g & Hgi & Ha & Hn)]. split; [done|]. exists i.
    rewrite (proj1 (remove_games_lookup _ _ _ _)) in Hn. case_decide as Hi; [|congruence].
    rewrite Hgi, Z.eqb_eq. split; [by apply list_elem_of_In|done].
Qed.

Lemma tracks_guard_subtree s guard i :
  tracks_guard s guard (i :: iter_set (descendants_of s i)) =
  tracks_guard s guard (iter_set (descendants_of s i)).
Proof.
  unfold tracks_guard. f_equal. cbn.
  match goal with |- ?b || ?e = ?e => destruct b eqn:Hb; [|done] end.
  symmetry. apply existsb_exists. exists i. split; [|done].
  apply list_elem_of_In, elem_of_iter_set, elem_of_descendants. constructor.
Qed.

(** the duplicate-creation guard is reset by exactly two steps of a
    sync: pruning games above the pinned snapshot, and removing the subtree
    of a lost game; and by them exactly when the game the guard tracks leaves
    the cache with that step. No other status update touches the guard. *)
Theorem guard_reset_exactly snap p :
  let resets p' :=
    guarded_leaves p p' /\ creation_guard p' = default_guard \/
    ~ guarded_leaves p p' /\ creation_guard p' = creation_guard p in
  (forall latest, resets (prune_future snap latest p)) /\
  (forall i, resets (apply_action snap (RemoveSubtree i) p)) /\
  (forall action, (forall i, action <> RemoveSubtree i) ->
     creation_guard (apply_action snap action p) = creation_guard p).
Proof.
  split_and!.
  - intros latest. unfold prune_future. case_bool_decide as Hf.
    { right. split; [|done]. intros (_ & i & g & Hi & _ & Hn). congruence. }
    set (p' := with_state _ _).
    pose proof (tracks_guard_leaves p p' (future_games (state p) latest) snap) as Hl.
    destruct Hl as [Hl1 Hl2]; [subst p'; by case_match|]. subst p'.
    destruct (tracks_guard _ _ _); [left|right]; (split; [|done]); [by apply Hl1|].
    by intros ?%Hl2.
  - intros i. cbn [apply_action]. rewrite tracks_guard_subtree.
    set (p' := with_state _ _).
    pose proof (tracks_guard_leaves p p' (iter_set (descendants_of (state p) i)) snap) as Hl.
    destruct Hl as [Hl1 Hl2]; [subst p'; by destruct (tracks_guard _ _ _)|]. subst p'.
    destruct (tracks_guard _ _ _); [left|right]; (split; [|done]); [by apply Hl1|].
    by intros ?%Hl2.
  - intros [] Ha; [done|done|]. by destruct (Ha index).
Qed.

(** ** What a completed sync establishes *)

Definition bounded_by (latest : option Z) (s : ProposerState) : Prop :=
  forall i, i ∈ dom (games s) -> exists l, latest = Some l /\ i <= l.

Lemma remove_games_dom s idxs b : dom (games (remove_games s idxs b)) ⊆ dom (games s).
Proof.
  intros i. rewrite !elem_of_dom, (proj1 (remove_games_lookup _ _ _ _)).
  case_decide; [by intros []|done].
Qed.

Lemma remove_invalid_dom invalid snap s :
  dom (games (remove_invalid invalid snap s)) ⊆ dom (games s).
Proof.
  revert s. induction invalid as [|i l IH]; intros s; [done|]. cbn.
  etrans; [apply IH|apply remove_games_dom].
Qed.

(** The part of the state the last step of a sync works from. *)
Definition cached_below (p p' : Proposer) : Prop :=
  cursor (state p') = cursor (state p) /\ dom (games (state p')) ⊆ dom (games (state p)).

#[local] Instance cached_below_preorder : PreOrder cached_below.
Proof. split; unfold cached_below; [done|]. intros p q r [-> ?] [-> ?]. split; [done|set_solver]. Qed.

Lemma below_apply snap action p : cached_below p (apply_action snap action p).
Proof.
  unfold cached_below. destruct action as [i st pst dl r c b|i|i]; cbn [apply_action].
  - cbn. by rewrite dom_alter_L.
  - cbn [state with_state]. split; [|apply (remove_games_dom _ [i])].
    apply (remove_games_fields _ [i] snap).
  - destruct (tracks_guard _ _ _); cbn [state with_state with_guard]; (split;
      [apply remove_games_fields|apply remove_games_dom]).
Qed.

Lemma below_sync_statuses snap now anchor : keeps cached_below (sync_statuses snap now anchor).
Proof.
  unfold sync_statuses. cbv zeta. repeat (keeps_step; cbn beta iota).
  - intros p. destruct (sync_action _ _ _ _ _ _ p) as [p' r] eqn:Hs.
    by apply sync_action_failures_only in Hs as [->| ->].
  - apply keeps_modify, below_apply.
Qed.

Lemma commit_fetched_games fetched latest s i :
  i ∈ dom (games (commit_fetched fetched latest s)) <->
  i ∈ dom (games s) \/ i ∈ index <$> fetched.
Proof.
  unfold commit_fetched. cbn. revert s. induction fetched as [|g l IH]; intros s; cbn.
  - rewrite elem_of_nil. tauto.
  - rewrite IH. cbn. rewrite dom_insert_L, elem_of_cons. set_solver.
Qed.

Lemma prune_future_bounded snap latest p :
  bounded_by latest (state (prune_future snap latest p)).
Proof.
  intros i Hi.
  assert (Hin : i ∈ dom (games (state p)) /\ i ∉ future_games (state p) latest).
  { unfold prune_future in Hi. case_bool_decide as Hf.
    - split; [done|]. rewrite Hf. apply not_elem_of_nil.
    - assert (Hi' : i ∈ dom (games (remove_games (state p) (future_games (state p) latest) snap)))
        by (by destruct (match anchor_game _ with Some _ => _ | None => _ end) in Hi).
      rewrite elem_of_dom, (proj1 (remove_games_lookup _ _ _ _)) in Hi'.
      case_decide; [by destruct Hi'|]. by rewrite elem_of_dom. }
  destruct Hin as [Hd Hn]. unfold future_games in Hn.
  rewrite list_elem_of_filter, elem_of_keys in Hn.
  destruct latest as [l|]; [|tauto]. exists l. split; [done|].
  destruct (Z.ltb_spec l i); [tauto|done].
Qed.

Lemma fetch_loop_le fuel gs pinned anchor cur idx ad inv0 fet0 fet inv l :
  fetch_loop fuel gs pinned anchor cur idx ad inv0 fet0 = Some (Ok (fet, inv)) ->
  (forall g, g ∈ fet0 -> index g <= l) -> (forall c, idx = Some c -> c <= l) ->
  forall g, g ∈ fet -> index g <= l.
Proof.
  revert idx ad inv0 fet0. induction fuel as [|fuel IH];
    intros idx ad inv0 fet0; cbn [fetch_loop]; (case_bool_decide; [by intros [= <- <-]|]); [done|].
  destruct idx as [i|]; [|done].
  destruct (visit_game gs pinned anchor ad i) as [[[[game invalid] ad'] stop]|e|] eqn:Hv; [|done..].
  apply visit_game_Ok in Hv as (Hg & _). intros Hf Hf0 Hi.
  assert (Hf1 : forall g, g ∈ fet0 ++ option_list game -> index g <= l).
  { intros g [Hin|Hin]%elem_of_app; [by apply Hf0|].
    destruct game as [g'|]; [|by apply not_elem_of_nil in Hin].
    apply list_elem_of_singleton in Hin as ->.
    destruct (proj1 (Hg g') eq_refl) as [_ [r Hr]].
    apply read_game_index in Hr as ->. by apply Hi. }
  destruct stop; [injection Hf as <- <-; done|].
  apply (IH _ _ _ _ Hf Hf1). intros c Hc. cbn in Hc. specialize (Hi i eq_refl).
  destruct (Z.ltb_spec 0 i); [|done]. injection Hc as <-. unfold saturating_sub. lia.
Qed.

Lemma sync_games_post snap now p p' u :
  sync_games snap now p = (p', Ok u) ->
  exists latest, fetch_latest_game_index (AtHash (bn_hash snap)) = Ok latest /\
    cursor (state p') = latest /\ bounded_by latest (state p').
Proof.
  unfold sync_games. cbv zeta. intros H. apply M_bind_Ok in H as (p1 & latest & H1 & H).
  apply M_lift_Ok in H1 as [Hlatest ->]. apply M_bind_Ok in H as (p2 & [] & H2 & H).
  apply M_modify_Ok in H2 as ->. exists latest. split; [done|].
  pose proof (prune_future_bounded snap latest p) as Hb.
  destruct latest as [l|].
  2: { m_inv. split; [done|]. exact Hb. }
  m_inv. rename x0 into anchor, l0 into fetched, l1 into invalid.
  match goal with E : default Panic _ = Ok _ |- _ => rename E into Hloop end.
  destruct (fetch_loop _ _ _ _ _ _ _ _ _) as [o|] eqn:Hf; cbn in Hloop; [subst o|done].
  assert (Hle : forall g, g ∈ fetched -> index g <= l).
  { apply (fetch_loop_le _ _ _ _ _ _ _ _ _ _ _ l Hf);
      [by intros ? ?%not_elem_of_nil|intros ? [= <-]; lia]. }
  pose proof (keeps_run _ _ _ _ _ (below_sync_statuses _ _ _) H) as [Hcur Hdom].
  cbn [state with_state] in Hcur, Hdom. split.
  - rewrite Hcur. clear. generalize (commit_fetched fetched (Some l)
      (state (prune_future snap (Some l) p))) as s, (eq_refl : cursor (commit_fetched fetched
      (Some l) (state (prune_future snap (Some l) p))) = Some l).
    induction invalid as [|i is_ IH]; intros s Hs; cbn; [done|]. apply IH.
    pose proof (remove_games_fields s (iter_set (descendants_of s i)) snap) as (_&_&_&Hc).
    by rewrite <- Hs.
  - intros i Hi. apply Hdom, remove_invalid_dom, commit_fetched_games in Hi as [Hi|Hi]; [by apply Hb|].
    apply list_elem_of_fmap in Hi as (g & -> & Hg). eauto.
Qed.

Definition anchor_matches (anchor : Z) (s : ProposerState) : Prop :=
  match anchor_game s with
  | Some a => anchor <> Address_ZERO /\ address a = anchor /\ cached s a
  | None => anchor = Address_ZERO \/ forall g, cached s g -> address g <> anchor
  end.

Lemma sync_anchor_post pinned p p' u :
  sync_anchor_game pinned p = (p', Ok u) ->
  exists anchor, anchorGame pinned = Ok anchor /\ anchor_matches anchor (state p') /\
    cursor (state p') = cursor (state p) /\ games (state p') = games (state p).
Proof.
  unfold sync_anchor_game. intros H. m_inv. rename x0 into anchor. exists anchor.
  split_and!; [done| |done|done]. unfold anchor_matches. cbn.
  destruct (Z.eqb_spec anchor Address_ZERO) as [->|Hne]; [by left|].
  unfold find_address. destruct (List.find _ _) as [[k a]|] eqn:Hf; cbn.
  - apply find_some in Hf as [Hin%list_elem_of_In Ha%Z.eqb_eq].
    apply elem_of_iter_map in Hin. split_and!; [done|done|by exists k].
  - right. intros g [k Hk] Ha. apply elem_of_iter_map, list_elem_of_In in Hk.
    apply (find_none _ _ Hf) in Hk. by apply Z.eqb_neq in Hk.
Qed.

Lemma prune_removals_state selected p p' u :
  prune_finalized_removals selected p = (p', u) ->
  games (state p') = games (state p) /\ cursor (state p') = cursor (state p) /\
  anchor_game (state p') = anchor_game (state p) /\
  canonical_head_index (state p') = canonical_head_index (state p) /\
  l1_sync p' = l1_sync p.
Proof. intros [-> _]%prune_removals_spec. done. Qed.

Lemma select_canonical_head_ext s s' :
  games s' = games s -> anchor_game s' = anchor_game s ->
  select_canonical_head s' = select_canonical_head s.
Proof.
  intros Hg Ha. unfold select_canonical_head, descendants_of. rewrite Hg, Ha. done.
Qed.

Definition same_l1_sync (p p' : Proposer) : Prop := l1_sync p' = l1_sync p.
#[local] Instance same_l1_sync_preorder : PreOrder same_l1_sync.
Proof. split; unfold same_l1_sync; [done|]. by intros p q r -> ->. Qed.
#[local] Hint Extern 1 (same_l1_sync _ _) => reflexivity : keeps.

Lemma same_sync_games snap now : keeps same_l1_sync (sync_games snap now).
Proof.
  unfold sync_games, sync_statuses. cbv zeta. repeat (keeps_step; cbn beta iota).
  - apply keeps_modify. intros p. unfold prune_future, same_l1_sync.
    case_bool_decide; [done|]. by destruct (tracks_guard _ _ _).
  - intros p. destruct (sync_action _ _ _ _ _ _ p) as [p' r] eqn:Hs.
    by apply sync_action_failures_only in Hs as [->| ->].
  - apply keeps_modify. intros p. destruct x; cbn; try done. by destruct (tracks_guard _ _ _).
Qed.

Lemma unchanged_snapshot sync number confirmed rebuild :
  snapshot_changed sync number confirmed = Ok (rebuild, true) ->
  sync = {| sync_block := Some (number, h_hash confirmed); sync_complete := true |}.
Proof.
  unfold snapshot_changed. destruct sync as [[[n h]|] c]; cbn; [|done].
  destruct (Z.ltb_spec number n); [done|].
  destruct (Z.eqb_spec number n) as [->|Hne].
  - cbn. intros [= _ Hc]. rewrite andb_true_r, andb_true_iff, negb_involutive, Z.eqb_eq in Hc.
    by destruct Hc as [-> ->].
  - destruct (l1_ancestor confirmed n); cbn; [|done..]. intros [= _ Hc].
    by rewrite andb_false_r in Hc.
Qed.

Lemma reconcile_guard_only_guard created latest p :
  exists g, (reconcile_guard created latest p).1 = with_guard g p.
Proof.
  assert (Hp : p = with_guard (creation_guard p) p) by (by destruct p).
  unfold reconcile_guard, mbind, M_bind, lift, modify.
  repeat (case_match; subst; cbn [fst]; simplify_eq; eauto).
Qed.

(** A sync touches the cache, the snapshot, the guard and the close failures. *)
Definition sync_frame (p p' : Proposer) : Prop :=
  tasks p' = tasks p /\ next_task_id p' = next_task_id p /\ submitted p' = submitted p /\
  saved p' = saved p /\ init_bond p' = init_bond p /\ contract_params p' = contract_params p /\
  close_game_failures p' ⊆ close_game_failures p.
#[local] Instance sync_frame_preorder : PreOrder sync_frame.
Proof.
  split; unfold sync_frame; [intros p; by split_and!|].
  intros p q r (?&?&?&?&?&?&?) (?&?&?&?&?&?&?). split_and!; (congruence || by etrans).
Qed.
#[local] Hint Extern 1 (sync_frame _ _) => by split_and! : keeps.
#[local] Hint Extern 1 (sync_frame _ (with_failures ∅ _)) =>
  split_and!; (done || apply map_empty_subseteq) : keeps.

Lemma sync_state_frame : keeps sync_frame sync_state.
Proof.
  unfold sync_state, sync_snapshot, sync_games, sync_statuses, sync_anchor_game,
    rebuild_cache, prune_finalized_removals, reconcile_guard. cbv zeta.
  repeat (keeps_step; cbn beta iota).
  - apply keeps_modify. intros p. by case_bool_decide.
  - unfold rebuild_index. cbv zeta. keeps_tac.
  - apply keeps_modify. intros p. unfold prune_future.
    case_bool_decide; [done|]. by destruct (tracks_guard _ _ _).
  - intros p. destruct (sync_action _ _ _ _ _ _ p) as [p' r] eqn:Hs.
    apply sync_action_failures_only in Hs as [->| ->]; [done|].
    split_and!; (done || apply delete_subseteq).
  - apply keeps_modify. intros p. destruct x; cbn; try done. by destruct (tracks_guard _ _ _).
Qed.

(** C34: a sync that succeeds either skipped a snapshot already synced in
    full, leaving the cache alone, or leaves the cache consistent with the
    chain at the confirmed block: the cursor is the latest factory index
    there, no cached game lies above it, the anchor pointer is the cached
    game at the registry's anchor address (absent when there is none), and
    the canonical head is the head of exactly this cache; only then is the
    snapshot marked complete. *)
Theorem sync_state_establishes p p' u :
  sync_state p = (p', Ok u) ->
  exists latest confirmed,
    get_block_by_number Latest = Ok (Some latest) /\ confirmed_header latest = Ok confirmed /\
    let number := saturating_sub (h_number latest) (sync_l1_confirmations config) in
    let pinned := AtHash (h_hash confirmed) in
    (l1_sync p = {| sync_block := Some (number, h_hash confirmed); sync_complete := true |} /\
     l1_sync p' = l1_sync p /\ state p' = state p \/
     l1_sync p' = {| sync_block := Some (number, h_hash confirmed); sync_complete := true |} /\
     exists latest_index anchor,
       fetch_latest_game_index pinned = Ok latest_index /\ anchorGame pinned = Ok anchor /\
       cursor (state p') = latest_index /\ bounded_by latest_index (state p') /\
       anchor_matches anchor (state p') /\
       canonical_head_index (state p') = index <$> select_canonical_head (state p')).
Proof.
  unfold sync_state, sync_snapshot. cbv zeta. intros H. m_inv.
  rename x4 into latest, x6 into confirmed, b into rebuild, b0 into unchanged, x into p1.
  match goal with E : with_context _ _ = Ok _ |- _ => apply with_context_Ok in E as -> end.
  exists latest, confirmed. split; [done|]. split; [done|].
  match goal with E : snapshot_changed _ _ _ = Ok _ |- _ => rename E into Hsnap end.
  match goal with E : reconcile_guard _ _ _ = _ |- _ => rename E into Hguard end.
  destruct unchanged; [left|right].
  - m_inv. apply unchanged_snapshot in Hsnap. apply (f_equal fst) in Hguard. cbn in Hguard.
    destruct (reconcile_guard_only_guard (creation_guard p) latest p) as [g Hg].
    subst p1. rewrite Hg. by split_and!.
  - apply M_bind_Ok in H as (p2 & [] & _ & H).
    apply M_bind_Ok in H as (p3 & [] & Hset & H). apply M_modify_Ok in Hset as ->.
    apply M_bind_Ok in H as (p4 & [] & Hgames & H).
    apply M_bind_Ok in H as (p5 & [] & Hanchor & H).
    apply M_bind_Ok in H as (p6 & [] & Hhead & H). apply M_modify_Ok in Hhead as ->.
    apply M_bind_Ok in H as (p7 & [] & Hprune & H). apply M_modify_Ok in H as ->.
    apply prune_removals_state in Hprune as (Hg7 & Hc7 & Ha7 & Hh7 & Hs7).
    pose proof (keeps_run _ _ _ _ _ (same_sync_games _ _) Hgames) as Hs4.
    apply sync_games_post in Hgames as (li & Hindex & Hcur & Hbound).
    assert (Hs5 : l1_sync p5 = l1_sync p4) by (unfold sync_anchor_game in Hanchor; by m_inv).
    apply sync_anchor_post in Hanchor as (anchor & Hanchor & Hmatch & Hc5 & Hg5).
    set (s5 := state p5) in *.
    assert (Hc6 : games (compute_canonical_head s5) = games s5 /\
      anchor_game (compute_canonical_head s5) = anchor_game s5 /\
      cursor (compute_canonical_head s5) = cursor s5 /\
      canonical_head_index (compute_canonical_head s5) = index <$> select_canonical_head s5).
    { unfold compute_canonical_head. by destruct (select_canonical_head s5). }
    cbn [state with_state with_sync l1_sync] in *. destruct Hc6 as (Hg6 & Ha6 & Hc6 & Hh6).
    rewrite Hg6 in Hg7. rewrite Ha6 in Ha7. rewrite Hc6 in Hc7. rewrite Hh6 in Hh7.
    split; [by rewrite Hs7, Hs5, Hs4|].
    exists li, anchor. split_and!; [done|done|congruence| | |].
    + unfold bounded_by. rewrite Hg7, Hg5. done.
    + unfold anchor_matches, cached in *. by rewrite Ha7, Hg7.
    + rewrite Hh7. f_equal. symmetry. by apply select_canonical_head_ext.
Qed.
End sync.

(** ** The sample chain at block 20, whose registry anchors game 0 *)

#[local] Instance L1s : L1Rpc := sample_l1 20 15 800 sample_games.
#[local] Instance L2s : L2Rpc := sample_l2.
#[local] Instance Ws : Wallet := sample_wallet.

Definition synced : Proposer * outcome unit :=
  sync_state sample_config sample_identity new_proposer.

Example synced_runs :
  synced.2 = Ok tt /\ (fun g => (index g, action_flags (Update 0 IN_PROGRESS Resolved 0
     (should_attempt_to_resolve g) (should_attempt_to_close_game g)
     (should_attempt_to_claim_bond g)))) <$> values (games (state synced.1)) =
    [(2, (true, false, false)); (1, (false, true, false)); (0, (false, false, true))] /\
  canonical_head_index (state synced.1) = Some 2 /\ cursor (state synced.1) = Some 3.
Proof. vm_compute. done. Qed.

Lemma sync_state_establishes_witness :
  exists latest confirmed,
    get_block_by_number Latest = Ok (Some latest) /\
    confirmed_header sample_config latest = Ok confirmed /\
    let number := saturating_sub (h_number latest) (sync_l1_confirmations sample_config) in
    let pinned := AtHash (h_hash confirmed) in
    let p := new_proposer in
    let p' := synced.1 in
    (l1_sync p = {| sync_block := Some (number, h_hash confirmed); sync_complete := true |} /\
     l1_sync p' = l1_sync p /\ state p' = state p \/
     l1_sync p' = {| sync_block := Some (number, h_hash confirmed); sync_complete := true |} /\
     exists latest_index anchor,
       fetch_latest_game_index pinned = Ok latest_index /\ anchorGame pinned = Ok anchor /\
       cursor (state p') = latest_index /\ bounded_by latest_index (state p') /\
       anchor_matches anchor (state p') /\
       canonical_head_index (state p') = index <$> select_canonical_head (state p')).
Proof.
  eapply (sync_state_establishes sample_config sample_identity new_proposer synced.1 tt).
  vm_compute. reflexivity.
Defined.

Lemma sync_action_decides_witness :
  let p := with_failures {[800 := 3]} new_proposer in
  let r := sync_action sample_config (AtHash 1020) 240 801 0 800 true p in
  let action := Update 0 DEFENDER_WINS Resolved 100 false false true in
  r = (new_proposer, Ok action) /\
  (true = true <-> may_claim (AtHash 1020) 800 true) /\
  (action = Remove 0 <-> may_evict (AtHash 1020) p 801 0 800 true).
Proof.
  cbv zeta. split; [vm_compute; reflexivity|].
  destruct (sync_action_decides sample_config (AtHash 1020) 240 801 0 800 true
    (with_failures {[800 := 3]} new_proposer) new_proposer
    (Update 0 DEFENDER_WINS Resolved 100 false false true))
    as (_ & _ & H3 & H4 & _); [vm_compute; reflexivity|].
  split; [exact H3|exact H4].
Defined.

(** From an empty cache with cursor 0 the walk loads games 1 and 2 and reports
    game 3. *)
Lemma fetch_loop_spec_witness :
  let gs : gmap Z Game := ∅ in
  let cur := start_cursor (Some 3) (Some 0) in
  let loop := fetch_loop sample_config (fetch_fuel 3) gs (AtHash 1020) 800 cur (Some 3) None [] [] in
  (exists fetched, loop = Some (Ok (fetched, [3])) /\ index <$> fetched = [2; 1]) /\
  exists o, loop = Some o /\
    (o = Panic -> exists i, read_game sample_config i (AtHash 1020) = Panic) /\
    forall fetched invalid, o = Ok (fetched, invalid) ->
      exists lo, cursor_num cur + 1 <= lo <= 3 + 1 /\
        collected sample_config gs (AtHash 1020) lo 3 fetched invalid /\
        (lo = cursor_num cur + 1 \/ may_stop sample_config gs (AtHash 1020) 800 3 lo).
Proof.
  cbv zeta. split; [eexists; vm_compute; done|].
  apply (fetch_loop_spec sample_config ∅ (AtHash 1020) 800 3 (Some 0)); [lia|].
  by intros ? [= <-].
Defined.
