(* ===== verification/ProposerTasks.v ===== *)
(** * The proposer's tasks

    The task map, what the main loop spawns, and the bodies of the creation,
    resolution, close and claim tasks of [fault-proof/src/proposer.rs]. A task
    body runs as one step; [ProposerRun] interleaves them with the main loop. *)

From S2P Require Import Prelude RangeSplit FaultTypes GameCache Backup ProposerService.
From S2P Require Import ProposerSync.

(** The host's clock, in seconds, and whether a save of the backup file can
    start (no other is running) and succeeds. *)
Class Host := { now : Z; backup_permit : bool; backup_saves : bool }.

Section tasks.
Context `{L1 : L1Rpc, L2 : L2Rpc, W : Wallet, F : Fetcher, Hst : Host, HO : HashOrder}
  (config : ProposerConfig) (identity : ProposerIdentity).

(** ** The task map *)

(** [next_task_id.fetch_add(1)] *)
Definition fresh_task_id : M Proposer Z :=
  p ← get_state;
  _ ← modify (fun p => with_tasks (tasks p) (wrap64 (next_task_id p + 1)) p);
  mret (next_task_id p).

Definition insert_task (task_id : Z) (info : TaskInfo) : M Proposer unit :=
  modify (fun p => with_tasks (<[task_id := (Running, info)]> (tasks p)) (next_task_id p) p).

Definition is_proving (info : TaskInfo) : bool :=
  match info with GameProvingTask _ _ => true | _ => false end.
Definition is_defense_task (info : TaskInfo) : bool :=
  match info with GameProvingTask _ true => true | _ => false end.
Definition proves_game (game_address : Z) (info : TaskInfo) : bool :=
  match info with GameProvingTask addr _ => addr =? game_address | _ => false end.

Definition infos (p : Proposer) : list TaskInfo := snd <$> values (tasks p).

Definition count_active_proving_tasks (p : Proposer) : Z :=
  Z.of_nat (length (filter (fun i => is_proving i = true) (infos p))).
Definition count_active_defense_tasks (p : Proposer) : Z :=
  Z.of_nat (length (filter (fun i => is_defense_task i = true) (infos p))).
Definition has_active_proving_for_game (p : Proposer) (game_address : Z) : bool :=
  existsb (proves_game game_address) (infos p).

(** [mem::discriminant] *)
Definition task_kind (info : TaskInfo) : Z :=
  match info with
  | GameCreationTask _ => 0 | GameProvingTask _ _ => 1 | GameResolutionTask => 2
  | GameCloseTask => 3 | BondClaimTask => 4
  end.
Definition has_active_task_of_type (p : Proposer) (task_type : TaskInfo) : bool :=
  existsb (fun info => task_kind info =? task_kind task_type) (infos p).

(** [handle_completed_tasks]: a failed or panicked task is only logged. *)
Definition finished_ids (p : Proposer) : list Z :=
  fst <$> filter (fun t => is_finished t.2.1 = true) (iter_map (tasks p)).
Definition handle_completed_tasks : M Proposer unit :=
  modify (fun p =>
    with_tasks (foldl (fun m id => delete id m) (tasks p) (finished_ids p)) (next_task_id p) p).

(** ** Proving tasks *)

Definition game_at (s : ProposerState) (game_address : Z) : option Game :=
  List.find (fun g => address g =? game_address) (values (games s)).

Definition should_skip_proving (game_address : Z) (dl : option Z) (is_defense : bool)
    : M Proposer bool :=
  p ← get_state;
  match game_at (state p) game_address with
  | None => mret true
  | Some game =>
      if negb (is_owned game identity) then mret true
      else
        r ← attempt (lift (claimData game_address AtLatest));
        let done :=
          match r with
          | inl claim_data =>
              match claim_status claim_data with
              | UnchallengedAndValidProofProvided | ChallengedAndValidProofProvided
              | Resolved => true
              | _ => false
              end
          | inr _ => false
          end in
        if done then mret true
        else
          match dl with
          | None => mret false
          | Some dl =>
              params ← lift (with_context "contract_params must be set via try_init"
                               (contract_params p));
              let max_duration :=
                if is_defense then max_prove_duration params
                else max_challenge_duration params in
              match check_deadline_status now dl max_duration with
              | DeadlinePassed => mret true
              | _ => mret false
              end
          end
  end.

(** [.to::<u32>()] *)
Definition to_u32 (x : Z) : outcome Z := if x <=? u32_max then Ok x else Panic.

Definition spawn_game_proving_task (game_address : Z) (is_defense : bool) (dl : option Z)
    : M Proposer bool :=
  skip ← should_skip_proving game_address dl is_defense;
  if (skip : bool) then mret false
  else
    task_id ← fresh_task_id;
    starting ← lift (startingBlockNumber game_address);
    l2_block_number ← lift (l2BlockNumber game_address AtLatest);
    start_block ← lift (to_u64 starting);
    end_block ← lift (to_u64 l2_block_number);
    _ ← insert_task task_id (GameProvingTask game_address is_defense);
    mret true.

(** [candidates.sort_unstable_by_key(|(_, _, deadline)| *deadline)] *)
Definition earlier_deadline (a b : Z * Z * Z) : Prop := a.2 <= b.2.
#[global] Instance earlier_deadline_dec : RelDecision earlier_deadline.
Proof. intros a b. unfold earlier_deadline. apply _. Defined.

Definition challenged_games (s : ProposerState) : list (Z * Z * Z) :=
  (fun g => (index g, address g, deadline g)) <$>
    filter (fun g => status g = IN_PROGRESS /\ proposal_status g = Challenged)
      (values (games s)).

Fixpoint defend_loop (candidates : list (Z * Z * Z)) (active : Z) (spawned : bool)
    : M Proposer bool :=
  match candidates with
  | [] => mret spawned
  | (i, game_address, dl) :: rest =>
      if max_concurrent_defense_tasks config <=? active then mret spawned
      else
        p ← get_state;
        if has_active_proving_for_game p game_address then defend_loop rest active spawned
        else
          r ← spawn_game_proving_task game_address true (Some dl);
          if (r : bool) then defend_loop rest (active + 1) true
          else defend_loop rest active spawned
  end.

Definition spawn_game_defense_tasks : M Proposer bool :=
  p ← get_state;
  defend_loop (merge_sort earlier_deadline (challenged_games (state p)))
    (count_active_defense_tasks p) false.

(** ** Should a game be created *)

Definition on_chain_vkeys_match : outcome bool :=
  impl ← game_impl (cfg_game_type config);
  agg ← aggregationVkey impl AtLatest;
  range ← rangeVkeyCommitment impl AtLatest;
  rollup ← rollupConfigHash impl AtLatest;
  Ok ((agg =? id_aggregation_vkey identity) &&
      (range =? id_range_vkey_commitment identity) &&
      (rollup =? id_rollup_config_hash identity)).

Definition unproven_games (p : Proposer) : list (Z * Z * Z) :=
  filter (fun c => has_active_proving_for_game p c.1.2 = false)
    ((fun g => (index g, address g, deadline g)) <$>
       filter (fun g => status g = IN_PROGRESS /\ proposal_status g = Unchallenged)
         (values (games (state p)))).

(** The resume loop of fast finality mode; returns the active count. *)
Fixpoint resume_loop (unproven : list (Z * Z * Z)) (active : Z) : M Proposer Z :=
  match unproven with
  | [] => mret active
  | (i, game_address, dl) :: rest =>
      if fast_finality_proving_limit config <=? active then mret active
      else
        r ← attempt (lift (gameCreator game_address AtLatest));
        match r with
        | inr _ => resume_loop rest active
        | inl creator =>
            if negb (creator =? signer_address) then resume_loop rest active
            else
              s ← attempt (spawn_game_proving_task game_address false (Some dl));
              match s with
              | inl true => resume_loop rest (active + 1)
              | _ => resume_loop rest active
              end
        end
  end.

Definition resume_proving : M Proposer Z :=
  p ← get_state;
  let active := count_active_proving_tasks p in
  if active <? fast_finality_proving_limit config
  then resume_loop (unproven_games p) active else mret active.

Definition no_creation : bool * Z * Z := (false, 0, u32_max).

(** The parent of the next game: the head, unless it is the anchor itself. *)
Definition parent_of_next (s : ProposerState) : outcome Z :=
  match canonical_head_index s with
  | Some idx =>
      if bool_decide (index <$> anchor_game s = Some idx) then Ok u32_max else to_u32 idx
  | None => Ok u32_max
  end.

Definition should_create_game : M Proposer (bool * Z * Z) :=
  at_capacity ←
    (if fast_finality_mode config then
       active ← resume_proving; mret (fast_finality_proving_limit config <=? active)
     else mret false);
  if (at_capacity : bool) then mret no_creation
  else
    respected_game_type ← lift respectedGameType;
    if negb (cfg_game_type config =? respected_game_type) then mret no_creation
    else
      vkeys_match ← lift on_chain_vkeys_match;
      if negb vkeys_match then mret no_creation
      else
        p ← get_state;
        match canonical_head_l2_block (state p) with
        | None => mret no_creation
        | Some head_l2_block =>
            parent_game_index ← lift (parent_of_next (state p));
            let next := wrap256 (head_l2_block + proposal_interval_in_blocks config) in
            let last_created := guard_l2_block (creation_guard p) in
            recent ← (if 0 <? last_created then
                        n ← lift (to_u64 next); mret (n <=? last_created)
                      else mret false);
            if (recent : bool) then mret no_creation
            else
              max_provable ← lift get_max_provable_l2_block_number;
              mret (next <=? max_provable, next, parent_game_index)
        end.

(** ** Creating a game *)

Definition create_game (output_root : Z) (extra_data : list Z) : M Proposer (Z * Z) :=
  p ← get_state;
  bond ← lift (with_context "init_bond must be set via startup_validations" (init_bond p));
  receipt ← send (TxCreate (cfg_game_type config) output_root extra_data bond);
  receipt ← lift (check_receipt receipt);
  game_address ← lift (with_context
    "Could not find DisputeGameCreated event in transaction receipt logs"
    (r_created_game receipt));
  _ ← (if fast_finality_mode config then
         attempt (spawn_game_proving_task game_address false None)
       else mret (inl false));
  l1_block ← lift (with_context "Creation receipt has no L1 block" (r_block_number receipt));
  mret (game_address, l1_block).

(** The game already registered for an output root, if any. *)
Definition existing_game (output_root n parent_game_index : Z) : outcome Z :=
  factory_games (cfg_game_type config) output_root [n; parent_game_index] AtLatest.

(** The [while] loop over occupied block numbers; [None]: out of fuel. *)
Fixpoint find_free_slot (fuel : nat) (n parent_game_index : Z) : option (outcome (Z * Z)) :=
  match output_root ← compute_output_root_at_block n;
        maybe_existing_game ← existing_game output_root n parent_game_index;
        Ok (output_root, maybe_existing_game)
  with
  | Ok (output_root, existing) =>
      if existing =? Address_ZERO then Some (Ok (n, output_root))
      else
        match fuel with
        | O => None
        | S fuel' => find_free_slot fuel' (wrap256 (n + 1)) parent_game_index
        end
  | Err e => Some (Err e)
  | Panic => Some Panic
  end.

Definition handle_game_creation (fuel : nat) (n parent_game_index : Z) : M Proposer unit :=
  match find_free_slot fuel n parent_game_index with
  | None => panic
  | Some slot =>
      '(n, output_root) ← lift slot;
      let extra_data := [n; parent_game_index] in
      '(game_address, l1_block) ← create_game output_root extra_data;
      _ ← modify (fun p =>
        match sync_block (l1_sync p) with
        | Some (number, _) =>
            if l1_block <=? number then
              with_sync {| sync_block := sync_block (l1_sync p); sync_complete := false |}
                (with_state (set_cursor None (state p)) p)
            else p
        | None => p
        end);
      guard_block ← lift (to_u64 n);
      modify (with_guard
        {| guard_l2_block := guard_block; guard_address := game_address;
           guard_observation := Some
             {| observed_l1_block := l1_block; gc_output_root := output_root;
                gc_extra_data := extra_data |} |})
  end.

Definition backup : M Proposer unit :=
  modify (fun p =>
    if backup_path config && backup_permit && backup_saves
    then with_saved (Some (to_backup (state p) (creation_guard p))) p else p).

(** The body of a creation task. *)
Definition creation_task (fuel : nat) (n parent_game_index : Z) : M Proposer unit :=
  _ ← handle_game_creation fuel n parent_game_index; backup.

(** [spawn_game_creation_task]: the spawned task's arguments, if any. *)
Definition spawn_game_creation_task : M Proposer bool :=
  '(should_create, n, parent_game_index) ← should_create_game;
  if negb should_create then mret false
  else
    task_id ← fresh_task_id;
    _ ← insert_task task_id (GameCreationTask n);
    mret true.

(** ** Resolving, closing and claiming *)

Definition owned_flagged (flag : Game -> bool) (p : Proposer) : list Game :=
  filter (fun g => flag g = true)
    (filter (fun g => is_owned g identity = true) (values (games (state p)))).

Definition submit (tx : outcome TxRequest) : M Proposer unit :=
  tx ← lift tx; receipt ← send tx; _ ← lift (check_receipt receipt); mret tt.
Definition submit_resolution_transaction (g : Game) : M Proposer unit :=
  submit (Ok (TxResolve (address g))).
Definition submit_close_game_transaction (g : Game) : M Proposer unit :=
  submit (close_game_transaction (address g) signer_address).
Definition submit_bond_claim_transaction (g : Game) : M Proposer unit :=
  submit (claim_credit_transaction (address g) signer_address).

Definition resolve_one (g : Game) : M Proposer unit :=
  r ← attempt (lift (status_of (address g) AtLatest));
  match r with
  | inl IN_PROGRESS | inr _ => _ ← attempt (submit_resolution_transaction g); mret tt
  | inl _ => mret tt
  end.
Definition resolve_games : M Proposer unit :=
  p ← get_state; for_each (owned_flagged should_attempt_to_resolve p) resolve_one.

Definition claim_one (g : Game) : M Proposer unit :=
  r ← attempt (lift (credit (address g) signer_address AtLatest));
  match r with
  | inl 0 => mret tt
  | _ => _ ← attempt (submit_bond_claim_transaction g); mret tt
  end.
Definition claim_bonds : M Proposer unit :=
  p ← get_state; for_each (owned_flagged should_attempt_to_claim_bond p) claim_one.

Definition failure_count (p : Proposer) (a : Z) : Z := default 0 (close_game_failures p !! a).

Definition close_one (g : Game) : M Proposer unit :=
  p ← get_state;
  if MAX_CLOSE_GAME_FAILURES <=? failure_count p (address g) then mret tt
  else
    r ← attempt (submit_close_game_transaction g);
    match r with
    | inr _ => modify (fun p => with_failures
        (<[address g := saturating_add u8_max (failure_count p (address g)) 1]>
           (close_game_failures p)) p)
    | inl _ => modify (fun p => with_failures (delete (address g) (close_game_failures p)) p)
    end.
Definition close_games : M Proposer unit :=
  p ← get_state; for_each (owned_flagged should_attempt_to_close_game p) close_one.

(** ** What the main loop spawns *)

Definition spawn_if_idle (info : TaskInfo) : M Proposer unit :=
  p ← get_state;
  if has_active_task_of_type p info then mret tt
  else task_id ← fresh_task_id; insert_task task_id info.

Definition spawn_creation_if_idle : M Proposer unit :=
  p ← get_state;
  if has_active_task_of_type p (GameCreationTask 0) then mret tt
  else _ ← attempt spawn_game_creation_task; mret tt.

Definition spawn_pending_operations : M Proposer unit :=
  _ ← spawn_creation_if_idle;
  _ ← attempt spawn_game_defense_tasks;
  _ ← spawn_if_idle GameResolutionTask;
  _ ← spawn_if_idle GameCloseTask;
  spawn_if_idle BondClaimTask.

(** One turn of [run]'s loop. *)
Definition run_iteration : M Proposer unit :=
  r ← attempt (sync_state config identity);
  match r with
  | inr _ => mret tt
  | inl _ =>
      _ ← backup;
      _ ← handle_completed_tasks;
      spawn_pending_operations
  end.

(** ** Lemmas: what spawning does to the task map *)

(** The new tasks are proving tasks, of the given kind. *)
Definition adds_proving (d : bool) (p p' : Proposer) : Prop :=
  forall id h info, tasks p' !! id = Some (h, info) ->
    tasks p !! id = Some (h, info) \/ exists a, info = GameProvingTask a d.

#[local] Instance adds_proving_preorder d : PreOrder (adds_proving d).
Proof.
  split; unfold adds_proving; [by left|]. intros p q r Hpq Hqr id h info Hi.
  destruct (Hqr _ _ _ Hi); eauto.
Qed.

Lemma adds_proving_same d p p' : tasks p' = tasks p -> adds_proving d p p'.
Proof. unfold adds_proving. intros ->. auto. Qed.
#[local] Hint Extern 1 (adds_proving _ _ _) => by apply adds_proving_same : keeps.

Definition active (p : Proposer) (f : TaskInfo -> bool) : gmap Z (TaskHandle * TaskInfo) :=
  filter (fun t => f t.2.2 = true) (tasks p).

Lemma length_filter_fmap {A B} (f : A -> B) (P : B -> bool) (l : list A) :
  length (filter (fun b => P b = true) (f <$> l)) =
  length (filter (fun a => P (f a) = true) l).
Proof.
  induction l as [|x l IH]; [done|]. rewrite fmap_cons, !filter_cons.
  destruct (decide (P (f x) = true)); cbn; by rewrite IH.
Qed.

Lemma length_infos p f :
  length (filter (fun i => f i = true) (infos p)) = size (active p f).
Proof.
  unfold infos, values, active. rewrite <- list_fmap_compose, length_filter_fmap.
  rewrite (iter_map_perm (tasks p)), map_filter_alt, <- length_map_to_list.
  rewrite map_to_list_to_map; [done|].
  eapply NoDup_fmap_fst; [|apply NoDup_filter, NoDup_map_to_list].
  intros k x y [_ Hx]%list_elem_of_filter [_ Hy]%list_elem_of_filter.
  apply elem_of_map_to_list in Hx, Hy. by simplify_eq.
Qed.

Lemma existsb_infos p f :
  existsb f (infos p) = false <->
  forall id h info, tasks p !! id = Some (h, info) -> f info = false.
Proof.
  rewrite <- not_true_iff_false, existsb_exists. unfold infos. split.
  - intros Hn id h info Hi. apply not_true_iff_false. intros Hf. apply Hn. exists info.
    split; [|done]. apply list_elem_of_In, list_elem_of_fmap. exists (h, info).
    split; [done|]. apply elem_of_values. eauto.
  - intros Hf (info & Hin & Ht). apply list_elem_of_In, list_elem_of_fmap in Hin
      as ([h i] & -> & [id Hi]%elem_of_values). apply Hf in Hi. cbn in *. congruence.
Qed.

Lemma count_insert p id h info f n :
  (size (active (with_tasks (<[id := (h, info)]> (tasks p)) n p) f) <=
   size (active p f) + if f info then 1 else 0)%nat.
Proof.
  unfold active. cbn [tasks with_tasks].
  destruct (f info) eqn:Hf.
  - rewrite map_filter_insert_True by done. rewrite map_size_insert. case_match; cbn; lia.
  - rewrite map_filter_insert_False by (cbn; congruence).
    rewrite Nat.add_0_r. apply map_subseteq_size, map_filter_subseteq_mono, delete_subseteq.
Qed.

Lemma adds_proving_count p p' :
  adds_proving false p p' ->
  (size (active p' is_defense_task) <= size (active p is_defense_task))%nat.
Proof.
  intros Ha. apply map_subseteq_size, map_subseteq_spec. intros id [h info].
  unfold active. rewrite !map_lookup_filter_Some. cbn. intros [Hi Hd].
  destruct (Ha _ _ _ Hi) as [|[a ->]]; [done|discriminate].
Qed.

Lemma skip_reads a dl d : keeps (=) (should_skip_proving a dl d).
Proof. unfold should_skip_proving. keeps_tac. Qed.

Lemma fresh_adds d : keeps (adds_proving d) fresh_task_id.
Proof. unfold fresh_task_id. keeps_tac. Qed.

Lemma insert_adds d id a : keeps (adds_proving d) (insert_task id (GameProvingTask a d)).
Proof.
  apply keeps_modify. intros p id' h info. cbn.
  rewrite lookup_insert_Some. intros [[_ [= <- <-]]|[_ Hi]]; eauto.
Qed.

Lemma reads_adds {A} d (m : M Proposer A) : keeps (=) m -> keeps (adds_proving d) m.
Proof. intros Hm p. rewrite <- (Hm p). apply reflexivity. Qed.
#[local] Hint Resolve skip_reads fresh_adds insert_adds : keeps.
#[local] Hint Extern 2 (keeps (adds_proving _) (should_skip_proving _ _ _)) =>
  apply reads_adds, skip_reads : keeps.

Lemma spawn_proving_adds a d dl : keeps (adds_proving d) (spawn_game_proving_task a d dl).
Proof. unfold spawn_game_proving_task. keeps_tac. Qed.
#[local] Hint Resolve spawn_proving_adds : keeps.

Lemma resume_loop_adds l n : keeps (adds_proving false) (resume_loop l n).
Proof.
  revert n. induction l as [|[[i a] dl] l IH]; intros n; cbn [resume_loop];
    repeat (keeps_step || apply IH).
Qed.
#[local] Hint Resolve resume_loop_adds : keeps.

Lemma should_create_adds : keeps (adds_proving false) should_create_game.
Proof. unfold should_create_game, resume_proving. cbv zeta. keeps_tac. Qed.

Lemma defend_loop_adds l n b : keeps (adds_proving true) (defend_loop l n b).
Proof.
  revert n b. induction l as [|[[i a] dl] l IH]; intros n b; cbn [defend_loop];
    repeat (keeps_step || apply IH).
Qed.

Lemma spawn_count f a d dl p :
  (size (active (spawn_game_proving_task a d dl p).1 f) <=
   size (active p f) +
   match (spawn_game_proving_task a d dl p).2 with Ok true => 1 | _ => 0 end)%nat.
Proof.
  unfold spawn_game_proving_task, fresh_task_id, insert_task, modify, get_state, mret, M_ret,
    mbind, M_bind, lift.
  pose proof (skip_reads a dl d p) as Hp.
  destruct (should_skip_proving a dl d p) as [p1 [[]|e|]]; cbn in *; subst p1; try lia.
  destruct (startingBlockNumber a) as [x|e|]; cbn; [|apply Nat.le_add_r..].
  destruct (l2BlockNumber a AtLatest) as [y|e|]; cbn; [|apply Nat.le_add_r..].
  destruct (to_u64 x) as [x'|e|]; cbn; [|apply Nat.le_add_r..].
  destruct (to_u64 y) as [y'|e|]; cbn; [|apply Nat.le_add_r..].
  pose proof (count_insert p (next_task_id p) Running (GameProvingTask a d) f
                (wrap64 (next_task_id p + 1))) as Hc.
  etrans; [exact Hc|]. apply Nat.add_le_mono_l. destruct (f _); cbn; lia.
Qed.

Lemma defend_loop_bound l n b p :
  Z.of_nat (size (active p is_defense_task)) <= n <= max_concurrent_defense_tasks config ->
  Z.of_nat (size (active (defend_loop l n b p).1 is_defense_task)) <=
    max_concurrent_defense_tasks config.
Proof.
  revert n b p. induction l as [|[[i a] dl] l IH]; intros n b p Hn; cbn [defend_loop]; [cbn; lia|].
  destruct (Z.leb_spec (max_concurrent_defense_tasks config) n); [cbn; lia|].
  unfold mbind, M_bind, get_state. destruct (has_active_proving_for_game p a); [by apply IH|].
  pose proof (spawn_count is_defense_task a true (Some dl) p) as Hc.
  destruct (spawn_game_proving_task a true (Some dl) p) as [p' [[]|e|]]; cbn in Hc |- *;
    try apply IH; lia.
Qed.

Lemma resume_loop_count l n p p' m :
  resume_loop l n p = (p', Ok m) ->
  Z.of_nat (size (active p is_proving)) <= n -> Z.of_nat (size (active p' is_proving)) <= m.
Proof.
  revert n p. induction l as [|[[i a] dl] l IH]; intros n p; cbn [resume_loop].
  { intros [= <- <-]. done. }
  destruct (Z.leb_spec (fast_finality_proving_limit config) n); [by intros [= <- <-]|].
  unfold mbind, M_bind, attempt at 1, lift at 1.
  destruct (gameCreator a AtLatest) as [c|e|]; [|by apply IH|done].
  destruct (c =? signer_address); cbn [negb]; [|by apply IH].
  pose proof (spawn_count is_proving a false (Some dl) p) as Hc. unfold attempt.
  destruct (spawn_game_proving_task a false (Some dl) p) as [q [[]|e|]]; cbn in Hc; [..|done];
    intros Hr Hn; apply (IH _ _ Hr); lia.
Qed.

(** Spawning leaves the cache, the guard and the submissions alone. *)
Definition spawn_frame (p p' : Proposer) : Prop :=
  state p' = state p /\ creation_guard p' = creation_guard p /\
  l1_sync p' = l1_sync p /\ submitted p' = submitted p /\
  close_game_failures p' = close_game_failures p.
#[local] Instance spawn_frame_preorder : PreOrder spawn_frame.
Proof.
  split; unfold spawn_frame; [intros p; by split_and!|].
  intros p q r (?&?&?&?&?) (?&?&?&?&?). split_and!; congruence.
Qed.
#[local] Hint Extern 1 (spawn_frame _ _) => by split_and! : keeps.

Lemma spawn_proving_frame a d dl : keeps spawn_frame (spawn_game_proving_task a d dl).
Proof.
  unfold spawn_game_proving_task, should_skip_proving, fresh_task_id, insert_task. keeps_tac.
Qed.
#[local] Hint Resolve spawn_proving_frame : keeps.

Lemma resume_loop_frame l n : keeps spawn_frame (resume_loop l n).
Proof.
  revert n. induction l as [|[[i a] dl] l IH]; intros n; cbn [resume_loop];
    repeat (keeps_step || apply IH).
Qed.
#[local] Hint Resolve resume_loop_frame : keeps.

Lemma parent_of_next_Ok s parent :
  parent_of_next s = Ok parent ->
  parent = u32_max \/ (canonical_head_index s = Some parent /\
    forall a, anchor_game s = Some a -> index a <> parent).
Proof.
  unfold parent_of_next, to_u32. destruct (canonical_head_index s) as [i|]; [|intros [= <-]; by left].
  case_bool_decide as Ha; [intros [= <-]; by left|].
  destruct (i <=? u32_max); [|done]. intros [= <-]. right. split; [done|].
  intros a Hs Hi. apply Ha. by rewrite Hs, <- Hi.
Qed.

Lemma not_created (p p' : Proposer) n m :
  (mret no_creation : M Proposer (bool * Z * Z)) p = (p', Ok (true, n, m)) -> False.
Proof. by intros [_ ?]%M_ret_Ok. Qed.

Lemma resume_below_limit p p1 :
  (active ← resume_proving; mret (fast_finality_proving_limit config <=? active)) p
    = (p1, Ok false) ->
  count_active_proving_tasks p1 < fast_finality_proving_limit config.
Proof.
  unfold resume_proving, count_active_proving_tasks. cbv zeta. intros H.
  apply M_bind_Ok in H as (p2 & n & Hn & H). apply M_ret_Ok in H as [-> H].
  symmetry in H. apply Z.leb_gt in H.
  apply M_bind_Ok in Hn as (p3 & ? & Hp & Hn). apply M_get_Ok in Hp as [-> ->].
  rewrite length_infos in *.
  enough (Z.of_nat (size (active p2 is_proving)) <= n) by lia.
  case_match; [eapply resume_loop_count; [exact Hn|done]|]. m_inv. done.
Qed.

(** a positive decision to create a game is made only when the game type
    is the respected one, the three on-chain keys are the proposer's, the
    block is the head's plus the interval and provable, it lies above the
    last game created, and the parent is the head unless that is the anchor
    itself (then the anchor state); in fast finality mode only below the
    proving limit. Deciding changes neither the cache nor the guard. *)
Theorem should_create_game_sound p p' n parent :
  should_create_game p = (p', Ok (true, n, parent)) ->
  respectedGameType = Ok (cfg_game_type config) /\ on_chain_vkeys_match = Ok true /\
  (exists head max_provable, canonical_head_l2_block (state p) = Some head /\
     n = wrap256 (head + proposal_interval_in_blocks config) /\
     get_max_provable_l2_block_number = Ok max_provable /\ n <= max_provable) /\
  (0 < guard_l2_block (creation_guard p) -> guard_l2_block (creation_guard p) < n) /\
  (parent = u32_max \/ canonical_head_index (state p) = Some parent /\
     forall a, anchor_game (state p) = Some a -> index a <> parent) /\
  (fast_finality_mode config = true ->
     count_active_proving_tasks p' < fast_finality_proving_limit config) /\
  state p' = state p /\ creation_guard p' = creation_guard p.
Proof.
  unfold should_create_game. cbv zeta. intros H.
  apply M_bind_Ok in H as (p1 & at_capacity & Hcap & H).
  assert (Hframe : spawn_frame p p1).
  { eapply keeps_run; [|exact Hcap]. unfold resume_proving. cbv zeta. keeps_tac. }
  destruct at_capacity; [by apply not_created in H|].
  assert (Hlimit : fast_finality_mode config = true ->
            count_active_proving_tasks p1 < fast_finality_proving_limit config).
  { intros Hff. rewrite Hff in Hcap. apply resume_below_limit in Hcap. done. }
  destruct Hframe as (Hs & Hg & _).
  apply M_bind_Ok in H as (p2 & rt & Hrt & H). apply M_lift_Ok in Hrt as [Hrt ->].
  destruct (Z.eqb_spec (cfg_game_type config) rt) as [Ht|]; cbn [negb] in H; [|by apply not_created in H]. subst rt.
  apply M_bind_Ok in H as (p2 & vk & Hvk & H). apply M_lift_Ok in Hvk as [Hvk ->].
  destruct vk; cbn [negb] in H; [|by apply not_created in H].
  apply M_bind_Ok in H as (p2 & ? & Hp & H). apply M_get_Ok in Hp as [-> ->].
  rewrite Hs, Hg in H.
  destruct (canonical_head_l2_block (state p)) as [head|] eqn:Hh; [|by apply not_created in H].
  apply M_bind_Ok in H as (p2 & par & Hpar & H). apply M_lift_Ok in Hpar as [Hpar ->].
  apply M_bind_Ok in H as (p2 & recent & Hrec & H).
  assert (Hguard : p2 = p1 /\ (recent = false -> 0 < guard_l2_block (creation_guard p) ->
    guard_l2_block (creation_guard p) < wrap256 (head + proposal_interval_in_blocks config))).
  { destruct (Z.ltb_spec 0 (guard_l2_block (creation_guard p))); m_inv; (split; [done|]); [|lia].
    match goal with E : to_u64 _ = Ok _ |- _ => apply to_u64_Ok in E as [_ ->] end.
    intros ?%Z.leb_gt. lia. }
  destruct Hguard as [-> Hguard]. destruct recent; [by apply not_created in H|].
  apply M_bind_Ok in H as (p2 & mx & Hmx & H). apply M_lift_Ok in Hmx as [Hmx ->].
  apply M_ret_Ok in H as [-> [= Hle -> ->]]. symmetry in Hle. apply Z.leb_le in Hle.
  apply parent_of_next_Ok in Hpar.
  split_and!; eauto 6.
Qed.

(** ** Creation *)

(** The factory already holds a game for the root of this block. *)
Definition occupied (n parent : Z) : Prop :=
  exists output_root existing, compute_output_root_at_block n = Ok output_root /\
    existing_game output_root n parent = Ok existing /\ existing <> Address_ZERO.

(** The first block from [n] on without a game. *)
Definition first_free (n parent m root : Z) : Prop :=
  n <= m <= u64_max /\ compute_output_root_at_block m = Ok root /\
  existing_game root m parent = Ok Address_ZERO /\ forall k, n <= k < m -> occupied k parent.

Lemma compute_output_root_u64 n root : compute_output_root_at_block n = Ok root -> n <= u64_max.
Proof.
  unfold compute_output_root_at_block, checked_l2_block_number.
  destruct (Z.ltb_spec u64_max n); [done|]. lia.
Qed.

Lemma find_free_slot_step fuel n parent :
  find_free_slot fuel n parent =
  match output_root ← compute_output_root_at_block n;
        maybe_existing_game ← existing_game output_root n parent;
        Ok (output_root, maybe_existing_game)
  with
  | Ok (output_root, existing) =>
      if existing =? Address_ZERO then Some (Ok (n, output_root))
      else match fuel with
           | O => None
           | S fuel' => find_free_slot fuel' (wrap256 (n + 1)) parent
           end
  | Err e => Some (Err e)
  | Panic => Some Panic
  end.
Proof. by destruct fuel. Qed.

Lemma wrap256_u64 n : 0 <= n <= u64_max -> wrap256 (n + 1) = n + 1.
Proof. intros Hn. apply wrap256_small. unfold is_u256, u256_max, u64_max in *. lia. Qed.

(** the search for a free block ends: past [u64::MAX] no output root
    exists. What it finds is the first block from the given one on whose
    output root has no game yet, together with that root. *)
Theorem find_free_slot_spec n parent :
  0 <= n ->
  (exists fuel0, forall fuel, (fuel0 <= fuel)%nat -> is_Some (find_free_slot fuel n parent)) /\
  forall fuel m root, find_free_slot fuel n parent = Some (Ok (m, root)) -> first_free n parent m root.
Proof.
  intros Hn. split.
  - exists (Z.to_nat (u64_max + 1 - n)). intros fuel. revert n Hn.
    induction fuel as [|fuel IH]; intros n Hn Hf; rewrite find_free_slot_step.
    + destruct (compute_output_root_at_block n) as [r|e|] eqn:Hr; [|by eexists..].
      apply compute_output_root_u64 in Hr. unfold u64_max in *. lia.
    + destruct (compute_output_root_at_block n) as [r|e|] eqn:Hr; [|by eexists..].
      apply compute_output_root_u64 in Hr. cbn.
      destruct (existing_game r n parent) as [a|e|]; [|by eexists..].
      cbn. case_match; [by eexists|]. rewrite wrap256_u64 by lia. apply IH; [lia|].
      unfold u64_max in *. lia.
  - intros fuel. revert n Hn. induction fuel as [|fuel IH]; intros n Hn m root;
      rewrite find_free_slot_step;
      destruct (compute_output_root_at_block n) as [r|e|] eqn:Hr; try done; cbn;
      destruct (existing_game r n parent) as [a|e|] eqn:Ha; try done; cbn;
      pose proof (compute_output_root_u64 _ _ Hr);
      destruct (Z.eqb_spec a Address_ZERO) as [->|Hz]; try done.
    1, 2: intros [= <- <-]; split_and!; [lia|lia|done|done|lia].
    rewrite wrap256_u64 by lia. intros Hs%IH; [|lia]. destruct Hs as (Hm & Hroot & Hfree & Hocc).
    split_and!; [lia|lia|done|done|]. intros k Hk. destruct (decide (k = n)) as [->|].
    + by exists r, a.
    + apply Hocc. lia.
Qed.

Definition not_cached (p : Proposer) (a : Z) : Prop :=
  forall g, cached (state p) g -> address g <> a.

Lemma game_at_None p a : not_cached p a -> game_at (state p) a = None.
Proof.
  intros Hn. unfold game_at. destruct (List.find _ _) as [g|] eqn:Hf; [|done].
  apply find_some in Hf as [Hin%list_elem_of_In Ha%Z.eqb_eq].
  destruct (Hn g); [by apply elem_of_cached|done].
Qed.

Lemma spawn_not_cached p a d dl :
  not_cached p a -> spawn_game_proving_task a d dl p = (p, Ok false).
Proof.
  intros Hn. unfold spawn_game_proving_task, should_skip_proving, mbind, M_bind, get_state.
  by rewrite game_at_None.
Qed.

(** [create_game] never starts the proof of the game it has just created:
    the game is not in the cache yet, so the proving task that fast finality
    mode asks for is skipped, and the task map is left as it was. *)
Theorem fast_finality_skips_new_game root extra p p' a b :
  create_game root extra p = (p', Ok (a, b)) -> not_cached p a ->
  tasks p' = tasks p /\ state p' = state p.
Proof.
  unfold create_game, send. intros Hc Hn. m_inv. simplify_eq.
  match goal with E : (if fast_finality_mode config then _ else _) _ = _ |- _ => rename E into Hff end.
  destruct (fast_finality_mode config); [|by m_inv].
  unfold attempt in Hff. rewrite spawn_not_cached in Hff by exact Hn. by injection Hff as <- _.
Qed.

(** One creation has been submitted, with the bond of the factory; it has been
    mined, with the address and block of its receipt. *)
Definition submits_creation (p : Proposer) (root : Z) (extra : list Z) (p' : Proposer) : Prop :=
  exists bond, init_bond p = Some bond /\
    submitted p' = TxCreate (cfg_game_type config) root extra bond :: submitted p.
Definition creates (p : Proposer) (root : Z) (extra : list Z) (p' : Proposer) (a l1_block : Z) : Prop :=
  exists bond receipt, let tx := TxCreate (cfg_game_type config) root extra bond in
    init_bond p = Some bond /\ submitted p' = tx :: submitted p /\
    send_transaction (length (submitted p)) tx = Ok receipt /\ r_status receipt = true /\
    r_created_game receipt = Some a /\ r_block_number receipt = Some l1_block.

Lemma create_game_post root extra p p' r :
  create_game root extra p = (p', r) ->
  creation_guard p' = creation_guard p /\ state p' = state p /\ l1_sync p' = l1_sync p /\
  (submitted p' = submitted p \/ submits_creation p root extra p') /\
  forall a l1_block, r = Ok (a, l1_block) -> creates p root extra p' a l1_block.
Proof.
  unfold create_game, send, lift, mbind, M_bind, modify, get_state, submits_creation, creates. intros Hc.
  destruct (init_bond p) as [bond|]; cbn in Hc; [|injection Hc as <- <-; by split_and!; [..|left|]].
  destruct (send_transaction _ _) as [rc|e|] eqn:Hsend; cbn in Hc;
    [|injection Hc as <- <-; split_and!; [done..|right; by exists bond|done]..].
  destruct (check_receipt rc) as [rc'|e|] eqn:Hrc; cbn in Hc;
    [|injection Hc as <- <-; split_and!; [done..|right; by exists bond|done]..].
  destruct (r_created_game rc') as [a|] eqn:Ha; cbn in Hc;
    [|injection Hc as <- <-; split_and!; [done..|right; by exists bond|done]].
  set (p1 := with_submitted _ p) in Hc.
  assert (Hff : forall p2 o, (if fast_finality_mode config
      then attempt (spawn_game_proving_task a false None)
      else (mret (inl false) : M Proposer (bool + string))) p1 = (p2, o) -> spawn_frame p1 p2).
  { intros p2 o Hp. eapply keeps_run; [|exact Hp]. keeps_tac. }
  match type of Hc with (let (_, _) := ?run in _) = _ => destruct run as [p2 o] eqn:Hp end.
  destruct (Hff p2 o eq_refl) as (Hs & Hg & Hl & Hsub & _).
  assert (Hp' : p' = p2) by (unfold mret, M_ret in Hc; destruct o, (r_block_number rc'); cbn in Hc;
      by injection Hc).
  subst p'. split_and!; [by rewrite Hg|by rewrite Hs|by rewrite Hl|right; exists bond; by rewrite Hsub|].
  intros a' l1_block ->. unfold check_receipt in Hrc. destruct (r_status rc) eqn:Hok; [|done]. injection Hrc as ->.
  exists bond, rc'. rewrite Hsub. split_and!; try done;
    unfold mret, M_ret in Hc; destruct o, (r_block_number rc'); cbn in Hc; congruence.
Qed.

(** C36: The search of a creation ends, and what it submits is at most one
    transaction, with the factory's bond and the output root of the first block,
    from the one asked for on, for whose output root the factory has no game
    with this parent yet. When the creation succeeds, that transaction was mined,
    the duplicate guard covers exactly the block proposed, with the address and
    L1 block of the receipt, and a sync that has already passed this block is
    sent back to the start of the factory; when it fails the guard is untouched. *)
Theorem handle_game_creation_spec n parent : 0 <= n ->
  (exists enough, forall fuel, (enough <= fuel)%nat -> is_Some (find_free_slot fuel n parent)) /\
  forall fuel p p' r, handle_game_creation fuel n parent p = (p', r) ->
  (submitted p' = submitted p \/
   exists m root, first_free n parent m root /\ submits_creation p root [m; parent] p') /\
  match r with
  | Ok _ => exists m root a l1_block, first_free n parent m root /\
      creates p root [m; parent] p' a l1_block /\
      creation_guard p' = {| guard_l2_block := m; guard_address := a; guard_observation :=
        Some {| observed_l1_block := l1_block; gc_output_root := root;
                gc_extra_data := [m; parent] |} |} /\
      (forall number h, sync_block (l1_sync p) = Some (number, h) -> l1_block <= number ->
         cursor (state p') = None /\ sync_complete (l1_sync p') = false)
  | _ => creation_guard p' = creation_guard p
  end.
Proof.
  intros Hn. destruct (find_free_slot_spec n parent Hn) as [Hends Hfree]. split; [exact Hends|].
  intros fuel p p' r. unfold handle_game_creation. intros Hc.
  destruct (find_free_slot fuel n parent) as [[[m root]|e|]|] eqn:Hf;
    [|injection Hc as <- <-; split; [by left|done]..].
  apply Hfree in Hf as Hm. unfold lift, mbind, M_bind, modify in Hc.
  destruct (create_game root [m; parent] p) as [p1 rc] eqn:Hg.
  apply create_game_post in Hg as (Hgd & Hstate & Hl1 & Hsub & Hok).
  destruct rc as [[a l1_block]|e|];
    [|injection Hc as <- <-; split; [destruct Hsub; eauto|done]..].
  set (p2 := match sync_block (l1_sync p1) with Some _ => _ | None => _ end) in Hc.
  assert (Hp2 : submitted p2 = submitted p1 /\ creation_guard p2 = creation_guard p1)
    by (subst p2; by repeat case_match).
  destruct Hp2 as [Hsub2 Hgd2]. specialize (Hok _ _ eq_refl).
  assert (Hsub' : submits_creation p root [m; parent] p2)
    by (destruct Hok as (bond & _ & Hb & Hs & _); exists bond; by rewrite Hsub2).
  destruct (to_u64 m) as [m'|e|] eqn:Hm';
    [|injection Hc as <- <-; split; [eauto|congruence]..].
  injection Hc as <- <-. apply to_u64_Ok in Hm' as [_ ->].
  split; [by eauto|].
  exists m, root, a, l1_block. split_and!; [done| |done|].
  - destruct Hok as (bond & receipt & Hok). exists bond, receipt. cbn. by rewrite Hsub2.
  - intros number h Hs Hle. cbn. subst p2. rewrite Hl1, Hs. by rewrite (proj2 (Z.leb_le _ _) Hle).
Qed.

Lemma should_create_frame : keeps spawn_frame should_create_game.
Proof. unfold should_create_game, resume_proving. cbv zeta. keeps_tac. Qed.

Lemma defend_loop_frame l n b : keeps spawn_frame (defend_loop l n b).
Proof.
  revert n b. induction l as [|[[i a] dl] l IH]; intros n b; cbn [defend_loop];
    repeat (keeps_step || apply IH).
Qed.

(** ** Closing games *)

(** Every submission of the pass closes a flagged game of ours that had not
    exhausted its attempts, and the attempts stay within the cap. *)
Definition close_pass (gs : list Game) (p p' : Proposer) : Prop :=
  state p' = state p /\ tasks p' = tasks p /\
  (forall a, failure_count p a <= MAX_CLOSE_GAME_FAILURES ->
     failure_count p' a <= MAX_CLOSE_GAME_FAILURES) /\
  (forall a, MAX_CLOSE_GAME_FAILURES <= failure_count p a -> failure_count p' a = failure_count p a) /\
  exists new, submitted p' = new ++ submitted p /\
    forall tx, tx ∈ new -> exists g, g ∈ gs /\ tx = TxClose (address g) signer_address /\
      failure_count p (address g) < MAX_CLOSE_GAME_FAILURES.

#[local] Instance close_pass_preorder gs : PreOrder (close_pass gs).
Proof.
  split; unfold close_pass.
  - intros p. split_and!; [done..|]. exists []. split; [done|]. by intros ? ?%not_elem_of_nil.
  - intros p q r (Hs & Ht & Hc & Hk & n1 & Hn1 & H1) (Hs' & Ht' & Hc' & Hk' & n2 & Hn2 & H2).
    split_and!; [congruence|congruence|auto|intros a Ha; rewrite Hk'; rewrite Hk; done|].
    exists (n2 ++ n1). rewrite Hn2, Hn1, app_assoc. split; [done|].
    intros tx [Htx|Htx]%elem_of_app; [|by apply H1].
    destruct (H2 tx Htx) as (g & Hg & -> & Hlt). exists g. split_and!; [done..|].
    destruct (Z.lt_ge_cases (failure_count p (address g)) MAX_CLOSE_GAME_FAILURES) as [|Hge]; [done|].
    rewrite (Hk _ Hge) in Hlt. lia.
Qed.

Lemma submit_spec tx p p' r :
  submit tx p = (p', r) ->
  p' = p \/ exists t, tx = Ok t /\ p' = with_submitted (t :: submitted p) p.
Proof.
  unfold submit, send, mbind, M_bind, lift, modify, get_state. destruct tx as [t|e|];
    [|intros [= <- _]; by left..].
  cbn. destruct (send_transaction _ t) as [rc|e|]; [destruct (check_receipt rc)|..];
    intros Hs; (injection Hs as <- _ || (unfold mret, M_ret in Hs; injection Hs as <- _));
    right; by exists t.
Qed.

Lemma failure_count_with a b n p :
  failure_count (with_failures (<[b := n]> (close_game_failures p)) p) a =
  if decide (a = b) then n else failure_count p a.
Proof.
  unfold failure_count. cbn. rewrite lookup_insert. repeat case_decide; subst; done.
Qed.

Lemma failure_count_forget a b p :
  failure_count (with_failures (delete b (close_game_failures p)) p) a =
  if decide (a = b) then 0 else failure_count p a.
Proof.
  unfold failure_count. cbn. rewrite lookup_delete. repeat case_decide; subst; done.
Qed.

Lemma close_one_pass gs g : g ∈ gs -> keeps (close_pass gs) (close_one g).
Proof.
  intros Hg p. unfold close_one, mbind, M_bind, get_state.
  destruct (Z.leb_spec MAX_CLOSE_GAME_FAILURES (failure_count p (address g))) as [|Hlt]; [done|].
  unfold attempt. destruct (submit_close_game_transaction g p) as [p1 r] eqn:Hs.
  apply submit_spec in Hs.
  assert (Hp1 : close_pass gs p p1 /\ close_game_failures p1 = close_game_failures p).
  { destruct Hs as [->|(t & Ht & ->)]; [done|]. split; [|done].
    unfold close_game_transaction in Ht. ok_inv. subst t.
    split_and!; [done..|]. eexists [_]. split; [done|].
    intros tx ->%list_elem_of_singleton. eauto. }
  destruct Hp1 as [Hp1 Hf].
  assert (Hcount : failure_count p1 (address g) < MAX_CLOSE_GAME_FAILURES)
    by (unfold failure_count in *; by rewrite Hf).
  unfold MAX_CLOSE_GAME_FAILURES in *.
  destruct r as [u|e|]; cbn [fst]; [..|done]; (etrans; [exact Hp1|]); unfold modify; cbn [fst];
    (split_and!; [done|done|intros a|intros a|exists []; split; [done|by intros ? ?%not_elem_of_nil]]);
    rewrite ?failure_count_with, ?failure_count_forget; case_decide; try done; subst;
    unfold MAX_CLOSE_GAME_FAILURES, saturating_add, u8_max in *; lia.
Qed.

Lemma close_games_pass p :
  close_pass (owned_flagged should_attempt_to_close_game p) p (close_games p).1.
Proof.
  unfold close_games, mbind, M_bind, get_state.
  apply (keeps_for_each (close_pass _)). intros g Hg. by apply close_one_pass.
Qed.

(** closing games only ever submits close transactions for cached games
    that are ours, flagged and below five failed attempts; no count passes
    five, and a game that has reached five is neither retried nor its count
    changed. *)
Theorem close_games_capped p :
  let gs := owned_flagged should_attempt_to_close_game p in
  let p' := (close_games p).1 in
  close_pass gs p p' /\
  forall g, g ∈ gs -> cached (state p) g /\ is_owned g identity = true /\
    should_attempt_to_close_game g = true.
Proof.
  cbv zeta. split; [apply close_games_pass|].
  - intros g Hg. unfold owned_flagged in Hg.
    apply list_elem_of_filter in Hg as [Hf Hg]. apply list_elem_of_filter in Hg as [Ho Hg].
    split_and!; [by apply elem_of_cached|done|done].
Qed.
End tasks.

(** ** The sample chain *)

#[local] Instance L1s : L1Rpc := sample_l1 20 15 800 sample_games.
#[local] Instance L2s : L2Rpc := sample_l2.
#[local] Instance Ws : Wallet := sample_wallet.
#[local] Instance Fs : Fetcher := {| get_max_provable_l2_block_number := Ok 100 |}.
#[local] Instance Hs : Host := {| now := 50; backup_permit := true; backup_saves := true |}.

(** The cache after a sync, ready to create: the head is game 2 at block 30. *)
Definition ready : Proposer :=
  with_params (Some {| max_challenge_duration := 100; max_prove_duration := 100 |}) (Some 80)
    synced.1.

Definition fast_config : ProposerConfig :=
  {| anchor_state_registry_address := 500; mock_mode := false; fast_finality_mode := true;
     proposal_interval_in_blocks := 10; cfg_game_type := 42;
     max_concurrent_defense_tasks := 1; fast_finality_proving_limit := 2;
     range_split_count := RangeSplitCount.one; max_concurrent_range_proofs := 1;
     backup_path := true; sync_l1_confirmations := 0 |}.

Lemma should_create_game_sound_witness :
  let r := should_create_game fast_config sample_identity ready in
  r.2 = Ok (true, 40, 2) /\ count_active_proving_tasks r.1 = 1 /\
  (0 < guard_l2_block (creation_guard ready) -> guard_l2_block (creation_guard ready) < 40) /\
  (fast_finality_mode fast_config = true ->
     count_active_proving_tasks r.1 < fast_finality_proving_limit fast_config).
Proof.
  cbv zeta. split; [vm_compute; reflexivity|]. split; [vm_compute; reflexivity|].
  destruct (should_create_game_sound fast_config sample_identity ready
    (should_create_game fast_config sample_identity ready).1 40 2) as (_ & _ & _ & H1 & _ & H2 & _).
  { vm_compute. reflexivity. }
  split; [exact H1|exact H2].
Defined.

(** Blocks 30 and 31: the first is taken, the second free. *)
Lemma find_free_slot_spec_witness :
  find_free_slot sample_config 5 30 1 = Some (Ok (31, 310007032)) /\
  (exists fuel0, forall fuel, (fuel0 <= fuel)%nat ->
     is_Some (find_free_slot sample_config fuel 30 1)) /\
  forall k, 30 <= k < 31 -> occupied sample_config k 1.
Proof.
  split; [vm_compute; reflexivity|].
  destruct (find_free_slot_spec sample_config 30 1) as [Ht Hs]; [lia|]. split; [exact Ht|].
  destruct (Hs 5%nat 31 310007032) as (_ & _ & _ & Hk); [vm_compute; reflexivity|exact Hk].
Defined.

Lemma fast_finality_skips_new_game_witness :
  let r := create_game fast_config sample_identity 1 [40; 2] ready in
  r.2 = Ok (900, 20) /\ tasks r.1 = tasks ready /\ state r.1 = state ready.
Proof.
  cbv zeta. split; [vm_compute; reflexivity|].
  apply (fast_finality_skips_new_game fast_config sample_identity 1 [40; 2] ready _ 900 20).
  - vm_compute. reflexivity.
  - intros g Hg. apply elem_of_cached in Hg. revert g Hg.
    apply Forall_forall. vm_compute. repeat constructor; discriminate.
Defined.

Lemma handle_game_creation_spec_witness :
  let r := handle_game_creation fast_config sample_identity 5 30 1 ready in
  r.2 = Ok tt /\ guard_l2_block (creation_guard r.1) = 31 /\
  exists m root a l1_block, first_free fast_config 30 1 m root /\
    creates fast_config ready root [m; 1] r.1 a l1_block /\
    creation_guard r.1 = {| guard_l2_block := m; guard_address := a; guard_observation :=
      Some {| observed_l1_block := l1_block; gc_output_root := root;
              gc_extra_data := [m; 1] |} |} /\
    (forall number h, sync_block (l1_sync ready) = Some (number, h) -> l1_block <= number ->
       cursor (state r.1) = None /\ sync_complete (l1_sync r.1) = false).
Proof.
  cbv zeta. split; [vm_compute; reflexivity|]. split; [vm_compute; reflexivity|].
  apply (proj2 (handle_game_creation_spec fast_config sample_identity 30 1 ltac:(lia)) 5%nat ready
    (handle_game_creation fast_config sample_identity 5 30 1 ready).1 (Ok tt)).
  vm_compute. reflexivity.
Defined.
