(* ===== verification/ProposerRun.v ===== *)
(** * The proposer as a whole

    [run] of [fault-proof/src/proposer.rs] as a step relation: turns of the main
    loop and bodies of the spawned tasks, in any order, each meeting its own
    answers from the chains. *)

From S2P Require Import Prelude FaultTypes GameCache Backup ProposerService ProposerSync.
From S2P Require Import ProposerTasks.

(** What the outside answers during one step. *)
Record Env := {
  e_l1 : L1Rpc; e_l2 : L2Rpc; e_wallet : Wallet; e_fetcher : Fetcher; e_host : Host;
}.

Section run.
Context {HO : HashOrder} (config : ProposerConfig) (identity : ProposerIdentity).

Definition iteration (e : Env) : M Proposer unit :=
  run_iteration (L1 := e_l1 e) (L2 := e_l2 e) (W := e_wallet e) (F := e_fetcher e)
    (Hst := e_host e) config identity.

(** The body of a task. The parent index a creation task was spawned with is
    not part of its [TaskInfo]: any will do here. A proving task touches the
    shared state only through the proof it submits (see [ProveGame]). *)
Inductive task_run (e : Env) : TaskInfo -> Proposer -> Proposer -> outcome unit -> Prop :=
| run_creation n parent fuel p p' r :
    creation_task (L1 := e_l1 e) (L2 := e_l2 e) (W := e_wallet e) (Hst := e_host e)
      config identity fuel n parent p = (p', r) ->
    task_run e (GameCreationTask n) p p' r
| run_proving_ended a d p r : task_run e (GameProvingTask a d) p p r
| run_proving_submitted a d p r proof :
    task_run e (GameProvingTask a d) p (with_submitted (TxProve a proof :: submitted p) p) r
| run_resolution p p' r :
    resolve_games (L1 := e_l1 e) (W := e_wallet e) identity p = (p', r) ->
    task_run e GameResolutionTask p p' r
| run_close p p' r :
    close_games (W := e_wallet e) identity p = (p', r) ->
    task_run e GameCloseTask p p' r
| run_claim p p' r :
    claim_bonds (L1 := e_l1 e) (W := e_wallet e) identity p = (p', r) ->
    task_run e BondClaimTask p p' r.

Definition finish (id : Z) (r : outcome unit) (p : Proposer) : Proposer :=
  with_tasks (alter (fun t => (Finished r, t.2)) id (tasks p)) (next_task_id p) p.

Inductive step (p : Proposer) : Proposer -> Prop :=
| step_iteration e : step p (iteration e p).1
| step_task e id info p' r :
    tasks p !! id = Some (Running, info) -> task_run e info p p' r ->
    step p (finish id r p').

(** The proposer right after startup. *)
Definition initial (p : Proposer) : Prop :=
  tasks p = ∅ /\ close_game_failures p = ∅ /\ wf_state (state p).

Inductive reachable : Proposer -> Prop :=
| reachable_initial p : initial p -> reachable p
| reachable_step p p' : reachable p -> step p p' -> reachable p'.

(** ** The invariant *)

Definition singletons (p : Proposer) : Prop :=
  forall id1 id2 h1 h2 i1 i2,
    tasks p !! id1 = Some (h1, i1) -> tasks p !! id2 = Some (h2, i2) ->
    task_kind i1 = task_kind i2 -> is_proving i1 = false -> id1 = id2.

Record inv (p : Proposer) : Prop := {
  inv_wf : wf_state (state p);
  inv_singletons : singletons p;
  inv_defense : count_active_defense_tasks p <= max_concurrent_defense_tasks config;
  inv_failures : forall a, failure_count p a <= MAX_CLOSE_GAME_FAILURES;
}.

(** What each construct must preserve. *)
Definition preserves (p p' : Proposer) : Prop := inv p -> inv p'.
#[local] Instance preserves_preorder : PreOrder preserves.
Proof. split; unfold preserves; auto. Qed.

(** The task map shrinks to a part of itself; cache and failures are kept. *)
Lemma preserves_shrink p p' :
  (forall id h i, tasks p' !! id = Some (h, i) -> exists h', tasks p !! id = Some (h', i)) ->
  (wf_state (state p) -> wf_state (state p')) ->
  (forall a, failure_count p a <= MAX_CLOSE_GAME_FAILURES ->
     failure_count p' a <= MAX_CLOSE_GAME_FAILURES) ->
  preserves p p'.
Proof.
  intros Ht Hw Hf [Hwf Hs Hd Hfc]. split; [auto| | |auto].
  - intros id1 id2 h1 h2 i1 i2 H1 H2. apply Ht in H1 as [? H1], H2 as [? H2]. by eapply Hs.
  - etrans; [|exact Hd]. unfold count_active_defense_tasks. rewrite !length_infos.
    apply Nat2Z.inj_le. rewrite <- !size_dom. apply subseteq_size.
    intros id. unfold active. rewrite !elem_of_dom. intros [[h i] Hi].
    apply map_lookup_filter_Some in Hi as [Hi Hdf].
    apply Ht in Hi as [h' Hi]. exists (h', i). by apply map_lookup_filter_Some.
Qed.

Lemma preserves_same_tasks p p' :
  tasks p' = tasks p -> state p' = state p -> close_game_failures p' = close_game_failures p ->
  preserves p p'.
Proof.
  intros Ht Hs Hf. apply preserves_shrink; unfold failure_count; rewrite ?Ht, ?Hs, ?Hf; eauto.
Qed.

Lemma preserves_adds d p p' :
  adds_proving d p p' -> spawn_frame p p' ->
  count_active_defense_tasks p' <= max_concurrent_defense_tasks config -> preserves p p'.
Proof.
  intros Ha (Hs & _ & _ & _ & Hf) Hc [Hw Hsi Hd Hfc].
  split; [by rewrite Hs| |done|unfold failure_count in *; by rewrite Hf].
  intros id1 id2 h1 h2 i1 i2 H1 H2 Hk Hp.
  apply Ha in H1 as [H1|[a ->]]; [|done]. apply Ha in H2 as [H2|[a ->]]; [|by destruct i1].
  by eapply Hsi.
Qed.

Lemma preserves_insert p id info n :
  has_active_task_of_type p info = false -> is_proving info = false ->
  preserves p (with_tasks (<[id := (Running, info)]> (tasks p)) n p).
Proof.
  intros Hidle Hp [Hw Hs Hd Hf]. unfold has_active_task_of_type in Hidle.
  rewrite existsb_infos in Hidle. split; [done| | |done].
  - assert (Hk : forall id' h i, tasks p !! id' = Some (h, i) -> task_kind i = task_kind info -> False).
    { intros id' h i Hi Hk. apply Hidle in Hi. by apply Z.eqb_neq in Hi. }
    intros id1 id2 h1 h2 i1 i2. cbn. rewrite !lookup_insert_Some.
    intros [[<- [= <- <-]]|[? H1]] [[<- [= <- <-]]|[? H2]] Hkind Hpr;
      [done|destruct (Hk _ _ _ H2); congruence|destruct (Hk _ _ _ H1); congruence|by eapply Hs].
  - etrans; [|exact Hd]. unfold count_active_defense_tasks. rewrite !length_infos.
    pose proof (count_insert p id Running info is_defense_task n) as Hc.
    assert (Hnd : is_defense_task info = false) by (by destruct info).
    rewrite Hnd in Hc. lia.
Qed.

Section step.
Variable e : Env.
#[local] Instance : L1Rpc := e_l1 e.
#[local] Instance : L2Rpc := e_l2 e.
#[local] Instance : Wallet := e_wallet e.
#[local] Instance : Fetcher := e_fetcher e.
#[local] Instance : Host := e_host e.

Lemma preserves_sync : keeps preserves (sync_state config identity).
Proof.
  intros p. destruct (sync_state_frame config identity p) as (Ht & _ & _ & _ & _ & _ & Hf).
  apply preserves_shrink; [rewrite Ht; eauto|apply sync_state_wf|].
  intros a Ha. unfold failure_count in *.
  destruct (close_game_failures (sync_state config identity p).1 !! a) as [n|] eqn:Hn; [|done].
  rewrite map_subseteq_spec in Hf. apply Hf in Hn. by rewrite Hn in Ha.
Qed.

Lemma preserves_backup : keeps preserves (backup config).
Proof. apply keeps_modify. intros p. destruct (_ && _); by apply preserves_same_tasks. Qed.

Lemma preserves_completed : keeps preserves handle_completed_tasks.
Proof.
  apply keeps_modify. intros p. apply preserves_shrink; [|done..]. cbn.
  generalize (finished_ids p) as l. intros l. generalize (tasks p) as t.
  induction l as [|k l IH]; intros t id h i; cbn; [eauto|].
  intros [h' Hi]%IH. apply lookup_delete_Some in Hi as [_ Hi]. eauto.
Qed.

Lemma should_create_preserves : keeps preserves (should_create_game config identity).
Proof.
  intros p Hinv. pose proof (should_create_adds config identity p) as Ha.
  eapply preserves_adds; [exact Ha|apply should_create_frame| |done].
  etrans; [|apply (inv_defense p Hinv)]. unfold count_active_defense_tasks.
  rewrite !length_infos. apply adds_proving_count in Ha. lia.
Qed.

Lemma spawn_creation_preserves p :
  has_active_task_of_type p (GameCreationTask 0) = false ->
  preserves p (spawn_game_creation_task config identity p).1.
Proof.
  intros Hidle. unfold spawn_game_creation_task, mbind, M_bind.
  pose proof (should_create_preserves p) as Hp.
  pose proof (should_create_adds config identity p) as Ha.
  destruct (should_create_game config identity p) as [p1 [[[[] n] parent]|msg|]];
    cbn in *; [|done..].
  etrans; [exact Hp|].
  apply (preserves_insert p1 (next_task_id p1) (GameCreationTask n)
           (wrap64 (next_task_id p1 + 1))); [|done].
  unfold has_active_task_of_type in *. rewrite existsb_infos in Hidle |- *.
  intros id h info [Hi|[a ->]]%Ha; [|done]. by eapply Hidle.
Qed.

Lemma spawn_if_idle_preserves info :
  is_proving info = false -> keeps preserves (spawn_if_idle info).
Proof.
  intros Hp p. unfold spawn_if_idle, mbind, M_bind, get_state.
  destruct (has_active_task_of_type p info) eqn:Hidle; [done|]. cbn.
  by apply (preserves_insert p (next_task_id p) info (wrap64 (next_task_id p + 1))).
Qed.

Lemma spawn_defense_preserves : keeps preserves (spawn_game_defense_tasks config identity).
Proof.
  intros p Hinv. unfold spawn_game_defense_tasks, mbind, M_bind, get_state.
  eapply preserves_adds; [apply defend_loop_adds|apply defend_loop_frame| |done].
  pose proof (inv_defense p Hinv) as Hd. unfold count_active_defense_tasks in *.
  rewrite length_infos in *. apply defend_loop_bound. rewrite length_infos. lia.
Qed.

#[local] Hint Resolve spawn_defense_preserves spawn_if_idle_preserves preserves_sync
  preserves_backup preserves_completed : keeps.

Lemma spawn_creation_if_idle_preserves :
  keeps preserves (spawn_creation_if_idle config identity).
Proof.
  intros p. unfold spawn_creation_if_idle.
  unfold mbind at 1, M_bind at 1, get_state.
  destruct (has_active_task_of_type p (GameCreationTask 0)) eqn:Hidle; [done|].
  pose proof (spawn_creation_preserves p Hidle) as Hp.
  unfold mbind, M_bind, attempt.
  by destruct (spawn_game_creation_task config identity p) as [p1 []].
Qed.
#[local] Hint Resolve spawn_creation_if_idle_preserves : keeps.

Lemma iteration_preserves : keeps preserves (run_iteration config identity).
Proof. unfold run_iteration, spawn_pending_operations. keeps_tac. Qed.

Lemma adds_false_preserves {A} (m : M Proposer A) :
  keeps (adds_proving false) m -> keeps spawn_frame m -> keeps preserves m.
Proof.
  intros Ha Hf p Hinv. pose proof (Ha p) as Hap.
  eapply preserves_adds; [exact Hap|apply Hf| |done].
  etrans; [|apply (inv_defense p Hinv)]. unfold count_active_defense_tasks.
  rewrite !length_infos. apply adds_proving_count in Hap. lia.
Qed.

#[local] Hint Extern 1 (preserves _ _) => by apply preserves_same_tasks : keeps.

Lemma send_preserves tx : keeps preserves (send tx).
Proof. unfold send. keeps_tac. Qed.
#[local] Hint Resolve send_preserves : keeps.

Lemma creation_preserves fuel n parent :
  keeps preserves (creation_task config identity fuel n parent).
Proof.
  unfold creation_task, handle_game_creation, create_game. cbv zeta. keeps_tac.
  - apply adds_false_preserves; [apply spawn_proving_adds|apply spawn_proving_frame].
  - apply keeps_modify. intros p. apply preserves_shrink; repeat case_match; eauto.
    all: cbn; intros [Hk Hd]; by split.
Qed.

Lemma submit_preserves tx : keeps preserves (submit tx).
Proof. unfold submit. keeps_tac. Qed.
#[local] Hint Resolve submit_preserves : keeps.

Lemma resolve_preserves : keeps preserves (resolve_games identity).
Proof. unfold resolve_games, resolve_one, submit_resolution_transaction. keeps_tac. Qed.

Lemma claim_preserves : keeps preserves (claim_bonds identity).
Proof. unfold claim_bonds, claim_one, submit_bond_claim_transaction. keeps_tac. Qed.

Lemma close_preserves : keeps preserves (close_games identity).
Proof.
  intros p. destruct (close_games_pass identity p) as (Hs & Ht & Hf & _).
  apply preserves_shrink; [rewrite Ht; eauto|by rewrite Hs|exact Hf].
Qed.

Lemma task_run_preserves info p p' r : task_run e info p p' r -> preserves p p'.
Proof.
  intros Hr. inversion Hr; subst; try by apply preserves_same_tasks.
  - eapply keeps_run; [apply creation_preserves|eassumption].
  - eapply keeps_run; [apply resolve_preserves|eassumption].
  - eapply keeps_run; [apply close_preserves|eassumption].
  - eapply keeps_run; [apply claim_preserves|eassumption].
Qed.
End step.

Lemma finish_preserves id r p : preserves p (finish id r p).
Proof.
  apply preserves_shrink; [|done..]. intros id' h i. cbn. rewrite lookup_alter.
  case_decide; [|eauto]. intros ([h' i'] & Hi & [= -> ->])%fmap_Some. subst. eauto.
Qed.

Lemma step_preserves p p' : step p p' -> preserves p p'.
Proof.
  intros [e|e id info q r Hid Hr]; [apply iteration_preserves|].
  etrans; [by eapply task_run_preserves|apply finish_preserves].
Qed.

Lemma initial_inv p : 0 <= max_concurrent_defense_tasks config -> initial p -> inv p.
Proof.
  intros Hmax (Ht & Hf & Hw). split; [done|intros id1 id2 h1 h2 i1 i2; by rewrite Ht| |].
  - unfold count_active_defense_tasks. rewrite length_infos. unfold active.
    by rewrite Ht, map_filter_empty, map_size_empty.
  - intros a. unfold failure_count. by rewrite Hf.
Qed.

(** C2: however turns of the main loop and task bodies interleave, and
    whatever the chains answer to each (errors, reorgs and panics included),
    the proposer never has two creation, two resolution, two close or two
    claim tasks, nor more defense tasks than configured; the cache stays well
    formed, and no close-failure count passes five. *)
Theorem reachable_inv p :
  0 <= max_concurrent_defense_tasks config -> reachable p ->
  wf_state (state p) /\
  (forall id1 id2 h1 h2 i1 i2,
     tasks p !! id1 = Some (h1, i1) -> tasks p !! id2 = Some (h2, i2) ->
     task_kind i1 = task_kind i2 -> is_proving i1 = false -> id1 = id2) /\
  count_active_defense_tasks p <= max_concurrent_defense_tasks config /\
  (forall a, failure_count p a <= MAX_CLOSE_GAME_FAILURES).
Proof.
  intros Hmax Hr.
  assert (Hinv : inv p) by (induction Hr; [by apply initial_inv|by eapply step_preserves]).
  by destruct Hinv.
Qed.
End run.

#[local] Definition sample_env : Env :=
  {| e_l1 := sample_l1 20 15 800 sample_games; e_l2 := sample_l2; e_wallet := sample_wallet;
     e_fetcher := {| get_max_provable_l2_block_number := Ok 100 |};
     e_host := {| now := 50; backup_permit := true; backup_saves := true |} |}.

(** One turn of the loop spawns the creation, resolution, close and claim tasks. *)
Lemma reachable_inv_witness :
  let p := (iteration sample_config sample_identity sample_env ready).1 in
  (snd <$> values (tasks p)) ≡ₚ [(GameCreationTask 40); GameResolutionTask; GameCloseTask; BondClaimTask]
  /\ count_active_defense_tasks p <= max_concurrent_defense_tasks sample_config.
Proof.
  cbv zeta. split; [vm_compute; solve_Permutation|].
  apply (reachable_inv sample_config sample_identity); [done|].
  eapply reachable_step; [apply reachable_initial|apply step_iteration].
  split_and!; [vm_compute; reflexivity..|].
  change (wf_state (state synced.1)). unfold synced. apply sync_state_wf.
  split; [done|]. set_solver.
Defined.
