(* ===== verification/ProveGame.v ===== *)
(** * Proving a game

    [prove_game] and [range_proof_stdin] of [fault-proof/src/proposer.rs]: the
    range proofs of one game, generated concurrently, and the aggregation proof
    submitted for it. Witness generation, the provers and the aggregation
    program's input are parameters. *)

From S2P Require Import Prelude RangeSplit FaultTypes GameCache Backup ProposerService.

(** What a range proof carries: the proof, the boot info it commits to (its L1
    head among it) and what it cost. *)
Record RangeProof := {
  rp_proof : Z; rp_boot_l1_head : Z; rp_boot : Z; rp_cycles : Z; rp_gas : Z;
}.

Class Prover := {
  (** witness generation for a range at an L1 head *)
  range_proof_stdin : Z -> Z -> Z -> outcome Z;
  generate_range_proof : Z -> outcome RangeProof;
  get_header_preimages : list Z -> Z -> outcome Z;
  get_agg_proof_stdin : list Z -> list Z -> Z -> Z -> Z -> outcome Z;
  generate_agg_proof : Z -> outcome Z;
}.

(** [buffer_unordered]: the order in which [n] concurrent futures complete. *)
Class Schedule := {
  schedule : nat -> list nat;
  schedule_perm : forall n, schedule n ≡ₚ seq 0 n;
}.

Section prove.
Context `{L1 : L1Rpc, W : Wallet, P : Prover} (config : ProposerConfig).

Definition range_task (l1_head : Z) (r : Z * Z) : outcome RangeProof :=
  stdin ← range_proof_stdin r.1 r.2 l1_head; generate_range_proof stdin.

(** [try_collect]: the completed results in completion order, or the first
    error met. *)
Fixpoint try_collect (l1_head : Z) (ranges : list (Z * Z)) (order : list nat)
    : outcome (list (nat * RangeProof)) :=
  match order with
  | [] => Ok []
  | idx :: rest =>
      rp ← match ranges !! idx with
           | Some r => range_task l1_head r
           | None => Err "no such range"
           end;
      more ← try_collect l1_head ranges rest;
      Ok ((idx, rp) :: more)
  end.

(** The loop that files each result under its index and adds up its cost. *)
Fixpoint file_results (results : list (nat * RangeProof)) (proofs : list (option RangeProof))
    (cycles gas : Z) : outcome (list (option RangeProof) * Z * Z) :=
  match results with
  | [] => Ok (proofs, cycles, gas)
  | (idx, rp) :: rest =>
      cycles' ← with_context "Instruction cycles overflow"
                  (checked_add u64_max cycles (rp_cycles rp));
      gas' ← with_context "SP1 gas overflow" (checked_add u64_max gas (rp_gas rp));
      file_results rest (<[idx := Some rp]> proofs) cycles' gas'
  end.

(** [proof.ok_or_else(missing proof)] for every index. *)
Fixpoint require_all (proofs : list (option RangeProof)) : outcome (list RangeProof) :=
  match proofs with
  | [] => Ok []
  | o :: rest =>
      rp ← with_context "missing proof for range index" o;
      more ← require_all rest;
      Ok (rp :: more)
  end.

Definition sum (f : RangeProof -> Z) (l : list RangeProof) : Z := foldr (fun r n => f r + n) 0 l.

Context {Sch : Schedule}.

(** Everything up to the aggregation proof. *)
Definition aggregate (game_address start_block end_block : Z) : outcome (Z * Z * Z) :=
  l1_head ← l1Head game_address AtLatest;
  ranges ← RangeSplitCount.split (range_split_count config) start_block end_block;
  let num_ranges := length ranges in
  results ← try_collect l1_head ranges (schedule num_ranges);
  '(proofs, cycles, gas) ← file_results results (replicate num_ranges None) 0 0;
  rps ← require_all proofs;
  latest_l1_head ← with_context "No boot infos generated" (rp_boot_l1_head <$> last rps);
  headers ← get_header_preimages (rp_boot <$> rps) latest_l1_head;
  stdin ← get_agg_proof_stdin (rp_proof <$> rps) (rp_boot <$> rps) headers latest_l1_head
            signer_address;
  agg ← generate_agg_proof stdin;
  Ok (agg, cycles, gas).

Definition prove_game (game_address start_block end_block : Z) : M Proposer (Z * Z * Z) :=
  '(agg, cycles, gas) ← lift (aggregate game_address start_block end_block);
  receipt ← send (TxProve game_address agg);
  receipt ← lift (check_receipt receipt);
  mret (r_hash receipt, cycles, gas).

(** ** Lemmas *)

Lemma try_collect_Ok l1_head ranges order results :
  try_collect l1_head ranges order = Ok results ->
  results.*1 = order /\ forall idx rp, (idx, rp) ∈ results ->
    exists r, ranges !! idx = Some r /\ range_task l1_head r = Ok rp.
Proof.
  revert results. induction order as [|i order IH]; intros results; cbn.
  { intros [= <-]. split; [done|]. by intros ? ? ?%not_elem_of_nil. }
  intros Ht. ok_inv. subst.
  match goal with E : try_collect _ _ _ = Ok _ |- _ => apply IH in E as [Hm Hall] end.
  destruct (ranges !! i) as [r|] eqn:Hr; [|done]. cbn. split; [by rewrite Hm|].
  intros idx rp [[= -> ->]|Hin]%elem_of_cons; eauto.
Qed.

Lemma sum_perm f l1 l2 : l1 ≡ₚ l2 -> sum f l1 = sum f l2.
Proof. unfold sum. induction 1; cbn; lia. Qed.

Lemma file_results_Ok results proofs cycles gas proofs' cycles' gas' :
  file_results results proofs cycles gas = Ok (proofs', cycles', gas') ->
  NoDup results.*1 -> (forall i, i ∈ results.*1 -> (i < length proofs)%nat) ->
  cycles' = cycles + sum rp_cycles results.*2 /\ gas' = gas + sum rp_gas results.*2 /\
  (results <> [] -> cycles' <= u64_max /\ gas' <= u64_max) /\
  length proofs' = length proofs /\
  forall i, proofs' !! i =
    match list_find (fun r => r.1 = i) results with
    | Some (_, (_, rp)) => Some (Some rp) | None => proofs !! i
    end.
Proof.
  revert proofs cycles gas. induction results as [|[idx rp] rest IH]; intros proofs cycles gas; cbn.
  { intros [= <- <- <-] _ _. split_and!; (lia || done). }
  intros Hf [Hi Hn]%NoDup_cons Hlt. ok_inv.
  match goal with E : checked_add _ cycles _ = _ |- _ =>
    apply checked_add_Some in E as [Hc ->] end.
  match goal with E : checked_add _ gas _ = _ |- _ =>
    apply checked_add_Some in E as [Hg ->] end.
  pose proof (IH _ _ _ Hf Hn) as (-> & -> & Hmax & Hlen & Hlook).
  { intros i Hin. rewrite length_insert. apply Hlt. by right. }
  rewrite length_insert in Hlen. split_and!; [unfold sum; cbn; lia..| |done|].
  - intros _. destruct rest as [|r rest]; [cbn; lia|]. by apply Hmax.
  - intros i. rewrite Hlook. case_decide as Hidx; cbn in Hidx.
    + subst i. destruct (list_find (fun r => r.1 = idx) rest) as [[k [j rp']]|] eqn:Hfind; cbn.
      * apply list_find_Some in Hfind as (Hk & Hj & _). cbn in Hj. subst j.
        destruct Hi. apply list_elem_of_fmap. exists (idx, rp'). split; [done|].
        by eapply list_elem_of_lookup_2.
      * rewrite list_lookup_insert_eq; [done|]. apply Hlt. by left.
    + destruct (list_find _ rest) as [[k [j rp']]|]; cbn; [done|]. by rewrite list_lookup_insert_ne.
Qed.

Lemma require_all_Ok proofs rps : require_all proofs = Ok rps -> proofs = Some <$> rps.
Proof.
  revert rps. induction proofs as [|o proofs IH]; intros rps; cbn; [by intros [= <-]|].
  intros Hr. ok_inv. subst. cbn. f_equal. by apply IH.
Qed.

Lemma mapM_Ok {A B} (f : A -> outcome B) l k :
  mapM f l = Ok k <-> Forall2 (fun x y => f x = Ok y) l k.
Proof.
  revert k. induction l as [|x l IH]; intros k; cbn.
  - split; [intros [= <-]; constructor|by inversion 1].
  - split.
    + intros Hm. ok_inv. subst. constructor; [done|]. by apply IH.
    + inversion 1 as [|? y ? k' Hy Hk]; subst. rewrite Hy. cbn. apply IH in Hk. by rewrite Hk.
Qed.

(** The reference: every range in order, the sums checked once at the end. *)
Definition aggregate_in_order (game_address start_block end_block : Z) : outcome (Z * Z * Z) :=
  l1_head ← l1Head game_address AtLatest;
  ranges ← RangeSplitCount.split (range_split_count config) start_block end_block;
  rps ← mapM (range_task l1_head) ranges;
  _ ← ensure (sum rp_cycles rps <=? u64_max) "Instruction cycles overflow";
  _ ← ensure (sum rp_gas rps <=? u64_max) "SP1 gas overflow";
  latest_l1_head ← with_context "No boot infos generated" (rp_boot_l1_head <$> last rps);
  headers ← get_header_preimages (rp_boot <$> rps) latest_l1_head;
  stdin ← get_agg_proof_stdin (rp_proof <$> rps) (rp_boot <$> rps) headers latest_l1_head
            signer_address;
  agg ← generate_agg_proof stdin;
  Ok (agg, sum rp_cycles rps, sum rp_gas rps).

(** The concurrent collection, as one computation. *)
Definition collect (l1_head : Z) (ranges : list (Z * Z)) : outcome (list RangeProof * Z * Z) :=
  results ← try_collect l1_head ranges (schedule (length ranges));
  '(proofs, cycles, gas) ← file_results results (replicate (length ranges) None) 0 0;
  rps ← require_all proofs;
  Ok (rps, cycles, gas).

Lemma schedule_lt n i : i ∈ schedule n <-> (i < n)%nat.
Proof. rewrite (schedule_perm n), elem_of_seq. lia. Qed.

Lemma schedule_nodup n : NoDup (schedule n).
Proof. rewrite (schedule_perm n). apply NoDup_seq. Qed.

Lemma find_by_index (results : list (nat * RangeProof)) i rp :
  NoDup results.*1 ->
  (exists k j, list_find (fun r => r.1 = i) results = Some (k, (j, rp))) <-> (i, rp) ∈ results.
Proof.
  intros Hn. split.
  - intros (k & j & Hf). apply list_find_Some in Hf as (Hk & Hj & _). cbn in Hj. subst j.
    by eapply list_elem_of_lookup_2.
  - intros Hin. destruct (list_find (fun r => r.1 = i) results) as [[k [j rp']]|] eqn:Hf.
    + exists k, j. apply list_find_Some in Hf as (Hk & Hj & _). cbn in Hj. subst j.
      apply list_elem_of_lookup in Hin as [k' Hk'].
      assert (k = k').
      { eapply (NoDup_lookup _ _ _ i Hn); rewrite list_lookup_fmap; [by rewrite Hk|by rewrite Hk']. }
      subst. rewrite Hk in Hk'. by injection Hk' as ->.
    + apply list_find_None in Hf. rewrite Forall_forall in Hf. by destruct (Hf _ Hin).
Qed.

Lemma indexed_perm {A} (results : list (nat * A)) (l : list A) :
  NoDup results.*1 -> (forall i x, l !! i = Some x <-> (i, x) ∈ results) -> results.*2 ≡ₚ l.
Proof.
  intros Hn Hl.
  assert (Hz : results ≡ₚ zip (seq 0 (length l)) l).
  { apply NoDup_Permutation; [by eapply NoDup_fmap_1| |].
    - apply (NoDup_fmap_1 fst). rewrite fst_zip by (by rewrite length_seq). apply NoDup_seq.
    - intros [i x]. rewrite <- Hl, list_elem_of_lookup. setoid_rewrite lookup_zip_with_Some. split.
      + intros Hi. exists i, i, x. split_and!; [done| |done]. apply lookup_seq.
        apply lookup_lt_Some in Hi. lia.
      + intros (k & i' & x' & [= <- <-] & Hs & Hx). apply lookup_seq in Hs as [-> _]. done. }
  rewrite Hz, snd_zip; [done|]. by rewrite length_seq.
Qed.

Lemma collect_Ok l1_head ranges rps cycles gas :
  collect l1_head ranges = Ok (rps, cycles, gas) ->
  Forall2 (fun r rp => range_task l1_head r = Ok rp) ranges rps /\
  cycles = sum rp_cycles rps /\ gas = sum rp_gas rps /\
  (ranges <> [] -> cycles <= u64_max /\ gas <= u64_max).
Proof.
  unfold collect. intros Hc. ok_inv.
  rename x into results. destruct x0 as [[proofs c] g]. ok_inv. subst.
  match goal with E : try_collect _ _ _ = _ |- _ => apply try_collect_Ok in E as [Hidx Hres] end.
  match goal with E : require_all _ = _ |- _ => apply require_all_Ok in E as -> end.
  assert (Hn : NoDup results.*1) by (rewrite Hidx; apply schedule_nodup).
  match goal with E : file_results _ _ _ _ = _ |- _ =>
    apply file_results_Ok in E as (-> & -> & Hmax & Hlen & Hlook) end; [|done|].
  2: { intros i. rewrite Hidx, length_replicate. apply schedule_lt. }
  rewrite length_fmap, length_replicate in Hlen.
  assert (Hrps : forall i rp, rps !! i = Some rp <-> (i, rp) ∈ results).
  { intros i rp. rewrite <- find_by_index by done. specialize (Hlook i).
    rewrite list_lookup_fmap in Hlook. split.
    - intros Hi. rewrite Hi in Hlook. cbn in Hlook.
      destruct (list_find _ results) as [[k [j rp']]|]; [injection Hlook as ->; eauto|].
      symmetry in Hlook. apply lookup_replicate in Hlook as [? _]. done.
    - intros (k & j & Hf). rewrite Hf in Hlook.
      destruct (rps !! i); cbn in Hlook; by simplify_eq. }
  pose proof (indexed_perm results rps Hn Hrps) as Hperm.
  rewrite !(sum_perm _ _ _ Hperm). split_and!; [|lia|lia|].
  - apply Forall2_same_length_lookup. split; [done|]. intros i r rp Hr Hrp.
    apply Hrps, Hres in Hrp as (r' & Hr' & Ht). by simplify_eq.
  - intros Hne. rewrite !(sum_perm _ _ _ Hperm) in Hmax. apply Hmax.
    intros ->. apply Hne, length_zero_iff_nil. by rewrite <- Hlen, <- (Permutation_length Hperm).
Qed.

(** Cycle and gas counts are [u64]s. *)
Definition costs_ok (r : RangeProof) : Prop := 0 <= rp_cycles r /\ 0 <= rp_gas r.

Lemma sums_nonneg l : Forall costs_ok l -> 0 <= sum rp_cycles l /\ 0 <= sum rp_gas l.
Proof. unfold costs_ok, sum. induction 1 as [|r l Hr Hl IH]; cbn; lia. Qed.

Lemma try_collect_total l1_head ranges order rps :
  Forall2 (fun r rp => range_task l1_head r = Ok rp) ranges rps ->
  (forall i, i ∈ order -> (i < length ranges)%nat) ->
  exists results, try_collect l1_head ranges order = Ok results /\ results.*1 = order /\
    forall i rp, (i, rp) ∈ results -> rps !! i = Some rp.
Proof.
  intros Hall. induction order as [|i order IH]; intros Hlt; cbn.
  { exists []. split_and!; [done..|]. by intros ? ? ?%not_elem_of_nil. }
  destruct (lookup_lt_is_Some_2 ranges i) as [r Hr]; [apply Hlt; by left|].
  destruct (Forall2_lookup_l _ _ _ _ _ Hall Hr) as (rp & Hrp & Ht).
  destruct IH as (results & Hres & Hidx & Hin); [intros; apply Hlt; by right|].
  exists ((i, rp) :: results). rewrite Hr, Ht. cbn. rewrite Hres. cbn.
  split_and!; [done|by rewrite Hidx|]. intros j rp' [[= -> ->]|Hj]%elem_of_cons; auto.
Qed.

Lemma file_results_total results proofs cycles gas :
  Forall costs_ok results.*2 ->
  cycles + sum rp_cycles results.*2 <= u64_max -> gas + sum rp_gas results.*2 <= u64_max ->
  exists out, file_results results proofs cycles gas = Ok out.
Proof.
  revert proofs cycles gas. induction results as [|[i rp] rest IH];
    intros proofs cycles gas; cbn [file_results]; [by eexists|].
  cbn. intros [Hr Hrest]%Forall_cons. pose proof (sums_nonneg _ Hrest) as [Hc Hg].
  unfold sum in *; cbn. intros H1 H2. unfold costs_ok in Hr.
  rewrite (proj2 (checked_add_Some u64_max cycles (rp_cycles rp) (cycles + rp_cycles rp)))
    by lia.
  rewrite (proj2 (checked_add_Some u64_max gas (rp_gas rp) (gas + rp_gas rp))) by lia.
  cbn. apply IH; [done|lia|lia].
Qed.

Lemma require_all_total proofs :
  (forall i o, proofs !! i = Some o -> is_Some o) -> exists rps, require_all proofs = Ok rps.
Proof.
  induction proofs as [|o proofs IH]; intros Hall; cbn; [by eexists|].
  destruct (Hall 0%nat o eq_refl) as [rp ->]. cbn.
  destruct IH as [rps ->]; [intros i; apply (Hall (S i))|]. by eexists.
Qed.

Lemma collect_total l1_head ranges rps :
  Forall2 (fun r rp => range_task l1_head r = Ok rp) ranges rps -> Forall costs_ok rps ->
  sum rp_cycles rps <= u64_max -> sum rp_gas rps <= u64_max ->
  collect l1_head ranges = Ok (rps, sum rp_cycles rps, sum rp_gas rps).
Proof.
  intros Hall Hok Hc Hg.
  destruct (try_collect_total l1_head ranges (schedule (length ranges)) rps Hall)
    as (results & Hres & Hidx & Hin); [intros i; apply schedule_lt|].
  assert (Hn : NoDup results.*1) by (rewrite Hidx; apply schedule_nodup).
  assert (Hlen : length rps = length ranges) by (by apply Forall2_length in Hall).
  assert (Hiff : forall i rp, rps !! i = Some rp <-> (i, rp) ∈ results).
  { intros i rp. split; [|apply Hin]. intros Hi.
    assert (Hi' : i ∈ results.*1).
    { rewrite Hidx. apply schedule_lt. rewrite <- Hlen. by eapply lookup_lt_Some. }
    apply list_elem_of_fmap in Hi' as ([i' rp'] & -> & Hr). cbn in *.
    pose proof (Hin _ _ Hr). by simplify_eq. }
  pose proof (indexed_perm results rps Hn Hiff) as Hperm.
  destruct (file_results_total results (replicate (length ranges) None) 0 0)
    as [[[proofs c] g] Hf];
    [by rewrite Hperm|rewrite (sum_perm _ _ _ Hperm); lia|rewrite (sum_perm _ _ _ Hperm); lia|].
  assert (Hreq : exists rps', require_all proofs = Ok rps').
  { apply file_results_Ok in Hf as (_ & _ & _ & Hlp & Hlook); [|done|].
    2: { intros i. rewrite Hidx, length_replicate. apply schedule_lt. }
    rewrite length_replicate in Hlp. apply require_all_total. intros i o Ho. rewrite Hlook in Ho.
    destruct (list_find (fun r => r.1 = i) results) as [[k [j rp]]|] eqn:Hfind;
      [injection Ho as <-; by eexists|].
    apply lookup_replicate in Ho as [_ Hi].
    destruct (lookup_lt_is_Some_2 rps i) as [rp Hrp]; [lia|].
    apply Hiff, (find_by_index _ _ _ Hn) in Hrp as (k & j & Hk). congruence. }
  destruct Hreq as [rps' Hreq].
  assert (Hcol : collect l1_head ranges = Ok (rps', c, g)).
  { unfold collect. rewrite Hres. cbn. rewrite Hf. cbn. by rewrite Hreq. }
  rewrite Hcol. apply collect_Ok in Hcol as (Hall' & -> & -> & _).
  assert (rps' = rps) as ->; [|done]. clear -Hall Hall'.
  revert rps Hall. induction Hall' as [|r rp' l l' Hr _ IH]; inversion 1; subst; [done|].
  f_equal; [congruence|auto].
Qed.

Lemma aggregate_collect game_address start_block end_block :
  aggregate game_address start_block end_block =
  (l1_head ← l1Head game_address AtLatest;
   ranges ← RangeSplitCount.split (range_split_count config) start_block end_block;
   '(rps, cycles, gas) ← collect l1_head ranges;
   latest_l1_head ← with_context "No boot infos generated" (rp_boot_l1_head <$> last rps);
   headers ← get_header_preimages (rp_boot <$> rps) latest_l1_head;
   stdin ← get_agg_proof_stdin (rp_proof <$> rps) (rp_boot <$> rps) headers latest_l1_head
             signer_address;
   agg ← generate_agg_proof stdin;
   Ok (agg, cycles, gas)).
Proof.
  unfold aggregate, collect. destruct (l1Head _ _) as [h|e|]; [cbn|done..].
  destruct (RangeSplitCount.split _ _ _) as [ranges|e|]; [cbn|done..].
  destruct (try_collect _ _ _) as [results|e|]; [cbn|done..].
  destruct (file_results _ _ _ _) as [[[proofs c] g]|e|]; [cbn|done..].
  by destruct (require_all proofs).
Qed.

Lemma costs_of_range_tasks l1_head ranges rps :
  (forall stdin rp, generate_range_proof stdin = Ok rp -> costs_ok rp) ->
  Forall2 (fun r rp => range_task l1_head r = Ok rp) ranges rps -> Forall costs_ok rps.
Proof.
  intros Hc. induction 1 as [|r rp l k Hr _ IH]; constructor; [|done].
  unfold range_task in Hr. ok_inv. by eapply Hc.
Qed.

(** C35: the concurrent proving of a game is the sequential one: in whatever
    order the range proofs complete, the aggregation gets every range's proof
    and boot info in block order, with the last range's L1 head, and the
    costs reported are the sums. It succeeds exactly when the reference does,
    and with the same result. *)
Theorem aggregate_order_independent game_address start_block end_block out :
  (forall stdin rp, generate_range_proof stdin = Ok rp -> costs_ok rp) ->
  aggregate game_address start_block end_block = Ok out <->
  aggregate_in_order game_address start_block end_block = Ok out.
Proof.
  intros Hcost. rewrite aggregate_collect. unfold aggregate_in_order.
  destruct (l1Head _ _) as [h|e|]; [cbn|done..].
  destruct (RangeSplitCount.split _ _ _) as [ranges|e|] eqn:Hs; [cbn|done..].
  split.
  - intros Ha. apply outcome_bind_Ok in Ha as ([[rps c] g] & Hc & Ha).
    apply collect_Ok in Hc as (Hall & -> & -> & Hmax).
    assert (H12 : sum rp_cycles rps <= u64_max /\ sum rp_gas rps <= u64_max).
    { destruct ranges; [inversion Hall; by split|by apply Hmax]. }
    destruct H12 as [H1 H2].
    rewrite (proj2 (mapM_Ok _ _ _) Hall). cbn.
    rewrite (proj2 (Z.leb_le _ _) H1), (proj2 (Z.leb_le _ _) H2). done.
  - intros Ha. apply outcome_bind_Ok in Ha as (rps & Hall & Ha).
    apply mapM_Ok in Hall. ok_inv.
    repeat match goal with E : (_ <=? _) = true |- _ => apply Z.leb_le in E end.
    rewrite (collect_total h ranges rps Hall); [|by eapply costs_of_range_tasks|done..].
    cbn. match goal with E : rp_boot_l1_head <$> _ = Some _ |- _ => rewrite E end. cbn.
    repeat match goal with E : _ = Ok _ |- _ => rewrite E; clear E; cbn end. by subst.
Qed.
End prove.

(** Three ranges whose proofs complete last first. *)
#[local] Program Instance last_first : Schedule := {| schedule n := reverse (seq 0 n) |}.
Next Obligation. intros n. apply reverse_Permutation. Qed.

#[local] Instance sample_prover : Prover :=
  {| range_proof_stdin s e h := Ok (1000 * s + e);
     generate_range_proof stdin := Ok {| rp_proof := stdin; rp_boot_l1_head := stdin mod 7;
       rp_boot := stdin + 1; rp_cycles := 5; rp_gas := 6 |};
     get_header_preimages boots h := Ok (foldr Z.add h boots);
     get_agg_proof_stdin proofs boots headers h a := Ok (foldl (fun x y => 31 * x + y) (headers + h + a) proofs);
     generate_agg_proof stdin := Ok (stdin + 1) |}.

Definition split3_config : ProposerConfig :=
  {| anchor_state_registry_address := 500; mock_mode := false; fast_finality_mode := false;
     proposal_interval_in_blocks := 10; cfg_game_type := 42;
     max_concurrent_defense_tasks := 1; fast_finality_proving_limit := 1;
     range_split_count := RangeSplitCount.mk 3; max_concurrent_range_proofs := 2;
     backup_path := true; sync_l1_confirmations := 0 |}.

#[local] Instance L1p : L1Rpc := sample_l1 20 15 800 sample_games.
#[local] Instance Wp : Wallet := sample_wallet.

Lemma aggregate_order_independent_witness :
  (forall stdin rp, generate_range_proof stdin = Ok rp -> costs_ok rp) /\
  exists agg, aggregate_in_order split3_config 800 10 19 = Ok (agg, 15, 18) /\
    aggregate split3_config 800 10 19 = Ok (agg, 15, 18).
Proof.
  assert (Hc : forall stdin rp, generate_range_proof stdin = Ok rp -> costs_ok rp)
    by (intros stdin rp [= <-]; unfold costs_ok; cbn; lia).
  split; [exact Hc|]. eexists. split; [vm_compute; reflexivity|].
  apply (aggregate_order_independent split3_config 800 10 19); [exact Hc|].
  vm_compute. reflexivity.
Defined.
