(* ===== verification/Validator.v ===== *)
(** * Validating the claim of a game

    [fault-proof/src/game_validator.rs], the interface the challenger is
    written against, and [fault-proof/src/op_stack_game_validator.rs], its
    implementation by an op-node and the execution node paired with it. *)

From S2P Require Import Prelude FaultTypes.

(** ** [game_validator.rs] *)

Record GameValidationRequest := {
  gv_game_index : Z; gv_game_address : Z; gv_l1_head : Z; gv_l2_block_number : Z;
  gv_output_root : Z; gv_deadline : Z; gv_now_timestamp : Z;
}.

Inductive InvalidReason := L2BlockNumberOverflow | ClaimAheadOfLocalSafeHead | OutputRootMismatch.

Inductive UnavailableReason :=
| ValidationPending | OpNodeBehind | ExecutionNodeBehind | ExecutionHistoryMissing
| ExecutionStateUnavailable | SafeDBDisabled | SafeDBHistoryMissing | L1CanonicalHashMismatch
| OpNodeExecutionMismatch | RpcFailure (message : string).

Inductive GameValidation :=
| Valid
| Invalid (reason : InvalidReason)
| Unavailable (reason : UnavailableReason).
#[global] Instance InvalidReason_eq_dec : EqDecision InvalidReason.
Proof. solve_decision. Defined.
#[global] Instance UnavailableReason_eq_dec : EqDecision UnavailableReason.
Proof. solve_decision. Defined.
#[global] Instance GameValidation_eq_dec : EqDecision GameValidation.
Proof. solve_decision. Defined.

Definition is_invalid (v : GameValidation) : bool :=
  match v with Invalid _ => true | _ => false end.
Definition is_unavailable (v : GameValidation) : bool :=
  match v with Unavailable _ => true | _ => false end.

Definition classify_computed_output_root (expected computed : Z) : GameValidation :=
  if computed =? expected then Valid else Invalid OutputRootMismatch.

Definition initial_game_validation (l2_block_number : Z) : GameValidation :=
  if is_Ok (checked_l2_block_number l2_block_number) then Unavailable ValidationPending
  else Invalid L2BlockNumberOverflow.

(** The trait. [validate] returns a verdict, never an error. *)
Class GameValidator := {
  validate_startup : outcome unit;
  validate : GameValidationRequest -> outcome GameValidation;
}.

(** What a validator promises the challenger: a verdict against a claim is
    backed by [refutes], and a block number that does not fit is refuted. *)
Class GameValidatorLaws (V : GameValidator) (refutes : GameValidationRequest -> InvalidReason -> Prop) := {
  validate_invalid : forall r reason, validate r = Ok (Invalid reason) -> refutes r reason;
  overflow_refuted : forall r, u64_max < gv_l2_block_number r -> refutes r L2BlockNumberOverflow;
}.

(** ** The op-node *)

Record BlockRef := { br_number : Z; br_hash : Z }.
Record SyncStatus := { head_l1 : BlockRef; current_l1 : BlockRef }.
Record SafeHeadResponse := { sh_l1_block : BlockRef; safe_head : BlockRef }.

(** RPC of the op-node, and the L1 headers and chain ids of the two providers.
    [n] numbers the sync-status queries of one validation. *)
Class NodeRpc := {
  rollup_chain_ids : outcome (Z * Z);
  op_node_sync_status : nat -> outcome SyncStatus;
  safe_head_at_l1 : Z -> outcome SafeHeadResponse;
  l1_chain_id : outcome Z;
  l2_chain_id : outcome Z;
  l1_header_by_number : Z -> outcome (option Header);
  l1_header_by_hash : Z -> outcome (option Header);
}.

(** [Result<A, UnavailableReason>]. *)
Definition res (A : Type) : Type := outcome (A + UnavailableReason).
#[global] Instance res_ret : MRet res := fun A a => Ok (inl a).
#[global] Instance res_bind : MBind res := fun A B f m =>
  match m with
  | Ok (inl a) => f a
  | Ok (inr r) => Ok (inr r)
  | Err e => Err e
  | Panic => Panic
  end.

Definition unavailable {A} (r : UnavailableReason) : res A := Ok (inr r).
(** [.map_err(f)?] *)
Definition or_else {A} (f : string -> UnavailableReason) (o : outcome A) : res A :=
  match o with Ok a => Ok (inl a) | Err e => Ok (inr (f e)) | Panic => Panic end.
(** [.map_err(rpc_unavailable)?] *)
Definition rpc {A} (o : outcome A) : res A := or_else RpcFailure o.
(** [.ok_or(r)?] *)
Definition ok_or {A} (r : UnavailableReason) (o : option A) : res A :=
  match o with Some a => Ok (inl a) | None => Ok (inr r) end.
Definition require (b : bool) (r : UnavailableReason) : res unit :=
  if b then Ok (inl tt) else Ok (inr r).

Lemma res_bind_Ok {A B} (m : res A) (f : A -> res B) b :
  m ≫= f = Ok (inl b) <-> exists a, m = Ok (inl a) /\ f a = Ok (inl b).
Proof. destruct m as [[a|r]|e|]; cbn; split; intros; destruct_hyps; simplify_eq; eauto. Qed.

Lemma rpc_Ok {A} f (o : outcome A) a : or_else f o = Ok (inl a) <-> o = Ok a.
Proof. destruct o; cbn; split; intros; by simplify_eq. Qed.

Lemma ok_or_Ok {A} r (o : option A) a : ok_or r o = Ok (inl a) <-> o = Some a.
Proof. destruct o; cbn; split; intros; by simplify_eq. Qed.

Lemma require_Ok b r u : require b r = Ok (inl u) <-> b = true.
Proof. destruct b, u; cbn; split; intros; by simplify_eq. Qed.

(** The successful steps of a [res] computation. *)
Ltac res_inv :=
  repeat match goal with
  | E : mbind _ _ = Ok (inl _) |- _ => apply res_bind_Ok in E; destruct E as (? & ? & E)
  | E : rpc _ = Ok (inl _) |- _ => apply rpc_Ok in E
  | E : or_else _ _ = Ok (inl _) |- _ => apply rpc_Ok in E
  | E : ok_or _ _ = Ok (inl _) |- _ => apply ok_or_Ok in E
  | E : require _ _ = Ok (inl _) |- _ => apply require_Ok in E
  | E : mret _ = Ok (inl _) |- _ => injection E as E
  | x : unit |- _ => destruct x
  end.

(** ** Text of error messages *)

Definition ascii_lower (c : Ascii.ascii) : Ascii.ascii :=
  let n := Ascii.nat_of_ascii c in
  if (Nat.leb 65 n && Nat.leb n 90)%bool then Ascii.ascii_of_nat (n + 32) else c.
Fixpoint to_ascii_lowercase (s : string) : string :=
  match s with
  | EmptyString => EmptyString
  | String c s => String (ascii_lower c) (to_ascii_lowercase s)
  end.
Definition classify_safe_db_error (message : string) : UnavailableReason :=
  let lowercase := to_ascii_lowercase message in
  if str_contains lowercase "method not found" || str_contains lowercase "does not exist" ||
     str_contains lowercase "safe head database not enabled" ||
     (str_contains lowercase "safedb" && str_contains lowercase "not enabled")
  then SafeDBDisabled
  else if str_contains lowercase "not found" then SafeDBHistoryMissing
  else RpcFailure message.

Definition is_state_unavailable_error (error : string) : bool :=
  let message := to_ascii_lowercase error in
  str_contains message "missing trie node" || str_contains message "state is not available" ||
  str_contains message "historical state".

(** ** [op_stack_game_validator.rs] *)

Section op_stack.
Context `{N : NodeRpc, L2 : L2Rpc}.

Definition safe_db_record_is_at_or_before (record_l1_number requested_l1_number : Z) : bool :=
  record_l1_number <=? requested_l1_number.
Definition op_node_watermarks_are_usable (first second game_l1_number : Z) : bool :=
  (game_l1_number <? first) && (first <=? second).
Definition classify_claim_height (claim_l2_number safe_l2_number : Z) : option GameValidation :=
  if safe_l2_number <? claim_l2_number then Some (Invalid ClaimAheadOfLocalSafeHead) else None.

Definition validate_rollup_chain_ids (rollup_l1 rollup_l2 l1_rpc l2_rpc : Z) : outcome unit :=
  _ ← ensure (rollup_l1 =? l1_rpc) "op-node rollup L1 chain ID does not match L1_RPC";
  ensure (rollup_l2 =? l2_rpc) "op-node rollup L2 chain ID does not match L2_RPC".

Definition validate_canonical_l1_block (number expected_hash : Z) : res unit :=
  o ← rpc (l1_header_by_number number);
  header ← ok_or L1CanonicalHashMismatch o;
  require (h_hash header =? expected_hash) L1CanonicalHashMismatch.

Definition validate_safe_head_response (requested_l1 : Z) (response : SafeHeadResponse)
    : res unit :=
  _ ← require (safe_db_record_is_at_or_before (br_number (sh_l1_block response)) requested_l1)
        L1CanonicalHashMismatch;
  _ ← validate_canonical_l1_block (br_number (sh_l1_block response))
        (br_hash (sh_l1_block response));
  o ← rpc (l2_header_by_number (Number (br_number (safe_head response))));
  l2_header ← ok_or OpNodeExecutionMismatch o;
  require (l2_hash l2_header =? br_hash (safe_head response)) OpNodeExecutionMismatch.

Definition validate_node_pairing : outcome unit :=
  '(rollup_l1, rollup_l2) ← rollup_chain_ids;
  l1 ← l1_chain_id;
  l2 ← l2_chain_id;
  _ ← validate_rollup_chain_ids rollup_l1 rollup_l2 l1 l2;
  sync_status ← op_node_sync_status 0;
  processed_l1 ← with_context "op-node has not processed an L1 block yet"
                   (checked_sub (br_number (current_l1 sync_status)) 1);
  response ← safe_head_at_l1 processed_l1;
  match validate_safe_head_response processed_l1 response with
  | Ok (inl _) => Ok tt
  | Ok (inr _) => Err "Invalid SafeDB startup response"
  | Err e => Err e
  | Panic => Panic
  end.

Definition historical_local_safe_head (request : GameValidationRequest) : res Z :=
  o ← rpc (l1_header_by_hash (gv_l1_head request));
  game_l1_header ← ok_or L1CanonicalHashMismatch o;
  let game_l1_number := h_number game_l1_header in
  _ ← validate_canonical_l1_block game_l1_number (gv_l1_head request);
  first_status ← rpc (op_node_sync_status 0);
  _ ← validate_canonical_l1_block (br_number (current_l1 first_status))
        (br_hash (current_l1 first_status));
  _ ← require (game_l1_number <? br_number (current_l1 first_status)) OpNodeBehind;
  response ← or_else classify_safe_db_error (safe_head_at_l1 game_l1_number);
  _ ← validate_safe_head_response game_l1_number response;
  second_status ← rpc (op_node_sync_status 1);
  _ ← validate_canonical_l1_block (br_number (current_l1 second_status))
        (br_hash (current_l1 second_status));
  _ ← require (op_node_watermarks_are_usable (br_number (current_l1 first_status))
                 (br_number (current_l1 second_status)) game_l1_number) OpNodeBehind;
  mret (br_number (safe_head response)).

Definition classify_execution_unavailability (claim_l2_number : Z) (root_error : string)
    : outcome UnavailableReason :=
  match l2_header_by_number Latest with
  | Panic => Panic
  | Err e => Ok (RpcFailure e)
  | Ok None => Ok ExecutionNodeBehind
  | Ok (Some latest) =>
      if l2_number latest <? claim_l2_number then Ok ExecutionNodeBehind
      else
        match l2_header_by_number (Number claim_l2_number) with
        | Panic => Panic
        | Ok None => Ok ExecutionHistoryMissing
        | Err e => Ok (RpcFailure e)
        | Ok (Some _) =>
            if is_state_unavailable_error root_error then Ok ExecutionStateUnavailable
            else Ok (RpcFailure root_error)
        end
  end.

Definition op_stack_validate (request : GameValidationRequest) : outcome GameValidation :=
  match checked_l2_block_number (gv_l2_block_number request) with
  | Ok claim_l2_number =>
      match historical_local_safe_head request with
      | Ok (inl safe_l2_number) =>
          match classify_claim_height claim_l2_number safe_l2_number with
          | Some validation => Ok validation
          | None =>
              match compute_output_root_at_block (gv_l2_block_number request) with
              | Ok computed => Ok (classify_computed_output_root (gv_output_root request) computed)
              | Err error =>
                  reason ← classify_execution_unavailability claim_l2_number error;
                  Ok (Unavailable reason)
              | Panic => Panic
              end
          end
      | Ok (inr reason) => Ok (Unavailable reason)
      | Err e => Err e
      | Panic => Panic
      end
  | _ => Ok (Invalid L2BlockNumberOverflow)
  end.

#[global] Instance OPStackGameValidator : GameValidator :=
  {| validate_startup := validate_node_pairing; validate := op_stack_validate |}.

(** ** What its verdicts rest on *)

(** [safe] is the local safe head the op-node had derived at the game's L1
    head: that head is canonical, the op-node was already past it, on the
    canonical chain, before and after SafeDB was asked, the SafeDB record is a
    canonical block no later than it, and the execution node has the same
    safe block. *)
Definition safe_at_l1_head (request : GameValidationRequest) (safe : Z) : Prop :=
  exists l1 first second response l2,
    l1_header_by_hash (gv_l1_head request) = Ok (Some l1) /\
    (exists h, l1_header_by_number (h_number l1) = Ok (Some h) /\ h_hash h = gv_l1_head request) /\
    op_node_sync_status 0 = Ok first /\ op_node_sync_status 1 = Ok second /\
    h_number l1 < br_number (current_l1 first) <= br_number (current_l1 second) /\
    (exists h, l1_header_by_number (br_number (current_l1 second)) = Ok (Some h) /\
       h_hash h = br_hash (current_l1 second)) /\
    safe_head_at_l1 (h_number l1) = Ok response /\
    br_number (sh_l1_block response) <= h_number l1 /\
    (exists h, l1_header_by_number (br_number (sh_l1_block response)) = Ok (Some h) /\
       h_hash h = br_hash (sh_l1_block response)) /\
    l2_header_by_number (Number safe) = Ok (Some l2) /\ l2_hash l2 = br_hash (safe_head response) /\
    safe = br_number (safe_head response).

Definition op_stack_refutes (request : GameValidationRequest) (reason : InvalidReason) : Prop :=
  match reason with
  | L2BlockNumberOverflow => u64_max < gv_l2_block_number request
  | ClaimAheadOfLocalSafeHead =>
      exists safe, safe_at_l1_head request safe /\ safe < gv_l2_block_number request
  | OutputRootMismatch =>
      exists safe computed, safe_at_l1_head request safe /\ gv_l2_block_number request <= safe /\
        compute_output_root_at_block (gv_l2_block_number request) = Ok computed /\
        computed <> gv_output_root request
  end.

Lemma canonical_Ok number hash u :
  validate_canonical_l1_block number hash = Ok (inl u) ->
  exists h, l1_header_by_number number = Ok (Some h) /\ h_hash h = hash.
Proof.
  unfold validate_canonical_l1_block. intros Hv. res_inv. subst.
  match goal with E : (_ =? _) = true |- _ => apply Z.eqb_eq in E end. eauto.
Qed.

Lemma historical_safe_head_Ok request safe :
  historical_local_safe_head request = Ok (inl safe) -> safe_at_l1_head request safe.
Proof.
  unfold historical_local_safe_head, validate_safe_head_response. cbv zeta. intros Hv.
  res_inv. subst.
  repeat match goal with E : validate_canonical_l1_block _ _ = _ |- _ => apply canonical_Ok in E end.
  unfold safe_db_record_is_at_or_before, op_node_watermarks_are_usable in *.
  repeat match goal with
  | E : (_ =? _) = true |- _ => apply Z.eqb_eq in E
  | E : (_ <? _) = true |- _ => apply Z.ltb_lt in E
  | E : (_ <=? _) = true |- _ => apply Z.leb_le in E
  | E : _ && _ = true |- _ => apply andb_true_iff in E as [? ?]
  end.
  eexists _, _, _, _, _. split_and!; (eassumption || done).
Qed.

Lemma op_stack_invalid request reason :
  op_stack_validate request = Ok (Invalid reason) -> op_stack_refutes request reason.
Proof.
  unfold op_stack_validate, checked_l2_block_number.
  destruct (Z.ltb_spec u64_max (gv_l2_block_number request)); [by intros [= <-]|].
  destruct (historical_local_safe_head request) as [[safe|r]|e|] eqn:Hs; try done.
  apply historical_safe_head_Ok in Hs. unfold classify_claim_height.
  destruct (Z.ltb_spec safe (gv_l2_block_number request)) as [Hlt|Hle].
  { intros [= <-]. by exists safe. }
  destruct (compute_output_root_at_block _) as [computed|e|] eqn:Hc; try done.
  - unfold classify_computed_output_root.
    destruct (Z.eqb_spec computed (gv_output_root request)); [done|].
    intros [= <-]. by exists safe, computed.
  - intros Hr. by ok_inv.
Qed.

(** C37: a verdict of the op-node validator is one of fact. It calls a claim
    valid or invalid (other than for a block number beyond [u64]) only from
    the safe head at the game's own L1 head, read between two sightings of
    the op-node past that block and cross-checked with the execution node:
    valid when the claim is not above it and its root is the computed one,
    invalid when it is above it or the root differs. Every failure on the way
    (RPC, SafeDB, reorg, lag) is reported as unavailable, never as a verdict. *)
Theorem op_stack_verdict request v :
  op_stack_validate request = Ok v ->
  match v with
  | Valid => exists safe, safe_at_l1_head request safe /\
      gv_l2_block_number request <= safe /\ gv_l2_block_number request <= u64_max /\
      compute_output_root_at_block (gv_l2_block_number request) = Ok (gv_output_root request)
  | Invalid reason => op_stack_refutes request reason
  | Unavailable _ => gv_l2_block_number request <= u64_max
  end.
Proof.
  destruct v as [|reason|reason]; intros Hv; [|by apply op_stack_invalid|].
  - unfold op_stack_validate, checked_l2_block_number in Hv.
    destruct (Z.ltb_spec u64_max (gv_l2_block_number request)); [done|].
    destruct (historical_local_safe_head request) as [[safe|r]|e|] eqn:Hs; try done.
    apply historical_safe_head_Ok in Hs. unfold classify_claim_height in Hv.
    destruct (Z.ltb_spec safe (gv_l2_block_number request)); [done|].
    destruct (compute_output_root_at_block _) as [computed|e|] eqn:Hc; [|by ok_inv|done].
    unfold classify_computed_output_root in Hv.
    destruct (Z.eqb_spec computed (gv_output_root request)) as [->|]; [|done].
    exists safe. split_and!; (done || lia).
  - unfold op_stack_validate, checked_l2_block_number in Hv.
    destruct (Z.ltb_spec u64_max (gv_l2_block_number request)); [done|lia].
Qed.

#[global] Instance op_stack_laws : GameValidatorLaws OPStackGameValidator op_stack_refutes :=
  {| validate_invalid := op_stack_invalid; overflow_refuted r H := H |}.
End op_stack.

(** An op-node at L1 block 20 whose safe head at L1 block [n] is L2 block [2n]. *)
Definition sample_node : NodeRpc := {|
  rollup_chain_ids := Ok (1, 10);
  op_node_sync_status _ :=
    Ok {| head_l1 := {| br_number := 21; br_hash := 1021 |};
          current_l1 := {| br_number := 20; br_hash := 1020 |} |};
  safe_head_at_l1 n := Ok {| sh_l1_block := {| br_number := n - 1; br_hash := 999 + n |};
                             safe_head := {| br_number := 2 * n; br_hash := 20 * n |} |};
  l1_chain_id := Ok 1;
  l2_chain_id := Ok 10;
  l1_header_by_number n := Ok (if n <=? 21 then Some (sample_header n) else None);
  l1_header_by_hash h := Ok (if h <=? 1021 then Some (sample_header (h - 1000)) else None);
|}.

Definition sample_request (block root : Z) : GameValidationRequest :=
  {| gv_game_index := 1; gv_game_address := 801; gv_l1_head := 1015; gv_l2_block_number := block;
     gv_output_root := root; gv_deadline := 100; gv_now_timestamp := 50 |}.

(** At L1 head 15 the safe head is 30: a claim on block 31 is ahead of it, one
    on block 20 with a wrong root mismatches. *)
Lemma op_stack_verdict_witness :
  op_stack_validate (N := sample_node) (L2 := sample_l2) (sample_request 31 5) =
    Ok (Invalid ClaimAheadOfLocalSafeHead) /\
  op_stack_refutes (N := sample_node) (L2 := sample_l2) (sample_request 31 5)
    ClaimAheadOfLocalSafeHead /\
  op_stack_refutes (N := sample_node) (L2 := sample_l2) (sample_request 20 5) OutputRootMismatch.
Proof.
  split; [vm_compute; reflexivity|]. split.
  - apply (@op_stack_verdict sample_node sample_l2 _ (Invalid ClaimAheadOfLocalSafeHead)).
    vm_compute. reflexivity.
  - apply (@op_stack_verdict sample_node sample_l2 _ (Invalid OutputRootMismatch)).
    vm_compute. reflexivity.
Defined.
