(* ===== verification/Challenger.v ===== *)
(** * The challenger

    [fault-proof/src/challenger.rs], against the [GameValidator] interface. *)

From S2P Require Import Prelude FaultTypes Validator.

Record ChallengerConfig := {
  c_anchor_state_registry_address : Z;
  c_game_type : Z;
  disable_monitor_only : bool;
  c_sync_l1_confirmations : Z;
}.

Record Game := {
  index : Z; address : Z; parent_index : Z; l2_block_number : Z; output_root : Z; l1_head : Z;
  deadline : Z; validation : GameValidation; status : GameStatus;
  proposal_status : ProposalStatus;
  should_attempt_to_challenge : bool; should_attempt_to_resolve : bool;
  should_attempt_to_close_game : bool; should_attempt_to_claim_bond : bool;
}.

(** [game] with new chain data, validation and action flags. *)
Definition refresh (g : Game) (st : GameStatus) (pst : ProposalStatus) (dl : Z)
    (v : GameValidation) (challenge resolve close claim : bool) : Game :=
  {| index := index g; address := address g; parent_index := parent_index g;
     l2_block_number := l2_block_number g; output_root := output_root g; l1_head := l1_head g;
     deadline := dl; validation := v; status := st; proposal_status := pst;
     should_attempt_to_challenge := challenge; should_attempt_to_resolve := resolve;
     should_attempt_to_close_game := close; should_attempt_to_claim_bond := claim |}.

Definition clear_action_flags (g : Game) : Game :=
  refresh g (status g) (proposal_status g) (deadline g) (validation g) false false false false.
Definition clear_challenge_flag (g : Game) : Game :=
  refresh g (status g) (proposal_status g) (deadline g) (validation g) false
    (should_attempt_to_resolve g) (should_attempt_to_close_game g)
    (should_attempt_to_claim_bond g).

Definition validation_request (g : Game) (now_timestamp : Z) : GameValidationRequest :=
  {| gv_game_index := index g; gv_game_address := address g; gv_l1_head := l1_head g;
     gv_l2_block_number := l2_block_number g; gv_output_root := output_root g;
     gv_deadline := deadline g; gv_now_timestamp := now_timestamp |}.

(** [ChallengerState] and the other shared fields of [OPSuccinctChallenger]. *)
Record Challenger := {
  cursor : option Z;
  games : gmap Z Game;
  pending_discoveries : gset Z;
  challenger_bond : option Z;
  close_game_failures : gmap Z Z;
  highest_accepted_l1_block : Z;
  submitted : list TxRequest;
}.

Definition new_challenger : Challenger :=
  {| cursor := None; games := ∅; pending_discoveries := ∅; challenger_bond := None;
     close_game_failures := ∅; highest_accepted_l1_block := 0; submitted := [] |}.

Definition with_discovery (c : option Z) (pending : gset Z) (s : Challenger) : Challenger :=
  {| cursor := c; games := games s; pending_discoveries := pending;
     challenger_bond := challenger_bond s; close_game_failures := close_game_failures s;
     highest_accepted_l1_block := highest_accepted_l1_block s; submitted := submitted s |}.
Definition with_games (gs : gmap Z Game) (s : Challenger) : Challenger :=
  {| cursor := cursor s; games := gs; pending_discoveries := pending_discoveries s;
     challenger_bond := challenger_bond s; close_game_failures := close_game_failures s;
     highest_accepted_l1_block := highest_accepted_l1_block s; submitted := submitted s |}.
Definition with_bond (b : option Z) (s : Challenger) : Challenger :=
  {| cursor := cursor s; games := games s; pending_discoveries := pending_discoveries s;
     challenger_bond := b; close_game_failures := close_game_failures s;
     highest_accepted_l1_block := highest_accepted_l1_block s; submitted := submitted s |}.
Definition with_failures (f : gmap Z Z) (s : Challenger) : Challenger :=
  {| cursor := cursor s; games := games s; pending_discoveries := pending_discoveries s;
     challenger_bond := challenger_bond s; close_game_failures := f;
     highest_accepted_l1_block := highest_accepted_l1_block s; submitted := submitted s |}.
Definition with_accepted (n : Z) (s : Challenger) : Challenger :=
  {| cursor := cursor s; games := games s; pending_discoveries := pending_discoveries s;
     challenger_bond := challenger_bond s; close_game_failures := close_game_failures s;
     highest_accepted_l1_block := n; submitted := submitted s |}.
Definition with_submitted (l : list TxRequest) (s : Challenger) : Challenger :=
  {| cursor := cursor s; games := games s; pending_discoveries := pending_discoveries s;
     challenger_bond := challenger_bond s; close_game_failures := close_game_failures s;
     highest_accepted_l1_block := highest_accepted_l1_block s; submitted := l |}.

(** [record_discovery_attempt] and [record_game_sync_failure]. *)
Definition record_discovery_attempt (i : Z) (failed : bool) (s : Challenger) : Challenger :=
  with_discovery (Some i)
    (if failed then {[i]} ∪ pending_discoveries s else pending_discoveries s) s.
Definition record_game_sync_failure (i : Z) (s : Challenger) : Challenger :=
  with_games (alter clear_action_flags i (games s)) s.

Inductive GameSyncAction := Update (g : Game) | Remove (i : Z).

Record L1SyncSnapshot := { confirmed_number : Z; pinned_block : BlockId; latest_timestamp : Z }.

Definition confirmed_l1_number (latest_number confirmations : Z) : Z :=
  saturating_sub latest_number confirmations.
Definition confirmed_l1_head_regressed (confirmed_number highest_accepted : Z) : bool :=
  confirmed_number <? highest_accepted.
Definition challenge_preflight_ready (status : GameStatus) (proposal_status : ProposalStatus)
    (latest_timestamp deadline : Z) : bool :=
  bool_decide (status = IN_PROGRESS) && bool_decide (proposal_status = Unchallenged) &&
  (latest_timestamp <? deadline).

(** The outcome of the malicious-challenge roll: the percentage is configured
    above zero and the random number fell within it. *)
Class Dice := { malicious_roll : bool }.

Section challenger.
Context `{L1 : L1Rpc, W : Wallet, V : GameValidator, D : Dice, HO : HashOrder}
  (config : ChallengerConfig).

Definition send (tx : TxRequest) : M Challenger Receipt :=
  s ← get_state;
  _ ← modify (with_submitted (tx :: submitted s));
  lift (send_transaction (length (submitted s)) tx).
Definition submit (tx : outcome TxRequest) : M Challenger unit :=
  tx ← lift tx; receipt ← send tx; _ ← lift (check_receipt receipt); mret tt.

(** ** Startup *)

Definition startup_validations : outcome Z :=
  impl ← game_impl (c_game_type config);
  expected_registry ← anchorStateRegistry impl AtLatest;
  _ ← ensure (c_anchor_state_registry_address config =? expected_registry)
        "Anchor state registry address mismatch";
  bond ← challengerBond impl;
  _ ← validate_startup;
  Ok bond.

Definition validate_and_init : M Challenger unit :=
  bond ← lift startup_validations;
  s ← get_state;
  match challenger_bond s with
  | None => modify (with_bond (Some bond))
  | Some _ => panic
  end.

(** ** Synchronization *)

Definition l1_sync_snapshot (highest_accepted : Z) : outcome L1SyncSnapshot :=
  block ← get_block_by_number Latest;
  latest ← with_context "Failed to fetch latest L1 block" block;
  let confirmed := confirmed_l1_number (h_number latest) (c_sync_l1_confirmations config) in
  if confirmed_l1_head_regressed confirmed highest_accepted
  then Err "L1 confirmed head moved backwards"
  else
    confirmed_hash ←
      (if confirmed =? h_number latest then Ok (h_hash latest)
       else
         block ← get_block_by_number (Number confirmed);
         header ← with_context "Confirmed L1 block is unavailable on this backend" block;
         Ok (h_hash header));
    Ok {| confirmed_number := confirmed; pinned_block := AtHash confirmed_hash;
          latest_timestamp := h_timestamp latest |}.

Definition validate_game (g : Game) (now_timestamp : Z) : outcome GameValidation :=
  if is_Ok (checked_l2_block_number (l2_block_number g))
  then validate (validation_request g now_timestamp)
  else Ok (Invalid L2BlockNumberOverflow).

(** The [Unchallenged] case of an unexpired game in progress. *)
Definition sync_unchallenged (g : Game) (pinned : BlockId) (now_ts : Z)
    : outcome (GameValidation * bool) :=
  v ← (if is_unavailable (validation g) then validate_game g now_ts else Ok (validation g));
  parent_lost ← (if is_invalid v then Ok false
                 else is_parent_challenger_wins (parent_index g) pinned);
  Ok (v, is_invalid v || parent_lost).

Definition sync_game (g : Game) (pinned : BlockId) (now_ts signer : Z)
    : M Challenger GameSyncAction :=
  st ← lift (status_of (address g) pinned);
  claim_data ← lift (claimData (address g) pinned);
  let pst := claim_status claim_data in
  let dl := claim_deadline claim_data in
  let g := refresh g st pst dl (validation g) false false false false in
  let flagged v challenge resolve close claim :=
    Update (refresh g st pst dl v challenge resolve close claim) in
  match st with
  | IN_PROGRESS =>
      let is_game_over := dl <=? now_ts in
      match pst with
      | Unchallenged =>
          if is_game_over then mret (Update g)
          else
            '(v, challenge) ← lift (sync_unchallenged g pinned now_ts);
            mret (flagged v challenge false false false)
      | Challenged =>
          let is_own_game := counteredBy claim_data =? signer in
          if is_game_over && is_own_game then
            resolved ← lift (is_parent_resolved (parent_index g) pinned);
            mret (flagged (validation g) false resolved false false)
          else mret (Update g)
      | _ => mret (Update g)
      end
  | CHALLENGER_WINS =>
      finalized ← lift (isGameFinalized (address g) pinned);
      if negb finalized then mret (Update g)
      else
        mode ← lift (bondDistributionMode (address g) pinned);
        if mode =? BOND_DISTRIBUTION_MODE_UNDECIDED then
          if negb (counteredBy claim_data =? signer) then
            _ ← modify (fun s => with_failures (delete (address g) (close_game_failures s)) s);
            mret (Remove (index g))
          else mret (flagged (validation g) false false true false)
        else
          _ ← modify (fun s => with_failures (delete (address g) (close_game_failures s)) s);
          cr ← lift (credit (address g) signer pinned);
          if cr =? 0 then mret (Remove (index g))
          else mret (flagged (validation g) false false false true)
  | DEFENDER_WINS => mret (Remove (index g))
  | GameStatus_Invalid => panic
  end.

Definition fetch_game (i : Z) (pinned : BlockId) : M Challenger unit :=
  '(_, game_address) ← lift (gameAtIndex i pinned);
  game_type ← lift (gameType game_address pinned);
  if negb (game_type =? c_game_type config) then mret tt
  else
    asr ← lift (anchorStateRegistry game_address pinned);
    if negb (asr =? c_anchor_state_registry_address config) then mret tt
    else
      was_respected ← lift (wasRespectedGameTypeWhenCreated game_address pinned);
      if negb was_respected then mret tt
      else
        block ← lift (l2BlockNumber game_address pinned);
        root ← lift (rootClaim game_address pinned);
        head ← lift (l1Head game_address pinned);
        claim_data ← lift (claimData game_address pinned);
        st ← lift (status_of game_address pinned);
        modify (fun s => with_games (<[i :=
          {| index := i; address := game_address; parent_index := parentIndex claim_data;
             l2_block_number := block; output_root := root; l1_head := head;
             deadline := claim_deadline claim_data;
             validation := initial_game_validation block; status := st;
             proposal_status := claim_status claim_data;
             should_attempt_to_challenge := false; should_attempt_to_resolve := false;
             should_attempt_to_close_game := false; should_attempt_to_claim_bond := false |}]>
          (games s)) s).

(** [for index in pending_discoveries] *)
Definition retry_discovery (pinned : BlockId) (i : Z) : M Challenger unit :=
  r ← attempt (fetch_game i pinned);
  match r with
  | inl _ => modify (fun s => with_discovery (cursor s) (pending_discoveries s ∖ {[i]}) s)
  | inr _ => mret tt
  end.

(** One turn of the [while next_index <= latest_index] loop. *)
Definition discover (pinned : BlockId) (i : Z) : M Challenger unit :=
  r ← attempt (fetch_game i pinned);
  modify (record_discovery_attempt i (match r with inl _ => false | inr _ => true end)).

(** [next_index, next_index + 1, .., latest_index] *)
Definition new_indices (c : option Z) (latest : Z) : list Z :=
  let next := match c with Some c => wrap256 (c + 1) | None => 0 end in
  seqZ next (latest + 1 - next).

Definition collect_action (pinned : BlockId) (now_ts signer : Z)
    (actions : list GameSyncAction) (g : Game) : M Challenger (list GameSyncAction) :=
  r ← attempt (sync_game g pinned now_ts signer);
  match r with
  | inl action => mret (actions ++ [action])
  | inr _ => _ ← modify (record_game_sync_failure (index g)); mret actions
  end.

Definition apply_action (action : GameSyncAction) (s : Challenger) : Challenger :=
  match action with
  | Update g => with_games (<[index g := g]> (games s)) s
  | Remove i => with_games (delete i (games s)) s
  end.

Definition sync_state : M Challenger unit :=
  s ← get_state;
  snapshot ← lift (l1_sync_snapshot (highest_accepted_l1_block s));
  _ ← modify (with_accepted (confirmed_number snapshot));
  let pinned := pinned_block snapshot in
  let now_ts := latest_timestamp snapshot in
  s ← get_state;
  _ ← for_each (iter_set (pending_discoveries s)) (retry_discovery pinned);
  latest_index ← lift (fetch_latest_game_index pinned);
  _ ← match latest_index with
      | Some latest_index =>
          s ← get_state; for_each (new_indices (cursor s) latest_index) (discover pinned)
      | None => mret tt
      end;
  s ← get_state;
  actions ← fold_each (values (games s)) [] (collect_action pinned now_ts signer_address);
  for_each actions (fun action => modify (apply_action action)).

(** ** Acting on the flags *)

Definition latest_l1_view : outcome (BlockId * Z) :=
  block ← get_block_by_number Latest;
  latest ← with_context "Failed to fetch latest L1 block for action preflight" block;
  Ok (AtHash (h_hash latest), h_timestamp latest).

Definition challenge_preflight (g : Game) : outcome bool :=
  '(latest_block, latest_timestamp) ← latest_l1_view;
  st ← status_of (address g) latest_block;
  claim_data ← claimData (address g) latest_block;
  Ok (challenge_preflight_ready st (claim_status claim_data) latest_timestamp
        (claim_deadline claim_data)).
Definition resolution_still_pending (g : Game) : outcome bool :=
  st ← status_of (address g) AtLatest; Ok (bool_decide (st = IN_PROGRESS)).
Definition claim_credit_available (g : Game) (recipient : Z) : outcome bool :=
  cr ← credit (address g) recipient AtLatest; Ok (0 <? cr).

Definition submit_challenge_transaction_unchecked (g : Game) (submit_enabled : bool)
    : M Challenger unit :=
  s ← get_state;
  bond ← lift (with_context "challenger_bond must be set via startup_validations"
                 (challenger_bond s));
  if negb submit_enabled then mret tt else submit (Ok (TxChallenge (address g) bond)).

Definition submit_challenge_transaction (g : Game) (submit_enabled : bool) : M Challenger unit :=
  ready ← lift (challenge_preflight g);
  if negb ready then fail "Challenge is no longer eligible at the latest L1 head"
  else submit_challenge_transaction_unchecked g submit_enabled.

(** Submits and, when it worked, clears the challenge flag. *)
Definition challenge_and_clear (g : Game) : M Challenger unit :=
  r ← attempt (submit_challenge_transaction_unchecked g (disable_monitor_only config));
  match r with
  | inl _ => modify (fun s => with_games (alter clear_challenge_flag (index g) (games s)) s)
  | inr _ => mret tt
  end.

Definition challenge_one (g : Game) : M Challenger unit :=
  ready ← attempt (lift (challenge_preflight g));
  match ready with inl true => challenge_and_clear g | _ => mret tt end.

Definition malicious_candidate (now_ts : Z) (gs : gmap Z Game) : option Game :=
  min_by_key index (filter (fun g => validation g = Valid /\ status g = IN_PROGRESS /\
    proposal_status g = Unchallenged /\ now_ts < deadline g) (values gs)).

Definition malicious_challenge : M Challenger unit :=
  block ← attempt (lift (get_block_by_number Latest));
  match block with
  | inl (Some block) =>
      s ← get_state;
      match malicious_candidate (h_timestamp block) (games s) with
      | Some g => challenge_one g
      | None => mret tt
      end
  | _ => mret tt
  end.

Definition flagged (flag : Game -> bool) (s : Challenger) : list Game :=
  filter (fun g => flag g = true) (values (games s)).

Definition handle_game_challenging : M Challenger unit :=
  s ← get_state;
  _ ← for_each (flagged should_attempt_to_challenge s) challenge_one;
  if malicious_roll then malicious_challenge else mret tt.

Definition submit_resolution_transaction_unchecked (g : Game) : M Challenger unit :=
  submit (Ok (TxResolve (address g))).
Definition submit_resolution_transaction (g : Game) : M Challenger unit :=
  pending ← lift (resolution_still_pending g);
  if negb pending then fail "Game is no longer in progress on L1"
  else submit_resolution_transaction_unchecked g.

Definition resolve_one (g : Game) : M Challenger unit :=
  pending ← attempt (lift (resolution_still_pending g));
  match pending with
  | inl true => _ ← attempt (submit_resolution_transaction_unchecked g); mret tt
  | _ => mret tt
  end.
Definition handle_game_resolution : M Challenger unit :=
  s ← get_state; for_each (flagged should_attempt_to_resolve s) resolve_one.

Definition submit_close_game_transaction (g : Game) : M Challenger unit :=
  submit (close_game_transaction (address g) signer_address).

Definition failure_count (s : Challenger) (a : Z) : Z := default 0 (close_game_failures s !! a).

Definition close_one (g : Game) : M Challenger unit :=
  s ← get_state;
  if MAX_CLOSE_GAME_FAILURES <=? failure_count s (address g) then mret tt
  else
    r ← attempt (submit_close_game_transaction g);
    match r with
    | inr _ => modify (fun s => with_failures
        (<[address g := saturating_add u8_max (failure_count s (address g)) 1]>
           (close_game_failures s)) s)
    | inl _ => modify (fun s => with_failures (delete (address g) (close_game_failures s)) s)
    end.
Definition handle_game_closing : M Challenger unit :=
  s ← get_state; for_each (flagged should_attempt_to_close_game s) close_one.

Definition submit_bond_claim_transaction (g : Game) : M Challenger unit :=
  submit (claim_credit_transaction (address g) signer_address).
Definition claim_one (g : Game) : M Challenger unit :=
  available ← attempt (lift (claim_credit_available g signer_address));
  match available with
  | inl true => _ ← attempt (submit_bond_claim_transaction g); mret tt
  | _ => mret tt
  end.
Definition handle_bond_claiming : M Challenger unit :=
  s ← get_state; for_each (flagged should_attempt_to_claim_bond s) claim_one.

(** One turn of [run]'s loop. *)
Definition run_iteration : M Challenger unit :=
  r ← attempt sync_state;
  match r with
  | inr _ => mret tt
  | inl _ =>
      _ ← attempt handle_game_challenging;
      _ ← attempt handle_game_resolution;
      _ ← attempt handle_game_closing;
      _ ← attempt handle_bond_claiming;
      mret tt
  end.
End challenger.

(** ** One synchronization, exactly *)

Section sync.
Context `{L1 : L1Rpc, W : Wallet, V : GameValidator, D : Dice, HO : HashOrder}
  (config : ChallengerConfig).

Lemma with_games_same s : with_games (games s) s = s.
Proof. by destruct s. Qed.

(** What the fetch of an index ends with, and the game it caches, if any. *)
Definition fetch_result (i : Z) (pinned : BlockId) : outcome unit :=
  (fetch_game config i pinned new_challenger).2.
Definition discovered (i : Z) (pinned : BlockId) : option Game :=
  games (fetch_game config i pinned new_challenger).1 !! i.

Definition cached (o : option Game) (i : Z) (gs : gmap Z Game) : gmap Z Game :=
  match o with Some g => <[i := g]> gs | None => gs end.

Lemma fetch_game_run i pinned s :
  fetch_game config i pinned s =
    (with_games (cached (discovered i pinned) i (games s)) s, fetch_result i pinned).
Proof.
  unfold discovered, fetch_result, cached, fetch_game, lift, modify, mbind, M_bind, mret, M_ret.
  repeat (case_match; simplify_eq; cbn);
    repeat match goal with
    | H : <[_ := _]> _ !! _ = _ |- _ => rewrite lookup_insert_eq in H; simplify_eq
    | H : ∅ !! _ = Some _ |- _ => by rewrite lookup_empty in H
    end; rewrite ?lookup_empty, ?with_games_same; done.
Qed.

Lemma discovered_index i pinned g : discovered i pinned = Some g -> index g = i.
Proof.
  unfold discovered, fetch_game, lift, modify, mbind, M_bind, mret, M_ret.
  repeat (case_match; simplify_eq; cbn); rewrite ?lookup_insert_eq, ?lookup_empty; try done.
  by intros [= <-].
Qed.

(** The fetch of [i] worked. *)
Definition fetched (pinned : BlockId) (i : Z) : Prop := fetch_result i pinned = Ok tt.

(** The cache and the pending set after fetching all of [l] on top of [s]. *)
Definition lookup_after (pinned : BlockId) (l : list Z) (gs : gmap Z Game) (i : Z) : option Game :=
  if decide (i ∈ l) then
    match discovered i pinned with Some g => Some g | None => gs !! i end
  else gs !! i.

Lemma lookup_cached pinned i j gs :
  cached (discovered i pinned) i gs !! j = lookup_after pinned [i] gs j.
Proof.
  unfold cached, lookup_after. case_decide as Hj.
  - apply list_elem_of_singleton in Hj as ->. destruct (discovered i pinned); [|done].
    apply lookup_insert_eq.
  - rewrite list_elem_of_singleton in Hj. destruct (discovered i pinned); [|done].
    by apply lookup_insert_ne.
Qed.

Lemma lookup_after_cons pinned i l gs j :
  lookup_after pinned l (cached (discovered i pinned) i gs) j = lookup_after pinned (i :: l) gs j.
Proof.
  unfold lookup_after at 1. rewrite lookup_cached. unfold lookup_after.
  repeat case_decide; destruct (discovered j pinned); first [done | exfalso; set_solver].
Qed.

(** What a pass over [l] that retries or discovers leaves. *)
Record swept (pinned : BlockId) (l : list Z) (s s' : Challenger) : Prop := {
  swept_games : forall j, games s' !! j = lookup_after pinned l (games s) j;
  swept_accepted : highest_accepted_l1_block s' = highest_accepted_l1_block s;
  swept_failures : close_game_failures s' = close_game_failures s;
  swept_submitted : submitted s' = submitted s;
}.

Lemma swept_step pinned i l s s1 s' :
  games s1 = cached (discovered i pinned) i (games s) ->
  highest_accepted_l1_block s1 = highest_accepted_l1_block s ->
  close_game_failures s1 = close_game_failures s -> submitted s1 = submitted s ->
  swept pinned l s1 s' -> swept pinned (i :: l) s s'.
Proof.
  intros Hg Ha Hf Hs [Hg' Ha' Hf' Hs']. split; [|congruence..].
  intros j. rewrite Hg', Hg. apply lookup_after_cons.
Qed.

Lemma swept_nil pinned s : swept pinned [] s s.
Proof. by split. Qed.

Lemma attempt_fetch i pinned s s' r :
  attempt (fetch_game config i pinned) s = (s', Ok r) ->
  s' = with_games (cached (discovered i pinned) i (games s)) s /\
  (r = inl tt /\ fetched pinned i \/ (exists m, r = inr m) /\ ~ fetched pinned i).
Proof.
  unfold attempt, fetched. rewrite fetch_game_run.
  destruct (fetch_result i pinned) as [[]|m|]; intros [= <- <-]; (split; [done|]);
    [by left|right; eauto].
Qed.

Lemma retry_discovery_run pinned l s s' u :
  for_each l (retry_discovery config pinned) s = (s', Ok u) ->
  swept pinned l s s' /\ cursor s' = cursor s /\
  forall i, i ∈ pending_discoveries s' <->
    i ∈ pending_discoveries s /\ ~ (i ∈ l /\ fetched pinned i).
Proof.
  revert s. induction l as [|x l IH]; intros s; cbn [for_each].
  { intros Hr. m_inv. split; [apply swept_nil|]. split; [done|]. set_solver. }
  intros (s1 & [] & Hx & Hl)%M_bind_Ok. apply IH in Hl as (Hsw & Hc & Hp). clear IH.
  unfold retry_discovery in Hx. apply M_bind_Ok in Hx as (s2 & r & Hr & Hx).
  apply attempt_fetch in Hr as [-> [[-> Hf]|[[m ->] Hf]]]; m_inv; cbn in *;
    (split; [eapply swept_step; [..|exact Hsw]; done|]); (split; [done|]); intros i; rewrite Hp; set_solver.
Qed.

Lemma discover_run pinned l s s' u :
  for_each l (discover config pinned) s = (s', Ok u) ->
  swept pinned l s s' /\ cursor s' = match last l with Some i => Some i | None => cursor s end /\
  forall i, i ∈ pending_discoveries s' <->
    i ∈ pending_discoveries s \/ (i ∈ l /\ ~ fetched pinned i).
Proof.
  revert s. induction l as [|x l IH]; intros s; cbn [for_each].
  { intros Hr. m_inv. split; [apply swept_nil|]. split; [done|]. set_solver. }
  intros (s1 & [] & Hx & Hl)%M_bind_Ok. apply IH in Hl as (Hsw & Hc & Hp). clear IH.
  unfold discover in Hx. apply M_bind_Ok in Hx as (s2 & r & Hr & Hx).
  assert (Hcur : forall c : option Z, match last l with Some i => Some i | None => Some x end =
    match last (x :: l) with Some i => Some i | None => c end).
  { intros c. destruct l as [|y l']; [done|]. change (last (x :: y :: l')) with (last (y :: l')).
    by destruct (last_is_Some (y :: l')) as [_ [z ->]]. }
  apply attempt_fetch in Hr as [-> [[-> Hf]|[[m ->] Hf]]]; m_inv; cbn in *;
    (split; [eapply swept_step; [..|exact Hsw]; done|]); (split; [rewrite Hc; apply Hcur|]);
    intros i; rewrite Hp; set_solver.
Qed.

(** What the synchronization of a game ends with. *)
Definition sync_result (g : Game) (pinned : BlockId) (now_ts signer : Z)
    : outcome GameSyncAction :=
  (sync_game g pinned now_ts signer new_challenger).2.

(** The cache entry it leaves: a failure only clears the action flags. *)
Definition settled (pinned : BlockId) (now_ts signer : Z) (g : Game) : option Game :=
  match sync_result g pinned now_ts signer with
  | Ok (Update g') => Some g'
  | Ok (Remove _) => None
  | _ => Some (clear_action_flags g)
  end.

Definition action_index (a : GameSyncAction) : Z :=
  match a with Update g => index g | Remove i => i end.

(** Everything but the close-failure counters. *)
Definition same_but_failures (s s' : Challenger) : Prop :=
  games s' = games s /\ cursor s' = cursor s /\ pending_discoveries s' = pending_discoveries s /\
  highest_accepted_l1_block s' = highest_accepted_l1_block s /\ submitted s' = submitted s.

Lemma sync_game_run g pinned now signer s :
  same_but_failures s (sync_game g pinned now signer s).1 /\
  (sync_game g pinned now signer s).2 = sync_result g pinned now signer.
Proof.
  unfold sync_result, same_but_failures, sync_game.
  unfold lift, modify, panic, mbind, M_bind, mret, M_ret, lift.
  repeat (case_match; simplify_eq; cbn); done.
Qed.

Lemma sync_result_index g pinned now signer a :
  sync_result g pinned now signer = Ok a -> action_index a = index g.
Proof.
  unfold sync_result, sync_game.
  unfold lift, modify, panic, mbind, M_bind, mret, M_ret, lift.
  repeat (case_match; simplify_eq; cbn); try done; by intros [= <-].
Qed.

Section pass.
Context (pinned : BlockId) (now signer : Z).

Definition action_of (g : Game) : option GameSyncAction :=
  match sync_result g pinned now signer with Ok a => Some a | _ => None end.
Definition failed_at (i : Z) (g : Game) : bool :=
  (index g =? i) && match action_of g with None => true | Some _ => false end.

Lemma clear_twice : clear_action_flags ∘ clear_action_flags = clear_action_flags.
Proof. done. Qed.

Definition cleared (b : bool) (o : option Game) : option Game :=
  if b then clear_action_flags <$> o else o.

Lemma cleared_twice b b' o : cleared b (cleared b' o) = cleared (b || b') o.
Proof. by destruct b, b', o. Qed.

Lemma collect_action_run acc g s s' acc' :
  collect_action pinned now signer acc g s = (s', Ok acc') ->
  acc' = acc ++ option_list (action_of g) /\
  (forall i, games s' !! i = cleared (failed_at i g) (games s !! i)) /\
  cursor s' = cursor s /\ pending_discoveries s' = pending_discoveries s /\
  highest_accepted_l1_block s' = highest_accepted_l1_block s /\ submitted s' = submitted s.
Proof.
  unfold collect_action, attempt. intros (s1 & r & Hr & Hx)%M_bind_Ok.
  destruct (sync_game_run g pinned now signer s) as [(Hg & Hc & Hp & Ha & Hs) Hres].
  destruct (sync_game g pinned now signer s) as [s2 o]. cbn in *. subst o.
  unfold failed_at, action_of. destruct (sync_result g pinned now signer) as [a|m|];
    [injection Hr as <- <-|injection Hr as <- <-|discriminate Hr];
    m_inv; cbn in *; (split; [by rewrite ?app_nil_r|]);
    (split; [|by split_and!]); intros i; rewrite ?andb_false_r, ?andb_true_r; [by rewrite Hg|].
  rewrite lookup_alter, Hg. destruct (Z.eqb_spec (index g) i); case_decide; by subst.
Qed.

Lemma collect_run l acc s s' acc' :
  fold_each l acc (collect_action pinned now signer) s = (s', Ok acc') ->
  acc' = acc ++ omap action_of l /\
  (forall i, games s' !! i = cleared (existsb (failed_at i) l) (games s !! i)) /\
  cursor s' = cursor s /\ pending_discoveries s' = pending_discoveries s /\
  highest_accepted_l1_block s' = highest_accepted_l1_block s /\ submitted s' = submitted s.
Proof.
  revert acc s. induction l as [|g l IH]; intros acc s; cbn [fold_each].
  { intros Hr. m_inv. by rewrite app_nil_r. }
  intros (s1 & acc1 & Hx & Hl)%M_bind_Ok.
  apply collect_action_run in Hx as (-> & Hg & Hc & Hp & Ha & Hs).
  apply IH in Hl as (-> & Hg' & Hc' & Hp' & Ha' & Hs'). clear IH. split.
  { rewrite <- app_assoc. f_equal. cbn. by destruct (action_of g). }
  split; [|by split_and!; etrans]. intros i. rewrite Hg', Hg, cleared_twice. cbn.
  by rewrite orb_comm.
Qed.

Definition effect (a : GameSyncAction) : option Game :=
  match a with Update g => Some g | Remove _ => None end.

Lemma apply_action_lookup a s i :
  games (apply_action a s) !! i = if decide (action_index a = i) then effect a else games s !! i.
Proof. destruct a; cbn; rewrite ?lookup_insert, ?lookup_delete; by repeat case_decide. Qed.

Lemma apply_actions_run l s s' u :
  for_each l (fun a => modify (apply_action a)) s = (s', Ok u) ->
  NoDup (action_index <$> l) ->
  (forall a, a ∈ l -> games s' !! action_index a = effect a) /\
  (forall i, i ∉ action_index <$> l -> games s' !! i = games s !! i) /\
  cursor s' = cursor s /\ pending_discoveries s' = pending_discoveries s /\
  highest_accepted_l1_block s' = highest_accepted_l1_block s /\ submitted s' = submitted s.
Proof.
  revert s. induction l as [|a l IH]; intros s; cbn [for_each].
  { intros Hr _. m_inv. split_and!; try done. intros a Ha. by apply not_elem_of_nil in Ha. }
  intros (s1 & ? & Hx & Hl)%M_bind_Ok [Hni Hnd]%NoDup_cons. m_inv.
  apply IH in Hl as (He & Hu & Hc & Hp & Ha & Hs); [|done]. clear IH.
  assert (Hf : cursor (apply_action a s) = cursor s /\
    pending_discoveries (apply_action a s) = pending_discoveries s /\
    highest_accepted_l1_block (apply_action a s) = highest_accepted_l1_block s /\
    submitted (apply_action a s) = submitted s) by by destruct a.
  destruct Hf as (Hc1 & Hp1 & Ha1 & Hs1). split_and!; [| |congruence..].
  - intros b [->|Hb]%elem_of_cons; [|by apply He].
    rewrite Hu, apply_action_lookup by done. by case_decide.
  - intros i Hi. rewrite fmap_cons, not_elem_of_cons in Hi. destruct Hi as [Hne Hi].
    rewrite Hu, apply_action_lookup by done. case_decide; congruence.
Qed.
End pass.

(** ** All of [sync_state] *)

Definition indexed (gs : gmap Z Game) : Prop := forall i g, gs !! i = Some g -> index g = i.

Lemma indexed_empty : indexed ∅.
Proof. intros i g. by rewrite lookup_empty. Qed.

Lemma index_values gs : indexed gs -> index <$> values gs = keys gs.
Proof.
  intros Hi. unfold values, keys. rewrite <- list_fmap_compose. apply list_fmap_ext.
  intros n [k g] Hn. cbn. apply Hi, elem_of_iter_map. by eapply list_elem_of_lookup_2.
Qed.

Lemma keys_nodup {A} (gs : gmap Z A) : NoDup (keys gs).
Proof. unfold keys. rewrite (iter_map_perm gs). apply NoDup_fst_map_to_list. Qed.

Lemma lookup_after_indexed pinned l gs gs' :
  indexed gs -> (forall i, gs' !! i = lookup_after pinned l gs i) -> indexed gs'.
Proof.
  intros Hi Hl i g. rewrite Hl. unfold lookup_after. case_decide; [|apply Hi].
  destruct (discovered i pinned) as [g'|] eqn:Hd; [|apply Hi].
  intros [= <-]. by eapply discovered_index.
Qed.

Lemma lookup_after_app pinned l1 l2 gs gs1 i :
  (forall i, gs1 !! i = lookup_after pinned l1 gs i) ->
  lookup_after pinned l2 gs1 i = lookup_after pinned (l1 ++ l2) gs i.
Proof.
  intros H1. unfold lookup_after at 1. rewrite H1. unfold lookup_after.
  repeat case_decide; destruct (discovered i pinned); first [done | exfalso; set_solver].
Qed.

Lemma action_indices pinned now signer gs :
  indexed gs ->
  NoDup (action_index <$> omap (action_of pinned now signer) (values gs)) /\
  (forall i, i ∈ action_index <$> omap (action_of pinned now signer) (values gs) <->
     exists g a, gs !! i = Some g /\ sync_result g pinned now signer = Ok a).
Proof.
  intros Hi. assert (Hof : forall g a, action_of pinned now signer g = Some a <->
    sync_result g pinned now signer = Ok a).
  { intros g a. unfold action_of. destruct (sync_result _ _ _ _); naive_solver. }
  assert (Hsub : forall l, action_index <$> omap (action_of pinned now signer) l
    `sublist_of` index <$> l).
  { induction l as [|g l IH]; cbn; [constructor|].
    destruct (action_of pinned now signer g) as [a|] eqn:Ha; cbn; [|by constructor].
    apply Hof, sync_result_index in Ha as ->. by constructor. }
  split.
  - eapply sublist_NoDup; [|apply Hsub]. rewrite index_values by done. apply keys_nodup.
  - intros i. rewrite list_elem_of_fmap. setoid_rewrite list_elem_of_omap. split.
    + intros (a & -> & g & [k Hg]%elem_of_values & Ha%Hof).
      exists g, a. split; [|done]. rewrite (sync_result_index _ _ _ _ _ Ha).
      by rewrite (Hi _ _ Hg).
    + intros (g & a & Hg & Ha). exists a. split.
      * rewrite (sync_result_index _ _ _ _ _ Ha). symmetry. by apply Hi.
      * exists g. split; [by apply elem_of_values; exists i|by apply Hof].
Qed.

(** The collection and application of the actions, as one map over the cache. *)
Lemma sync_pass_run pinned now signer s s1 s' actions u :
  indexed (games s) ->
  fold_each (values (games s)) [] (collect_action pinned now signer) s = (s1, Ok actions) ->
  for_each actions (fun a => modify (apply_action a)) s1 = (s', Ok u) ->
  (forall i, games s' !! i = games s !! i ≫= settled pinned now signer) /\
  cursor s' = cursor s /\ pending_discoveries s' = pending_discoveries s /\
  highest_accepted_l1_block s' = highest_accepted_l1_block s /\ submitted s' = submitted s.
Proof.
  intros Hi (-> & Hg & Hc & Hp & Ha & Hs)%collect_run Happ. cbn [app] in Happ.
  destruct (action_indices pinned now signer _ Hi) as [Hnd Hin].
  apply apply_actions_run in Happ as (He & Hu & Hc' & Hp' & Ha' & Hs'); [|done].
  split; [|split_and!; congruence]. intros i. destruct (games s !! i) as [g|] eqn:Hgi; cbn.
  - destruct (sync_result g pinned now signer) as [a| |] eqn:Hr.
    { assert (Hidx : action_index a = i).
      { rewrite (sync_result_index _ _ _ _ _ Hr). by apply Hi. }
      rewrite <- Hidx, He; [unfold settled; rewrite Hr; by destruct a|].
      apply list_elem_of_omap. exists g. split; [by apply elem_of_values; exists i|].
      unfold action_of. by rewrite Hr. }
    all: rewrite Hu, Hg, Hgi; [|rewrite Hin; intros (g' & a & Hg' & Hra); congruence].
    all: replace (existsb _ _) with true; [unfold settled; by rewrite Hr|].
    all: symmetry; apply existsb_exists; exists g; split;
      [apply list_elem_of_In, elem_of_values; by exists i|].
    all: unfold failed_at, action_of; rewrite Hr, (Hi _ _ Hgi), Z.eqb_refl; done.
  - rewrite Hu, Hg, Hgi; [by destruct (existsb _ _)|]. rewrite Hin. intros (g' & a & Hg' & _). congruence.
Qed.

Definition fresh_indices (s : Challenger) (latest : option Z) : list Z :=
  match latest with Some l => new_indices (cursor s) l | None => [] end.

(** One successful synchronization of [s] under [snapshot]. *)
Record synced (s s' : Challenger) (snapshot : L1SyncSnapshot) (latest : option Z) : Prop := {
  synced_snapshot : l1_sync_snapshot config (highest_accepted_l1_block s) = Ok snapshot;
  synced_latest : fetch_latest_game_index (pinned_block snapshot) = Ok latest;
  synced_games : forall i, games s' !! i =
    lookup_after (pinned_block snapshot)
      (iter_set (pending_discoveries s) ++ fresh_indices s latest) (games s) i
    ≫= settled (pinned_block snapshot) (latest_timestamp snapshot) signer_address;
  synced_cursor : cursor s' =
    match last (fresh_indices s latest) with Some i => Some i | None => cursor s end;
  synced_pending : forall i, i ∈ pending_discoveries s' <->
    (i ∈ pending_discoveries s \/ i ∈ fresh_indices s latest) /\
    ~ fetched (pinned_block snapshot) i;
  synced_accepted : highest_accepted_l1_block s' = confirmed_number snapshot;
  synced_submitted : submitted s' = submitted s;
}.

Lemma discovery_run pinned latest s s1 s2 u1 u2 :
  for_each (iter_set (pending_discoveries s)) (retry_discovery config pinned) s = (s1, Ok u1) ->
  match latest with
  | Some latest =>
      s ← get_state; for_each (new_indices (cursor s) latest) (discover config pinned)
  | None => mret tt
  end s1 = (s2, Ok u2) ->
  swept pinned (iter_set (pending_discoveries s)) s s1 /\
  swept pinned (fresh_indices s latest) s1 s2 /\
  cursor s2 = match last (fresh_indices s latest) with Some i => Some i | None => cursor s end /\
  forall i, i ∈ pending_discoveries s2 <->
    (i ∈ pending_discoveries s \/ i ∈ fresh_indices s latest) /\ ~ fetched pinned i.
Proof.
  intros (Hsw1 & Hc1 & Hp1)%retry_discovery_run H2. setoid_rewrite elem_of_iter_set in Hp1.
  destruct latest as [latest|]; cbn.
  - apply M_bind_Ok in H2 as (s3 & s3' & [-> ->]%M_get_Ok & H2). rewrite Hc1 in H2.
    apply discover_run in H2 as (Hsw2 & Hc2 & Hp2). rewrite Hc2, Hc1.
    split_and!; try done. intros i. rewrite Hp2, Hp1. tauto.
  - apply M_ret_Ok in H2 as [-> _]. split_and!; try done.
    intros i. rewrite Hp1, elem_of_nil. tauto.
Qed.

Lemma sync_state_run s s' u :
  indexed (games s) -> sync_state config s = (s', Ok u) ->
  exists snapshot latest, synced s s' snapshot latest.
Proof.
  intros Hi Hr. unfold sync_state in Hr.
  apply M_bind_Ok in Hr as (? & ? & [-> ->]%M_get_Ok & Hr).
  apply M_bind_Ok in Hr as (? & snapshot & [Hsnap ->]%M_lift_Ok & Hr).
  apply M_bind_Ok in Hr as (s0 & ? & ->%M_modify_Ok & Hr). cbv zeta in Hr.
  apply M_bind_Ok in Hr as (? & ? & [-> ->]%M_get_Ok & Hr).
  apply M_bind_Ok in Hr as (s1 & u1 & H1 & Hr).
  apply M_bind_Ok in Hr as (? & latest & [Hlatest ->]%M_lift_Ok & Hr).
  apply M_bind_Ok in Hr as (s2 & u2 & H2 & Hr).
  apply M_bind_Ok in Hr as (? & ? & [-> ->]%M_get_Ok & Hr).
  apply M_bind_Ok in Hr as (s3 & actions & Hfold & Happ).
  destruct (discovery_run _ _ _ _ _ _ _ H1 H2) as (Hsw1 & Hsw2 & Hc & Hp).
  assert (Hg2 : forall i, games s2 !! i = lookup_after (pinned_block snapshot)
    (iter_set (pending_discoveries s) ++ fresh_indices s latest) (games s) i).
  { intros i. rewrite (swept_games _ _ _ _ Hsw2). apply lookup_after_app.
    apply (swept_games _ _ _ _ Hsw1). }
  assert (Hi2 : indexed (games s2)) by by eapply lookup_after_indexed.
  destruct (sync_pass_run _ _ _ _ _ _ _ _ Hi2 Hfold Happ) as (Hg & Hc' & Hp' & Ha' & Hs').
  exists snapshot, latest. split; try done.
  - intros i. by rewrite Hg, Hg2.
  - by rewrite Hc', Hc.
  - intros i. by rewrite Hp', Hp.
  - rewrite Ha', (swept_accepted _ _ _ _ Hsw2). apply (swept_accepted _ _ _ _ Hsw1).
  - rewrite Hs', (swept_submitted _ _ _ _ Hsw2). apply (swept_submitted _ _ _ _ Hsw1).
Qed.

Lemma elem_of_new_indices c latest i :
  i ∈ new_indices c latest <->
    match c with Some c => wrap256 (c + 1) | None => 0 end <= i <= latest.
Proof. unfold new_indices. rewrite elem_of_seqZ. lia. Qed.

Lemma last_new_indices c latest :
  last (new_indices c latest) =
    if decide (match c with Some c => wrap256 (c + 1) | None => 0 end <= latest)
    then Some latest else None.
Proof.
  unfold new_indices. set (next := match c with Some c => wrap256 (c + 1) | None => 0 end).
  case_decide.
  - replace (latest + 1 - next) with ((latest - next) + 1) by lia.
    rewrite seqZ_app, last_app by lia. cbn. f_equal. lia.
  - by rewrite seqZ_nil by lia.
Qed.

(** C38: discovery loses no game. After a successful synchronization the
    cursor is at the factory's latest index, and of all the indices above the
    old cursor up to it (all from index 0 when there was no cursor), and all
    those an earlier turn failed to read, exactly the ones whose fetch failed
    this time are pending for the next turn. So, from an empty state on, every
    index at or below the cursor was either read or is retried. *)
Theorem discovery_keeps_every_index s s' latest :
  sync_state config s = (s', Ok tt) -> indexed (games s) -> 0 <= latest ->
  (forall c, cursor s = Some c -> 0 <= c < u256_max /\ c <= latest) ->
  (forall b, fetch_latest_game_index b = Ok (Some latest)) ->
  cursor s' = Some latest /\
  exists snapshot, l1_sync_snapshot config (highest_accepted_l1_block s) = Ok snapshot /\
    forall i, i ∈ pending_discoveries s' <->
      (i ∈ pending_discoveries s \/
       match cursor s with Some c => c < i | None => 0 <= i end /\ i <= latest) /\
      ~ fetched (pinned_block snapshot) i.
Proof.
  intros Hr Hi Hlat Hcur Hlatest.
  destruct (sync_state_run _ _ _ Hi Hr) as (snapshot & latest' & Hs).
  pose proof (synced_latest _ _ _ _ Hs) as Hl. rewrite Hlatest in Hl. injection Hl as <-.
  pose proof (synced_cursor _ _ _ _ Hs) as Hc'. pose proof (synced_pending _ _ _ _ Hs) as Hp.
  cbn in Hc', Hp. setoid_rewrite elem_of_new_indices in Hp. rewrite last_new_indices in Hc'.
  destruct (cursor s) as [c|].
  - destruct (Hcur c eq_refl) as [Hc Hle].
    rewrite wrap256_small in * by (unfold is_u256; lia). split.
    + rewrite Hc'. case_decide; [done|]. f_equal. lia.
    + exists snapshot. split; [apply Hs|]. intros i. rewrite Hp. split; intros [[]?]; split;
        (done || (left; done) || (right; lia)).
  - split; [rewrite Hc'; by case_decide|]. exists snapshot. split; [apply Hs|].
    intros i. rewrite Hp. split; intros [[]?]; split; (done || (left; done) || (right; lia)).
Qed.

(** games are synchronized independently. A successful synchronization
    maps one function over the cache discovery left: a game whose chain reads
    fail stays cached with its action flags cleared, whatever happens to the
    others; every other game is replaced or dropped as its own chain state
    says; a rediscovered pending game replaces its entry first. No challenge,
    resolution, close or claim is submitted meanwhile. *)
Theorem games_synchronized_independently s s' :
  sync_state config s = (s', Ok tt) -> indexed (games s) ->
  indexed (games s') /\ submitted s' = submitted s /\
  exists snapshot latest,
    l1_sync_snapshot config (highest_accepted_l1_block s) = Ok snapshot /\
    fetch_latest_game_index (pinned_block snapshot) = Ok latest /\
    forall i, games s' !! i =
      lookup_after (pinned_block snapshot)
        (iter_set (pending_discoveries s) ++ fresh_indices s latest) (games s) i
      ≫= settled (pinned_block snapshot) (latest_timestamp snapshot) signer_address.
Proof.
  intros Hr Hi. destruct (sync_state_run _ _ _ Hi Hr) as (snapshot & latest & Hs).
  pose proof Hs as []. split; [|split; [done|by exists snapshot, latest]].
  intros i g. rewrite synced_games0. unfold lookup_after. intros Hg.
  apply bind_Some in Hg as (g0 & H0 & Hg).
  assert (Hg0 : index g0 = i).
  { case_decide; [|by apply Hi]. destruct (discovered i _) as [d|] eqn:Hd; [|by apply Hi].
    injection H0 as <-. by eapply discovered_index. }
  unfold settled in Hg. destruct (sync_result g0 _ _ _) as [[g'|k]| |] eqn:Hres;
    [|done|..]; injection Hg as <-; [|done..].
  by rewrite <- Hg0, <- (sync_result_index _ _ _ _ _ Hres).
Qed.

Lemma snapshot_confirmed highest snapshot :
  l1_sync_snapshot config highest = Ok snapshot -> highest <= confirmed_number snapshot.
Proof.
  unfold l1_sync_snapshot. intros Hs. ok_inv. cbv zeta in Hs. case_match eqn:Hreg; [done|].
  ok_inv. subst. cbn. unfold confirmed_l1_head_regressed in Hreg.
  by apply Z.ltb_ge in Hreg.
Qed.

Section accepted.
Variable h : Z.
Notation stays m := (spec (fun s => h <= highest_accepted_l1_block s) m (fun _ => True)).

Lemma fetch_game_stays i pinned : stays (fetch_game config i pinned).
Proof. intros s Hs. by rewrite fetch_game_run. Qed.

Lemma sync_rest_stays pinned now signer :
  stays (s ← get_state;
    _ ← for_each (iter_set (pending_discoveries s)) (retry_discovery config pinned);
    latest_index ← lift (fetch_latest_game_index pinned);
    _ ← match latest_index with
        | Some latest_index => s ← get_state;
            for_each (new_indices (cursor s) latest_index) (discover config pinned)
        | None => mret tt
        end;
    s ← get_state;
    actions ← fold_each (values (games s)) [] (collect_action pinned now signer);
    for_each actions (fun action => modify (apply_action action))).
Proof.
  eapply spec_bind; [apply spec_get_state|]. intros s1 _.
  eapply spec_bind; [apply spec_for_each; intros i _|intros _ _].
  { eapply spec_bind; [apply spec_attempt, fetch_game_stays|].
    intros [[]|m] _; [by apply spec_modify|by apply spec_ret]. }
  eapply spec_bind; [apply spec_read|]. intros latest _.
  eapply (spec_bind _ _ _ (fun _ => True)); [|intros _ _].
  { destruct latest as [latest|]; [|by apply spec_ret].
    eapply spec_bind; [apply spec_get_state|]. intros s2 _. apply spec_for_each. intros i _.
    eapply spec_bind; [apply spec_attempt, fetch_game_stays|]. intros r _. by apply spec_modify. }
  eapply spec_bind; [apply spec_get_state|]. intros s2 _.
  eapply (spec_bind _ _ _ (fun _ => True)); [apply spec_fold_each; [done|]; intros acc g _ _|].
  - eapply (spec_bind _ _ _ (fun _ => True)).
    + apply spec_any with (Q := fun _ => True). intros s Hs. unfold attempt.
      destruct (sync_game_run g pinned now signer s) as [(_ & _ & _ & Ha & _) _].
      destruct (sync_game g pinned now signer s) as [s' [a|m|]]; cbn in *; by rewrite Ha.
    + intros [a|m] _; [by apply spec_ret|].
      eapply spec_bind; [by apply spec_modify|]. intros _ _. by apply spec_ret.
  - intros actions _. apply spec_for_each. intros a _. apply spec_modify. by destruct a.
Qed.
End accepted.

(** the accepted L1 head never goes back. Whatever a synchronization ends
    with, the confirmed block number accepted by it is at least the one
    accepted before; when the node's latest block less the confirmations is
    behind that, the synchronization fails before it changes anything. *)
Theorem confirmed_head_monotone s :
  highest_accepted_l1_block s <= highest_accepted_l1_block (sync_state config s).1 /\
  forall latest, get_block_by_number Latest = Ok (Some latest) ->
    confirmed_l1_number (h_number latest) (c_sync_l1_confirmations config) <
      highest_accepted_l1_block s ->
    sync_state config s = (s, Err "L1 confirmed head moved backwards").
Proof.
  split.
  - unfold sync_state, get_state, lift, modify. unfold mbind at 1 2, M_bind at 1 2.
    destruct (l1_sync_snapshot config (highest_accepted_l1_block s)) as [snapshot|m|] eqn:Hs;
      [|done..].
    unfold mbind at 1, M_bind at 1. cbv zeta.
    apply (sync_rest_stays (highest_accepted_l1_block s)). by apply snapshot_confirmed.
  - intros latest Hl Hlt. unfold sync_state, get_state, lift, l1_sync_snapshot.
    unfold mbind at 1 2, M_bind at 1 2. rewrite Hl. cbn.
    unfold confirmed_l1_head_regressed. by rewrite (proj2 (Z.ltb_lt _ _) Hlt).
Qed.

(** the action flags are right. From a game that is synchronized without
    error the verdict is overwritten only while it is unavailable, the game's
    identity never, at most one flag is up, and each flag is up exactly when
    the pinned chain state calls for that action: challenge an unchallenged
    game before its deadline whose claim is invalid or parent lost; resolve a
    game the signer challenged, after its deadline, once the parent is
    resolved; close a finalized lost game the signer challenged while its
    bonds are undecided; claim the credit of a closed one. A game is dropped
    only when it was defended, or lost and finalized with nothing to gain. *)
Theorem sync_game_flags g pinned now signer a st c :
  sync_result g pinned now signer = Ok a ->
  status_of (address g) pinned = Ok st -> claimData (address g) pinned = Ok c ->
  let countered := counteredBy c = signer in
  let finalized := isGameFinalized (address g) pinned = Ok true in
  let undecided := bondDistributionMode (address g) pinned = Ok BOND_DISTRIBUTION_MODE_UNDECIDED in
  match a with
  | Update g' =>
      index g' = index g /\ address g' = address g /\ output_root g' = output_root g /\
      l2_block_number g' = l2_block_number g /\ l1_head g' = l1_head g /\
      parent_index g' = parent_index g /\ status g' = st /\ deadline g' = claim_deadline c /\
      (is_unavailable (validation g) = false -> validation g' = validation g) /\
      (should_attempt_to_challenge g' = true <->
         st = IN_PROGRESS /\ claim_status c = Unchallenged /\ now < claim_deadline c /\
         (is_invalid (validation g') = true \/
          is_parent_challenger_wins (parent_index g) pinned = Ok true)) /\
      (should_attempt_to_resolve g' = true <->
         st = IN_PROGRESS /\ claim_status c = Challenged /\ claim_deadline c <= now /\
         countered /\ is_parent_resolved (parent_index g) pinned = Ok true) /\
      (should_attempt_to_close_game g' = true <->
         st = CHALLENGER_WINS /\ finalized /\ undecided /\ countered) /\
      (should_attempt_to_claim_bond g' = true <->
         st = CHALLENGER_WINS /\ finalized /\ ~ undecided /\
         credit (address g) signer pinned <> Ok 0)
  | Remove i => i = index g /\
      (st = DEFENDER_WINS \/ st = CHALLENGER_WINS /\ finalized /\
         (undecided /\ ~ countered \/ ~ undecided /\ credit (address g) signer pinned = Ok 0))
  end.
Proof.
  intros Hr Hst Hc. cbv zeta. unfold sync_result, sync_game, sync_unchallenged in Hr.
  unfold lift, modify, panic, lift, mbind, M_bind, mret, M_ret, outcome_bind in Hr.
  rewrite Hst, Hc in Hr. cbv beta iota zeta in Hr.
  change (address (refresh g _ _ _ _ _ _ _ _)) with (address g) in Hr.
  destruct st; [| | |discriminate Hr].
  - destruct (claim_status c) eqn:Hcs; try (injection Hr as <-; cbn; iff_cases).
    + destruct (Z.leb_spec (claim_deadline c) now).
      { injection Hr as <-; cbn; iff_cases; lia. }
      change (validation (refresh g _ _ _ (validation g) _ _ _ _)) with (validation g) in Hr.
      change (parent_index (refresh g _ _ _ _ _ _ _ _)) with (parent_index g) in Hr.
      destruct (if is_unavailable (validation g) then _ else _) as [v| |] eqn:Hv in Hr;
        [|discriminate Hr..].
      destruct (if is_invalid v then _ else _) as [lost| |] eqn:Hp in Hr; [|discriminate Hr..].
      injection Hr as <-. cbn. split_and!; try done.
      * intros Hu. rewrite Hu in Hv. by injection Hv.
      * destruct (is_invalid v); cbn; [iff_cases; auto|].
        rewrite Hp. destruct lost; iff_cases; auto.
      * iff_cases.
      * iff_cases.
      * iff_cases.
    + destruct (Z.leb_spec (claim_deadline c) now); cbn in Hr;
        [|injection Hr as <-; cbn; iff_cases; lia].
      destruct (Z.eqb_spec (counteredBy c) signer); cbn in Hr;
        [|injection Hr as <-; cbn; iff_cases].
      destruct (is_parent_resolved (parent_index g) pinned) as [resolved| |]; [|discriminate Hr..].
      injection Hr as <-. cbn. destruct resolved; iff_cases.
  - destruct (isGameFinalized (address g) pinned) as [f| |]; [|discriminate Hr..].
    destruct f; cbn in Hr; [|injection Hr as <-; cbn; iff_cases].
    destruct (bondDistributionMode (address g) pinned) as [mode| |]; [|discriminate Hr..].
    destruct (Z.eqb_spec mode BOND_DISTRIBUTION_MODE_UNDECIDED) as [Hm|Hm]; [subst mode|].
    + destruct (Z.eqb_spec (counteredBy c) signer); cbn in Hr; injection Hr as <-; cbn; iff_cases.
      right. auto.
    + cbn in Hr. destruct (credit (address g) signer pinned) as [cr| |]; [|discriminate Hr..].
      assert (Hu : Ok mode <> Ok BOND_DISTRIBUTION_MODE_UNDECIDED) by congruence.
      destruct (Z.eqb_spec cr 0); injection Hr as <-; cbn; iff_cases.
      { right. auto. } { split_and!; congruence. }
  - injection Hr as <-. auto.
Qed.
End sync.

(** ** The challenger as a whole *)

(** What the outside answers during one turn of the loop, and what its
    validator holds against a claim when it rejects it. *)
Record Env := {
  e_l1 : L1Rpc; e_wallet : Wallet; e_validator : GameValidator; e_dice : Dice;
  e_refutes : GameValidationRequest -> InvalidReason -> Prop;
  e_laws : GameValidatorLaws e_validator e_refutes;
}.
#[export] Existing Instance e_laws.

Section run.
Context {HO : HashOrder} (config : ChallengerConfig).

Definition iteration (e : Env) : M Challenger unit :=
  run_iteration (L1 := e_l1 e) (W := e_wallet e) (V := e_validator e) (D := e_dice e) config.

(** Startup: each attempt of [validate_and_init] meets its own environment. *)
Fixpoint try_init (envs : list Env) (s : Challenger) : option Challenger :=
  match envs with
  | [] => None
  | e :: envs' =>
      match validate_and_init (L1 := e_l1 e) (V := e_validator e) config s with
      | (s', Ok _) => Some s'
      | (s', Err _) => try_init envs' s'
      | (_, Panic) => None
      end
  end.

(** A failed attempt leaves the bond unset, so a later one can still succeed. *)
Lemma failed_attempt_retries e envs s m :
  startup_validations (L1 := e_l1 e) (V := e_validator e) config = Err m ->
  try_init (e :: envs) s = try_init envs s.
Proof. intros He. cbn. unfold validate_and_init, mbind, M_bind, lift. by rewrite He. Qed.

(** The challenger after turns in the environments [es], latest first. *)
Inductive runs : list Env -> Challenger -> Prop :=
| runs_start s : games s = ∅ -> submitted s = [] -> runs [] s
| runs_turn es s e : runs es s -> runs (e :: es) (iteration e s).1.

(** ** Grounds for a challenge *)

Definition refuted (es : list Env) (g : Game) (reason : InvalidReason) : Prop :=
  exists e dl now, e ∈ es /\ e_refutes e
    {| gv_game_index := index g; gv_game_address := address g; gv_l1_head := l1_head g;
       gv_l2_block_number := l2_block_number g; gv_output_root := output_root g;
       gv_deadline := dl; gv_now_timestamp := now |} reason.

Definition parent_lost (es : list Env) (g : Game) : Prop :=
  exists e pinned, e ∈ es /\
    is_parent_challenger_wins (H := e_l1 e) (parent_index g) pinned = Ok true.

(** The game the factory has at [index g]: its address, claim, L1 head and
    parent are what some turn read there, and it is of the configured type,
    of the configured registry, and was created when respected. *)
Definition on_factory (es : list Env) (g : Game) : Prop :=
  exists e pinned t c, e ∈ es /\
    gameAtIndex (L1Rpc := e_l1 e) (index g) pinned = Ok (t, address g) /\
    gameType (L1Rpc := e_l1 e) (address g) pinned = Ok (c_game_type config) /\
    anchorStateRegistry (L1Rpc := e_l1 e) (address g) pinned =
      Ok (c_anchor_state_registry_address config) /\
    wasRespectedGameTypeWhenCreated (L1Rpc := e_l1 e) (address g) pinned = Ok true /\
    l2BlockNumber (L1Rpc := e_l1 e) (address g) pinned = Ok (l2_block_number g) /\
    rootClaim (L1Rpc := e_l1 e) (address g) pinned = Ok (output_root g) /\
    l1Head (L1Rpc := e_l1 e) (address g) pinned = Ok (l1_head g) /\
    claimData (L1Rpc := e_l1 e) (address g) pinned = Ok c /\ parentIndex c = parent_index g.

Definition at_fault (es : list Env) (g : Game) : Prop :=
  (exists reason, refuted es g reason) \/ parent_lost es g.

Definition grounds (es : list Env) (g : Game) : Prop := on_factory es g /\ at_fault es g.

(** A cached game: it was read from the factory, its verdict is backed, and so
    is its challenge flag. *)
Definition backed (es : list Env) (g : Game) : Prop :=
  on_factory es g /\
  (forall reason, validation g = Invalid reason -> refuted es g reason) /\
  (should_attempt_to_challenge g = true -> at_fault es g).

Definition justified (es : list Env) (tx : TxRequest) : Prop :=
  match tx with
  | TxChallenge a _ => disable_monitor_only config = true /\
      exists g e, address g = a /\ grounds es g /\ e ∈ es /\
        challenge_preflight (L1 := e_l1 e) g = Ok true
  | _ => True
  end.

Definition honest (es : list Env) (s : Challenger) : Prop :=
  (forall i g, games s !! i = Some g -> backed es g) /\
  (forall tx, tx ∈ submitted s -> justified es tx).

Lemma refuted_mono es es' g reason : es ⊆ es' -> refuted es g reason -> refuted es' g reason.
Proof. intros Hsub (e & dl & now & He & Hr). exists e, dl, now. auto. Qed.

Lemma on_factory_mono es es' g : es ⊆ es' -> on_factory es g -> on_factory es' g.
Proof. intros Hsub (e & pinned & t & c & He & H). exists e, pinned, t, c. auto. Qed.

Lemma at_fault_mono es es' g : es ⊆ es' -> at_fault es g -> at_fault es' g.
Proof.
  intros Hsub [[reason Hr]|(e & pinned & He & Hp)]; [left|right].
  - exists reason. by eapply refuted_mono.
  - exists e, pinned. auto.
Qed.

Lemma backed_mono es es' g : es ⊆ es' -> backed es g -> backed es' g.
Proof.
  intros Hsub (H0 & H1 & H2). split_and!.
  - by eapply on_factory_mono.
  - intros reason Hv. by eapply refuted_mono; [|apply H1].
  - intros Hf. by eapply at_fault_mono; [|apply H2].
Qed.

Lemma honest_mono es es' s : es ⊆ es' -> honest es s -> honest es' s.
Proof.
  intros Hsub [Hg Ht]. split.
  - intros i g Hi. by eapply backed_mono; [|eapply Hg].
  - intros tx Hin. specialize (Ht tx Hin). destruct tx; try done.
    destruct Ht as (Hm & g & e & Ha & [Hon Hgr] & He & Hp). split; [done|].
    exists g, e. split_and!; auto.
    split; [by eapply on_factory_mono|by eapply at_fault_mono].
Qed.

(** ** One turn *)

Section turn.
Variable e : Env.
Variable es : list Env.
Hypothesis He : e ∈ es.
#[local] Instance : L1Rpc := e_l1 e.
#[local] Instance : Wallet := e_wallet e.
#[local] Instance : GameValidator := e_validator e.
#[local] Instance : Dice := e_dice e.

Notation keeps_honest m := (spec (honest es) m (fun _ => True)).

Lemma honest_same s s' :
  games s' = games s -> submitted s' = submitted s -> honest es s -> honest es s'.
Proof. unfold honest. intros -> ->. done. Qed.

Lemma honest_games s gs :
  (forall i g, gs !! i = Some g -> backed es g) -> honest es s -> honest es (with_games gs s).
Proof. intros Hg [_ Ht]. by split. Qed.

Lemma honest_alter s f i :
  (forall g, backed es g -> backed es (f g)) ->
  honest es s -> honest es (with_games (alter f i (games s)) s).
Proof.
  intros Hf [Hg Ht]. apply honest_games; [|done]. intros j g. rewrite lookup_alter.
  case_decide; [|apply Hg]. subst. intros (g' & Hg' & ->)%fmap_Some. eapply Hf, Hg, Hg'.
Qed.

Lemma overflow_backed g : u64_max < l2_block_number g -> refuted es g L2BlockNumberOverflow.
Proof.
  intros Hb. exists e, (deadline g), 0. split; [done|].
  by apply (overflow_refuted (refutes := e_refutes e)).
Qed.

Lemma fetch_game_honest i pinned : keeps_honest (fetch_game config i pinned).
Proof.
  unfold fetch_game. repeat (spec_reads || case_match); try by apply spec_ret.
  apply spec_modify. intros s Hs. apply honest_games; [|done].
  intros j g [[<- <-]|[_ Hj]]%lookup_insert_Some; [|by apply Hs in Hj].
  split; [|split; [|done]].
  { cbv beta in *. match goal with H : gameAtIndex _ _ = Ok (?t, _), Hc : claimData _ _ = Ok ?c |- _ =>
      exists e, pinned, t, c end.
    repeat match goal with H : negb (_ =? _) = false |- _ =>
      apply negb_false_iff, Z.eqb_eq in H; subst
    | H : negb _ = false |- _ => apply negb_false_iff in H; subst end.
    cbn. split_and!; first [done | congruence]. }
  cbn. unfold initial_game_validation, checked_l2_block_number.
  intros reason. match goal with |- context [u64_max <? ?b] =>
    destruct (Z.ltb_spec u64_max b) end; [|done].
  intros [= <-]. by apply overflow_backed.
Qed.

Lemma retry_discovery_honest pinned i : keeps_honest (retry_discovery config pinned i).
Proof.
  unfold retry_discovery. eapply spec_bind; [apply spec_attempt, fetch_game_honest|].
  intros [[]|m] _; [|by apply spec_ret]. apply spec_modify.
  intros s. by apply honest_same.
Qed.

Lemma discover_honest pinned i : keeps_honest (discover config pinned i).
Proof.
  unfold discover. eapply spec_bind; [apply spec_attempt, fetch_game_honest|].
  intros r _. apply spec_modify. intros s. by apply honest_same.
Qed.

(** The verdict and the flag of a game whose challenge window is open. *)
Lemma sync_unchallenged_backed g pinned now v c :
  backed es g -> sync_unchallenged g pinned now = Ok (v, c) ->
  (forall reason, v = Invalid reason -> refuted es g reason) /\ (c = true -> at_fault es g).
Proof.
  intros (_ & Hv & _) Hs. unfold sync_unchallenged in Hs.
  apply outcome_bind_Ok in Hs as (v' & Hval & Hs).
  apply outcome_bind_Ok in Hs as (lost & Hlost & Hs). injection Hs as <- <-.
  assert (Hb : forall reason, v' = Invalid reason -> refuted es g reason).
  { intros reason ->. destruct (is_unavailable (validation g)); [|apply Hv; by ok_inv].
    unfold validate_game, checked_l2_block_number in Hval.
    destruct (Z.ltb_spec u64_max (l2_block_number g)); cbn in Hval.
    { injection Hval as <-. by apply overflow_backed. }
    apply (validate_invalid (refutes := e_refutes e)) in Hval.
    by exists e, (deadline g), now. }
  split; [done|]. destruct v' as [|reason|reason]; cbn in Hlost |- *; intros Hc.
  - subst lost. right. by exists e, pinned.
  - left. exists reason. by apply Hb.
  - subst lost. right. by exists e, pinned.
Qed.

Lemma refresh_backed g st pst dl v c r cl b :
  on_factory es g ->
  (forall reason, v = Invalid reason -> refuted es g reason) -> (c = true -> at_fault es g) ->
  backed es (refresh g st pst dl v c r cl b).
Proof. by intros H0 H1 H2. Qed.

Definition action_backed (a : GameSyncAction) : Prop :=
  match a with Update g => backed es g | Remove _ => True end.

Lemma sync_game_honest g pinned now signer :
  backed es g -> spec (honest es) (sync_game g pinned now signer) action_backed.
Proof.
  intros Hg. pose proof Hg as (Hon & Hv & Hf). unfold sync_game.
  assert (Hplain : forall st pst dl r cl b,
    backed es (refresh g st pst dl (validation g) false r cl b)).
  { intros. by apply refresh_backed. }
  assert (Hdrop : forall a, spec (honest es) (modify (fun s : Challenger =>
    with_failures (delete a (close_game_failures s)) s)) (fun _ => True)).
  { intros a. apply spec_modify. intros s. by apply honest_same. }
  spec_reads. cbv zeta.
  repeat first
    [ apply spec_ret; cbn; done || apply Hplain
    | eapply spec_bind; [apply Hdrop|intros _ _]
    | eapply spec_bind; [apply spec_read|intros ? ?]
    | apply spec_lift; discriminate
    | case_match ]; try (apply spec_ret; cbn; done || apply Hplain).
  all: match goal with E : sync_unchallenged _ _ _ = Ok _ |- _ =>
    apply sync_unchallenged_backed in E as [? ?]; [|apply refresh_backed; done] end.
  all: apply spec_ret; cbn; apply refresh_backed; auto.
Qed.

Lemma record_failure_honest i s : honest es s -> honest es (record_game_sync_failure i s).
Proof.
  apply honest_alter. intros g (Hon & Hv & _). by apply refresh_backed.
Qed.

Lemma collect_action_honest pinned now signer acc g :
  backed es g -> Forall action_backed acc ->
  spec (honest es) (collect_action pinned now signer acc g) (Forall action_backed).
Proof.
  intros Hg Hacc. unfold collect_action.
  eapply spec_bind; [by apply spec_attempt, sync_game_honest|].
  intros [a|m] Ha.
  - apply spec_ret. apply Forall_app. by repeat constructor.
  - eapply spec_bind; [apply spec_modify, record_failure_honest|]. intros _ _. by apply spec_ret.
Qed.

Lemma apply_action_honest a s : action_backed a -> honest es s -> honest es (apply_action a s).
Proof.
  intros Ha Hs. destruct a as [g|i]; cbn; (apply honest_games; [|done]); intros j g'.
  - intros [[<- <-]|[_ Hj]]%lookup_insert_Some; [done|]. by apply Hs in Hj.
  - intros [_ Hj]%lookup_delete_Some. by apply Hs in Hj.
Qed.

Lemma values_backed s g : honest es s -> g ∈ values (games s) -> backed es g.
Proof. intros [Hg _] [i Hi]%elem_of_values. by eapply Hg. Qed.

Lemma sync_state_honest : keeps_honest (sync_state config).
Proof.
  unfold sync_state. eapply spec_bind; [apply spec_get_state|]. intros s0 _.
  eapply spec_bind; [apply spec_read|]. intros snapshot _.
  eapply spec_bind; [apply spec_modify; intros s; by apply honest_same|]. intros _ _. cbv zeta.
  eapply spec_bind; [apply spec_get_state|]. intros s1 _.
  eapply spec_bind; [apply spec_for_each; intros; apply retry_discovery_honest|]. intros _ _.
  eapply spec_bind; [apply spec_read|]. intros latest _.
  eapply (spec_bind _ _ _ (fun _ => True)); [|intros _ _].
  { destruct latest as [latest|]; [|by apply spec_ret].
    eapply spec_bind; [apply spec_get_state|]. intros s2 _.
    apply spec_for_each. intros. apply discover_honest. }
  eapply spec_bind; [apply spec_get_state|]. intros s2 Hs2.
  eapply (spec_bind _ _ _ (Forall action_backed)).
  - apply spec_fold_each; [constructor|]. intros acc g Hg Hacc.
    apply collect_action_honest; [|done]. by eapply values_backed.
  - intros actions Ha. apply spec_for_each. intros a Hin.
    apply spec_modify. intros s. apply apply_action_honest.
    rewrite Forall_forall in Ha. by apply Ha.
Qed.

(** A transaction whose request is justified. *)
Lemma submit_honest o :
  (forall tx, o = Ok tx -> justified es tx) -> keeps_honest (submit o).
Proof.
  intros Hj. unfold submit, send. spec_reads.
  eapply spec_bind; [|intros; spec_reads; by apply spec_ret].
  eapply spec_bind; [apply spec_get_state|]. intros s Hs. cbv beta.
  eapply spec_bind; [|intros; apply spec_any with (Q := fun _ => True); by apply spec_lift].
  apply spec_modify. intros s' Hs'. split; [apply Hs'|]. cbn.
  intros tx [->|Hin]%elem_of_cons; [by apply Hj|]. by apply Hs.
Qed.

Lemma challenge_and_clear_honest g :
  grounds es g -> challenge_preflight g = Ok true -> keeps_honest (challenge_and_clear config g).
Proof.
  intros Hg Hp. unfold challenge_and_clear, submit_challenge_transaction_unchecked.
  eapply spec_bind; [apply spec_attempt with (Q := fun _ => True)|].
  - eapply spec_bind; [apply spec_get_state|]. intros s _.
    eapply spec_bind; [apply spec_read|]. intros bond _.
    destruct (disable_monitor_only config) eqn:Hm; [|by apply spec_ret].
    apply submit_honest. intros tx [= <-]. split; [done|]. by exists g, e.
  - intros [[]|m] _; [|by apply spec_ret]. apply spec_modify.
    intros s. apply honest_alter. intros g' (Hon & Hv & _). by apply refresh_backed.
Qed.

Lemma challenge_one_honest g : grounds es g -> keeps_honest (challenge_one config g).
Proof.
  intros Hg. unfold challenge_one.
  eapply spec_bind; [apply spec_attempt, spec_read|].
  intros [[|]|m] Hr; [|by apply spec_ret..]. by apply challenge_and_clear_honest.
Qed.

Lemma flagged_elem (flag : Game -> bool) s g :
  g ∈ flagged flag s <-> flag g = true /\ g ∈ values (games s).
Proof. unfold flagged. rewrite list_elem_of_filter. done. Qed.

Lemma handle_game_challenging_honest :
  malicious_roll (Dice := e_dice e) = false -> keeps_honest (handle_game_challenging config).
Proof.
  intros Hd. unfold handle_game_challenging.
  eapply spec_bind; [apply spec_get_state|]. intros s Hs.
  eapply spec_bind; [apply spec_for_each|].
  - intros g [Hf Hv]%flagged_elem. apply challenge_one_honest.
    destruct (values_backed _ _ Hs Hv) as (Hon & _ & Hc). split; auto.
  - intros _ _. case_match eqn:Hroll; [|by apply spec_ret].
    discriminate (eq_trans (eq_sym Hroll) Hd).
Qed.

Lemma per_flagged_honest flag (body : Game -> M Challenger unit) :
  (forall g, keeps_honest (body g)) ->
  keeps_honest (s ← get_state; for_each (flagged flag s) body).
Proof.
  intros Hb. eapply spec_bind; [apply spec_get_state|]. intros s _. by apply spec_for_each.
Qed.

Lemma resolve_one_honest g : keeps_honest (resolve_one g).
Proof.
  unfold resolve_one, submit_resolution_transaction_unchecked.
  eapply spec_bind; [apply spec_attempt, spec_read|].
  intros [[|]|m] _; try by apply spec_ret.
  eapply spec_bind; [|intros ? _; by apply spec_ret].
  apply spec_attempt, submit_honest. by intros tx [= <-].
Qed.

Lemma close_one_honest g : keeps_honest (close_one g).
Proof.
  unfold close_one, submit_close_game_transaction.
  eapply spec_bind; [apply spec_get_state|]. intros s _.
  case_match; [by apply spec_ret|].
  eapply spec_bind; [apply spec_attempt, submit_honest|].
  - intros tx Htx. unfold close_game_transaction in Htx. ok_inv. by subst.
  - intros [[]|m] _; apply spec_modify; intros s'; by apply honest_same.
Qed.

Lemma claim_one_honest g : keeps_honest (claim_one g).
Proof.
  unfold claim_one, submit_bond_claim_transaction.
  eapply spec_bind; [apply spec_attempt, spec_read|].
  intros [[|]|m] _; try by apply spec_ret.
  eapply spec_bind; [|intros ? _; by apply spec_ret].
  apply spec_attempt, submit_honest. intros tx Htx.
  unfold claim_credit_transaction in Htx. ok_inv. by subst.
Qed.

Lemma run_iteration_honest :
  malicious_roll (Dice := e_dice e) = false -> keeps_honest (run_iteration config).
Proof.
  intros Hd. unfold run_iteration.
  eapply spec_bind; [apply spec_attempt, sync_state_honest|].
  intros [[]|m] _; [|by apply spec_ret].
  eapply spec_bind; [by apply spec_attempt, handle_game_challenging_honest|]. intros _ _.
  eapply spec_bind; [apply spec_attempt, per_flagged_honest, resolve_one_honest|]. intros _ _.
  eapply spec_bind; [apply spec_attempt, per_flagged_honest, close_one_honest|]. intros _ _.
  eapply spec_bind; [apply spec_attempt, per_flagged_honest, claim_one_honest|]. intros _ _.
  by apply spec_ret.
Qed.
End turn.

(** C3: an honest challenger challenges only with grounds. Over any number of
    turns, whatever L1, the wallet and the validator answer in each and
    however often discovery and synchronization fail and are retried, as long
    as the malicious-challenge roll never comes up, every challenge
    transaction it submits was allowed by the configuration (monitor-only
    mode disabled) and is for the address of a game read from the factory in
    some turn, of the configured type and registry and respected when created,
    whose claim as read there (block, output root, L1 head) some validator of
    the run refuted or whose parent as read there some node of the run saw
    lost to a challenger, and which a preflight check of the run found
    eligible (in progress, unchallenged, before the deadline at the latest L1
    head). *)
Theorem challenges_have_grounds es s :
  runs es s -> (forall e, e ∈ es -> malicious_roll (Dice := e_dice e) = false) ->
  forall tx, tx ∈ submitted s -> justified es tx.
Proof.
  intros Hr Hd. enough (honest es s) as [_ Ht] by done.
  induction Hr as [s Hg Hs|es s e Hr IH].
  - split; rewrite ?Hg, ?Hs; [intros i g|intros tx Hin; by apply not_elem_of_nil in Hin].
    by rewrite lookup_empty.
  - assert (Hh : honest (e :: es) s).
    { apply (honest_mono es); [by apply list_subseteq_cons|].
      apply IH. intros e' He'. apply Hd. by right. }
    assert (He : e ∈ e :: es) by left.
    exact (proj1 (run_iteration_honest e (e :: es) He (Hd e He) s Hh)).
Qed.
End run.

(** ** A run *)

Definition sample_challenger_config : ChallengerConfig :=
  {| c_anchor_state_registry_address := 500; c_game_type := 42; disable_monitor_only := true;
     c_sync_l1_confirmations := 2 |}.

Definition challenger_wallet : Wallet := {|
  signer_address := 88;
  estimate_gas _ := Ok 21000;
  send_transaction n _ := Ok {| r_status := true; r_block_number := Some 20;
                                r_created_game := None; r_hash := Z.of_nat n |};
|}.

Definition disputed_game (a block : Z) : SampleGame :=
  {| sg_address := a; sg_parent := u32_max; sg_block := block; sg_status := IN_PROGRESS;
     sg_proposal_status := Unchallenged; sg_deadline := 5000; sg_mode := 0; sg_credit := 0;
     sg_creator := 77; sg_claim := None |}.

(** Two games: the claim on block 0 is right, the one on block 30 is ahead of
    the safe head at its L1 head. *)
Definition sample_env : Env := {|
  e_l1 := sample_l1 20 10 0 [disputed_game 800 0; disputed_game 801 30];
  e_wallet := challenger_wallet;
  e_validator := OPStackGameValidator (N := sample_node) (L2 := sample_l2);
  e_dice := {| malicious_roll := false |};
  e_refutes := op_stack_refutes (N := sample_node) (L2 := sample_l2);
  e_laws := op_stack_laws (N := sample_node) (L2 := sample_l2);
|}.

(** A challenger that has read game 0 and failed on it. *)
Definition sample_challenger : Challenger :=
  with_discovery (Some 0) {[0]} (with_bond (Some 80) new_challenger).

#[local] Instance sample_e_l1 : L1Rpc := e_l1 sample_env.
#[local] Instance sample_e_wallet : Wallet := e_wallet sample_env.
#[local] Instance sample_e_validator : GameValidator := e_validator sample_env.
#[local] Instance sample_e_dice : Dice := e_dice sample_env.

Definition sample_run : Challenger :=
  (iteration sample_challenger_config sample_env sample_challenger).1.
Definition sample_synced : Challenger :=
  (sync_state sample_challenger_config sample_challenger).1.

Example sample_run_submits : submitted sample_run = [TxChallenge 801 80].
Proof. vm_compute. reflexivity. Qed.

Example sample_synced_games :
  validation <$> games sample_synced !! 1 = Some (Invalid ClaimAheadOfLocalSafeHead) /\
  validation <$> games sample_synced !! 0 = Some Valid.
Proof. vm_compute. split; reflexivity. Qed.

Lemma challenges_have_grounds_witness :
  runs sample_challenger_config [sample_env] sample_run /\
  justified sample_challenger_config [sample_env] (TxChallenge 801 80).
Proof.
  assert (Hr : runs sample_challenger_config [sample_env] sample_run).
  { apply (runs_turn _ [] sample_challenger sample_env). by apply runs_start. }
  split; [exact Hr|]. apply (challenges_have_grounds _ [sample_env] sample_run Hr).
  - intros e ->%list_elem_of_singleton. reflexivity.
  - rewrite sample_run_submits. left.
Defined.

Lemma sample_sync_runs :
  sync_state sample_challenger_config sample_challenger = (sample_synced, Ok tt).
Proof. vm_compute. reflexivity. Qed.

(** The first synchronization of a started challenger, without a cursor. *)
Definition sample_first_synced : Challenger :=
  (sync_state sample_challenger_config (with_bond (Some 80) new_challenger)).1.

Lemma sample_first_sync_runs :
  sync_state sample_challenger_config (with_bond (Some 80) new_challenger) =
    (sample_first_synced, Ok tt).
Proof. vm_compute. reflexivity. Qed.

Lemma discovery_keeps_every_index_witness :
  (cursor sample_synced = Some 1 /\
   exists snapshot, l1_sync_snapshot sample_challenger_config 0 = Ok snapshot /\
     forall i, i ∈ pending_discoveries sample_synced <->
       (i ∈ ({[0]} : gset Z) \/ 0 < i /\ i <= 1) /\
       ~ fetched sample_challenger_config (pinned_block snapshot) i) /\
  (cursor sample_first_synced = Some 1 /\
   exists snapshot, l1_sync_snapshot sample_challenger_config 0 = Ok snapshot /\
     forall i, i ∈ pending_discoveries sample_first_synced <->
       (i ∈ (∅ : gset Z) \/ 0 <= i /\ i <= 1) /\
       ~ fetched sample_challenger_config (pinned_block snapshot) i).
Proof.
  split.
  - apply (discovery_keeps_every_index sample_challenger_config sample_challenger sample_synced 1
             sample_sync_runs); [apply indexed_empty|done| |done].
    intros c [= <-]. unfold u256_max. lia.
  - apply (discovery_keeps_every_index sample_challenger_config
             (with_bond (Some 80) new_challenger) sample_first_synced 1
             sample_first_sync_runs); [apply indexed_empty|done| |done].
    intros c [=].
Defined.

Lemma games_synchronized_independently_witness :
  indexed (games sample_synced) /\ submitted sample_synced = [] /\
  exists snapshot latest,
    l1_sync_snapshot sample_challenger_config 0 = Ok snapshot /\
    fetch_latest_game_index (pinned_block snapshot) = Ok latest /\
    forall i, games sample_synced !! i =
      lookup_after sample_challenger_config (pinned_block snapshot)
        (iter_set {[0]} ++ fresh_indices sample_challenger latest) ∅ i
      ≫= settled (pinned_block snapshot) (latest_timestamp snapshot) signer_address.
Proof.
  apply (games_synchronized_independently sample_challenger_config sample_challenger sample_synced
           sample_sync_runs indexed_empty).
Defined.

(** A node 8 blocks behind the accepted head. *)
Lemma confirmed_head_monotone_witness :
  sync_state sample_challenger_config (with_accepted 26 sample_challenger) =
    (with_accepted 26 sample_challenger, Err "L1 confirmed head moved backwards").
Proof.
  apply (confirmed_head_monotone sample_challenger_config) with (latest := sample_header 20);
    [reflexivity|]. vm_compute. reflexivity.
Defined.

Definition sample_disputed : Game :=
  refresh {| index := 1; address := 801; parent_index := u32_max; l2_block_number := 30;
             output_root := 0; l1_head := 1000; deadline := 5000; status := IN_PROGRESS;
             validation := Unavailable ValidationPending; proposal_status := Unchallenged;
             should_attempt_to_challenge := false; should_attempt_to_resolve := false;
             should_attempt_to_close_game := false; should_attempt_to_claim_bond := false |}
    IN_PROGRESS Unchallenged 5000 (Unavailable ValidationPending) false false false false.

Lemma sync_game_flags_witness :
  exists g', sync_result sample_disputed AtLatest 240 88 = Ok (Update g') /\
    is_invalid (validation g') = true /\ should_attempt_to_challenge g' = true.
Proof.
  eexists. split; [vm_compute; reflexivity|]. split; [reflexivity|].
  match goal with |- should_attempt_to_challenge ?g' = true =>
    pose proof (sync_game_flags sample_disputed AtLatest 240 88 (Update g') IN_PROGRESS
      {| parentIndex := u32_max; counteredBy := 0; claim_prover := 0; claim := 0;
         claim_status := Unchallenged; claim_deadline := 5000 |}) as Hf end.
  destruct Hf as (_ & _ & _ & _ & _ & _ & _ & _ & _ & Hc & _);
    [vm_compute; reflexivity|reflexivity|reflexivity|].
  apply Hc. split_and!; [done|done|cbn; lia|left; reflexivity].
Defined.
