(* ===== verification/Interleaving.v ===== *)
(** * Programs whose steps interleave

    The validity proposer runs a loop and many proof tasks over one database,
    one task map and one map of cluster handles. A [prog] is a computation cut
    into atomic actions on that shared state (a database statement, a remote
    call, an access under a lock); between two actions of a program the other
    programs, and the environment, may move the state.

    [run] executes a program alone. [guar] says what every action does to the
    state, whoever runs in between. [wp] reasons about one program under
    interference: [R] is what the others may do between two actions, [G] what
    the program itself promises of each action. *)

From S2P Require Import Prelude.

Inductive prog (W A : Type) : Type :=
| Ret (o : outcome A)
| Act (X : Type) (q : W -> W * X) (k : X -> prog W A).
Arguments Ret {W A} _.
Arguments Act {W A} _ _ _.

Fixpoint prog_bind {W A B} (p : prog W A) (f : A -> prog W B) : prog W B :=
  match p with
  | Ret (Ok a) => f a
  | Ret (Err e) => Ret (Err e)
  | Ret Panic => Ret Panic
  | Act X q k => Act X q (fun x => prog_bind (k x) f)
  end.
#[global] Instance prog_ret W : MRet (prog W) := fun A a => Ret (Ok a).
#[global] Instance prog_mbind W : MBind (prog W) := fun A B f p => prog_bind p f.

(** One atomic action, and its outcome. *)
Definition act {W A} (q : W -> W * outcome A) : prog W A := Act (outcome A) q Ret.
Definition done {W A} (o : outcome A) : prog W A := Ret o.

(** [match p.await { Ok(a) => .., Err(e) => .. }]: a panic still unwinds. *)
Fixpoint catch {W A} (p : prog W A) : prog W (A + string) :=
  match p with
  | Ret (Ok a) => Ret (Ok (inl a))
  | Ret (Err e) => Ret (Ok (inr e))
  | Ret Panic => Ret Panic
  | Act X q k => Act X q (fun x => catch (k x))
  end.

Fixpoint each {W A} (l : list A) (body : A -> prog W unit) : prog W unit :=
  match l with
  | [] => mret tt
  | x :: l' => body x ≫= fun _ => each l' body
  end.

Fixpoint fold {W A B} (l : list A) (acc : B) (body : B -> A -> prog W B) : prog W B :=
  match l with
  | [] => mret acc
  | x :: l' => body acc x ≫= fun acc' => fold l' acc' body
  end.

(** ** Running alone *)

Fixpoint run {W A} (p : prog W A) : M W A := fun s =>
  match p with
  | Ret o => (s, o)
  | Act X q k => let '(s', x) := q s in run (k x) s'
  end.

Lemma run_bind {W A B} (p : prog W A) (f : A -> prog W B) s :
  run (p ≫= f) s = ((run p : M W A) ≫= fun a => run (f a)) s.
Proof.
  unfold mbind at 1, prog_mbind. revert s.
  induction p as [[a|e|]|X q k IH]; intros s; cbn; [done..|].
  unfold mbind, M_bind in *. destruct (q s) as [s' x]. apply IH.
Qed.

Lemma run_bind_Ok {W A B} (p : prog W A) (f : A -> prog W B) s s' b :
  run (p ≫= f) s = (s', Ok b) <->
  exists s1 a, run p s = (s1, Ok a) /\ run (f a) s1 = (s', Ok b).
Proof. rewrite run_bind. apply M_bind_Ok. Qed.

(** A run of a sequence ends in its first part, or goes on. *)
Lemma run_bind_cases {W A B} (p : prog W A) (f : A -> prog W B) s s' o :
  run (p ≫= f) s = (s', o) ->
  (exists s1 a, run p s = (s1, Ok a) /\ run (f a) s1 = (s', o)) \/
  (exists o1, run p s = (s', o1) /\ (forall a, o1 <> Ok a) /\ forall b, o <> Ok b).
Proof.
  rewrite run_bind. unfold mbind, M_bind. destruct (run p s) as [s1 [a|e|]]; intros H.
  - left. by exists s1, a.
  - right. injection H as <- <-. by exists (Err e).
  - right. injection H as <- <-. by exists Panic.
Qed.

Lemma run_act {W A} (q : W -> W * outcome A) s : run (act q) s = q s.
Proof. cbn. by destruct (q s). Qed.

Lemma run_catch {W A} (p : prog W A) s : run (catch p) s = attempt (run p) s.
Proof.
  revert s. induction p as [[a|e|]|X q k IH]; intros s; cbn; [done..|].
  unfold attempt in *. cbn. destruct (q s) as [s' x]. apply IH.
Qed.

(** ** A program on a part of the state *)

Fixpoint within {W V A} (get : W -> V) (put : V -> W -> W) (p : prog V A) : prog W A :=
  match p with
  | Ret o => Ret o
  | Act X q k => Act X (fun w => let '(v, x) := q (get w) in (put v w, x)) (fun x => within get put (k x))
  end.

Lemma run_within {W V A} (get : W -> V) (put : V -> W -> W) (p : prog V A) w :
  (forall w, put (get w) w = w) -> (forall v w, get (put v w) = v) -> (forall v v' w, put v (put v' w) = put v w) ->
  run (within get put p) w = (put (run p (get w)).1 w, (run p (get w)).2).
Proof.
  intros Hpg Hgp Hpp. revert w. induction p as [o|X q k IH]; intros w; cbn; [by rewrite Hpg|].
  destruct (q (get w)) as [v x]. rewrite IH, Hgp. by rewrite Hpp.
Qed.

(** ** Running beside each other *)

(** One action of a program that has not ended. *)
Definition one_action {W A} (p : prog W A) (s : W) : W * prog W A :=
  match p with
  | Ret _ => (s, p)
  | Act X q k => let '(s', x) := q s in (s', k x)
  end.

(** Several programs on one state, an action of the scheduled one at a time. *)
Fixpoint interleave {W A} (schedule : list nat) (threads : list (prog W A)) (s : W) : W * list (prog W A) :=
  match schedule with
  | [] => (s, threads)
  | i :: schedule =>
      match threads !! i with
      | Some p => let '(s', p') := one_action p s in interleave schedule (<[i := p']> threads) s'
      | None => interleave schedule threads s
      end
  end.

(** Splits a successful run into the runs of its parts. *)
Ltac run_inv :=
  repeat match goal with
  | H : run (mbind _ _) _ = (_, Ok _) |- _ =>
      apply run_bind_Ok in H; destruct H as (? & ? & ? & H)
  | H : run (act _) _ = (_, Ok _) |- _ => rewrite run_act in H
  | H : run (mret _) _ = (_, Ok _) |- _ => injection H as ? ?; subst
  | H : run (done _) _ = (_, Ok _) |- _ => injection H as ? H; subst
  | H : run (Ret _) _ = (_, Ok _) |- _ => injection H as ? H; subst
  | x : unit |- _ => destruct x
  end.

(** ** What every action does *)

Section guar.
Context {W : Type} (G : relation W).

Fixpoint guar {A} (p : prog W A) : Prop :=
  match p with
  | Ret _ => True
  | Act X q k => (forall s, G s (q s).1) /\ forall x, guar (k x)
  end.

Lemma guar_ret {A} (a : A) : guar (mret a).
Proof. done. Qed.

Lemma guar_done {A} (o : outcome A) : guar (done o).
Proof. done. Qed.

Lemma guar_act {A} (q : W -> W * outcome A) : (forall s, G s (q s).1) -> guar (act q).
Proof. done. Qed.

Lemma guar_bind {A B} (p : prog W A) (f : A -> prog W B) :
  guar p -> (forall a, guar (f a)) -> guar (p ≫= f).
Proof.
  unfold mbind, prog_mbind. intros Hp Hf. induction p as [[a|e|]|X q k IH]; cbn; [done..|].
  destruct Hp as [Hq Hk]. split; [done|]. intros x. by apply IH.
Qed.

Lemma guar_catch {A} (p : prog W A) : guar p -> guar (catch p).
Proof.
  induction p as [[a|e|]|X q k IH]; cbn; [done..|].
  intros [Hq Hk]. split; [done|]. intros x. by apply IH.
Qed.

Lemma guar_each {A} (l : list A) body : (forall x, guar (body x)) -> guar (each l body).
Proof.
  intros Hb. induction l as [|x l IH]; cbn; [done|]. by apply guar_bind.
Qed.

Lemma guar_fold {A B} (l : list A) (acc : B) body :
  (forall b x, guar (body b x)) -> guar (fold l acc body).
Proof.
  intros Hb. revert acc. induction l as [|x l IH]; intros acc; cbn; [done|]. by apply guar_bind.
Qed.

Lemma guar_run {A} `{!PreOrder G} (p : prog W A) s : guar p -> G s (run p s).1.
Proof.
  revert s. induction p as [o|X q k IH]; intros s; cbn; [reflexivity|].
  intros [Hq Hk]. specialize (Hq s). destruct (q s) as [s' x]. cbn in *.
  etrans; [exact Hq|]. by apply IH.
Qed.
End guar.

(** ** What a program can return, whatever it is answered *)

Fixpoint yields {W A} (P : A -> Prop) (p : prog W A) : Prop :=
  match p with
  | Ret (Ok a) => P a
  | Ret _ => True
  | Act X q k => forall x, yields P (k x)
  end.

Lemma yields_any {W A} (p : prog W A) : yields (fun _ => True) p.
Proof. induction p as [[]|]; cbn; auto. Qed.

Lemma yields_mono {W A} (P P' : A -> Prop) (p : prog W A) :
  (forall a, P a -> P' a) -> yields P p -> yields P' p.
Proof. intros HP. induction p as [[]|X q k IH]; cbn; auto. Qed.

Lemma yields_bind {W A B} (P : A -> Prop) (Q : B -> Prop) (p : prog W A) (f : A -> prog W B) :
  yields P p -> (forall a, P a -> yields Q (f a)) -> yields Q (p ≫= f).
Proof.
  unfold mbind, prog_mbind. intros Hp Hf. induction p as [[a|e|]|X q k IH]; cbn in *; auto.
Qed.

Lemma yields_fold {W A B} (P : B -> Prop) (l : list A) (acc : B) (body : B -> A -> prog W B) :
  P acc -> (forall b x, P b -> yields P (body b x)) -> yields P (fold l acc body).
Proof.
  intros Hacc Hb. revert acc Hacc. induction l as [|x l IH]; intros acc Hacc; cbn; [done|].
  eapply yields_bind; [by apply Hb|]. done.
Qed.

Lemma yields_run {W A} (P : A -> Prop) (p : prog W A) s s' a :
  yields P p -> run p s = (s', Ok a) -> P a.
Proof.
  revert s. induction p as [o|X q k IH]; intros s; cbn.
  - intros Hp [= <- ->]. exact Hp.
  - intros Hp. destruct (q s) as [s1 x]. by apply IH.
Qed.

(** A promise of a continuation that only meets the results [P]. *)
Lemma guar_bind_yields {W A B} (G : relation W) (P : A -> Prop) (p : prog W A) (f : A -> prog W B) :
  guar G p -> yields P p -> (forall a, P a -> guar G (f a)) -> guar G (p ≫= f).
Proof.
  unfold mbind, prog_mbind. intros Hp Hy Hf. induction p as [[a|e|]|X q k IH]; cbn in *; auto.
  destruct Hp as [Hq Hk]. split; [done|]. intros x. by apply IH.
Qed.

Lemma guar_mono {W A} (G G' : relation W) (p : prog W A) :
  (forall s s', G s s' -> G' s s') -> guar G p -> guar G' p.
Proof.
  intros HG. induction p as [o|X q k IH]; cbn; [done|].
  intros [Hq Hk]. split; [auto|]. intros x. by apply IH.
Qed.

Create HintDb guar.
#[export] Hint Resolve guar_ret guar_done : guar.

(** Walks through a program and leaves its actions to the [guar] database. *)
Ltac guar_step :=
  match goal with
  | |- guar _ (mbind _ _) => apply guar_bind; [|intros ?]
  | |- guar _ (each _ _) => apply guar_each; intros ?
  | |- guar _ (fold _ _ _) => apply guar_fold; intros ? ?
  | |- guar _ (catch _) => apply guar_catch
  | |- guar _ (match ?x with _ => _ end) => destruct x
  | |- guar _ (if ?x then _ else _) => destruct x
  | |- guar _ _ => solve [eauto with guar]
  end.
Ltac guar_tac := repeat (guar_step; cbn beta iota zeta).

(** ** Reasoning under interference *)

Section wp.
Context {W : Type} (R G : relation W) `{!PreOrder R}.

(** [p], started now, keeps the promise [G] at each of its actions and ends in
    a state where [Q] holds, if the others only move the state along [R]
    between two of its actions. *)
Fixpoint wp {A} (p : prog W A) (Q : outcome A -> W -> Prop) (s : W) : Prop :=
  match p with
  | Ret o => Q o s
  | Act X q k => G s (q s).1 /\ forall s', R (q s).1 s' -> wp (k (q s).2) Q s'
  end.

Lemma wp_mono {A} (p : prog W A) (Q Q' : outcome A -> W -> Prop) s :
  wp p Q s -> (forall o s, Q o s -> Q' o s) -> wp p Q' s.
Proof.
  intros Hp HQ. revert s Hp. induction p as [o|X q k IH]; intros s; cbn; [auto|].
  intros [HG Hk]. split; [done|]. intros s' Hs'. apply IH. by apply Hk.
Qed.

Lemma wp_bind {A B} (p : prog W A) (f : A -> prog W B) (Q : outcome B -> W -> Prop) s :
  wp p (fun o s => match o with
                   | Ok a => wp (f a) Q s
                   | Err e => Q (Err e) s
                   | Panic => Q Panic s
                   end) s ->
  wp (p ≫= f) Q s.
Proof.
  unfold mbind, prog_mbind. revert s. induction p as [[a|e|]|X q k IH]; intros s; cbn; [done..|].
  intros [HG Hk]. split; [done|]. intros s' Hs'. apply IH. by apply Hk.
Qed.

Lemma wp_act {A} (q : W -> W * outcome A) (Q : outcome A -> W -> Prop) s :
  G s (q s).1 -> (forall s', R (q s).1 s' -> Q (q s).2 s') -> wp (act q) Q s.
Proof. by split. Qed.

Lemma wp_catch {A} (p : prog W A) (Q : outcome (A + string) -> W -> Prop) s :
  wp p (fun o s => match o with
                   | Ok a => Q (Ok (inl a)) s
                   | Err e => Q (Ok (inr e)) s
                   | Panic => Q Panic s
                   end) s ->
  wp (catch p) Q s.
Proof.
  revert s. induction p as [[a|e|]|X q k IH]; intros s; cbn; [done..|].
  intros [HG Hk]. split; [done|]. intros s' Hs'. apply IH. by apply Hk.
Qed.

(** A stable invariant carries a loop. *)
Lemma wp_each {A} (l : list A) (body : A -> prog W unit) (I : W -> Prop)
    (Q : outcome unit -> W -> Prop) s :
  I s ->
  (forall x s, x ∈ l -> I s -> wp (body x) (fun o s => match o with Ok _ => I s | _ => Q o s end) s) ->
  (forall s, I s -> Q (Ok tt) s) -> wp (each l body) Q s.
Proof.
  revert s. induction l as [|x l IH]; intros s Hs Hb HQ; cbn; [by apply HQ|].
  apply wp_bind. eapply wp_mono; [apply Hb; [left|done]|].
  intros [[]|e|] s1 Hs1; [|done..].
  apply IH; [done| |done]. intros y s2 Hy. apply Hb. by right.
Qed.

(** Actions that keep the promise whatever the state need no precondition. *)
Lemma wp_guar {A} (p : prog W A) s : guar G p -> wp p (fun _ _ => True) s.
Proof.
  revert s. induction p as [o|X q k IH]; intros s; cbn; [done|].
  intros [HG Hk]. split; [done|]. intros s' Hs'. by apply IH.
Qed.

(** Run alone, it takes the steps it promises. *)
Lemma wp_run {A} (p : prog W A) (Q : outcome A -> W -> Prop) s :
  wp p Q s -> rtc G s (run p s).1 /\ Q (run p s).2 (run p s).1.
Proof.
  revert s. induction p as [o|X q k IH]; intros s; cbn; [by split; [reflexivity|]|].
  intros [HG Hk]. specialize (Hk _ ltac:(reflexivity)). apply IH in Hk. destruct (q s) as [s1 x]. cbn in *.
  destruct Hk as [Hk ?]. split; [by econstructor|done].
Qed.

(** A stable fact that the program itself keeps is kept to the end. *)
Lemma wp_frame {A} (p : prog W A) (I : W -> Prop) (Q : outcome A -> W -> Prop) s :
  (forall s s', I s -> R s s' -> I s') -> (forall s s', I s -> G s s' -> I s') ->
  I s -> wp p Q s -> wp p (fun o s => I s /\ Q o s) s.
Proof.
  intros HR HG. revert s. induction p as [o|X q k IH]; intros s Hs; cbn; [done|].
  intros [HGq Hk]. split; [done|]. intros s' Hs'. apply IH; [|by apply Hk].
  eapply HR; [|exact Hs']. by eapply HG.
Qed.

(** Between two actions the others move the state, and nothing is lost. *)
Definition poised {A} (p : prog W A) (Q : outcome A -> W -> Prop) (s : W) : Prop :=
  forall s', R s s' -> wp p Q s'.

Lemma poised_interfere {A} (p : prog W A) Q s s' : poised p Q s -> R s s' -> poised p Q s'.
Proof. intros Hp Hs s2 Hs2. apply Hp. by etrans. Qed.

Lemma poised_step {A} X q k (Q : outcome A -> W -> Prop) s :
  poised (Act X q k) Q s -> G s (q s).1 /\ poised (k (q s).2) Q (q s).1.
Proof.
  intros Hp. destruct (Hp s ltac:(reflexivity)) as [HG Hk]. split; [done|].
  intros s' Hs'. by apply Hk.
Qed.
End wp.

Lemma wp_weaken {W A} (R G G' : relation W) (p : prog W A) Q s :
  (forall s s', G s s' -> G' s s') -> wp R G p Q s -> wp R G' p Q s.
Proof.
  intros HG. revert s. induction p as [o|X q k IH]; intros s; cbn; [done|].
  intros [Hq Hk]. split; [by apply HG|]. intros s' Hs'. apply IH. by apply Hk.
Qed.

(** A program whose every action keeps [I], run where the others keep it. *)
Lemma wp_invariant {W A} (R G G' : relation W) (p : prog W A) (I : W -> Prop) s :
  (forall s s', I s -> R s s' -> I s') -> (forall s s', I s -> G' s s' -> I s') ->
  (forall s s', G' s s' -> G s s') ->
  guar G' p -> I s -> wp R G p (fun _ s => I s) s.
Proof.
  intros HR HG' HG Hp Hs. apply (wp_weaken _ G'); [done|].
  eapply wp_mono; [apply (wp_frame _ _ p I (fun _ _ => True) s HR HG' Hs); by apply wp_guar|]. by intros ? ? [? _].
Qed.
