(* ===== verification/Fetcher.v ===== *)
(** * The data fetcher

    [utils/host/src/fetcher.rs] and [utils/host/src/l1_selection.rs]: which L1
    block the services anchor a proof to, which L2 blocks are provable under
    that selection, the two binary searches, the headers an aggregation proof
    is given, and the output roots. Each method is a [prog] over the nodes'
    state ([Rpc]): between two calls the nodes may move on. Requests sent
    together ([buffered]) are made one after the other; [run] is a method
    against nodes that stand still.

    The JSON codec, keccak and the HTTP client are parameters: a remote
    procedure is a function of the nodes' state. Numbers are [u64], and
    arithmetic on them wraps as it does in a release build. *)

From S2P Require Import Prelude.
From S2P Require Import AggregationProgram.
From S2P Require Import ValidityRanges.
From S2P Require Import Interleaving.

(** ** L1 block selection *)

Inductive L1BlockTag := TagFinalized | TagSafe | TagLatest.

Inductive BlockId := Finalized | Safe | Latest | Number (n : Z) | Hash (h : Z).

Definition to_block_id (tag : L1BlockTag) : BlockId :=
  match tag with TagFinalized => Finalized | TagSafe => Safe | TagLatest => Latest end.

Record L1BlockSelectionConfig := { tag : L1BlockTag; confirmations : Z }.

Definition default_selection : L1BlockSelectionConfig := {| tag := TagFinalized; confirmations := 0 |}.

Definition is_default (c : L1BlockSelectionConfig) : bool :=
  match tag c with TagFinalized => confirmations c =? 0 | _ => false end.

(** A Rust string is a list of Unicode code points. *)
Definition is_whitespace (c : Z) : bool :=
  (9 <=? c) && (c <=? 13) || (c =? 32) || (c =? 133) || (c =? 160) || (c =? 5760) ||
  (8192 <=? c) && (c <=? 8202) || (c =? 8232) || (c =? 8233) || (c =? 8239) || (c =? 8287) ||
  (c =? 12288).

Fixpoint trim_start (s : list Z) : list Z :=
  match s with c :: s' => if is_whitespace c then trim_start s' else s | [] => [] end.
Definition trim (s : list Z) : list Z := reverse (trim_start (reverse (trim_start s))).

Definition to_ascii_lowercase (c : Z) : Z := if (65 <=? c) && (c <=? 90) then c + 32 else c.

Fixpoint codes (s : string) : list Z :=
  match s with
  | EmptyString => []
  | String c s' => Z.of_nat (Ascii.nat_of_ascii c) :: codes s'
  end.

(** [FromStr for L1BlockTag] *)
Definition tag_from_str (s : list Z) : outcome L1BlockTag :=
  let s := to_ascii_lowercase <$> trim s in
  if decide (s = codes "finalized") then Ok TagFinalized
  else if decide (s = codes "safe") then Ok TagSafe
  else if decide (s = codes "latest") then Ok TagLatest
  else Err "invalid L1_BLOCK_TAG value".

(** [str::parse::<u64>]: an optional plus sign and at least one digit, within
    the range. *)
Fixpoint parse_digits (acc : Z) (s : list Z) : option Z :=
  match s with
  | [] => Some acc
  | c :: s' =>
      if (48 <=? c) && (c <=? 57) then
        let acc := 10 * acc + (c - 48) in
        if u64_max <? acc then None else parse_digits acc s'
      else None
  end.
Definition parse_u64 (s : list Z) : option Z :=
  let digits := match s with 43 :: s' => s' | _ => s end in
  match digits with [] => None | _ => parse_digits 0 digits end.

(** [env::var] *)
Inductive EnvVar := Present (s : list Z) | NotPresent | NotUnicode.

Definition from_env (l1_block_tag l1_confirmations : EnvVar) : outcome L1BlockSelectionConfig :=
  tag ← match l1_block_tag with
        | Present raw => map_err (fun _ => "failed to parse L1_BLOCK_TAG from environment") (tag_from_str raw)
        | NotPresent => Ok TagFinalized
        | NotUnicode => Err "L1_BLOCK_TAG is set but is not valid UTF-8"
        end;
  confirmations ← match l1_confirmations with
        | Present raw => with_context "invalid L1_CONFIRMATIONS value" (parse_u64 (trim raw))
        | NotPresent => Ok 0
        | NotUnicode => Err "L1_CONFIRMATIONS is set but is not valid UTF-8"
        end;
  Ok {| tag := tag; confirmations := confirmations |}.

Definition from_env_or_default (l1_block_tag l1_confirmations : EnvVar) : outcome L1BlockSelectionConfig :=
  match from_env l1_block_tag l1_confirmations with
  | Ok cfg => Ok cfg
  | _ => Panic
  end.

(** ** Remote procedures *)

(** A block as the node returns it: its header, the hash the node gives for
    it, and what [get_l2_block_data_range] reads of it. *)
Record Block := { header : Header; hash : Z; transactions : Z; header_gas_used : Z }.

Record TxReceipt := { effective_gas_price : Z; receipt_gas_used : Z; l1_fee : option Z }.

Record SafeHeadResponse := { l1_block_number : Z; l1_block_hash : Z; safe_head_number : Z }.
Record OutputResponse := { output_root : Z; l1_origin_number : Z }.

(** The body of a JSON-RPC response: the [error] object with its code (if it
    is an integer) and message (if it is a string), and whether there is a
    [result] and it parses as a [SafeHeadResponse]. *)
Record JsonRpcError := { code : option Z; message : option (list Z) }.
Record JsonRpcResponse := { error : option JsonRpcError; result : option (option SafeHeadResponse) }.

Record Rpc := {
  l1_get_block : BlockId -> outcome (option Block);
  l2_get_block : BlockId -> outcome (option Block);
  l2_get_block_receipts : Z -> outcome (option (list TxReceipt));
  message_passer_storage_hash : Z -> outcome Z;  (** [eth_getProof] at a block *)
  optimism_outputAtBlock : Z -> outcome OutputResponse;
  optimism_safeHeadAtL1Block : Z -> outcome SafeHeadResponse;
  safeHeadAtL1Block_raw : Z -> outcome JsonRpcResponse;
}.

(** Constant functions of third-party code. *)
Class Hashing := {
  EMPTY_ROOT_HASH : Z;
  keccak_output : Z -> Z -> Z -> Z;  (** of the encoded [L2Output] *)
}.

Notation Fetch := (prog Rpc).
Definition call {A} (f : Rpc -> outcome A) : Fetch A := act (fun s => (s, f s)).

(** [stream::iter(l).map(f).buffered(10).collect::<Vec<Result<_>>>()] *)
Definition buffered {A B} (l : list A) (f : A -> Fetch B) : Fetch (list (B + string)) :=
  fold l [] (fun acc x => r ← catch (f x); mret (acc ++ [r])).

(** [into_iter().collect::<Result<Vec<_>>>()] *)
Fixpoint collect {B} (l : list (B + string)) : outcome (list B) :=
  match l with
  | [] => Ok []
  | inl b :: l' => bs ← collect l'; Ok (b :: bs)
  | inr e :: _ => Err e
  end.

(** Searches halve a [u64] interval: enough fuel for any of them. *)
Definition SEARCH_FUEL : nat := 65.

Section fetcher.
Context `{HeaderHash, Hashing} (rollup_config : option Z) (l1_selection : L1BlockSelectionConfig).

Definition get_l1_header (block_number : BlockId) : Fetch Header :=
  block ← call (fun n => l1_get_block n block_number);
  done (with_context "Failed to get L1 header for block" (header <$> block)).

Definition get_l2_header (block_number : BlockId) : Fetch Header :=
  block ← call (fun n => l2_get_block n block_number);
  done (with_context "Failed to get L1 header for block" (header <$> block)).

Definition get_l2_head : Fetch Header :=
  block ← call (fun n => l2_get_block n Latest);
  done (with_context "Failed to get L2 head" (header <$> block)).

Definition resolve_selected_l1_header : Fetch Header :=
  base ← get_l1_header (to_block_id (tag l1_selection));
  if confirmations l1_selection =? 0 then mret base
  else
    let target_number := saturating_sub (number base) (confirmations l1_selection) in
    if target_number =? number base then mret base
    else get_l1_header (Number target_number).

Definition get_l2_safe_head_from_l1_block_number (l1_block_number : Z) : Fetch Z :=
  result ← call (fun n => optimism_safeHeadAtL1Block n l1_block_number);
  mret (safe_head_number result).

Definition get_max_provable_l2_block_number : Fetch Z :=
  if is_default l1_selection then
    header ← get_l2_header Finalized; mret (number header)
  else
    resolved_l1 ← resolve_selected_l1_header;
    get_l2_safe_head_from_l1_block_number (number resolved_l1).

(** ** SafeDB *)

Definition JSON_RPC_METHOD_NOT_FOUND : Z := -32601.

Fixpoint starts_with (p s : list Z) : bool :=
  match p, s with
  | [], _ => true
  | a :: p', b :: s' => (a =? b) && starts_with p' s'
  | _, _ => false
  end.
Fixpoint contains (p s : list Z) : bool :=
  starts_with p s || match s with [] => false | _ :: s' => contains p s' end.

(** [message.to_lowercase().contains("safedb")]: no code point beyond ASCII
    has one of these letters as its lower case. *)
Definition names_safedb (message : list Z) : bool :=
  contains (codes "safedb") (to_ascii_lowercase <$> message).

Definition classify_safe_db_probe_outcome (response : JsonRpcResponse) : outcome bool :=
  match error response with
  | Some error =>
      let message := default (codes "Unknown error") (message error) in
      if bool_decide (code error = Some JSON_RPC_METHOD_NOT_FOUND) then Ok false
      else if names_safedb message then Ok false
      else Err "Error calling optimism_safeHeadAtL1Block"
  | None =>
      match result response with
      | None => Err "Malformed JSON-RPC response for optimism_safeHeadAtL1Block"
      | Some None => Err "Malformed optimism_safeHeadAtL1Block result: expected SafeHeadResponse"
      | Some (Some _) => Ok true
      end
  end.

Definition is_safe_db_activated : Fetch bool :=
  finalized_l1_header ← get_l1_header Finalized;
  response ← call (fun n => safeHeadAtL1Block_raw n (number finalized_l1_header));
  done (classify_safe_db_probe_outcome response).

Definition validate_l1_selection : Fetch unit :=
  if is_default l1_selection then mret tt
  else
    activated ← is_safe_db_activated;
    if negb activated then done (Err "requires SafeDB to be activated on op-node") else mret tt.

(** ** Searches *)

(** The [while low <= high] loop over timestamps, and the lookup after it. *)
Fixpoint search_timestamp (get_block : Z -> Fetch (option Block)) (fuel : nat)
    (target_timestamp low high : Z) : Fetch (Z * Z) :=
  if low <=? high then
    match fuel with
    | O => done Panic
    | S fuel =>
        let mid := wrap64 (low + high) / 2 in
        block ← get_block mid;
        match block with
        | Some block =>
            match timestamp (header block) ?= target_timestamp with
            | Eq => mret (hash block, number (header block))
            | Lt => search_timestamp get_block fuel target_timestamp (wrap64 (mid + 1)) high
            | Gt => search_timestamp get_block fuel target_timestamp low (wrap64 (mid - 1))
            end
        | None => done (Err "Failed to get block for block")
        end
    end
  else
    block ← get_block low;
    match block with
    | Some block => mret (hash block, number (header block))
    | None => done (Err "Failed to get block for block")
    end.

Definition find_block_by_timestamp (get_block : Z -> Fetch (option Block))
    (target_timestamp upper_bound_block : Z) : Fetch (Z * Z) :=
  search_timestamp get_block SEARCH_FUEL target_timestamp 0 upper_bound_block.

Definition find_l1_block_by_timestamp (target_timestamp : Z) : Fetch (Z * Z) :=
  upper_bound_block ← resolve_selected_l1_header;
  find_block_by_timestamp (fun i => call (fun n => l1_get_block n (Number i))) target_timestamp
    (number upper_bound_block).

Definition find_l2_block_by_timestamp (target_timestamp : Z) : Fetch (Z * Z) :=
  block ← call (fun n => l2_get_block n Finalized);
  upper_bound_block ← done (with_context
    "Failed to get finalized L2 block for timestamp search bound" block);
  find_block_by_timestamp (fun i => call (fun n => l2_get_block n (Number i))) target_timestamp
    (number (header upper_bound_block)).

(** The binary search of [get_safe_l1_block_for_l2_block]. *)
Fixpoint search_safe_head (fuel : nat) (l2_end_block low high : Z) (first_valid : option (Z * Z))
    : Fetch (option (Z * Z)) :=
  if low <=? high then
    match fuel with
    | O => done Panic
    | S fuel =>
        let mid := low + (high - low) / 2 in
        result ← call (fun n => optimism_safeHeadAtL1Block n mid);
        if l2_end_block <=? safe_head_number result then
          search_safe_head fuel l2_end_block low (wrap64 (mid - 1))
            (Some (l1_block_hash result, l1_block_number result))
        else search_safe_head fuel l2_end_block (wrap64 (mid + 1)) high first_valid
    end
  else mret first_valid.

Definition get_safe_l1_block_for_l2_block (l2_end_block : Z) : Fetch (Z * Z) :=
  latest_l1_header ← resolve_selected_l1_header;
  optimism_output_data ← call (fun n => optimism_outputAtBlock n l2_end_block);
  first_valid ← search_safe_head SEARCH_FUEL l2_end_block (l1_origin_number optimism_output_data)
    (number latest_l1_header) None;
  done (with_context
    "Could not find an L1 block with an L2 safe head greater than the L2 end block." first_valid).

Definition max_batch_post_delay_minutes : Z := 40.

Definition get_l1_head (l2_end_block : Z) (safe_db_fallback : bool) : Fetch (Z * Z) :=
  match rollup_config with
  | None => done (Err "Rollup config not loaded.")
  | Some _ =>
      safe_head ← catch (get_safe_l1_block_for_l2_block l2_end_block);
      match safe_head with
      | inl safe_head => mret safe_head
      | inr _ =>
          if safe_db_fallback then
            l2_block ← get_l2_header (Number l2_end_block);
            upper_bound ← resolve_selected_l1_header;
            let target_timestamp :=
              Z.min (wrap64 (timestamp l2_block + max_batch_post_delay_minutes * 60))
                (timestamp upper_bound) in
            find_l1_block_by_timestamp target_timestamp
          else done (Err "SafeDB is not activated on your op-node")
      end
  end.

Definition calculate_safe_l1_head (l2_end_block : Z) (safe_db_fallback : bool) : Fetch Z :=
  l1_head ← get_l1_head l2_end_block safe_db_fallback;
  let l1_head_number := wrap64 (l1_head.2 + 20) in
  selected_l1 ← resolve_selected_l1_header;
  let safe_l1_head_number := Z.min l1_head_number (number selected_l1) in
  header ← get_l1_header (Number safe_l1_head_number);
  mret (hash_slow header).

(** ** Block data *)

(** The sums of [u128] fees. *)
Definition sum_u128 (l : list Z) : Z := foldl (fun acc x => (acc + x) mod 2 ^ 128) 0 l.
Definition total_fees (receipts : list TxReceipt) : Z * Z :=
  (sum_u128 ((fun tx => default 0 (l1_fee tx)) <$> receipts),
   sum_u128 ((fun tx => ((effective_gas_price tx * receipt_gas_used tx) mod 2 ^ 128 +
                         default 0 (l1_fee tx)) mod 2 ^ 128) <$> receipts)).

Definition block_data (block_number : Z) : Fetch BlockInfo :=
  block ← call (fun n => l2_get_block n (Number block_number));
  block ← done (unwrap block);
  receipts ← catch (call (fun n => l2_get_block_receipts n block_number));
  let fees := match receipts with
              | inl (Some receipts) => total_fees receipts
              | inl None | inr _ => (0, 0)
              end in
  mret {| block_number := block_number; transaction_count := transactions block;
          gas_used := header_gas_used block; total_l1_fees := fees.1; total_tx_fees := fees.2 |}.

Definition get_l2_block_data_range (start end_ : Z) : Fetch (list BlockInfo) :=
  let first := wrap64 (start + 1) in
  results ← buffered (seqZ first (end_ + 1 - first)) block_data;
  done (collect results).

(** ** Headers of an aggregation proof *)

(** The loop of [get_earliest_l1_head_in_batch] over its two variables. *)
Fixpoint earliest_loop (boot_infos : list BootInfoStruct) (earliest_block_num : Z)
    (earliest_l1_header : option Header) : Fetch (option Header) :=
  match boot_infos with
  | [] => mret earliest_l1_header
  | boot_info :: rest =>
      l1_block_header ← get_l1_header (Hash (l1Head boot_info));
      if number l1_block_header <? earliest_block_num
      then earliest_loop rest (number l1_block_header) (Some l1_block_header)
      else earliest_loop rest earliest_block_num earliest_l1_header
  end.

Definition get_earliest_l1_head_in_batch (boot_infos : list BootInfoStruct) : Fetch Header :=
  header ← earliest_loop boot_infos u64_max None;
  done (unwrap header).

Fixpoint latest_loop (boot_infos : list BootInfoStruct) (latest_block_num : Z)
    (latest_l1_header : option Header) : Fetch (option Header) :=
  match boot_infos with
  | [] => mret latest_l1_header
  | boot_info :: rest =>
      l1_block_header ← get_l1_header (Hash (l1Head boot_info));
      if latest_block_num <? number l1_block_header
      then latest_loop rest (number l1_block_header) (Some l1_block_header)
      else latest_loop rest latest_block_num latest_l1_header
  end.

Definition get_latest_l1_head_in_batch (boot_infos : list BootInfoStruct) : Fetch Header :=
  header ← latest_loop boot_infos 0 None;
  done (with_context "Failed to get latest L1 header" header).

Definition fetch_headers_in_range (start end_ : Z) : Fetch (list Header) :=
  results ← buffered (seqZ start (end_ + 1 - start)) (fun block_number => get_l1_header (Number block_number));
  done (collect results).

Definition get_header_preimages (boot_infos : list BootInfoStruct) (checkpoint_block_hash : Z)
    : Fetch (list Header) :=
  start_header ← get_earliest_l1_head_in_batch boot_infos;
  latest_header ← get_l1_header (Hash checkpoint_block_hash);
  fetch_headers_in_range (number start_header) (number latest_header).

(** ** Output roots and host arguments *)

Definition l2_to_l1_message_passer_storage_root (header : Header) (block_number : Z) : Fetch Z :=
  match withdrawals_root header with
  | Some root =>
      if negb (root =? EMPTY_ROOT_HASH) then mret root
      else call (fun n => message_passer_storage_hash n block_number)
  | None => call (fun n => message_passer_storage_hash n block_number)
  end.

(** [L2Output], less its zero version. *)
Record L2Output := { l2_state_root : Z; l2_storage_hash : Z; l2_claim_hash : Z }.

Definition get_l2_execution_output (block_number : Z) : Fetch L2Output :=
  block ← call (fun n => l2_get_block n (Number block_number));
  block ← done (with_context "Block not found for block number" block);
  storage_root ← l2_to_l1_message_passer_storage_root (header block) block_number;
  mret {| l2_state_root := state_root (header block); l2_storage_hash := storage_root;
          l2_claim_hash := hash block |}.

Definition output_hash (output : L2Output) : Z :=
  keccak_output (l2_state_root output) (l2_storage_hash output) (l2_claim_hash output).

Definition get_l2_output_root (block_number : Z) : Fetch Z :=
  output ← get_l2_execution_output block_number;
  mret (output_hash output).

(** The fields of [SingleChainHost] that are not node addresses or paths. *)
Record SingleChainHost := {
  l1_head : Z;
  agreed_l2_output_root : Z;
  agreed_l2_head_hash : Z;
  claimed_l2_output_root : Z;
  claimed_l2_block_number : Z;
  l2_chain_id : option Z;
}.

Definition get_host_args (l2_start_block l2_end_block l1_head_hash : Z) : Fetch SingleChainHost :=
  match rollup_config with
  | None => done (Err "Rollup config not loaded.")
  | Some chain_id =>
      if l2_end_block <=? l2_start_block then
        done (Err "L2 start block is greater than or equal to L2 end block.")
      else
        agreed_output ← get_l2_execution_output l2_start_block;
        let agreed_l2_head_hash := l2_claim_hash agreed_output in
        let agreed_l2_output_root := output_hash agreed_output in
        claimed_l2_output_root ← get_l2_output_root l2_end_block;
        mret {| l1_head := l1_head_hash; agreed_l2_output_root := agreed_l2_output_root;
                agreed_l2_head_hash := agreed_l2_head_hash;
                claimed_l2_output_root := claimed_l2_output_root;
                claimed_l2_block_number := l2_end_block; l2_chain_id := Some chain_id |}
  end.

(** [SingleChainOPSuccinctHost::fetch] of utils/ethereum/host/src/host.rs. *)
Definition host_fetch (l2_start_block l2_end_block : Z) (l1_head_hash : option Z)
    (safe_db_fallback : bool) : Fetch SingleChainHost :=
  l1_head_hash ← (match l1_head_hash with
                  | Some hash => mret hash
                  | None => calculate_safe_l1_head l2_end_block safe_db_fallback
                  end);
  get_host_args l2_start_block l2_end_block l1_head_hash.
End fetcher.
