(* ===== verification/FetcherLaws.v ===== *)
(** * What the data fetcher finds

    Its methods against nodes that stand still: the binary searches find the
    first block they look for within the fuel of the definitions, the L1 head
    of a range proof lies within the selected L1 chain and is late enough to
    derive the range, and the headers fetched for an aggregation proof are
    accepted by the aggregation program. *)

From S2P Require Import Prelude.
From S2P Require Import AggregationProgram.
From S2P Require Import ValidityRanges.
From S2P Require Import Interleaving.
From S2P Require Import Fetcher.

(** ** Runs of a method *)

Lemma run_call {A} (f : Rpc -> outcome A) n : run (call f) n = (n, f n).
Proof. done. Qed.

Lemma run_done {A} (o : outcome A) (n : Rpc) : run (done o) n = (n, o).
Proof. done. Qed.

(** Nodes that stand still are as they were after any method. *)
Definition still (n n' : Rpc) : Prop := n' = n.
#[local] Instance still_preorder : PreOrder still.
Proof. split; [done|]. intros ? ? ? -> ->. done. Qed.

Lemma guar_call {A} (f : Rpc -> outcome A) : guar still (call f).
Proof. by apply guar_act. Qed.
#[local] Hint Resolve guar_call : guar.

Lemma run_still {A} (p : Fetch A) n : guar still p -> (run p n).1 = n.
Proof. intros Hp. exact (guar_run still p n Hp). Qed.

Lemma run_bind_still {A B} (p : Fetch A) (f : A -> Fetch B) n a :
  run p n = (n, Ok a) -> run (p ≫= f) n = run (f a) n.
Proof. intros Hp. rewrite run_bind. unfold mbind, M_bind. by rewrite Hp. Qed.

(** ** The search for a safe head *)

Section safe_head.
Context (n : Rpc) (l2_end_block : Z).

(** The L1 block [k] from which the L2 block can be derived. *)
Definition derives (k : Z) : Prop :=
  exists r, optimism_safeHeadAtL1Block n k = Ok r /\ l2_end_block <= safe_head_number r.

Definition answers (low high : Z) : Prop :=
  forall k, low <= k <= high -> exists r, optimism_safeHeadAtL1Block n k = Ok r.

(** Safe heads never go back along the L1 chain. *)
Definition safe_heads_grow (low high : Z) : Prop :=
  forall j k r r', low <= j <= k -> k <= high ->
    optimism_safeHeadAtL1Block n j = Ok r -> optimism_safeHeadAtL1Block n k = Ok r' ->
    safe_head_number r <= safe_head_number r'.

Definition first_deriving (low high k : Z) : Prop :=
  low <= k <= high /\ derives k /\ forall j, low <= j < k -> ~ derives j.

Lemma first_deriving_unique low high j k :
  first_deriving low high j -> first_deriving low high k -> j = k.
Proof.
  intros (Hj & Hdj & Hfj) (Hk & Hdk & Hfk). destruct (Z.lt_trichotomy j k) as [Hlt|[Heq|Hlt]]; [|done|].
  - destruct (Hfk j); [lia|done].
  - destruct (Hfj k); [lia|done].
Qed.

Lemma derives_dec k r : optimism_safeHeadAtL1Block n k = Ok r ->
  derives k <-> l2_end_block <= safe_head_number r.
Proof. intros Hr. unfold derives. split; [intros (r' & Hr' & ?); congruence|]. by exists r. Qed.

Lemma grows_derives low high j k :
  answers low high -> safe_heads_grow low high -> low <= j <= k -> k <= high -> derives j -> derives k.
Proof.
  intros Ha Hg Hj Hk (r & Hr & Hle). destruct (Ha k ltac:(lia)) as [r' Hr']. exists r'.
  split; [done|]. pose proof (Hg j k r r' Hj Hk Hr Hr'). lia.
Qed.

Lemma search_safe_head_spec fuel low high first_valid :
  0 < low -> high < u64_max -> high - low + 1 < 2 ^ Z.of_nat fuel ->
  answers low high -> safe_heads_grow low high ->
  exists o, run (search_safe_head fuel l2_end_block low high first_valid) n = (n, Ok o) /\
    ((exists k r, first_deriving low high k /\ optimism_safeHeadAtL1Block n k = Ok r /\
        o = Some (l1_block_hash r, l1_block_number r)) \/
     (forall k, low <= k <= high -> ~ derives k) /\ o = first_valid).
Proof.
  revert low high first_valid. induction fuel as [|fuel IH]; intros low high fv Hlow Hhigh Hfuel Ha Hg;
    cbn [search_safe_head]; (destruct (Z.leb_spec low high) as [Hle|Hgt];
      [|exists fv; split; [done|]; right; split; [lia|done]]).
  { cbn in Hfuel. lia. }
  set (mid := low + (high - low) / 2).
  assert (Hhalf : 0 <= (high - low) / 2 /\ 2 * ((high - low) / 2) <= high - low < 2 * ((high - low) / 2) + 2).
  { pose proof (Z.div_mod (high - low) 2). pose proof (Z.mod_pos_bound (high - low) 2). lia. }
  assert (Hpow : 2 ^ Z.of_nat (S fuel) = 2 * 2 ^ Z.of_nat fuel)
    by (rewrite Nat2Z.inj_succ, Z.pow_succ_r by lia; done).
  assert (Hmid : low <= mid <= high) by (unfold mid; lia).
  destruct (Ha mid Hmid) as [r Hr].
  rewrite (run_bind_still _ _ _ r) by (by rewrite run_call, Hr).
  destruct (Z.leb_spec l2_end_block (safe_head_number r)) as [Hd|Hd].
  - assert (Hder : derives mid) by (by exists r).
    rewrite wrap64_small by (unfold is_u64; lia).
    destruct (IH low (mid - 1) (Some (l1_block_hash r, l1_block_number r))) as (o & Ho & Hcase);
      [lia|lia|unfold mid; lia|intros k Hk; apply Ha; lia|intros j k r1 r2 Hj Hk; apply Hg; lia|].
    exists o. split; [done|]. left. destruct Hcase as [(k & r' & (Hk & Hdk & Hfirst) & Hr' & ->)|[Hnone ->]].
    + exists k, r'. split_and!; [|done..]. split; [lia|]. done.
    + exists mid, r. split_and!; [|done..]. split; [done|]. split; [done|]. intros j Hj. apply Hnone. lia.
  - assert (Hnd : forall j, low <= j <= mid -> ~ derives j).
    { intros j Hj Hdj. apply (grows_derives low high j mid) in Hdj; [|done|done|lia|lia].
      apply (derives_dec _ _ Hr) in Hdj. lia. }
    rewrite wrap64_small by (unfold is_u64; lia).
    destruct (IH (mid + 1) high fv) as (o & Ho & Hcase);
      [lia|lia|unfold mid; lia|intros k Hk; apply Ha; lia|intros j k r1 r2 Hj Hk; apply Hg; lia|].
    exists o. split; [done|]. destruct Hcase as [(k & r' & (Hk & Hdk & Hfirst) & Hr' & ->)|[Hnone ->]].
    + left. exists k, r'. split_and!; [|done..]. split; [lia|]. split; [done|]. intros j Hj.
      destruct (decide (j <= mid)); [apply Hnd; lia|apply Hfirst; lia].
    + right. split; [|done]. intros k Hk. destruct (decide (k <= mid)); [apply Hnd; lia|apply Hnone; lia].
Qed.
End safe_head.

Section selection.
Context `{HeaderHash} (rollup_config : option Z) (l1_selection : L1BlockSelectionConfig) (n : Rpc).

(** The selected L1 block, and the L1 origin of an L2 block. *)
Definition selected (head : Header) : Prop :=
  run (resolve_selected_l1_header l1_selection) n = (n, Ok head).
Definition origin (l2_block low : Z) : Prop :=
  exists out, optimism_outputAtBlock n l2_block = Ok out /\ l1_origin_number out = low.

(** The SafeDB answers and grows over the searched part of the L1 chain. *)
Definition safe_db (low high : Z) : Prop :=
  0 < low /\ high < u64_max /\ answers n low high /\ safe_heads_grow n low high.

Lemma guar_header b : guar still (get_l1_header b).
Proof. unfold get_l1_header. guar_tac. Qed.
#[local] Hint Resolve guar_header : guar.
Lemma guar_resolve : guar still (resolve_selected_l1_header l1_selection).
Proof. unfold resolve_selected_l1_header. guar_tac. Qed.

Lemma run_safe_l1_block l2_end_block head low :
  selected head -> origin l2_end_block low ->
  safe_db low (number head) ->
  (exists k r, first_deriving n l2_end_block low (number head) k /\
     optimism_safeHeadAtL1Block n k = Ok r /\
     run (get_safe_l1_block_for_l2_block l1_selection l2_end_block) n =
       (n, Ok (l1_block_hash r, l1_block_number r))) \/
  ((forall k, low <= k <= number head -> ~ derives n l2_end_block k) /\
   exists e, run (get_safe_l1_block_for_l2_block l1_selection l2_end_block) n = (n, Err e)).
Proof.
  intros Hsel (out & Hout & <-) (Hlow & Hhigh & Ha & Hg).
  destruct (search_safe_head_spec n l2_end_block SEARCH_FUEL _ _ None Hlow Hhigh) as (o & Ho & Hcase); try done.
  { change (2 ^ Z.of_nat SEARCH_FUEL) with (2 ^ 65). unfold u64_max in Hhigh. lia. }
  unfold get_safe_l1_block_for_l2_block.
  rewrite (run_bind_still _ _ _ _ Hsel), (run_bind_still _ _ _ out) by (by rewrite run_call, Hout).
  rewrite (run_bind_still _ _ _ _ Ho), run_done.
  destruct Hcase as [(k & r & Hk & Hr & ->)|[Hnone ->]]; [left|right].
  - by exists k, r.
  - split; [done|]. by eexists.
Qed.

(** C30: The search for the L1 block an L2 block is derived from ends within
    its fuel. Where the SafeDB answers for every L1 block from the L2 block's
    L1 origin to the selected head, and its safe heads never go back, the
    search returns the entry of the first L1 block whose safe head reaches the
    L2 block, and fails exactly when there is none up to the selected head. *)
Theorem safe_l1_block_is_first l2_end_block head low :
  selected head -> origin l2_end_block low -> safe_db low (number head) ->
  (forall hash number_,
     run (get_safe_l1_block_for_l2_block l1_selection l2_end_block) n = (n, Ok (hash, number_)) <->
     exists k r, first_deriving n l2_end_block low (number head) k /\
       optimism_safeHeadAtL1Block n k = Ok r /\ hash = l1_block_hash r /\ number_ = l1_block_number r) /\
  ((exists e, run (get_safe_l1_block_for_l2_block l1_selection l2_end_block) n = (n, Err e)) <->
   forall k, low <= k <= number head -> ~ derives n l2_end_block k).
Proof.
  intros Hsel Hor Hdb. destruct (run_safe_l1_block _ _ _ Hsel Hor Hdb) as [(k & r & Hk & Hr & ->)|[Hnone [e ->]]].
  - split; [intros h m; split|split].
    + intros [= <- <-]. by exists k, r.
    + intros (k' & r' & Hk' & Hr' & -> & ->). assert (k' = k) as -> by by eapply first_deriving_unique.
      congruence.
    + by intros [e [=]].
    + intros Hnone. destruct Hk as (Hk & Hd & _). by destruct (Hnone k Hk).
  - split; [intros h m; split|split].
    + done.
    + intros (k & r & (Hk & Hd & _) & _). by destruct (Hnone k Hk).
    + done.
    + intros _. by exists e.
Qed.
(** An entry of the SafeDB was recorded at or before the block it is asked
    for, and is the answer at its own block. *)
Definition safe_db_entries (low : Z) : Prop :=
  forall k r, low <= k -> optimism_safeHeadAtL1Block n k = Ok r ->
    low <= l1_block_number r <= k /\
    exists r', optimism_safeHeadAtL1Block n (l1_block_number r) = Ok r' /\
      safe_head_number r' = safe_head_number r.

Lemma safe_db_sub low low' high : low <= low' -> safe_db low high -> safe_db low' high.
Proof.
  intros Hle (H0 & H1 & Ha & Hg). split_and!; [lia|done| |].
  - intros k Hk. apply Ha. lia.
  - intros j k r r' Hj Hk. apply Hg; lia.
Qed.

(** C23: The L1 head of a range proof that [calculate_safe_l1_head] returns from the
    SafeDB, that is without the fallback, or with it when the SafeDB knows an L1
    block up to the selected head from which the end block is derived: it is
    exactly the L1 block twenty after the one the SafeDB recorded for the first
    such block, capped at the selected head; the recorded block is at most the
    first; and the range's end block is derived from the head. *)
Theorem l1_head_covers_range l2_end_block safe_db_fallback head low0 low chain_id h :
  rollup_config = Some chain_id ->
  selected head -> origin l2_end_block low -> low0 <= low ->
  safe_db low0 (number head) -> safe_db_entries low0 -> number head + 20 <= u64_max ->
  (safe_db_fallback = true -> exists k, low <= k <= number head /\ derives n l2_end_block k) ->
  run (calculate_safe_l1_head rollup_config l1_selection l2_end_block safe_db_fallback) n = (n, Ok h) ->
  exists k r b, let m := Z.min (l1_block_number r + 20) (number head) in
    first_deriving n l2_end_block low (number head) k /\ optimism_safeHeadAtL1Block n k = Ok r /\
    l1_block_number r <= k /\ derives n l2_end_block (l1_block_number r) /\
    l1_get_block n (Number m) = Ok (Some b) /\ h = hash_slow (header b) /\ derives n l2_end_block m.
Proof.
  intros -> Hsel Hor Hlow Hdb Hent H20 Hfb Hrun. unfold calculate_safe_l1_head, get_l1_head in Hrun.
  pose proof (run_safe_l1_block _ _ _ Hsel Hor (safe_db_sub _ _ _ Hlow Hdb)) as Hcase.
  set (p := get_safe_l1_block_for_l2_block l1_selection l2_end_block) in *.
  apply run_bind_Ok in Hrun as (s1 & head_ & H1 & Hrun). apply run_bind_Ok in H1 as (s2 & found & H1 & H2).
  rewrite run_catch in H1. unfold attempt in H1.
  destruct Hcase as [(k & r & Hk & Hr & Hp)|[Hnone [e Hp]]]; rewrite Hp in H1; injection H1 as <- <-.
  2: { destruct safe_db_fallback; [|done]. destruct (Hfb eq_refl) as (k & Hk & Hd). by destruct (Hnone k Hk). }
  injection H2 as <- <-. cbn [snd] in Hrun.
  rewrite (run_bind_still _ _ _ _ Hsel) in Hrun.
  destruct (Hent k r ltac:(destruct Hk; lia) Hr) as [Hle (r' & Hr' & Heq)]. destruct Hdb as (Hpos & Hmax & Ha & Hg).
  assert (Hkh : k <= number head) by (destruct Hk; lia).
  rewrite wrap64_small in Hrun by (unfold is_u64; lia).
  set (m := Z.min (l1_block_number r + 20) (number head)) in *.
  apply run_bind_Ok in Hrun as (s3 & hd & H1 & Hrun). unfold get_l1_header in H1.
  apply run_bind_Ok in H1 as (s4 & b & H1 & H2). rewrite run_call in H1. injection H1 as <- Hb.
  injection H2 as <- H2. destruct b as [b|]; [|done]. injection H2 as <-. injection Hrun as <-.
  assert (Hd : derives n l2_end_block (l1_block_number r)).
  { apply (derives_dec _ _ _ _ Hr'). rewrite Heq. apply (derives_dec _ _ _ _ Hr). by destruct Hk as (_ & ? & _). }
  exists k, r, b. cbv zeta. fold m. split_and!; try done; [lia|].
  apply (grows_derives n l2_end_block low0 (number head) (l1_block_number r)); [done|done|unfold m; lia..|done].
Qed.
End selection.

(** ** The search for a timestamp *)

Section timestamp.
Context (n : Rpc) (get : Rpc -> Z -> outcome (option Block)) (target_timestamp : Z).
Notation get_block := (fun i => call (fun n => get n i)).

(** The blocks up to [upper], at their numbers and with timestamps that do not
    go back. *)
Record blocks_upto (upper : Z) : Prop := {
  block_exists : forall i, 0 <= i <= upper ->
    exists b, get n i = Ok (Some b) /\ number (header b) = i;
  timestamps_grow : forall i j b b', 0 <= i <= j -> j <= upper ->
    get n i = Ok (Some b) -> get n j = Ok (Some b') -> timestamp (header b) <= timestamp (header b');
}.

(** [b] is a block at the timestamp, or the first one after it if there is
    none at it. *)
Definition closest (k : Z) (b : Block) : Prop :=
  get n k = Ok (Some b) /\ target_timestamp <= timestamp (header b) /\
  (target_timestamp < timestamp (header b) ->
   forall j b', 0 <= j < k -> get n j = Ok (Some b') -> timestamp (header b') < target_timestamp).

Definition older (i : Z) : Prop :=
  forall b, get n i = Ok (Some b) -> timestamp (header b) < target_timestamp.

(** The lookup after the loop. *)
Definition block_after (low : Z) : outcome (Z * Z) :=
  b ← get n low;
  match b with
  | Some b => Ok (hash b, number (header b))
  | None => Err "Failed to get block for block"
  end.

Lemma search_end fuel low high : high < low ->
  run (search_timestamp get_block fuel target_timestamp low high) n = (n, block_after low).
Proof.
  intros Hlt. destruct fuel as [|fuel]; cbn [search_timestamp];
    rewrite (proj2 (Z.leb_gt low high)) by lia; unfold block_after;
    rewrite run_bind; unfold mbind, M_bind; rewrite run_call; cbn;
    by destruct (get n low) as [[b|]|e|].
Qed.

Lemma search_timestamp_spec upper fuel low high :
  blocks_upto upper -> 0 <= low <= high + 1 -> high <= upper -> upper < 2 ^ 63 ->
  high - low + 1 < 2 ^ Z.of_nat fuel ->
  (forall i, 0 <= i < low -> older i) ->
  (forall b, get n 0 = Ok (Some b) -> timestamp (header b) <= target_timestamp) ->
  (forall i b, high < i <= upper -> get n i = Ok (Some b) -> target_timestamp < timestamp (header b)) ->
  (exists k b, 0 <= k <= upper /\ closest k b /\
     run (search_timestamp get_block fuel target_timestamp low high) n = (n, Ok (hash b, k))) \/
  ((forall i, 0 <= i <= upper -> older i) /\
   run (search_timestamp get_block fuel target_timestamp low high) n = (n, block_after (upper + 1))).
Proof.
  intros Hblocks. revert low high.
  induction fuel as [|fuel IH]; intros low high Hlow Hhigh Hup Hfuel Hold Hzero Hnew.
  all: destruct (decide (low <= high)) as [Hle|Hgt].
  1: cbn in Hfuel; lia.
  2: {
    cbn [search_timestamp]. rewrite (proj2 (Z.leb_le low high)) by lia.
    rewrite (wrap64_small (low + high)) by (unfold is_u64, u64_max; lia). set (mid := (low + high) / 2).
    assert (Hmid : low <= mid <= high /\ 2 * mid <= low + high < 2 * mid + 2).
    { unfold mid. pose proof (Z.div_mod (low + high) 2). pose proof (Z.mod_pos_bound (low + high) 2). lia. }
    assert (Hpow : 2 ^ Z.of_nat (S fuel) = 2 * 2 ^ Z.of_nat fuel)
      by (rewrite Nat2Z.inj_succ, Z.pow_succ_r by lia; done).
    destruct (block_exists _ Hblocks mid) as (b & Hb & Hnum); [lia|].
    rewrite (run_bind_still _ _ _ (Some b)) by (by rewrite run_call, Hb).
    destruct (Z.compare_spec (timestamp (header b)) target_timestamp) as [Heq|Hlt|Hlt].
    - left. exists mid, b. split; [lia|]. split; [|by rewrite Hnum].
      split_and!; [done|lia|lia].
    - rewrite wrap64_small by (unfold is_u64, u64_max; lia).
      apply IH; [lia|lia|done|lia| |done|done].
      intros i Hi b' Hb'. pose proof (timestamps_grow _ Hblocks i mid b' b ltac:(lia) ltac:(lia) Hb' Hb). lia.
    - assert (Hpos : mid <> 0) by (intros Hz; rewrite Hz in Hb; specialize (Hzero b Hb); lia).
      rewrite wrap64_small by (unfold is_u64, u64_max; lia).
      apply IH; [lia|lia|done|lia|done|done|].
      intros i b' Hi Hb'. destruct (decide (i <= high)); [|apply (Hnew i); [lia|done]].
      pose proof (timestamps_grow _ Hblocks mid i b b' ltac:(lia) ltac:(lia) Hb Hb'). lia. }
  all: rewrite search_end by lia; assert (high = low - 1) as -> by lia.
  all: destruct (decide (low <= upper)) as [Hlu|Hlu];
    [|assert (low = upper + 1) as -> by lia; right; split; [|done]; intros i Hi; apply Hold; lia].
  all: destruct (block_exists _ Hblocks low) as (b & Hb & Hnum); [lia|].
  all: left; exists low, b; split; [lia|]; split; [|unfold block_after; rewrite Hb; cbn; by rewrite Hnum].
  all: assert (Hbt : target_timestamp < timestamp (header b)) by (apply (Hnew low); [lia|done]).
  all: split_and!; [done|lia|]; intros _ j b' Hj; by apply Hold.
Qed.

(** [find_block_by_timestamp] ends within its fuel. From a chain whose
    first block is not after the timestamp, it returns a block at the timestamp
    or, if there is none, the first one after it; if every block up to the
    bound is older, it returns the block right beyond the bound, if there is
    one, although the bound is meant to be inclusive. *)
Theorem timestamp_search_spec upper :
  blocks_upto upper -> 0 <= upper < 2 ^ 63 ->
  (forall b, get n 0 = Ok (Some b) -> timestamp (header b) <= target_timestamp) ->
  (exists k b, 0 <= k <= upper /\ closest k b /\
     run (find_block_by_timestamp get_block target_timestamp upper) n = (n, Ok (hash b, k))) \/
  ((forall i, 0 <= i <= upper -> older i) /\
   run (find_block_by_timestamp get_block target_timestamp upper) n = (n, block_after (upper + 1))).
Proof.
  intros Hb Hup Hz. unfold find_block_by_timestamp. apply search_timestamp_spec; try done; try lia.
  change (2 ^ Z.of_nat SEARCH_FUEL) with (2 ^ 65). lia.
Qed.
End timestamp.

(** ** The headers of an aggregation proof *)

Section preimages.
Context `{HeaderHash, Zkvm} (n : Rpc).

(** The node serves an L1 chain up to [tip], by number and by hash. *)
Record serves (chain_ : Z -> Header) (tip : Z) : Prop := {
  serve_number : forall i, 0 <= i <= tip ->
    run (get_l1_header (Number i)) n = (n, Ok (chain_ i));
  serve_hash : forall i, 0 <= i <= tip ->
    run (get_l1_header (Hash (hash_slow (chain_ i)))) n = (n, Ok (chain_ i));
  serve_numbered : forall i, 0 <= i <= tip -> number (chain_ i) = i;
  serve_linked : forall i, 0 <= i < tip -> parent_hash (chain_ (i + 1)) = hash_slow (chain_ i);
}.

Lemma buffered_run {A B} (f : A -> Fetch B) (g : A -> B) l :
  (forall x, x ∈ l -> run (f x) n = (n, Ok (g x))) ->
  run (buffered l f) n = (n, Ok (inl <$> (g <$> l))).
Proof.
  intros Hf. unfold buffered.
  assert (Hacc : forall acc, run (fold l acc (fun acc x => r ← catch (f x); mret (acc ++ [r]))) n =
                 (n, Ok (acc ++ (inl <$> (g <$> l))))); [|by apply (Hacc [])].
  induction l as [|x l IH]; intros acc; cbn [fold].
  { by rewrite app_nil_r. }
  rewrite (run_bind_still _ _ _ (acc ++ [inl (g x)])).
  - rewrite IH by (intros y Hy; apply Hf; by right). by rewrite <- app_assoc.
  - rewrite (run_bind_still _ _ _ (inl (g x))); [done|].
    rewrite run_catch. unfold attempt. by rewrite Hf by left.
Qed.

Lemma collect_inl {B} (l : list B) : collect (inl <$> l) = Ok l.
Proof. induction l as [|b l IH]; [done|]. rewrite fmap_cons. cbn [collect]. by rewrite IH. Qed.

Section chain.
Context (chain_ : Z -> Header) (tip : Z) (Hserves : serves chain_ tip).

(** The L1 heads are blocks of the chain up to [c]. *)
Definition heads_upto (c : Z) (bs : list BootInfoStruct) : Prop :=
  Forall (fun b => exists i, 0 <= i <= c /\ l1Head b = hash_slow (chain_ i)) bs.

Lemma earliest_run c bs low found :
  c <= tip -> heads_upto c bs ->
  (forall h, found = Some h -> 0 <= low <= c /\ h = chain_ low) ->
  (found = None -> c < low) -> bs <> [] \/ found <> None ->
  exists i, run (earliest_loop bs low found) n = (n, Ok (Some (chain_ i))) /\ 0 <= i <= c /\ i <= low /\
    Forall (fun b => exists j, i <= j <= c /\ l1Head b = hash_slow (chain_ j)) bs.
Proof.
  intros Hc Hbs. revert low found.
  induction Hbs as [|b bs (i & Hi & Hh) Hbs IH]; intros low found Hf Hn Hne; cbn [earliest_loop].
  { destruct found as [h|]; [|by destruct Hne]. destruct (Hf h eq_refl) as [Hl ->]. exists low.
    split_and!; [done|lia..|done]. }
  rewrite Hh, (run_bind_still _ _ _ _ (serve_hash _ _ Hserves i ltac:(lia))).
  rewrite (serve_numbered _ _ Hserves) by lia. destruct (Z.ltb_spec i low) as [Hlt|Hge].
  - destruct (IH i (Some (chain_ i))) as (k & Hrun & Hk & Hki & HF); [|done|by right|].
    { by intros h [= <-]. }
    exists k. split_and!; [done|lia..|]. constructor; [|done]. exists i. split; [lia|done].
  - destruct (IH low found) as (k & Hrun & Hk & Hki & HF); [done|done| |].
    { right. intros ->. specialize (Hn eq_refl). lia. }
    exists k. split_and!; [done|lia..|]. constructor; [|done]. exists i. split; [lia|done].
Qed.

Lemma preimages_run c bs :
  bs <> [] -> heads_upto c bs -> 0 <= c <= tip -> tip < u64_max ->
  exists i, 0 <= i <= c /\
    run (get_header_preimages bs (hash_slow (chain_ c))) n = (n, Ok (chain_ <$> seqZ i (c + 1 - i))) /\
    Forall (fun b => exists j, i <= j <= c /\ l1Head b = hash_slow (chain_ j)) bs.
Proof.
  intros Hne Hbs Hc Htip. destruct (earliest_run c bs u64_max None) as (i & Hrun & Hi & _ & HF);
    [lia|done|done|lia|by left|]. exists i. split; [done|]. split; [|done].
  unfold get_header_preimages, get_earliest_l1_head_in_batch.
  rewrite (run_bind_still _ _ _ (chain_ i)) by (by rewrite (run_bind_still _ _ _ _ Hrun)).
  rewrite (run_bind_still _ _ _ _ (serve_hash _ _ Hserves c ltac:(lia))).
  rewrite !(serve_numbered _ _ Hserves) by lia. unfold fetch_headers_in_range.
  rewrite (run_bind_still _ _ _ (inl <$> (chain_ <$> seqZ i (c + 1 - i)))).
  - by rewrite collect_inl.
  - apply buffered_run. intros k Hk%elem_of_seqZ. apply (serve_number _ _ Hserves). lia.
Qed.

Lemma chain_linked i c : 0 <= i -> i <= c <= tip ->
  linked (chain_ <$> seqZ i (c + 1 - i)) (hash_slow (chain_ c)).
Proof.
  intros Hi Hc k h Hk. rewrite list_lookup_fmap in Hk |- *.
  destruct (seqZ i (c + 1 - i) !! k) as [x|] eqn:E; [|done]. injection Hk as <-.
  apply lookup_seqZ in E as [-> Hk]. destruct (decide (i + Z.of_nat k = c)) as [He|He].
  - rewrite lookup_seqZ_ge by lia. cbn. by rewrite He.
  - rewrite lookup_seqZ_lt by lia. cbn. replace (i + Z.of_nat (S k)) with (i + Z.of_nat k + 1) by lia.
    by rewrite (serve_linked _ _ Hserves) by lia.
Qed.

Lemma fetched_headers_accepted (agg_inputs : AggregationInputs) first rest last_ c :
  boot_infos agg_inputs = first :: rest -> last (first :: rest) = Some last_ ->
  sequential (first :: rest) ->
  Forall (fun b => verify_sp1_proof (multi_block_vkey agg_inputs) (pv_digest b) = true) (first :: rest) ->
  heads_upto c (first :: rest) -> 0 <= c <= tip -> tip < u64_max ->
  latest_l1_checkpoint_head agg_inputs = hash_slow (chain_ c) ->
  exists headers,
    run (get_header_preimages (first :: rest) (hash_slow (chain_ c))) n = (n, Ok headers) /\
    forall bytes, cbor_from_slice bytes = Some headers ->
      exists out, main agg_inputs bytes = Ok out /\ o_l1Head out = hash_slow (chain_ c) /\
        o_l2PreRoot out = l2PreRoot first /\ o_l2PostRoot out = l2PostRoot last_ /\
        o_l2BlockNumber out = l2BlockNumber last_.
Proof.
  intros Hb Hl Hs Hv Hh Hc Htip Hck.
  destruct (preimages_run c (first :: rest)) as (i & Hi & Hrun & HF); [done..|].
  eexists. split; [exact Hrun|]. intros bytes Hbytes. exists (claim agg_inputs first last_).
  split_and!; [|done..]. apply (main_accepts _ _ _ first rest last_ Hbytes); [done..|].
  unfold acceptable. rewrite Hb, Hck. split_and!; [done|done|apply chain_linked; lia|].
  eapply Forall_impl; [exact HF|]. intros b (j & Hj & ->). rewrite <- list_fmap_compose.
  apply list_elem_of_fmap. exists j. split; [done|]. apply elem_of_seqZ. lia.
Qed.

(** The headers the fetcher hands to the aggregation program are the
    ones it needs. Whenever the range claims chain, their proofs verify and
    every L1 head is a block of the served L1 chain at or before the
    checkpoint, [get_header_preimages] succeeds, and on its result, encoded so
    that the program reads it back, the program ends with the claim from the
    first root to the last at the checkpoint. *)
Theorem preimages_accepted (agg_inputs : AggregationInputs) first rest last_ c :
  boot_infos agg_inputs = first :: rest -> last (first :: rest) = Some last_ ->
  sequential (first :: rest) ->
  Forall (fun b => verify_sp1_proof (multi_block_vkey agg_inputs) (pv_digest b) = true) (first :: rest) ->
  heads_upto c (first :: rest) -> 0 <= c <= tip -> tip < u64_max ->
  latest_l1_checkpoint_head agg_inputs = hash_slow (chain_ c) ->
  exists headers,
    run (get_header_preimages (first :: rest) (hash_slow (chain_ c))) n = (n, Ok headers) /\
    forall bytes, cbor_from_slice bytes = Some headers ->
      exists out, main agg_inputs bytes = Ok out /\ o_l1Head out = hash_slow (chain_ c) /\
        o_l2PreRoot out = l2PreRoot first /\ o_l2PostRoot out = l2PostRoot last_ /\
        o_l2BlockNumber out = l2BlockNumber last_.
Proof. apply fetched_headers_accepted. Qed.
End chain.
End preimages.

(** ** Samples *)

#[local] Existing Instance sample_hash.
#[local] Existing Instance sample_zkvm.

Definition sample_block (i : Z) : Block := {|
  header := sample_header i; hash := 1000 + i; transactions := 3; header_gas_used := 10 |}.

(** L1 blocks up to 100, and two L2 blocks safe for each of them. *)
Definition sample_rpc : Rpc := {|
  l1_get_block b :=
    let i := match b with
             | Finalized => 90 | Safe => 95 | Latest => 100 | Number i => i | Hash h => h - 1000
             end in
    if (0 <=? i) && (i <=? 100) then Ok (Some (sample_block i)) else Ok None;
  l2_get_block b := Ok (Some (sample_block (match b with Number i => i | _ => 180 end)));
  l2_get_block_receipts _ := Ok None;
  message_passer_storage_hash b := Ok b;
  optimism_outputAtBlock b := Ok {| output_root := 2000 + b; l1_origin_number := b / 4 |};
  optimism_safeHeadAtL1Block k :=
    Ok {| l1_block_number := k; l1_block_hash := 1000 + k; safe_head_number := 2 * k |};
  safeHeadAtL1Block_raw _ :=
    Ok {| error := Some {| code := Some (-32000); message := Some (codes "safeDB is not enabled") |};
          result := None |} |}.

Example sample_not_activated : run is_safe_db_activated sample_rpc = (sample_rpc, Ok false).
Proof. vm_compute. reflexivity. Qed.

(** A timestamp before the first block runs the search below zero, where its
    bound wraps around: it ends with an error. *)
Example sample_before_genesis :
  (run (find_block_by_timestamp (fun i => call (fun n => l1_get_block n (Number i))) (-5) 100) sample_rpc).2 =
  Err "Failed to get block for block".
Proof. vm_compute. reflexivity. Qed.

Lemma sample_safe_db low : 0 < low -> safe_db sample_rpc low 90.
Proof.
  intros Hlow. split_and!; [done|unfold u64_max; lia| |].
  - intros k _. by eexists.
  - intros j k r r' Hj Hk [= <-] [= <-]. cbn. lia.
Qed.

Lemma safe_l1_block_is_first_witness :
  run (get_safe_l1_block_for_l2_block default_selection 50) sample_rpc = (sample_rpc, Ok (1025, 25)).
Proof.
  apply (safe_l1_block_is_first default_selection sample_rpc 50 (sample_header 90) 12).
  - vm_compute. reflexivity.
  - by eexists.
  - by apply sample_safe_db.
  - exists 25, {| l1_block_number := 25; l1_block_hash := 1025; safe_head_number := 50 |}.
    split_and!; [|done..]. split; [cbn; lia|]. split.
    + eexists. split; [reflexivity|]. cbn. lia.
    + intros j Hj (r & [= <-] & Hr). cbn in Hr. lia.
Defined.

Lemma l1_head_covers_range_witness :
  exists k r b, let m := Z.min (l1_block_number r + 20) 90 in
    first_deriving sample_rpc 50 12 90 k /\ optimism_safeHeadAtL1Block sample_rpc k = Ok r /\
    l1_block_number r <= k /\ derives sample_rpc 50 (l1_block_number r) /\
    l1_get_block sample_rpc (Number m) = Ok (Some b) /\ 1045 = hash_slow (header b) /\ derives sample_rpc 50 m.
Proof.
  apply (l1_head_covers_range (Some 42220) default_selection sample_rpc 50 false (sample_header 90) 1 12 42220).
  - reflexivity.
  - vm_compute. reflexivity.
  - by eexists.
  - lia.
  - by apply sample_safe_db.
  - intros k r Hk [= <-]. cbn. split; [lia|by eexists].
  - unfold u64_max. cbn. lia.
  - done.
  - vm_compute. reflexivity.
Defined.

Lemma sample_served i : 0 <= i <= 100 ->
  l1_get_block sample_rpc (Number i) = Ok (Some (sample_block i)) /\
  l1_get_block sample_rpc (Hash (1000 + i)) = Ok (Some (sample_block i)).
Proof.
  intros Hi. cbn. replace (1000 + i - 1000) with i by lia.
  by rewrite (proj2 (Z.leb_le 0 i)), (proj2 (Z.leb_le i 100)) by lia.
Qed.

Lemma timestamp_search_spec_witness :
  exists k b, 0 <= k <= 100 /\
    closest sample_rpc (fun n i => l1_get_block n (Number i)) 305 k b.
Proof.
  destruct (timestamp_search_spec sample_rpc (fun n i => l1_get_block n (Number i)) 305 100)
    as [(k & b & Hk & Hb & _)|[Hold _]].
  - split.
    + intros i Hi. exists (sample_block i). by destruct (sample_served i Hi) as [-> _].
    + intros i j b b' Hij Hj. destruct (sample_served i) as [-> _]; [lia|].
      destruct (sample_served j) as [-> _]; [lia|]. intros [= <-] [= <-]. cbn. lia.
  - lia.
  - intros b [= <-]. cbn. lia.
  - by exists k, b.
  - specialize (Hold 100 ltac:(lia) (sample_block 100) eq_refl). cbn in Hold. lia.
Defined.

Lemma sample_serves : serves sample_rpc sample_header 100.
Proof.
  split.
  - intros i Hi. unfold get_l1_header. rewrite (run_bind_still _ _ _ (Some (sample_block i))); [done|].
    rewrite run_call. by destruct (sample_served i Hi) as [-> _].
  - intros i Hi. unfold get_l1_header. rewrite (run_bind_still _ _ _ (Some (sample_block i))); [done|].
    rewrite run_call. change (hash_slow (sample_header i)) with (1000 + i).
    by destruct (sample_served i Hi) as [_ ->].
  - done.
  - intros i Hi. cbn. unfold hash_slow, sample_hash. cbn. lia.
Qed.

Lemma preimages_accepted_witness :
  exists headers,
    run (get_header_preimages (boot_infos sample_inputs) 1006) sample_rpc = (sample_rpc, Ok headers) /\
    forall bytes, cbor_from_slice bytes = Some headers ->
      exists out, main sample_inputs bytes = Ok out /\ o_l1Head out = 1006 /\ o_l2PreRoot out = 1 /\
        o_l2PostRoot out = 4 /\ o_l2BlockNumber out = 30.
Proof.
  apply (preimages_accepted sample_rpc sample_header 100 sample_serves sample_inputs
    (sample_boot 1 1005) [sample_boot 2 1003; sample_boot 3 1005] (sample_boot 3 1005) 6);
    [done|done| | | |lia|unfold u64_max; lia|done].
  - intros [|[|[|i]]] b b'; cbn; [by intros [= <-] [= <-]..|done|done].
  - repeat constructor.
  - repeat (apply Forall_cons; split); [exists 5|exists 3|exists 5|by apply Forall_nil];
      (split; [lia|reflexivity]).
Defined.
