(* ===== verification/RequestDb.v ===== *)
(** * The request database of the validity proposer

    [validity/src/db/types.rs], [validity/src/db/client.rs] and the migrations:
    the [requests] and [chain_locks] tables and every statement the service
    runs on them.

    A row is split in two: the columns an [INSERT] fixes for good ([Request])
    and the columns the [UPDATE] statements change ([Progress]). A statement is
    a function of the tables; an [UPDATE] returns its [rows_affected]. A
    [SELECT] without [ORDER BY] enumerates the rows in any order ([HashOrder]);
    [ORDER BY start_block] is a sort of that enumeration, so ties stay in any
    order. A comparison with a [NULL] column is false, as in SQL. Hashes,
    addresses and proofs are opaque numbers. *)

From S2P Require Import Prelude.
From S2P Require Import ValidityRanges.

(** ** Row types *)

Inductive RequestStatus :=
| Unrequested | WitnessGeneration | Execution | Prove | Complete | Relayed
| Failed | Cancelled | Invalidated.
#[global] Instance RequestStatus_eq_dec : EqDecision RequestStatus.
Proof. solve_decision. Defined.

(** [status as i16] and [From<i16>], which panics on any other number. *)
Definition status_as_i16 (s : RequestStatus) : Z :=
  match s with
  | Unrequested => 0 | WitnessGeneration => 1 | Execution => 2 | Prove => 3
  | Complete => 4 | Relayed => 5 | Failed => 6 | Cancelled => 7 | Invalidated => 8
  end.

Definition status_from_i16 (value : Z) : outcome RequestStatus :=
  match value with
  | 0 => Ok Unrequested | 1 => Ok WitnessGeneration | 2 => Ok Execution
  | 3 => Ok Prove | 4 => Ok Complete | 5 => Ok Relayed | 6 => Ok Failed
  | 7 => Ok Cancelled | 8 => Ok Invalidated | _ => Panic
  end.

Inductive RequestType := Range | Aggregation.
#[global] Instance RequestType_eq_dec : EqDecision RequestType.
Proof. solve_decision. Defined.

Inductive RequestMode := Real | Mock.
#[global] Instance RequestMode_eq_dec : EqDecision RequestMode.
Proof. solve_decision. Defined.

(** [ClusterProofHandleJson] *)
Record ClusterProofHandleJson := { proof_id : Z; proof_output_id : Z }.

(** [RequestExecutionStatistics], the value of the JSON column. *)
Record RequestExecutionStatistics := {
  total_instruction_cycles : Z;
  total_sp1_gas : Z;
  block_execution_cycles : Z;
  oracle_verify_cycles : Z;
  derivation_cycles : Z;
  blob_verification_cycles : Z;
  bn_add_cycles : Z;
  bn_mul_cycles : Z;
  bn_pair_cycles : Z;
  kzg_eval_cycles : Z;
  ec_recover_cycles : Z;
  p256_verify_cycles : Z;
}.

(** The columns no [UPDATE] touches. *)
Record Request := {
  id : Z;
  req_type : RequestType;
  mode : RequestMode;
  start_block : Z;
  end_block : Z;
  created_at : Z;
  checkpointed_l1_block_number : option Z;
  checkpointed_l1_block_hash : option Z;
  range_vkey_commitment : Z;
  aggregation_vkey_hash : option Z;
  rollup_config_hash : Z;
  total_nb_transactions : Z;
  total_eth_gas_used : Z;
  total_l1_fees : Z;
  total_tx_fees : Z;
  l1_chain_id : Z;
  l2_chain_id : Z;
  prover_address : option Z;
}.

(** The columns that follow the life of a request. [l1_head_block_hash] and
    [invalidated_at] are columns only: the Rust struct does not carry them. *)
Record Progress := {
  status : RequestStatus;
  updated_at : Z;
  proof_request_id : option Z;
  proof_request_time : option Z;
  execution_statistics : option RequestExecutionStatistics;
  witnessgen_duration : option Z;
  execution_duration : option Z;
  prove_duration : option Z;
  relay_tx_hash : option Z;
  proof : option Z;
  contract_address : option Z;
  l1_head_block_number : option Z;
  l1_head_block_hash : option Z;
  cluster_proof_handle : option ClusterProofHandleJson;
  invalidated_at : option Z;
}.

Record OPSuccinctRequest := mk_request { fixed :> Request; progress :> Progress }.

Definition invalidated (r : OPSuccinctRequest) : bool :=
  match invalidated_at r with Some _ => true | None => false end.

(** [CommitmentConfig] of validity/src/config.rs. *)
Record CommitmentConfig := {
  c_range_vkey_commitment : Z;
  c_agg_vkey_hash : Z;
  c_rollup_config_hash : Z;
}.

(** ** New requests *)

(** A new row: status [Unrequested], every other progress column [NULL]. *)
Definition fresh_progress (now : Z) : Progress := {|
  status := Unrequested; updated_at := now; proof_request_id := None;
  proof_request_time := None; execution_statistics := None; witnessgen_duration := None;
  execution_duration := None; prove_duration := None; relay_tx_hash := None; proof := None;
  contract_address := None; l1_head_block_number := None; l1_head_block_hash := None;
  cluster_proof_handle := None; invalidated_at := None |}.

(** [block_data.iter().map(f).sum()], wrapping at the width of the field. *)
Definition sum_fields (width : Z) (f : BlockInfo -> Z) (block_data : list BlockInfo) : Z :=
  foldl (fun acc b => (acc + f b) mod 2 ^ width) 0 block_data.

Definition new_range_request (now : Z) (mode : RequestMode) (start_block end_block : Z)
    (range_vkey_commitment rollup_config_hash : Z) (block_data : list BlockInfo)
    (l1_chain_id l2_chain_id : Z) : OPSuccinctRequest :=
  mk_request {|
    id := 0; req_type := Range; mode := mode; start_block := start_block;
    end_block := end_block; created_at := now; checkpointed_l1_block_number := None;
    checkpointed_l1_block_hash := None; range_vkey_commitment := range_vkey_commitment;
    aggregation_vkey_hash := None; rollup_config_hash := rollup_config_hash;
    total_nb_transactions := as_i64 (sum_fields 64 transaction_count block_data);
    total_eth_gas_used := as_i64 (sum_fields 64 gas_used block_data);
    total_l1_fees := sum_fields 128 ValidityRanges.total_l1_fees block_data;
    total_tx_fees := sum_fields 128 ValidityRanges.total_tx_fees block_data;
    l1_chain_id := l1_chain_id; l2_chain_id := l2_chain_id; prover_address := None |}
  (fresh_progress now).

Definition new_agg_request (now : Z) (mode : RequestMode) (start_block end_block : Z)
    (range_vkey_commitment aggregation_vkey_hash rollup_config_hash : Z)
    (l1_chain_id l2_chain_id checkpointed_l1_block_number checkpointed_l1_block_hash : Z)
    (prover_address : Z) : OPSuccinctRequest :=
  mk_request {|
    id := 0; req_type := Aggregation; mode := mode; start_block := start_block;
    end_block := end_block; created_at := now;
    checkpointed_l1_block_number := Some checkpointed_l1_block_number;
    checkpointed_l1_block_hash := Some checkpointed_l1_block_hash;
    range_vkey_commitment := range_vkey_commitment;
    aggregation_vkey_hash := Some aggregation_vkey_hash;
    rollup_config_hash := rollup_config_hash; total_nb_transactions := 0;
    total_eth_gas_used := 0; total_l1_fees := 0; total_tx_fees := 0;
    l1_chain_id := l1_chain_id; l2_chain_id := l2_chain_id;
    prover_address := Some prover_address |}
  (fresh_progress now).

(** ** The tables *)

Record Db := {
  rows : gmap Z OPSuccinctRequest;  (** [requests], by primary key *)
  next_id : Z;  (** the [BIGSERIAL] sequence *)
  chain_locks : gmap (Z * Z) Z;  (** [locked_at] by [(l1_chain_id, l2_chain_id)] *)
}.

Definition with_rows (m : gmap Z OPSuccinctRequest) (d : Db) : Db :=
  {| rows := m; next_id := next_id d; chain_locks := chain_locks d |}.

(** Every row sits at its own primary key, below the sequence. *)
Record wf_db (d : Db) : Prop := {
  wf_id : forall i (r : OPSuccinctRequest), rows d !! i = Some r -> id r = i;
  wf_next : forall i (r : OPSuccinctRequest), rows d !! i = Some r -> i < next_id d;
}.

Definition has_status (statuses : list RequestStatus) (r : OPSuccinctRequest) : bool :=
  bool_decide (status r ∈ statuses).
Definition has_type (t : RequestType) (r : OPSuccinctRequest) : bool :=
  bool_decide (req_type r = t).
(** [range_vkey_commitment = .. AND rollup_config_hash = ..] *)
Definition same_programs (c : CommitmentConfig) (r : OPSuccinctRequest) : bool :=
  (range_vkey_commitment r =? c_range_vkey_commitment c) &&
  (rollup_config_hash r =? c_rollup_config_hash c).
(** [aggregation_vkey_hash = ..] *)
Definition same_agg_vkey (c : CommitmentConfig) (r : OPSuccinctRequest) : bool :=
  bool_decide (aggregation_vkey_hash r = Some (c_agg_vkey_hash c)).
(** [l1_chain_id = .. AND l2_chain_id = ..] *)
Definition on_chain (l1 l2 : Z) (r : OPSuccinctRequest) : bool :=
  (l1_chain_id r =? l1) && (l2_chain_id r =? l2).

(** ** [UPDATE], [INSERT], [DELETE] *)

(** [UPDATE requests SET .. WHERE ..], with [rows_affected]. *)
Definition update_rows (where_ : OPSuccinctRequest -> bool) (set : Progress -> Progress)
    (d : Db) : Db * Z :=
  (with_rows ((fun r => if where_ r then mk_request (fixed r) (set (progress r)) else r) <$> rows d) d,
   Z.of_nat (size (filter (fun '(_, r) => where_ r) (rows d)))).

(** [.. WHERE id = $n AND guard]. *)
Definition update_row (i : Z) (guard : OPSuccinctRequest -> bool) (set : Progress -> Progress)
    : Db -> Db * Z :=
  update_rows (fun r => (id r =? i) && guard r) set.

Definition always (r : OPSuccinctRequest) : bool := true.

(** [INSERT INTO requests .. RETURNING id]: the listed columns are those of
    the request; [cluster_proof_handle], [l1_head_block_hash] and
    [invalidated_at] are not listed and stay [NULL]. *)
Definition inserted (i : Z) (req : OPSuccinctRequest) : OPSuccinctRequest :=
  let q := fixed req in
  let p := progress req in
  mk_request {|
    id := i; req_type := req_type q; mode := mode q; start_block := start_block q;
    end_block := end_block q; created_at := created_at q;
    checkpointed_l1_block_number := checkpointed_l1_block_number q;
    checkpointed_l1_block_hash := checkpointed_l1_block_hash q;
    range_vkey_commitment := range_vkey_commitment q;
    aggregation_vkey_hash := aggregation_vkey_hash q;
    rollup_config_hash := rollup_config_hash q;
    total_nb_transactions := total_nb_transactions q;
    total_eth_gas_used := total_eth_gas_used q;
    total_l1_fees := total_l1_fees q; total_tx_fees := total_tx_fees q;
    l1_chain_id := l1_chain_id q; l2_chain_id := l2_chain_id q;
    prover_address := prover_address q |}
  {|
    status := status p; updated_at := updated_at p; proof_request_id := proof_request_id p;
    proof_request_time := proof_request_time p;
    execution_statistics := execution_statistics p;
    witnessgen_duration := witnessgen_duration p; execution_duration := execution_duration p;
    prove_duration := prove_duration p; relay_tx_hash := relay_tx_hash p; proof := proof p;
    contract_address := contract_address p; l1_head_block_number := l1_head_block_number p;
    l1_head_block_hash := None; cluster_proof_handle := None; invalidated_at := None |}.

Definition insert_request (req : OPSuccinctRequest) (d : Db) : Db * Z :=
  ({| rows := <[next_id d := inserted (next_id d) req]> (rows d);
      next_id := next_id d + 1; chain_locks := chain_locks d |}, next_id d).

(** One transaction; its batches of 100 only bound the size of a statement. *)
Definition insert_requests (requests : list OPSuccinctRequest) (d : Db) : Db * unit :=
  (foldl (fun d req => (insert_request req d).1) d requests, tt).

(** [DELETE FROM requests WHERE ..]. *)
Definition delete_rows (where_ : OPSuccinctRequest -> bool) (d : Db) : Db * Z :=
  (with_rows (filter (fun '(_, r) => negb (where_ r)) (rows d)) d,
   Z.of_nat (size (filter (fun '(_, r) => where_ r) (rows d)))).

(** ** What the [UPDATE] statements set *)

Section set_columns.
Context (now : Z) (p : Progress).

Definition set_status (s : RequestStatus) : Progress := {|
  status := s; updated_at := now; proof_request_id := proof_request_id p;
  proof_request_time := proof_request_time p; execution_statistics := execution_statistics p;
  witnessgen_duration := witnessgen_duration p; execution_duration := execution_duration p;
  prove_duration := prove_duration p; relay_tx_hash := relay_tx_hash p; proof := proof p;
  contract_address := contract_address p; l1_head_block_number := l1_head_block_number p;
  l1_head_block_hash := l1_head_block_hash p; cluster_proof_handle := cluster_proof_handle p;
  invalidated_at := invalidated_at p |}.

(** The two cancelling statements leave [updated_at] alone. *)
Definition set_cancelled : Progress := {|
  status := Cancelled; updated_at := updated_at p; proof_request_id := proof_request_id p;
  proof_request_time := proof_request_time p; execution_statistics := execution_statistics p;
  witnessgen_duration := witnessgen_duration p; execution_duration := execution_duration p;
  prove_duration := prove_duration p; relay_tx_hash := relay_tx_hash p; proof := proof p;
  contract_address := contract_address p; l1_head_block_number := l1_head_block_number p;
  l1_head_block_hash := l1_head_block_hash p; cluster_proof_handle := cluster_proof_handle p;
  invalidated_at := invalidated_at p |}.

Definition set_invalidated (s : RequestStatus) : Progress := {|
  status := s; updated_at := now; proof_request_id := proof_request_id p;
  proof_request_time := proof_request_time p; execution_statistics := execution_statistics p;
  witnessgen_duration := witnessgen_duration p; execution_duration := execution_duration p;
  prove_duration := prove_duration p; relay_tx_hash := relay_tx_hash p; proof := proof p;
  contract_address := contract_address p; l1_head_block_number := l1_head_block_number p;
  l1_head_block_hash := l1_head_block_hash p; cluster_proof_handle := cluster_proof_handle p;
  invalidated_at := Some now |}.

Definition set_l1_head (number hash : Z) : Progress := {|
  status := status p; updated_at := now; proof_request_id := proof_request_id p;
  proof_request_time := proof_request_time p; execution_statistics := execution_statistics p;
  witnessgen_duration := witnessgen_duration p; execution_duration := execution_duration p;
  prove_duration := prove_duration p; relay_tx_hash := relay_tx_hash p; proof := proof p;
  contract_address := contract_address p; l1_head_block_number := Some number;
  l1_head_block_hash := Some hash; cluster_proof_handle := cluster_proof_handle p;
  invalidated_at := invalidated_at p |}.

(** [EXTRACT(EPOCH FROM (NOW() - proof_request_time))::BIGINT]: [NULL] for a
    [NULL] time. *)
Definition set_prove_duration : Progress := {|
  status := status p; updated_at := updated_at p; proof_request_id := proof_request_id p;
  proof_request_time := proof_request_time p; execution_statistics := execution_statistics p;
  witnessgen_duration := witnessgen_duration p; execution_duration := execution_duration p;
  prove_duration := (fun t => now - t) <$> proof_request_time p;
  relay_tx_hash := relay_tx_hash p; proof := proof p;
  contract_address := contract_address p; l1_head_block_number := l1_head_block_number p;
  l1_head_block_hash := l1_head_block_hash p; cluster_proof_handle := cluster_proof_handle p;
  invalidated_at := invalidated_at p |}.

Definition set_complete (bytes : Z) : Progress := {|
  status := Complete; updated_at := now; proof_request_id := proof_request_id p;
  proof_request_time := proof_request_time p; execution_statistics := execution_statistics p;
  witnessgen_duration := witnessgen_duration p; execution_duration := execution_duration p;
  prove_duration := prove_duration p; relay_tx_hash := relay_tx_hash p; proof := Some bytes;
  contract_address := contract_address p; l1_head_block_number := l1_head_block_number p;
  l1_head_block_hash := l1_head_block_hash p; cluster_proof_handle := cluster_proof_handle p;
  invalidated_at := invalidated_at p |}.

Definition set_witnessgen_duration (duration : Z) : Progress := {|
  status := status p; updated_at := now; proof_request_id := proof_request_id p;
  proof_request_time := proof_request_time p; execution_statistics := execution_statistics p;
  witnessgen_duration := Some duration; execution_duration := execution_duration p;
  prove_duration := prove_duration p; relay_tx_hash := relay_tx_hash p; proof := proof p;
  contract_address := contract_address p; l1_head_block_number := l1_head_block_number p;
  l1_head_block_hash := l1_head_block_hash p; cluster_proof_handle := cluster_proof_handle p;
  invalidated_at := invalidated_at p |}.

Definition set_prove (request_id : Z) : Progress := {|
  status := Prove; updated_at := now; proof_request_id := Some request_id;
  proof_request_time := Some now; execution_statistics := execution_statistics p;
  witnessgen_duration := witnessgen_duration p; execution_duration := execution_duration p;
  prove_duration := prove_duration p; relay_tx_hash := relay_tx_hash p; proof := proof p;
  contract_address := contract_address p; l1_head_block_number := l1_head_block_number p;
  l1_head_block_hash := l1_head_block_hash p; cluster_proof_handle := cluster_proof_handle p;
  invalidated_at := invalidated_at p |}.

Definition set_prove_cluster (handle : ClusterProofHandleJson) : Progress := {|
  status := Prove; updated_at := now; proof_request_id := proof_request_id p;
  proof_request_time := Some now; execution_statistics := execution_statistics p;
  witnessgen_duration := witnessgen_duration p; execution_duration := execution_duration p;
  prove_duration := prove_duration p; relay_tx_hash := relay_tx_hash p; proof := proof p;
  contract_address := contract_address p; l1_head_block_number := l1_head_block_number p;
  l1_head_block_hash := l1_head_block_hash p; cluster_proof_handle := Some handle;
  invalidated_at := invalidated_at p |}.

Definition set_relayed (tx_hash contract : Z) : Progress := {|
  status := Relayed; updated_at := now; proof_request_id := proof_request_id p;
  proof_request_time := proof_request_time p; execution_statistics := execution_statistics p;
  witnessgen_duration := witnessgen_duration p; execution_duration := execution_duration p;
  prove_duration := prove_duration p; relay_tx_hash := Some tx_hash; proof := proof p;
  contract_address := Some contract; l1_head_block_number := l1_head_block_number p;
  l1_head_block_hash := l1_head_block_hash p; cluster_proof_handle := cluster_proof_handle p;
  invalidated_at := invalidated_at p |}.

Definition set_execution (statistics : RequestExecutionStatistics) (duration : Z) : Progress := {|
  status := status p; updated_at := updated_at p; proof_request_id := proof_request_id p;
  proof_request_time := proof_request_time p; execution_statistics := Some statistics;
  witnessgen_duration := witnessgen_duration p; execution_duration := Some duration;
  prove_duration := prove_duration p; relay_tx_hash := relay_tx_hash p; proof := proof p;
  contract_address := contract_address p; l1_head_block_number := l1_head_block_number p;
  l1_head_block_hash := l1_head_block_hash p; cluster_proof_handle := cluster_proof_handle p;
  invalidated_at := invalidated_at p |}.
End set_columns.

(** ** Statements that change rows *)

Section updates.
Context (now : Z).

Definition update_l1_head (i l1_head_block_number l1_head_block_hash : Z) : Db -> Db * Z :=
  update_row i always (fun p => set_l1_head now p l1_head_block_number l1_head_block_hash).

(** The rows an admission counts: those of the same chain and programs. *)
Definition admission_peer (request r : OPSuccinctRequest) : bool :=
  on_chain (l1_chain_id request) (l2_chain_id request) r &&
  (range_vkey_commitment r =? range_vkey_commitment request) &&
  (rollup_config_hash r =? rollup_config_hash request).

Definition count_rows (where_ : OPSuccinctRequest -> bool) (d : Db) : Z :=
  Z.of_nat (size (filter (fun '(_, r) => where_ r) (rows d))).

Definition ACTIVE : list RequestStatus := [WitnessGeneration; Execution; Prove].

(** The transaction of [try_start_witness_generation], after [request] was
    fetched: the advisory lock keeps other admissions out until the commit. *)
Definition admit_request (request : OPSuccinctRequest) (max_witnesses max_proofs : Z) (d : Db)
    : Db * bool :=
  let witnesses := count_rows (fun r => has_status [WitnessGeneration] r && admission_peer request r) d in
  let active := count_rows (fun r => has_status ACTIVE r && admission_peer request r) d in
  if (max_witnesses <=? witnesses) || (max_proofs <=? active) then (d, false)
  else
    let '(d', rows_affected) :=
      update_row (id request) (fun r => has_status [Unrequested] r && negb (invalidated r))
        (fun p => set_status now p WitnessGeneration) d in
    (d', rows_affected =? 1).

Definition finish_invalidated_request (i : Z) (d : Db) : Db * bool :=
  let '(d', rows_affected) :=
    update_row i (fun r => invalidated r && negb (has_status [Invalidated] r))
      (fun p => set_status now p Invalidated) d in
  (d', rows_affected =? 1).

(** The aggregation rows the second statement of
    [invalidate_noncanonical_ranges] touches. *)
Definition contains_stale (stale : list OPSuccinctRequest) (agg : OPSuccinctRequest) : bool :=
  existsb (fun s : OPSuccinctRequest => (start_block agg <=? start_block s) && (end_block s <=? end_block agg)) stale.

(** The rows of the two statements. *)
Definition stale_range (stale_range_ids : list Z) (r : OPSuccinctRequest) : bool :=
  bool_decide (id r ∈ stale_range_ids) && has_type Range r && has_status [Complete] r &&
  negb (invalidated r).

Definition stale_aggregation (commitment : CommitmentConfig) (l1_chain_id l2_chain_id : Z)
    (stale : list OPSuccinctRequest) (r : OPSuccinctRequest) : bool :=
  has_type Aggregation r &&
  has_status [Unrequested; WitnessGeneration; Execution; Prove; Complete] r &&
  negb (invalidated r) && same_programs commitment r && same_agg_vkey commitment r &&
  on_chain l1_chain_id l2_chain_id r && contains_stale stale r.

(** [CASE WHEN agg.status = ANY(terminal) THEN Invalidated ELSE agg.status END] *)
Definition invalidated_status (s : RequestStatus) : RequestStatus :=
  if bool_decide (s ∈ [Unrequested; Complete]) then Invalidated else s.

Definition invalidate_noncanonical_ranges (stale_range_ids : list Z) (commitment : CommitmentConfig)
    (l1_chain_id l2_chain_id : Z) (d : Db) : Db * (Z * Z) :=
  match stale_range_ids with
  | [] => (d, (0, 0))
  | _ =>
      let '(d1, range_result) :=
        update_rows (stale_range stale_range_ids) (fun p => set_invalidated now p Invalidated) d in
      let stale :=
        filter (fun r : OPSuccinctRequest => id r ∈ stale_range_ids) (map_to_list (rows d1)).*2 in
      let '(d2, agg_result) :=
        update_rows (stale_aggregation commitment l1_chain_id l2_chain_id stale)
          (fun p => set_invalidated now p (invalidated_status (status p))) d1 in
      (d2, (range_result, agg_result))
  end.

Definition update_prove_duration (i : Z) : Db -> Db * Z :=
  update_row i always (fun p => set_prove_duration now p).

Definition update_proof_to_complete (i proof : Z) (d : Db) : Db * bool :=
  let '(d', rows_affected) :=
    update_row i (fun r => has_status [Execution; Prove] r && negb (invalidated r))
      (fun p => set_complete now p proof) d in
  (d', rows_affected =? 1).

Definition update_witnessgen_duration (i duration : Z) : Db -> Db * Z :=
  update_row i always (fun p => set_witnessgen_duration now p duration).

Definition update_request_status (i : Z) (new_status : RequestStatus) : Db -> Db * Z :=
  update_row i always (fun p => set_status now p new_status).

Definition update_request_to_prove (i proof_id : Z) : Db -> Db * Z :=
  update_row i always (fun p => set_prove now p proof_id).

Definition update_request_to_prove_cluster (i : Z) (cluster_handle : ClusterProofHandleJson)
    : Db -> Db * Z :=
  update_row i always (fun p => set_prove_cluster now p cluster_handle).

Definition update_request_to_relayed (i relay_tx_hash contract_address : Z) (d : Db) : Db * bool :=
  let '(d', rows_affected) :=
    update_row i (fun r => has_status [Complete] r && negb (invalidated r))
      (fun p => set_relayed now p relay_tx_hash contract_address) d in
  (d', rows_affected =? 1).

Definition insert_execution_statistics (i : Z) (execution_statistics : RequestExecutionStatistics)
    (execution_duration_secs : Z) : Db -> Db * Z :=
  update_row i always (fun p => set_execution p execution_statistics execution_duration_secs).

Definition cancel_all_requests_with_statuses (statuses : list RequestStatus)
    (l1_chain_id l2_chain_id : Z) : Db -> Db * Z :=
  update_rows (fun r => has_status statuses r && on_chain l1_chain_id l2_chain_id r) set_cancelled.

Definition delete_all_requests_with_statuses (statuses : list RequestStatus)
    (l1_chain_id l2_chain_id : Z) : Db -> Db * Z :=
  delete_rows (fun r => has_status statuses r && negb (invalidated r) &&
                        on_chain l1_chain_id l2_chain_id r).

Definition cancel_prove_requests_with_different_commitment_config (commitment : CommitmentConfig)
    (l1_chain_id l2_chain_id : Z) : Db -> Db * Z :=
  update_rows (fun r => has_status [Prove] r && negb (same_programs commitment r) &&
                        on_chain l1_chain_id l2_chain_id r) set_cancelled.

(** ** The chain lock *)

(** [ON CONFLICT .. DO UPDATE]: an upsert. *)
Definition add_chain_lock (l1_chain_id l2_chain_id : Z) (d : Db) : Db * unit :=
  ({| rows := rows d; next_id := next_id d;
      chain_locks := <[(l1_chain_id, l2_chain_id) := now]> (chain_locks d) |}, tt).

Definition is_chain_locked (l1_chain_id l2_chain_id interval : Z) (d : Db) : bool :=
  match chain_locks d !! (l1_chain_id, l2_chain_id) with
  | Some locked_at => now - interval <? locked_at
  | None => false
  end.

Definition update_chain_lock (l1_chain_id l2_chain_id : Z) (d : Db) : Db * unit :=
  ({| rows := rows d; next_id := next_id d;
      chain_locks := alter (fun _ => now) (l1_chain_id, l2_chain_id) (chain_locks d) |}, tt).
End updates.

(** ** Queries *)

Section queries.
Context {HO : HashOrder}.

(** [SELECT * FROM requests WHERE ..]. *)
Definition select (where_ : OPSuccinctRequest -> bool) (d : Db) : list OPSuccinctRequest :=
  filter (fun r => where_ r) (values (rows d)).

Definition by_start (a b : OPSuccinctRequest) : Prop := start_block a <= start_block b.
#[global] Instance by_start_dec a b : Decision (by_start a b).
Proof. unfold by_start. apply _. Defined.
#[global] Instance by_start_total : Total by_start.
Proof. intros a b. unfold by_start. lia. Qed.
#[global] Instance by_start_trans : Transitive by_start.
Proof. intros a b c. unfold by_start. lia. Qed.

(** [.. ORDER BY start_block ASC]. *)
Definition select_ordered (where_ : OPSuccinctRequest -> bool) (d : Db) : list OPSuccinctRequest :=
  merge_sort by_start (select where_ d).

Definition blocks_of (r : OPSuccinctRequest) : Z * Z := (start_block r, end_block r).

Section commitment.
Context (commitment : CommitmentConfig) (l1_chain_id l2_chain_id : Z).

Definition fetch_failed_request_count_by_block_range (start_block_ end_block_ : Z) : Db -> Z :=
  count_rows (fun r => (start_block r =? start_block_) && (end_block r =? end_block_) &&
    has_status [Failed] r && same_programs commitment r && on_chain l1_chain_id l2_chain_id r).

(** [ORDER BY end_block DESC LIMIT 1]. *)
Definition fetch_highest_end_block_for_range_request (statuses : list RequestStatus) (d : Db)
    : option Z :=
  (fun r : OPSuccinctRequest => end_block r) <$> max_by_key (fun r : OPSuccinctRequest => end_block r)
    (select (fun r => same_programs commitment r && has_status statuses r && has_type Range r &&
       negb (invalidated r) && on_chain l1_chain_id l2_chain_id r) d).

Definition fetch_ranges_after_block (statuses : list RequestStatus) (latest_contract_l2_block : Z)
    (d : Db) : list (Z * Z) :=
  blocks_of <$> select (fun r => same_programs commitment r && has_status statuses r &&
    has_type Range r && negb (invalidated r) && (latest_contract_l2_block <=? start_block r) &&
    on_chain l1_chain_id l2_chain_id r) d.

Definition fetch_request_count (status : RequestStatus) : Db -> Z :=
  count_rows (fun r => same_programs commitment r && has_status [status] r &&
    on_chain l1_chain_id l2_chain_id r).

Definition fetch_requests_by_status (status : RequestStatus) : Db -> list OPSuccinctRequest :=
  select (fun r => same_programs commitment r && has_status [status] r &&
    on_chain l1_chain_id l2_chain_id r).

Definition consecutive_complete_range (start_block_ end_block_ : Z) (r : OPSuccinctRequest) : bool :=
  same_programs commitment r && has_status [Complete] r && has_type Range r &&
  negb (invalidated r) && (start_block_ <=? start_block r) && (end_block r <=? end_block_) &&
  on_chain l1_chain_id l2_chain_id r.

Definition get_consecutive_complete_range_proofs (start_block_ end_block_ : Z)
    : Db -> list OPSuccinctRequest :=
  select_ordered (consecutive_complete_range start_block_ end_block_).

(** The [for proof in &proofs] loop over [next_block]. *)
Fixpoint check_contiguous (next_block : Z) (proofs : list OPSuccinctRequest) : outcome Z :=
  match proofs with
  | [] => Ok next_block
  | proof :: rest =>
      _ ← ensure ((start_block proof =? next_block) && (start_block proof <? end_block proof))
            "Aggregation range proofs are not contiguous";
      check_contiguous (end_block proof) rest
  end.

Definition get_complete_aggregation_range_proofs (start_block_ end_block_ : Z) (d : Db)
    : outcome (list OPSuccinctRequest) :=
  _ ← ensure (start_block_ <? end_block_) "Aggregation range must be nonempty";
  let proofs := get_consecutive_complete_range_proofs start_block_ end_block_ d in
  next_block ← check_contiguous start_block_ proofs;
  _ ← ensure (next_block =? end_block_) "Aggregation range proofs do not cover";
  Ok proofs.

(** [SELECT MAX(l1_head_block_number)]: [NULL]s are skipped, and the maximum
    of no value is [NULL]. *)
Definition get_max_l1_head_block_number_for_range (start_block_ end_block_ : Z) (d : Db) : option Z :=
  max_by_key (fun n => n)
    (omap (fun r : OPSuccinctRequest => l1_head_block_number r)
       (select (consecutive_complete_range start_block_ end_block_) d)).

(** [LIMIT 1] without an order: any matching row. *)
Definition fetch_reusable_agg_checkpoint (start_block_ end_block_ : Z) (d : Db) : option (Z * Z) :=
  let found := head (select (fun r => same_programs commitment r && same_agg_vkey commitment r &&
    has_type Aggregation r && (start_block r =? start_block_) && (end_block r =? end_block_) &&
    has_status [Failed; Invalidated] r &&
    match checkpointed_l1_block_hash r, checkpointed_l1_block_number r with
    | Some _, Some _ => true
    | _, _ => false
    end && on_chain l1_chain_id l2_chain_id r) d) in
  match found with
  | Some r =>
      match checkpointed_l1_block_hash r, checkpointed_l1_block_number r with
      | Some hash, Some number => Some (hash, number)
      | _, _ => None
      end
  | None => None
  end.

Definition PENDING : list RequestStatus :=
  [Unrequested; WitnessGeneration; Execution; Prove; Complete].

Definition fetch_active_agg_proofs_count (start_block_ : Z) : Db -> Z :=
  count_rows (fun r => same_programs commitment r && same_agg_vkey commitment r &&
    has_status PENDING r && negb (invalidated r) && has_type Aggregation r &&
    (start_block r =? start_block_) && on_chain l1_chain_id l2_chain_id r).

Definition fetch_unrequested_agg_proof (latest_contract_l2_block : Z) (d : Db)
    : option OPSuccinctRequest :=
  head (select_ordered (fun r => same_programs commitment r && same_agg_vkey commitment r &&
    has_status [Unrequested] r && negb (invalidated r) && has_type Aggregation r &&
    (latest_contract_l2_block <=? start_block r) && on_chain l1_chain_id l2_chain_id r) d).

Definition fetch_first_unrequested_range_proof (latest_contract_l2_block : Z) (d : Db)
    : option OPSuccinctRequest :=
  head (select_ordered (fun r => same_programs commitment r && has_status [Unrequested] r &&
    negb (invalidated r) && has_type Range r && (latest_contract_l2_block <=? start_block r) &&
    on_chain l1_chain_id l2_chain_id r) d).

(** The condition [fetch_completed_ranges] and the two metadata queries share. *)
Definition completed_range (latest_contract_l2_block : Z) (r : OPSuccinctRequest) : bool :=
  same_programs commitment r && has_status [Complete] r && negb (invalidated r) &&
  has_type Range r && (latest_contract_l2_block <=? start_block r) &&
  on_chain l1_chain_id l2_chain_id r.

Definition fetch_completed_ranges (latest_contract_l2_block : Z) (d : Db) : list (Z * Z) :=
  blocks_of <$> select_ordered (completed_range latest_contract_l2_block) d.

(** The rows stand for the selected columns. *)
Definition fetch_completed_range_metadata (latest_contract_l2_block : Z)
    : Db -> list OPSuccinctRequest :=
  select_ordered (completed_range latest_contract_l2_block).

Definition missing_l1_head (r : OPSuccinctRequest) : bool :=
  match l1_head_block_number r, l1_head_block_hash r with
  | Some _, Some _ => false
  | _, _ => true
  end.

Definition fetch_missing_range_metadata (latest_contract_l2_block limit : Z) (d : Db)
    : list OPSuccinctRequest :=
  take (Z.to_nat limit)
    (select_ordered (fun r => completed_range latest_contract_l2_block r && missing_l1_head r) d).

Definition fetch_completed_agg_proof_after_block (latest_contract_l2_block : Z) (d : Db)
    : option OPSuccinctRequest :=
  head (select_ordered (fun r => same_programs commitment r && same_agg_vkey commitment r &&
    has_status [Complete] r && negb (invalidated r) && has_type Aggregation r &&
    (start_block r =? latest_contract_l2_block) && on_chain l1_chain_id l2_chain_id r) d).

(** [fetch_one] of an optional column: no row and a [NULL] are both
    [RowNotFound]. *)
Definition get_mock_aggregation_proof_by_request_id (request_id : Z) (d : Db) : outcome Z :=
  let found := head (select (fun r => (id r =? request_id) && bool_decide (mode r = Mock) &&
    has_type Aggregation r && has_status [Complete] r && same_programs commitment r &&
    same_agg_vkey commitment r && on_chain l1_chain_id l2_chain_id r) d) in
  with_context "RowNotFound" (match found with Some r => proof r | None => None end).
End commitment.

(** [fetch_one] by primary key. *)
Definition fetch_request (i : Z) (d : Db) : outcome OPSuccinctRequest :=
  with_context "RowNotFound" (head (select (fun r => id r =? i) d)).

Definition is_request_invalidated (i : Z) (d : Db) : outcome bool :=
  r ← fetch_request i d; Ok (invalidated r).
End queries.
