(* ===== verification/RequestDbLaws.v ===== *)
(** * Laws of the request database

    What each statement of [RequestDb] does to the life of a row: which
    statements can bring an invalidated row back (none), which can raise the
    number of active requests (only an admission, up to its limits), and which
    rows a query returns. *)

From S2P Require Import Prelude.
From S2P Require Import ValidityRanges.
From S2P Require Import RequestDb.

(** ** Reading statements row by row *)

Lemma lookup_update_rows where_ set d i :
  rows (update_rows where_ set d).1 !! i =
  (fun r => if where_ r then mk_request (fixed r) (set (progress r)) else r) <$> rows d !! i.
Proof. cbn. apply lookup_fmap. Qed.

Lemma next_update_rows where_ set d : next_id (update_rows where_ set d).1 = next_id d.
Proof. done. Qed.

Lemma has_status_iff l r : has_status l r = true <-> status r ∈ l.
Proof. apply bool_decide_eq_true. Qed.

Lemma count_rows_le w w' d d' :
  (forall i (r' : OPSuccinctRequest), rows d' !! i = Some r' -> w' r' = true ->
     exists r : OPSuccinctRequest, rows d !! i = Some r /\ w r = true) ->
  count_rows w' d' <= count_rows w d.
Proof.
  intros H. unfold count_rows. apply inj_le. rewrite <- !size_dom. apply subseteq_size.
  intros i. rewrite !elem_of_dom. intros [r' Hr']. apply map_lookup_filter_Some in Hr' as [Hr' Hw'].
  destruct (H i r' Hr' (Is_true_true_1 _ Hw')) as (r & Hr & Hw). exists r.
  apply map_lookup_filter_Some. split; [done|]. by apply Is_true_true_2.
Qed.

Lemma count_rows_0 w d : count_rows w d = 0 <-> forall i (r : OPSuccinctRequest), rows d !! i = Some r -> w r = false.
Proof.
  unfold count_rows. split.
  - intros H i r Hr. destruct (w r) eqn:E; [|done].
    assert (Hs : size (filter (fun '(_, r) => w r) (rows d)) = 0%nat) by lia.
    apply map_size_empty_iff in Hs.
    assert (Hf : filter (fun '(_, r) => w r) (rows d) !! i = Some r)
      by (apply map_lookup_filter_Some; split; [done|by apply Is_true_true_2]).
    by rewrite Hs in Hf.
  - intros H. replace (filter (fun '(_, r) => w r) (rows d)) with (∅ : gmap Z OPSuccinctRequest).
    { by rewrite map_size_empty. }
    symmetry. apply map_empty. intros i. apply map_lookup_filter_None. right.
    intros r Hr Hw. apply Is_true_true_1 in Hw. by rewrite (H i r Hr) in Hw.
Qed.

(** One row more: the statement that admits a request changes one row. *)
Lemma count_rows_insert_le w d i r :
  count_rows w (with_rows (<[i := r]> (rows d)) d) <= count_rows w d + 1.
Proof.
  unfold count_rows. cbn [rows with_rows].
  enough (size (filter (fun '(_, r) => w r) (<[i := r]> (rows d))) <=
          S (size (filter (fun '(_, r) => w r) (rows d))))%nat by lia.
  rewrite <- !size_dom. rewrite <- (Nat.add_1_r).
  etrans; [apply (subseteq_size _ ({[i]} ∪ dom (filter (fun '(_, r) => w r) (rows d))))|].
  - intros j Hj. apply elem_of_dom in Hj as [r' Hr'].
    apply map_lookup_filter_Some in Hr' as [Hr' Hw].
    destruct (decide (j = i)) as [->|Hne]; [set_solver|].
    rewrite lookup_insert_ne in Hr' by done. apply elem_of_union_r, elem_of_dom.
    exists r'. by apply map_lookup_filter_Some.
  - rewrite size_union_alt, size_singleton.
    pose proof (subseteq_size (dom (filter (fun '(_, r) => w r) (rows d)) ∖ {[i]})
      (dom (filter (fun '(_, r) => w r) (rows d))) ltac:(set_solver)). lia.
Qed.

(** A statement by primary key, on tables whose rows sit at their keys. *)
Lemma update_row_lookup i guard set d j r :
  wf_db d -> rows d !! j = Some r ->
  rows (update_row i guard set d).1 !! j =
  Some (if (j =? i) && guard r then mk_request (fixed r) (set (progress r)) else r).
Proof.
  intros Hwf Hr. unfold update_row. rewrite lookup_update_rows, Hr. cbn.
  by rewrite (wf_id _ Hwf _ _ Hr).
Qed.

Lemma update_row_affected i guard set d :
  wf_db d ->
  (update_row i guard set d).2 = 1 <-> exists r : OPSuccinctRequest, rows d !! i = Some r /\ guard r = true.
Proof.
  intros Hwf. unfold update_row, update_rows. cbn [snd].
  set (m := filter _ _). split.
  - intros H1. assert (Hs : size m <> 0%nat) by lia. apply map_size_non_empty_iff in Hs.
    apply map_choose in Hs as (j & r & Hr). apply map_lookup_filter_Some in Hr as [Hr Hg].
    apply Is_true_true_1, andb_true_iff in Hg as [Hi Hg].
    rewrite (wf_id _ Hwf _ _ Hr) in Hi. apply Z.eqb_eq in Hi as ->. by exists r.
  - intros (r & Hr & Hg). replace m with ({[i := r]} : gmap Z OPSuccinctRequest).
    { by rewrite map_size_singleton. }
    apply map_eq. intros j. destruct (decide (j = i)) as [->|Hne].
    + rewrite lookup_singleton_eq. symmetry. apply map_lookup_filter_Some. split; [done|].
      rewrite (wf_id _ Hwf _ _ Hr), Z.eqb_refl, Hg. done.
    + rewrite lookup_singleton_ne by done. symmetry. apply map_lookup_filter_None. right.
      intros r' Hr' Hw. apply Is_true_true_1, andb_true_iff in Hw as [Hw _].
      rewrite (wf_id _ Hwf _ _ Hr') in Hw. apply Z.eqb_eq in Hw. done.
Qed.

Lemma update_row_hit i guard set d (r : OPSuccinctRequest) :
  wf_db d -> rows d !! i = Some r -> guard r = true ->
  update_row i guard set d =
  (with_rows (<[i := mk_request (fixed r) (set (progress r))]> (rows d)) d, 1).
Proof.
  intros Hwf Hr Hg. rewrite (surjective_pairing (update_row _ _ _ _)). f_equal.
  2: { apply update_row_affected; [done|]. by exists r. }
  unfold update_row, update_rows. cbn [fst]. f_equal. apply map_eq. intros j.
  rewrite lookup_fmap. destruct (decide (j = i)) as [->|Hne].
  - rewrite lookup_insert_eq, Hr. cbn. by rewrite (wf_id _ Hwf _ _ Hr), Z.eqb_refl, Hg.
  - rewrite lookup_insert_ne by done. destruct (rows d !! j) as [r'|] eqn:E; [|done]. cbn.
    rewrite (wf_id _ Hwf _ _ E). by rewrite (proj2 (Z.eqb_neq _ _) Hne).
Qed.

Lemma update_row_miss i guard set d :
  wf_db d -> (forall r : OPSuccinctRequest, rows d !! i = Some r -> guard r = false) ->
  update_row i guard set d = (d, 0).
Proof.
  intros Hwf Hg.
  assert (Hw : forall j (r : OPSuccinctRequest), rows d !! j = Some r -> (id r =? i) && guard r = false).
  { intros j r Hr. rewrite (wf_id _ Hwf _ _ Hr). destruct (Z.eqb_spec j i) as [->|]; [|done].
    by apply Hg. }
  rewrite (surjective_pairing (update_row _ _ _ _)). f_equal.
  - destruct d as [m n l]. unfold update_row, update_rows. cbn in *. unfold with_rows. cbn. f_equal.
    apply map_eq. intros j. rewrite lookup_fmap. destruct (m !! j) as [r|] eqn:E; [|done].
    cbn. by rewrite (Hw j r E).
  - apply (count_rows_0 (fun r => (id r =? i) && guard r) d). exact Hw.
Qed.

(** ** Statements that transform rows in place *)

(** Every row is kept, changed at most as [Phi] says. *)
Definition in_place (Phi : Z -> OPSuccinctRequest -> OPSuccinctRequest -> Prop) (d d' : Db) : Prop :=
  next_id d' = next_id d /\
  (forall i (r : OPSuccinctRequest), rows d !! i = Some r -> exists r' : OPSuccinctRequest, rows d' !! i = Some r' /\ fixed r' = fixed r /\ Phi i r r') /\
  (forall i, rows d !! i = None -> rows d' !! i = None).

Lemma in_place_update_rows Phi (where_ : OPSuccinctRequest -> bool) set d :
  (forall i (r : OPSuccinctRequest), rows d !! i = Some r ->
     Phi i r (if where_ r then mk_request (fixed r) (set (progress r)) else r)) ->
  in_place Phi d (update_rows where_ set d).1.
Proof.
  intros H. split; [done|]. split; intros i.
  - intros r Hr. rewrite lookup_update_rows, Hr. cbn. eexists. split; [done|].
    split; [by destruct (where_ r)|auto].
  - intros Hi. by rewrite lookup_update_rows, Hi.
Qed.

Lemma in_place_mono Phi Phi' d d' :
  (forall i r r', Phi i r r' -> Phi' i r r') -> in_place Phi d d' -> in_place Phi' d d'.
Proof.
  intros H (Hn & Hr & H0). split; [done|]. split; [|done].
  intros i r Hi. destruct (Hr i r Hi) as (r' & ? & ? & ?). exists r'. auto.
Qed.

Lemma in_place_refl (Phi : Z -> OPSuccinctRequest -> OPSuccinctRequest -> Prop) d :
  (forall i (r : OPSuccinctRequest), Phi i r r) -> in_place Phi d d.
Proof. intros H. split; [done|]. split; [|done]. intros i r Hr. by exists r. Qed.

Lemma in_place_backwards Phi d d' i r' :
  in_place Phi d d' -> rows d' !! i = Some r' ->
  exists r : OPSuccinctRequest, rows d !! i = Some r /\ fixed r' = fixed r /\ Phi i r r'.
Proof.
  intros (Hn & Hr & H0) Hi. destruct (rows d !! i) as [r|] eqn:E.
  - destruct (Hr i r E) as (r2 & Hr2 & Hf & HP). exists r. rewrite Hr2 in Hi.
    by injection Hi as ->.
  - by rewrite H0 in Hi.
Qed.

Lemma wf_in_place Phi d d' : in_place Phi d d' -> wf_db d -> wf_db d'.
Proof.
  intros HP [Hid Hnext]. pose proof HP as (Hn & _). split; intros i r' Hr';
    destruct (in_place_backwards _ _ _ _ _ HP Hr') as (r & Hr & Hf & _).
  - rewrite Hf. by apply Hid.
  - rewrite Hn. by eapply Hnext.
Qed.

(** ** The life of a row *)

(** A status no query asks for on behalf of a proof that will be used. *)
Definition retired (r : OPSuccinctRequest) : Prop := status r ∉ [Unrequested; Complete; Relayed].
(** Witness generation or mock execution: the row belongs to a task. *)
Definition owned (r : OPSuccinctRequest) : Prop := status r ∈ [WitnessGeneration; Execution].
(** Admitted, and no longer in the hands of a task. *)
Definition past (r : OPSuccinctRequest) : Prop :=
  status r ∉ [Unrequested; WitnessGeneration; Execution].

(** ** The abstract ledger

    What the tables promise, row by row, without their columns: the status of a
    request only follows [advances], its invalidation is final and takes it out
    of use, a new entry is queued under a number never used before, and only an
    entry that was never requested may be discarded. *)
Inductive advances : RequestStatus -> RequestStatus -> Prop :=
| admits : advances Unrequested WitnessGeneration
| executes : advances WitnessGeneration Execution
| requests_proof : advances WitnessGeneration Prove
| completes_mock : advances Execution Complete
| completes : advances Prove Complete
| relays : advances Complete Relayed
| drops s s' : s' ∈ [Failed; Cancelled; Invalidated] -> advances s s'.

Definition flows : relation RequestStatus := rtc advances.

Record Ledger := { entries : gmap Z (RequestStatus * bool); next_entry : Z }.

Inductive entry_step (first next i : Z) : option (RequestStatus * bool) -> option (RequestStatus * bool) -> Prop :=
| entry_absent : entry_step first next i None None
| entry_queued : first <= i < next -> entry_step first next i None (Some (Unrequested, false))
| entry_moves st gone st' gone' :
    flows st st' -> (gone = true -> gone' = true) ->
    (gone' = true -> st' ∉ [Unrequested; Complete; Relayed]) ->
    entry_step first next i (Some (st, gone)) (Some (st', gone'))
| entry_discarded st :
    st ∈ [Unrequested; WitnessGeneration; Execution] ->
    entry_step first next i (Some (st, false)) None.

Definition ledger_step (L L' : Ledger) : Prop :=
  next_entry L <= next_entry L' /\
  forall i, entry_step (next_entry L) (next_entry L') i (entries L !! i) (entries L' !! i).

(** The ledger the tables stand for. *)
Definition entry_of (r : OPSuccinctRequest) : RequestStatus * bool := (status r, invalidated r).
Definition ledger (d : Db) : Ledger := {| entries := entry_of <$> rows d; next_entry := next_id d |}.

(** Decides membership in a list of statuses. *)
Lemma status_in (s : RequestStatus) (l : list RequestStatus) : bool_decide (s ∈ l) = true -> s ∈ l.
Proof. apply bool_decide_eq_true. Qed.
Lemma status_not_in (s : RequestStatus) (l : list RequestStatus) : bool_decide (s ∈ l) = false -> s ∉ l.
Proof. apply bool_decide_eq_false. Qed.

Lemma flows_past s s' :
  flows s s' -> s ∉ [Unrequested; WitnessGeneration; Execution] ->
  s' ∉ [Unrequested; WitnessGeneration; Execution].
Proof.
  induction 1 as [s|s1 s2 s3 H12 _ IH]; [done|]. intros Hs. apply IH.
  destruct H12 as [| | | | | |t t' Ht];
    [by destruct Hs; apply status_in..| | | |];
    try (apply status_not_in; reflexivity).
  destruct t'; first [apply status_not_in; reflexivity|exfalso; revert Ht; apply status_not_in; reflexivity].
Qed.

Lemma flows_drop s s' : bool_decide (s' ∈ [Failed; Cancelled; Invalidated]) = true -> flows s s'.
Proof. intros H. apply rtc_once, drops. by apply bool_decide_eq_true in H. Qed.

(** The tables are well formed and every invalidated row is retired. *)
Record db_inv (d : Db) : Prop := {
  inv_wf : wf_db d;
  inv_retired : forall i (r : OPSuccinctRequest), rows d !! i = Some r -> invalidated r = true -> retired r;
}.

(** The invariant, checked on concrete tables. *)
Definition db_check (d : Db) : bool :=
  forallb (fun '(i, r) => (id (fixed r) =? i) && (i <? next_id d) &&
             implb (invalidated r) (negb (has_status [Unrequested; Complete; Relayed] r)))
    (map_to_list (rows d)).

Lemma db_check_inv d : db_check d = true -> db_inv d.
Proof.
  intros H. unfold db_check in H. rewrite forallb_forall in H.
  assert (Hr : forall i (r : OPSuccinctRequest), rows d !! i = Some r ->
    id r = i /\ i < next_id d /\ (invalidated r = true -> retired r)).
  { intros i r Hi. apply elem_of_map_to_list, list_elem_of_In in Hi.
    specialize (H _ Hi). cbn in H. rewrite !andb_true_iff, Z.eqb_eq, Z.ltb_lt in H.
    destruct H as [[H1 H2] H3]. split_and!; [done..|]. intros Hinv. rewrite Hinv in H3. cbn in H3.
    apply negb_true_iff, bool_decide_eq_false in H3. exact H3. }
  split; [split|]; intros i r Hi; destruct (Hr i r Hi) as (? & ? & ?); auto.
Qed.

(** The invariant is kept, and what is invalidated stays so. *)
Definition sealed (d d' : Db) : Prop :=
  db_inv d -> db_inv d' /\
  forall i (r : OPSuccinctRequest), rows d !! i = Some r -> invalidated r = true ->
    exists r' : OPSuccinctRequest, rows d' !! i = Some r' /\ fixed r' = fixed r /\ invalidated r' = true.

#[global] Instance sealed_preorder : PreOrder sealed.
Proof.
  split.
  - intros d Hd. split; [done|]. intros i r Hr Hi. by exists r.
  - intros d1 d2 d3 H12 H23 H1. destruct (H12 H1) as [H2 H2']. destruct (H23 H2) as [H3 H3'].
    split; [done|]. intros i r Hr Hi. destruct (H2' i r Hr Hi) as (r2 & Hr2 & Hf2 & Hi2).
    destruct (H3' i r2 Hr2 Hi2) as (r3 & Hr3 & Hf3 & Hi3). exists r3. split_and!; [done|congruence|done].
Qed.

(** The invalidation of a row is never undone, and never leaves it usable. *)
Definition row_sealed (r r' : OPSuccinctRequest) : Prop :=
  (invalidated r = true -> invalidated r' = true) /\
  ((invalidated r = true -> retired r) -> invalidated r' = true -> retired r').
(** The row does not become active. *)
Definition row_calm (r r' : OPSuccinctRequest) : Prop :=
  (status r' ∈ ACTIVE -> status r ∈ ACTIVE) /\
  (status r' = WitnessGeneration -> status r = WitnessGeneration).

Definition life (i : Z) (r r' : OPSuccinctRequest) : Prop :=
  row_sealed r r' /\ row_calm r r' /\ flows (status r) (status r').

Lemma life_refl i r : life i r r.
Proof. unfold life, row_sealed, row_calm. split_and!; try tauto. reflexivity. Qed.

(** Rows change as [Phi] says, and new rows are queued and valid. *)
Definition evolves (Phi : Z -> OPSuccinctRequest -> OPSuccinctRequest -> Prop) (d d' : Db) : Prop :=
  next_id d <= next_id d' /\
  (forall i (r : OPSuccinctRequest), rows d !! i = Some r ->
     exists r' : OPSuccinctRequest, rows d' !! i = Some r' /\ fixed r' = fixed r /\ Phi i r r') /\
  (forall i (r' : OPSuccinctRequest), rows d' !! i = Some r' -> rows d !! i = None ->
     next_id d <= i < next_id d' /\ id r' = i /\ status r' = Unrequested /\ invalidated r' = false).

Lemma in_place_evolves Phi d d' : in_place Phi d d' -> evolves Phi d d'.
Proof.
  intros (Hn & Hr & H0). split; [lia|]. split; [done|].
  intros i r' Hr' Hi. by rewrite H0 in Hr'.
Qed.

Lemma evolves_backwards Phi d d' i (r' : OPSuccinctRequest) :
  evolves Phi d d' -> rows d' !! i = Some r' ->
  (exists r : OPSuccinctRequest, rows d !! i = Some r /\ fixed r' = fixed r /\ Phi i r r') \/
  (rows d !! i = None /\ next_id d <= i < next_id d' /\ id r' = i /\ status r' = Unrequested /\
   invalidated r' = false).
Proof.
  intros (Hn & Hr & H0) Hi. destruct (rows d !! i) as [r|] eqn:E; [left|right; by auto].
  destruct (Hr i r E) as (r2 & Hr2 & Hf & HP). rewrite Hr2 in Hi. injection Hi as ->. by exists r.
Qed.

Lemma evolves_wf Phi d d' : evolves Phi d d' -> wf_db d -> wf_db d'.
Proof.
  intros He [Hid Hnext]. pose proof He as (Hn & _). split; intros i r' Hr';
    destruct (evolves_backwards _ _ _ _ _ He Hr') as [(r & Hr & Hf & _)|(H0 & Hi & Hd & _)];
    [rewrite Hf; by apply Hid|done|specialize (Hnext i r Hr); lia|lia].
Qed.

Lemma evolves_sealed Phi d d' :
  (forall i r r', Phi i r r' -> row_sealed r r') -> evolves Phi d d' -> sealed d d'.
Proof.
  intros HP He [Hwf Hret]. split; [split; [by eapply evolves_wf|]|].
  - intros i r' Hr' Hi.
    destruct (evolves_backwards _ _ _ _ _ He Hr') as [(r & Hr & Hf & HL%HP)|(_ & _ & _ & _ & H0)];
      [|congruence].
    destruct HL as (_ & Hs). apply Hs; [|done]. by apply Hret with i.
  - intros i r Hr Hi. destruct He as (_ & He & _). destruct (He i r Hr) as (r' & Hr' & Hf & HL%HP).
    exists r'. destruct HL as (Hs & _). auto.
Qed.

(** Statements that transform rows refine the ledger. *)
Lemma ledger_refl d : db_inv d -> ledger_step (ledger d) (ledger d).
Proof.
  intros [_ Hret]. split; [lia|]. intros i. cbn. rewrite lookup_fmap.
  destruct (rows d !! i) as [r|] eqn:E; cbn; [|constructor].
  constructor; [reflexivity|done|]. by apply (Hret i).
Qed.

Lemma evolves_ledger (Phi : Z -> OPSuccinctRequest -> OPSuccinctRequest -> Prop) d d' :
  (forall i r r', Phi i r r' -> row_sealed r r' /\ flows (status r) (status r')) ->
  db_inv d -> evolves Phi d d' -> ledger_step (ledger d) (ledger d').
Proof.
  intros HP [Hwf Hret] He. pose proof He as (Hn & Hk & Hf). split; [done|]. intros i. cbn.
  rewrite !lookup_fmap. destruct (rows d !! i) as [r|] eqn:E.
  - destruct (Hk i r E) as (r' & -> & _ & [[Hs1 Hs2] Hfl]%HP). cbn. constructor; [done|done|].
    intros Hi. apply Hs2; [|done]. by apply (Hret i).
  - destruct (rows d' !! i) as [r'|] eqn:E'; [|constructor].
    destruct (Hf i r' E' E) as (Hi & _ & Hs & Hv). cbn. unfold entry_of. rewrite Hs, Hv. by constructor.
Qed.

(** ** Capacity *)

Section capacity.
Context (max_witnesses max_proofs : Z) (q : OPSuccinctRequest).

Definition witnessing (r : OPSuccinctRequest) : bool :=
  has_status [WitnessGeneration] r && admission_peer q r.
Definition active (r : OPSuccinctRequest) : bool := has_status ACTIVE r && admission_peer q r.

(** The requests of the chain and programs of [q] respect the limits. *)
Definition within (d : Db) : Prop :=
  count_rows witnessing d <= max_witnesses /\ count_rows active d <= max_proofs.

Lemma admission_peer_fixed r r' : fixed r' = fixed r -> admission_peer q r' = admission_peer q r.
Proof. intros Hf. unfold admission_peer, on_chain. by rewrite Hf. Qed.

Lemma evolves_within d d' : evolves life d d' -> within d -> within d'.
Proof.
  intros He [Hw Ha].
  split; [etrans; [apply (count_rows_le witnessing witnessing d d')|done]
         |etrans; [apply (count_rows_le active active d d')|done]]; intros i r' Hr';
    destruct (evolves_backwards _ _ _ _ _ He Hr') as [(r & Hr & Hf & HL)|(_ & _ & _ & H0 & _)];
    unfold witnessing, active; rewrite andb_true_iff, has_status_iff; intros [Hs Hp].
  - exists r. split; [done|]. rewrite andb_true_iff, has_status_iff.
    rewrite (admission_peer_fixed r r') in Hp by done. split; [|done].
    apply list_elem_of_singleton in Hs. destruct HL as (_ & (_ & HL) & _).
    apply list_elem_of_singleton. by apply HL.
  - rewrite H0 in Hs. by apply list_elem_of_singleton in Hs.
  - exists r. split; [done|]. rewrite andb_true_iff, has_status_iff.
    rewrite (admission_peer_fixed r r') in Hp by done. split; [|done].
    destruct HL as (_ & (HL & _) & _). by apply HL.
  - rewrite H0 in Hs. unfold ACTIVE in Hs. by repeat (apply elem_of_cons in Hs as [Hs|Hs]; [done|]);
      apply elem_of_nil in Hs.
Qed.

(** ** The effect of a statement *)

(** What every statement of the running service does. *)
Record effect (d d' : Db) : Prop := {
  eff_sealed : sealed d d';
  eff_keep : forall i (r : OPSuccinctRequest), rows d !! i = Some r ->
    exists r' : OPSuccinctRequest, rows d' !! i = Some r' /\ fixed r' = fixed r /\ (past r -> past r');
  eff_within : within d -> within d';
  eff_next : next_id d <= next_id d';
}.

#[global] Instance effect_preorder : PreOrder effect.
Proof.
  split.
  - intros d. split; [reflexivity| |done|lia]. intros i r Hr. by exists r.
  - intros d1 d2 d3 [S12 K12 W12 N12] [S23 K23 W23 N23]. split; [by etrans| |tauto|lia].
    intros i r Hr. destruct (K12 i r Hr) as (r2 & Hr2 & Hf2 & Hp2).
    destruct (K23 i r2 Hr2) as (r3 & Hr3 & Hf3 & Hp3). exists r3. split_and!; [done|congruence|tauto].
Qed.

Lemma evolves_effect d d' : evolves life d d' -> effect d d'.
Proof.
  intros He. split; [eapply evolves_sealed, He; by intros ? ? ? [? _]| |by apply evolves_within|apply He].
  intros i r Hr. destruct He as (_ & He & _). destruct (He i r Hr) as (r' & Hr' & Hf & HL).
  exists r'. split_and!; [done..|]. apply flows_past, HL.
Qed.
End capacity.

(** ** Statements by primary key *)

Lemma update_row_other i guard set d j :
  wf_db d -> j <> i -> rows (update_row i guard set d).1 !! j = rows d !! j.
Proof.
  intros Hwf Hne. destruct (rows d !! j) as [r|] eqn:E.
  - rewrite (update_row_lookup _ _ _ _ _ r) by done. by rewrite (proj2 (Z.eqb_neq _ _) Hne).
  - unfold update_row. by rewrite lookup_update_rows, E.
Qed.

Lemma update_row_evolves i guard set d :
  wf_db d ->
  (forall r : OPSuccinctRequest, rows d !! i = Some r -> guard r = true ->
     life i r (mk_request (fixed r) (set (progress r)))) ->
  evolves life d (update_row i guard set d).1.
Proof.
  intros Hwf H. apply in_place_evolves, in_place_update_rows. intros j r Hr.
  rewrite (wf_id _ Hwf _ _ Hr). destruct (Z.eqb_spec j i) as [->|_]; cbn; [|apply life_refl].
  destruct (guard r) eqn:Hg; [by apply H|apply life_refl].
Qed.

(** A row that moves to the status of [p], and is as invalidated as before. *)
Lemma life_intro i (r : OPSuccinctRequest) p :
  invalidated_at p = invalidated_at r ->
  (invalidated r = true -> status p ∉ [Unrequested; Complete; Relayed]) ->
  (status p ∈ ACTIVE -> status r ∈ ACTIVE) ->
  (status p = WitnessGeneration -> status r = WitnessGeneration) ->
  flows (status r) (status p) ->
  life i r (mk_request (fixed r) p).
Proof.
  intros Hi Hret Ha Hw Hp. unfold life, row_sealed, row_calm, retired, invalidated in *.
  cbn. rewrite Hi. tauto.
Qed.

(** Decides the questions on statuses. *)
Ltac status_solve :=
  cbn; intros;
  first [ done | congruence
        | apply status_in; reflexivity
        | apply status_not_in; reflexivity
        | apply flows_drop; reflexivity
        | exfalso; match goal with
                   | H : ?s ∈ ?l |- _ => exact (status_not_in s l eq_refl H)
                   end ].

Lemma life_same_status i (r : OPSuccinctRequest) p :
  status p = status r -> invalidated_at p = invalidated_at r ->
  life i r (mk_request (fixed r) p).
Proof.
  intros Hs Hi. unfold life, row_sealed, row_calm, retired, invalidated.
  cbn. rewrite Hs, Hi. split_and!; try tauto. reflexivity.
Qed.

Lemma owned_cases r : owned r -> status r = WitnessGeneration \/ status r = Execution.
Proof.
  intros [H|H%list_elem_of_singleton]%elem_of_cons; auto.
Qed.

Lemma owned_not_past r : owned r -> ~ past r.
Proof. unfold past. intros [H|H]%owned_cases; rewrite H; intros Hn; apply Hn; status_solve. Qed.

Lemma owned_active r : owned r -> status r ∈ ACTIVE.
Proof. intros [H|H]%owned_cases; rewrite H; status_solve. Qed.

(** What a statement on the rows of others may do: it spares the rows in the
    hands of a task. *)
Definition spares (i : Z) (r r' : OPSuccinctRequest) : Prop :=
  life i r r' /\ (owned r -> status r' = status r).

Lemma spares_refl i r : spares i r r.
Proof. split; [apply life_refl|done]. Qed.

Lemma spares_trans i r r2 r3 : spares i r r2 -> spares i r2 r3 -> spares i r r3.
Proof.
  intros [((? & ?) & (? & ?) & ?) Ho] [((? & ?) & (? & ?) & ?) Ho'].
  unfold spares, life, row_sealed, row_calm. split; [split_and!; try tauto; by etrans|].
  intros Hr. specialize (Ho Hr). rewrite Ho'; [done|]. unfold owned in *. by rewrite Ho.
Qed.

Lemma in_place_trans d d2 d3 : in_place spares d d2 -> in_place spares d2 d3 -> in_place spares d d3.
Proof.
  intros (Hn2 & H2 & H02) (Hn3 & H3 & H03). split; [congruence|]. split; [|auto].
  intros i r Hr. destruct (H2 i r Hr) as (r2 & Hr2 & Hf2 & HL2).
  destruct (H3 i r2 Hr2) as (r3 & Hr3 & Hf3 & HL3). exists r3.
  split_and!; [done|congruence|by eapply spares_trans].
Qed.

(** Invalidated to a status [s]: terminal for a queued or complete row. *)
Lemma spares_invalidated now i (r : OPSuccinctRequest) s :
  (s = Invalidated /\ ~ owned r) \/ (s = status r /\ retired r) ->
  spares i r (mk_request (fixed r) (set_invalidated now (progress r) s)).
Proof.
  intros Hs. unfold spares, life, row_sealed, row_calm, retired, invalidated in *. cbn.
  destruct Hs as [[-> Hs]|[-> Hs]].
  - split; [|done]. split; [split; [done|intros _ _; status_solve]|].
    split; [split; status_solve|status_solve].
  - split; [|done]. split; [by split|]. split; [by split|reflexivity].
Qed.

Section statements.
Context (now : Z) (d : Db) (Hwf : wf_db d).

Lemma finish_invalidated_evolves i : evolves life d (finish_invalidated_request now i d).1.
Proof.
  unfold finish_invalidated_request. rewrite (surjective_pairing (update_row _ _ _ _)).
  apply update_row_evolves; [done|]. intros r Hr Hg. apply life_intro; status_solve.
Qed.

Lemma update_status_evolves i s :
  s ∈ [Failed; Cancelled; Invalidated] -> evolves life d (update_request_status now i s d).1.
Proof.
  intros Hs. apply update_row_evolves; [done|]. intros r Hr _.
  repeat (apply elem_of_cons in Hs as [->|Hs]; [apply life_intro; status_solve|]).
  by apply elem_of_nil in Hs.
Qed.

(** Only a row in the hands of its task moves on to [Execution] or [Prove]. *)
Lemma update_execution_evolves i :
  (forall r : OPSuccinctRequest, rows d !! i = Some r -> status r = WitnessGeneration) ->
  evolves life d (update_request_status now i Execution d).1.
Proof.
  intros Ho. apply update_row_evolves; [done|]. intros r Hr _. specialize (Ho r Hr).
  apply life_intro; rewrite ?Ho; try status_solve. apply rtc_once. constructor.
Qed.

Lemma update_to_prove_evolves i proof_id :
  (forall r : OPSuccinctRequest, rows d !! i = Some r -> status r = WitnessGeneration) ->
  evolves life d (update_request_to_prove now i proof_id d).1.
Proof.
  intros Ho. apply update_row_evolves; [done|]. intros r Hr _. specialize (Ho r Hr).
  apply life_intro; rewrite ?Ho; try status_solve. apply rtc_once. constructor.
Qed.

Lemma update_to_prove_cluster_evolves i handle :
  (forall r : OPSuccinctRequest, rows d !! i = Some r -> status r = WitnessGeneration) ->
  evolves life d (update_request_to_prove_cluster now i handle d).1.
Proof.
  intros Ho. apply update_row_evolves; [done|]. intros r Hr _. specialize (Ho r Hr).
  apply life_intro; rewrite ?Ho; try status_solve. apply rtc_once. constructor.
Qed.

Lemma update_to_complete_evolves i bytes : evolves life d (update_proof_to_complete now i bytes d).1.
Proof.
  unfold update_proof_to_complete. rewrite (surjective_pairing (update_row _ _ _ _)).
  apply update_row_evolves; [done|]. intros r Hr Hg.
  apply andb_true_iff in Hg as [Hs Hg].
  apply life_intro; [done|intros Hi; by rewrite Hi in Hg|status_solve..|].
  apply has_status_iff in Hs. apply rtc_once.
  repeat (apply elem_of_cons in Hs as [->|Hs]; [constructor|]). by apply elem_of_nil in Hs.
Qed.

Lemma update_to_relayed_evolves i tx contract :
  evolves life d (update_request_to_relayed now i tx contract d).1.
Proof.
  unfold update_request_to_relayed. rewrite (surjective_pairing (update_row _ _ _ _)).
  apply update_row_evolves; [done|]. intros r Hr Hg.
  apply andb_true_iff in Hg as [Hs Hg].
  apply life_intro; [done|intros Hi; by rewrite Hi in Hg|status_solve..|].
  apply has_status_iff in Hs. apply rtc_once.
  repeat (apply elem_of_cons in Hs as [->|Hs]; [constructor|]). by apply elem_of_nil in Hs.
Qed.

(** The statements that only record a fact about a request. *)
Lemma silent_update_evolves i set :
  (forall p, status (set p) = status p /\ invalidated_at (set p) = invalidated_at p) ->
  evolves life d (update_row i always set d).1.
Proof.
  intros Hset. apply update_row_evolves; [done|]. intros r Hr _.
  apply life_same_status; apply Hset.
Qed.

(** Only [Complete] ranges and queued or complete aggregations change status. *)
Lemma invalidate_in_place ids c l1 l2 :
  in_place spares d (invalidate_noncanonical_ranges now ids c l1 l2 d).1.
Proof.
  destruct ids as [|i0 ids]; [by apply in_place_refl; intros; apply spares_refl|].
  cbn [invalidate_noncanonical_ranges].
  rewrite (surjective_pairing (update_rows _ _ d)).
  rewrite (surjective_pairing (update_rows _ _ (update_rows _ _ d).1)). cbn [fst].
  eapply in_place_trans; apply in_place_update_rows; intros i r Hr; cbv beta.
  - destruct (stale_range _ _) eqn:Hg; [|apply spares_refl].
    unfold stale_range in Hg. rewrite !andb_true_iff, has_status_iff in Hg.
    destruct Hg as [[_ Hs%list_elem_of_singleton] _].
    apply spares_invalidated. left. split; [done|].
    intros Ho%owned_cases. rewrite Hs in Ho. by destruct Ho.
  - destruct (stale_aggregation _ _ _ _ _) eqn:Hg; [|apply spares_refl].
    unfold stale_aggregation in Hg. rewrite !andb_true_iff, has_status_iff in Hg.
    destruct Hg as [[[[[[_ Hin] _] _] _] _] _].
    apply spares_invalidated.
    destruct (status r) eqn:E; try by destruct (status_not_in _ _ eq_refl Hin).
    all: cbn; unfold owned, retired; rewrite E; first [left; split; [done|status_solve]|right; split; [done|status_solve]].
Qed.

Lemma insert_evolves (req : OPSuccinctRequest) :
  status req = Unrequested -> evolves (fun _ r r' => r' = r) d (insert_request req d).1.
Proof.
  intros Hs. cbn.
  assert (Hfree : rows d !! next_id d = None).
  { destruct (rows d !! next_id d) as [r|] eqn:E; [|done].
    pose proof (wf_next _ Hwf _ _ E). lia. }
  split; [cbn; lia|]. cbn. split; intros i r Hr.
  - exists r. rewrite lookup_insert_ne by congruence. by split_and!.
  - intros Hi. destruct (decide (i = next_id d)) as [->|Hne].
    + rewrite lookup_insert_eq in Hr. injection Hr as <-. split_and!; [lia..|done|done|done].
    + rewrite lookup_insert_ne in Hr by done. congruence.
Qed.

Lemma finish_other i j :
  j <> i -> rows (finish_invalidated_request now i d).1 !! j = rows d !! j.
Proof.
  intros Hne. unfold finish_invalidated_request. rewrite (surjective_pairing (update_row _ _ _ _)).
  by apply update_row_other.
Qed.

Lemma complete_other i j bytes :
  j <> i -> rows (update_proof_to_complete now i bytes d).1 !! j = rows d !! j.
Proof.
  intros Hne. unfold update_proof_to_complete. rewrite (surjective_pairing (update_row _ _ _ _)).
  by apply update_row_other.
Qed.

Lemma relayed_other i j tx contract :
  j <> i -> rows (update_request_to_relayed now i tx contract d).1 !! j = rows d !! j.
Proof.
  intros Hne. unfold update_request_to_relayed. rewrite (surjective_pairing (update_row _ _ _ _)).
  by apply update_row_other.
Qed.
End statements.

Lemma insert_requests_evolves reqs d :
  wf_db d -> Forall (fun req : OPSuccinctRequest => status req = Unrequested) reqs ->
  evolves (fun _ r r' => r' = r) d (insert_requests reqs d).1.
Proof.
  unfold insert_requests. cbn [fst]. intros Hwf HF. revert d Hwf.
  induction HF as [|req reqs Hs HF IH]; intros d Hwf; cbn [foldl].
  { split; [lia|]. split; [|congruence]. intros i r Hr. by exists r. }
  pose proof (insert_evolves d Hwf req Hs) as H1.
  assert (Hwf1 : wf_db (insert_request req d).1) by (by eapply evolves_wf).
  specialize (IH _ Hwf1). set (d1 := (insert_request req d).1) in *.
  destruct H1 as (Hn1 & Hk1 & Hf1), IH as (Hn2 & Hk2 & Hf2). split; [lia|]. split; intros i r Hr.
  - destruct (Hk1 i r Hr) as (r1 & Hr1 & _ & ->). destruct (Hk2 i r Hr1) as (r2 & Hr2 & _ & ->). by exists r.
  - intros Hi. destruct (rows d1 !! i) as [r1|] eqn:E.
    + destruct (Hk2 i r1 E) as (r2 & Hr2 & _ & ->). rewrite Hr2 in Hr. injection Hr as ->.
      destruct (Hf1 i r E Hi) as (? & ?). split; [lia|done].
    + destruct (Hf2 i r Hr E) as (? & ?). split; [lia|done].
Qed.

(** ** Admission *)

Lemma admission_peer_trans q r r' :
  admission_peer q r = true -> admission_peer q r' = admission_peer r r'.
Proof.
  unfold admission_peer, on_chain. rewrite !andb_true_iff, !Z.eqb_eq.
  intros [[[H1 H2] H3] H4]. by rewrite H1, H2, H3, H4.
Qed.

Lemma admission_peer_key r r' x : fixed r = fixed r' -> admission_peer r' x = admission_peer r x.
Proof. intros Hf. unfold admission_peer, on_chain. by rewrite Hf. Qed.

Lemma admit_cases now (request : OPSuccinctRequest) W N d :
  wf_db d ->
  (admit_request now request W N d = (d, false)) \/
  exists r : OPSuccinctRequest, rows d !! id request = Some r /\ status r = Unrequested /\
    invalidated r = false /\ count_rows (witnessing request) d < W /\ count_rows (active request) d < N /\
    (admit_request now request W N d).2 = true /\
    (admit_request now request W N d).1 =
      with_rows (<[id request := mk_request (fixed r) (set_status now (progress r) WitnessGeneration)]> (rows d)) d.
Proof.
  intros Hwf. unfold admit_request. fold (witnessing request) (active request).
  destruct (Z.leb_spec W (count_rows (witnessing request) d)) as [|Hw]; [by left|].
  destruct (Z.leb_spec N (count_rows (active request) d)) as [|Ha]; [by left|]. cbn [orb].
  rewrite (surjective_pairing (update_row _ _ _ _)).
  destruct (rows d !! id request) as [r|] eqn:E.
  1: destruct (has_status [Unrequested] r && negb (invalidated r)) eqn:Hg.
  - right. exists r. rewrite (update_row_hit _ _ _ _ r) by done.
    apply andb_true_iff in Hg as [Hs Hi].
    apply has_status_iff, list_elem_of_singleton in Hs. by apply negb_true_iff in Hi.
  - left. rewrite update_row_miss; [done|done|]. intros r' Hr'. by simplify_eq.
  - left. by rewrite update_row_miss; [|done|congruence].
Qed.

Definition sealed_flow (i : Z) (r r' : OPSuccinctRequest) : Prop :=
  row_sealed r r' /\ flows (status r) (status r').

Lemma admit_evolves now (request : OPSuccinctRequest) W N d :
  wf_db d -> evolves sealed_flow d (admit_request now request W N d).1.
Proof.
  intros Hwf. destruct (admit_cases now request W N d Hwf) as
    [->|(r & Hr & Hs & Hi & _ & _ & _ & ->)].
  { split; [cbn; lia|]. cbn. split; [|congruence]. intros i r Hr. exists r. split_and!; [done..|].
    split; [by split|reflexivity]. }
  set (r' := mk_request _ _). split; [cbn; lia|]. cbn. split; intros i r0 Hr0.
  - destruct (decide (i = id request)) as [->|Hne].
    + rewrite lookup_insert_eq. exists r'. assert (r0 = r) as -> by congruence.
      split_and!; [done..|]. split.
      * unfold row_sealed, r', invalidated in *. cbn. split; [done|]. intros _ H. by rewrite H in Hi.
      * rewrite Hs. apply rtc_once. constructor.
    + rewrite lookup_insert_ne by done. exists r0. split_and!; [done..|]. split; [by split|reflexivity].
  - intros Hi0. destruct (decide (i = id request)) as [->|Hne]; [congruence|].
    rewrite lookup_insert_ne in Hr0 by done. congruence.
Qed.

(** An admission respects the limits of every group of requests. *)
Lemma admit_effect q now (request : OPSuccinctRequest) W N d :
  wf_db d ->
  (forall r : OPSuccinctRequest, rows d !! id request = Some r -> fixed r = fixed request) ->
  effect W N q d (admit_request now request W N d).1.
Proof.
  intros Hwf Hfix. pose proof (admit_evolves now request W N d Hwf) as He. split.
  - eapply evolves_sealed, He. by intros ? ? ? [? _].
  - intros i r0 Hr0. destruct He as (_ & He & _). destruct (He i r0 Hr0) as (r1 & ? & ? & _ & ?).
    exists r1. split_and!; [done..|]. by apply flows_past.
  - clear He. destruct (admit_cases now request W N d Hwf) as
      [->|(r & Hr & Hs & Hi & Hw & Ha & _ & ->)]; [done|].
    set (r' := mk_request _ _). intros [HW HN]. destruct (admission_peer q r) eqn:Hq.
    + assert (Hle : forall l, count_rows (fun x => has_status l x && admission_peer q x) d <=
                              count_rows (fun x => has_status l x && admission_peer request x) d).
      { intros l. apply count_rows_le. intros i x Hx Hw'. exists x. split; [done|].
        rewrite <- Hw'. by rewrite (admission_peer_trans _ _ _ Hq),
          (admission_peer_key _ _ x (Hfix r Hr)). }
      pose proof (Hle [WitnessGeneration]). pose proof (Hle ACTIVE).
      unfold within, witnessing, active in *.
      split; (etrans; [apply count_rows_insert_le|lia]).
    + split; (etrans; [|eassumption]); apply count_rows_le; cbn; intros i x Hx Hw';
        (destruct (decide (i = id request)) as [->|Hne];
          [rewrite lookup_insert_eq in Hx; injection Hx as <-;
           apply andb_true_iff in Hw' as [_ Hw'];
           rewrite (admission_peer_fixed q r r') in Hw' by done; congruence
          |rewrite lookup_insert_ne in Hx by done; by exists x]).
  - apply He.
Qed.

(** ** Start-up statements *)

Section startup.
Context (W N : Z) (q : OPSuccinctRequest) (d : Db).

Lemma delete_keeps (where_ : OPSuccinctRequest -> bool) :
  (forall r, where_ r = true -> invalidated r = false) ->
  sealed d (delete_rows where_ d).1 /\ (within W N q d -> within W N q (delete_rows where_ d).1).
Proof.
  intros Hw. cbn.
  assert (Hr : forall i (r : OPSuccinctRequest),
    filter (fun '(_, r) => negb (where_ r)) (rows d) !! i = Some r <->
    rows d !! i = Some r /\ where_ r = false).
  { intros i r. rewrite map_lookup_filter_Some. cbn. destruct (where_ r); cbn; split; intros [H1 H2]; done. }
  split.
  - intros [[Hid Hn] Hret]. split; [split; [split|]|]; cbn; intros i r.
    + intros [H _]%Hr. by apply Hid.
    + intros [H _]%Hr. by eapply Hn.
    + intros [H _]%Hr. by eapply Hret.
    + intros H Hi. exists r. split; [|done]. apply Hr. split; [done|].
      destruct (where_ r) eqn:E; [|done]. by rewrite (Hw r E) in Hi.
  - intros [H1 H2]. split; (etrans; [|eassumption]); apply count_rows_le; cbn;
      intros i r [H _]%Hr ?; by exists r.
Qed.

Lemma delete_ledger (where_ : OPSuccinctRequest -> bool) :
  (forall r, where_ r = true ->
     invalidated r = false /\ status r ∈ [Unrequested; WitnessGeneration; Execution]) ->
  db_inv d -> ledger_step (ledger d) (ledger (delete_rows where_ d).1).
Proof.
  intros Hw Hd. pose proof (ledger_refl d Hd) as [_ Hl]. split; [cbn; lia|]. intros i.
  specialize (Hl i). cbn in *. rewrite !lookup_fmap in *.
  destruct (rows d !! i) as [r|] eqn:E.
  - destruct (where_ r) eqn:Hr.
    + destruct (Hw r Hr) as [Hi Hs].
      replace (filter (fun '(_, r) => negb (where_ r)) (rows d) !! i) with (@None OPSuccinctRequest).
      { cbn. unfold entry_of. rewrite Hi. by constructor. }
      symmetry. apply map_lookup_filter_None. right. intros r' Hr'. rewrite E in Hr'. injection Hr' as <-.
      rewrite Hr. intros [].
    + replace (filter (fun '(_, r) => negb (where_ r)) (rows d) !! i) with (Some r); [done|].
      symmetry. apply map_lookup_filter_Some. split; [done|]. by rewrite Hr.
  - replace (filter (fun '(_, r) => negb (where_ r)) (rows d) !! i) with (@None OPSuccinctRequest); [constructor|].
    symmetry. apply map_lookup_filter_None. by left.
Qed.

Lemma cancel_evolves (where_ : OPSuccinctRequest -> bool) :
  evolves life d (update_rows where_ set_cancelled d).1.
Proof.
  apply in_place_evolves, in_place_update_rows. intros i r Hr.
  destruct (where_ r); [|apply life_refl]. apply life_intro; status_solve.
Qed.
End startup.

(** ** Queries *)

Section queries.
Context {HO : HashOrder}.

Lemma elem_of_select w d (r : OPSuccinctRequest) :
  r ∈ select w d <-> w r = true /\ exists i, rows d !! i = Some r.
Proof.
  unfold select. rewrite list_elem_of_filter, elem_of_values.
  split; intros [Hw H]; (split; [|done]); [by apply Is_true_true_1|by apply Is_true_true_2].
Qed.

Lemma select_ordered_perm w d : select_ordered w d ≡ₚ select w d.
Proof. apply merge_sort_Permutation. Qed.

Lemma elem_of_select_ordered w d (r : OPSuccinctRequest) :
  r ∈ select_ordered w d <-> w r = true /\ exists i, rows d !! i = Some r.
Proof. rewrite select_ordered_perm. apply elem_of_select. Qed.

Lemma select_ordered_sorted w d : StronglySorted by_start (select_ordered w d).
Proof. apply (StronglySorted_merge_sort by_start). Qed.

(** In well-formed tables a selected row is found at its own key. *)
Lemma select_at_key w d (r : OPSuccinctRequest) :
  wf_db d -> r ∈ select w d -> rows d !! id r = Some r /\ w r = true.
Proof.
  intros Hwf [Hw [i Hi]]%elem_of_select. split; [|done]. by rewrite (wf_id _ Hwf _ _ Hi).
Qed.

Lemma select_ordered_at_key w d (r : OPSuccinctRequest) :
  wf_db d -> r ∈ select_ordered w d -> rows d !! id r = Some r /\ w r = true.
Proof. intros Hwf. rewrite select_ordered_perm. by apply select_at_key. Qed.

Lemma fetch_request_Ok i d r :
  wf_db d -> fetch_request i d = Ok r <-> rows d !! i = Some r.
Proof.
  intros Hwf. unfold fetch_request. rewrite with_context_Ok. split.
  - intros H. assert (Hin : r ∈ select (fun r => id r =? i) d)
      by (destruct (select _ d); [done|]; injection H as ->; left).
    apply select_at_key in Hin as [Hr Hi]; [|done]. apply Z.eqb_eq in Hi as <-. done.
  - intros Hr.
    assert (Hin : r ∈ select (fun r => id r =? i) d).
    { apply elem_of_select. rewrite (wf_id _ Hwf _ _ Hr), Z.eqb_refl. eauto. }
    destruct (select _ d) as [|r' l] eqn:E; [by apply elem_of_nil in Hin|]. cbn. f_equal.
    assert (Hin' : r' ∈ select (fun r => id r =? i) d) by (rewrite E; left).
    apply select_at_key in Hin' as [Hr' Hi']; [|done]. apply Z.eqb_eq in Hi'. rewrite Hi' in Hr'.
    congruence.
Qed.

Lemma head_elem {A} (l : list A) x : head l = Some x -> x ∈ l.
Proof. destruct l; [done|]. intros [= ->]. left. Qed.
End queries.
