(* ===== verification/ValidityTypes.v ===== *)
(** * The validity proposer's environment and shared state

    What the validity service talks to ([Env]: the L1 and L2 nodes, the
    contracts, the signer, the proving network or cluster, the witness
    generator, the clocks), what its loop and its proof tasks share
    ([Shared]), and the atomic actions they are made of. The environment is a
    component of the state, so between two actions its answers may change. *)

From S2P Require Import Prelude.
From S2P Require Import AggregationProgram.
From S2P Require Import ValidityRanges.
From S2P Require Import Interleaving.
From S2P Require Import RequestDb.

(** ** Data *)

Inductive SP1Proof := Core (p : Z) | Compressed (p : Z) | Plonk (p : Z) | Groth16 (p : Z).
Record SP1ProofWithPublicValues := { sp1_proof : SP1Proof; public_values : Z }.

(** The input of a proof program: a range witness, or what
    [get_agg_proof_stdin] writes. *)
Inductive SP1Stdin :=
| RangeStdin (witness : Z)
| AggStdin (proofs : list Z) (boot_infos : list BootInfoStruct) (headers : list Z)
    (latest_checkpoint_head prover_address : Z).

(** [FulfillmentStatus] and [ExecutionStatus] of the network protocol. *)
Definition FulfillmentStatus_Requested : Z := 1.
Definition FulfillmentStatus_Fulfilled : Z := 3.
Definition FulfillmentStatus_Unfulfillable : Z := 4.
Definition UnspecifiedExecutionStatus : Z := 0.
Definition ExecutionStatus_Unexecutable : Z := 3.

(** [GetProofRequestStatusResponse] *)
Record ProofRequestStatus := { fulfillment_status : Z; execution_status : Z; deadline : Z }.

(** The network's [ProofRequest]. *)
Record ProofRequestDetails := {
  pr_created_at : Z;
  pr_fulfillment_status : Z;
  pr_cycles : Z;
  pr_gas_used : Z;
}.

(** [sp1_cluster_utils::ProofRequest], less its logging-only start time. *)
Record ClusterProofRequest := { cp_proof_id : Z; cp_output_id : Z; cp_deadline : Z }.

(** [ClusterProofHandle] *)
Record ClusterProofHandle := {
  proof_request : ClusterProofRequest;
  consecutive_poll_failures : Z;
}.

Inductive L1BlockId := L1Safe | L1Number (n : Z) | L1Hash (h : Z).
Inductive L2BlockId := L2Latest | L2Finalized.

(** The number and the hash ([hash_slow]) of a header. *)
Record L1Header := { number : Z; hash_slow : Z }.

Inductive NetworkMode := Mainnet | ReservedMode.
#[global] Instance NetworkMode_eq_dec : EqDecision NetworkMode.
Proof. solve_decision. Defined.

Inductive FulfillmentStrategy := UnspecifiedFulfillmentStrategy | Hosted | Reserved | Auction.

(** [determine_network_mode] of utils/host/src/network.rs *)
Definition determine_network_mode (range_proof_strategy agg_proof_strategy : FulfillmentStrategy)
    : outcome NetworkMode :=
  match range_proof_strategy, agg_proof_strategy with
  | Auction, Auction => Ok Mainnet
  | (Hosted | Reserved), (Hosted | Reserved) => Ok ReservedMode
  | UnspecifiedFulfillmentStrategy, _ | _, UnspecifiedFulfillmentStrategy =>
      Err "The range and agg fulfillment Strategies must be specified"
  | _, _ => Err "The range and agg fulfillment Strategies are incompatible"
  end.

Inductive SP1ProofMode := CoreMode | CompressedMode | PlonkMode | Groth16Mode.

(** What a proof request tells the network: the proving key (range or
    aggregation program), the mode, the limits and the bidders. *)
Record NetworkRequest := {
  nr_program : RequestType;
  nr_stdin : SP1Stdin;
  nr_mode : SP1ProofMode;
  nr_strategy : FulfillmentStrategy;
  nr_skip_simulation : bool;
  nr_timeout : Z;
  nr_min_auction_period : Z;
  nr_max_price_per_pgu : Z;
  nr_cycle_limit : Z;
  nr_gas_limit : Z;
  nr_private_stdin : bool;
  nr_whitelist : option (list Z);
}.

(** SP1's [ExecutionReport]: instruction count, gas and the cycle tracker. *)
Record ExecutionReport := {
  total_instruction_count : Z;
  gas : option Z;
  cycle_tracker : string -> option Z;
}.

(** [opSuccinctConfigs(name)] *)
Record OpSuccinctConfig := {
  aggregation_vkey : Z;
  contract_range_vkey_commitment : Z;
  contract_rollup_config_hash : Z;
}.

Inductive TxRequest :=
| TxCheckpointBlockHash (block_number : Z)
| TxDgfProposeL2Output (config_name output_root l2_block l1_block proof prover value : Z)
| TxProposeL2Output (config_name output_root l2_block l1_block proof prover : Z).

Record Receipt := { r_status : bool; r_hash : Z }.

(** The outcome of [tokio::time::timeout] around a network call. *)
Inductive NetworkAnswer (A : Type) := Answered (o : outcome A) | TimedOut.
Arguments Answered {A} _.
Arguments TimedOut {A}.

(** ** The environment *)

Record Env := {
  (** Clocks: the database's [NOW()], [Local::now()], [Utc::now()] and the
      seconds since the epoch. *)
  NOW : Z;
  local_now : Z;
  utc_now : Z;
  unix_now : Z;
  (** OPSuccinctL2OutputOracle and DisputeGameFactory *)
  latestBlockNumber : outcome Z;
  submissionInterval : outcome Z;
  historicBlockHashes : Z -> outcome Z;
  opSuccinctConfigs : Z -> outcome OpSuccinctConfig;
  dgf_initBonds : Z -> outcome Z;
  (** The data fetcher *)
  max_provable_l2_block_number : outcome Z;
  l2_block_data_range : Z -> Z -> outcome (list BlockInfo);
  get_l1_header : L1BlockId -> outcome L1Header;
  get_l2_header : L2BlockId -> outcome Z;
  get_l2_output_at_block : Z -> outcome Z;
  get_l2_safe_head_from_l1_block_number : Z -> outcome Z;
  get_header_preimages : list BootInfoStruct -> Z -> outcome (list Z);
  l1_get_chain_id : outcome Z;
  l2_get_chain_id : outcome Z;
  (** The signer: its answer to the [k]-th submission *)
  signer_address : Z;
  send_transaction_request : nat -> TxRequest -> outcome Receipt;
  (** The proving network *)
  get_proof_status : Z -> NetworkAnswer (ProofRequestStatus * option SP1ProofWithPublicValues);
  get_proof_request : Z -> NetworkAnswer (option ProofRequestDetails);
  cancel_request : Z -> NetworkAnswer unit;
  network_prove : NetworkRequest -> outcome Z;
  (** public values, report and the seconds it took *)
  network_execute : RequestType -> SP1Stdin -> outcome (Z * ExecutionReport * Z);
  (** The proving cluster *)
  cluster_create_request : SP1Stdin -> outcome ClusterProofRequest;
  cluster_poll_proof : ClusterProofRequest -> outcome (option SP1ProofWithPublicValues);
  (** The witness generator *)
  host_fetch : Z -> Z -> bool -> outcome Z;
  host_l1_head_hash : Z -> option Z;
  host_run : Z -> outcome Z;
  host_sp1_stdin : Z -> outcome Z;
  (** bincode and SP1 *)
  deserialize_proof : Z -> outcome SP1ProofWithPublicValues;
  serialize_proof : SP1ProofWithPublicValues -> outcome Z;
  proof_bytes : SP1ProofWithPublicValues -> Z;
  serialize_proof_be : SP1ProofWithPublicValues -> outcome Z;  (** [agglayer]'s big-endian encoding *)
  create_mock_proof : RequestType -> Z -> SP1ProofMode -> SP1ProofWithPublicValues;
  read_boot_info : Z -> outcome BootInfoStruct;
}.

(** ** Configuration *)

(** The fields of [RequesterConfig], [ProgramConfig], [DriverConfig] and
    [OPSuccinctProofRequester] that decide something, and the [agglayer] build
    feature. *)
Record Config := {
  cfg_l1_chain_id : Z;
  cfg_l2_chain_id : Z;
  l2oo_address : Z;
  dgf_address : Z;
  evm_gas_limit : Z;
  range_proof_interval : Z;
  submission_interval : Z;
  max_concurrent_witness_gen : Z;
  max_concurrent_proof_requests : Z;
  op_succinct_config_name_hash : Z;
  mock : bool;
  cluster : bool;
  has_network_prover : bool;
  has_cluster_config : bool;
  range_strategy : FulfillmentStrategy;
  agg_strategy : FulfillmentStrategy;
  agg_mode : SP1ProofMode;
  max_price_per_pgu : Z;
  range_cycle_limit : Z;
  range_gas_limit : Z;
  agg_cycle_limit : Z;
  agg_gas_limit : Z;
  whitelist : option (list Z);
  min_auction_period : Z;
  private_stdin : bool;
  safe_db_fallback : bool;
  proving_timeout : Z;
  auction_timeout : Z;
  loop_interval : Z;
  agglayer : bool;
  commitments : CommitmentConfig;
}.

(** The mode the network prover was built with, once [new] has accepted the
    strategies. *)
Definition network_mode (config : Config) : NetworkMode :=
  match determine_network_mode (range_strategy config) (agg_strategy config) with
  | Ok m => m
  | _ => ReservedMode
  end.

(** ** Shared state *)

(** A spawned task: its request, and the result of its [JoinHandle] once it
    has ended ([Err] with the error, [Panic] for a panic). *)
Record Task := { t_request : OPSuccinctRequest; t_result : option (outcome unit) }.

(** What may happen to one database statement: it runs, it is refused before
    it has an effect, or its answer is lost after it. *)
Inductive Fault := NoFault | Refused | Unacknowledged.

Record Shared := {
  db : Db;
  faults : list Fault;  (** of the statements to come, then no more faults *)
  env : Env;
  tasks : gmap Z Task;
  cluster_handles : gmap Z ClusterProofHandle;
  submitted : list TxRequest;
}.

Definition with_db (d : Db) (s : Shared) : Shared :=
  {| db := d; faults := faults s; env := env s; tasks := tasks s;
     cluster_handles := cluster_handles s; submitted := submitted s |}.
Definition with_faults (f : list Fault) (s : Shared) : Shared :=
  {| db := db s; faults := f; env := env s; tasks := tasks s;
     cluster_handles := cluster_handles s; submitted := submitted s |}.
Definition with_env (e : Env) (s : Shared) : Shared :=
  {| db := db s; faults := faults s; env := e; tasks := tasks s;
     cluster_handles := cluster_handles s; submitted := submitted s |}.
Definition with_tasks (t : gmap Z Task) (s : Shared) : Shared :=
  {| db := db s; faults := faults s; env := env s; tasks := t;
     cluster_handles := cluster_handles s; submitted := submitted s |}.
Definition with_handles (h : gmap Z ClusterProofHandle) (s : Shared) : Shared :=
  {| db := db s; faults := faults s; env := env s; tasks := tasks s;
     cluster_handles := h; submitted := submitted s |}.
Definition with_submitted (l : list TxRequest) (s : Shared) : Shared :=
  {| db := db s; faults := faults s; env := env s; tasks := tasks s;
     cluster_handles := cluster_handles s; submitted := l |}.

Definition Prog : Type -> Type := prog Shared.
#[global] Hint Unfold Prog : core.

(** ** Atomic actions *)

(** One statement, or one transaction, on the database. *)
Definition run_statement {A} (f : Env -> Db -> Db * outcome A) (s : Shared) : Shared * outcome A :=
  let '(d, o) := f (env s) (db s) in
  match faults s with
  | [] => (with_db d s, o)
  | NoFault :: rest => (with_db d (with_faults rest s), o)
  | Refused :: rest => (with_faults rest s, Err "database error")
  | Unacknowledged :: rest => (with_db d (with_faults rest s), Err "database error")
  end.
Definition statement {A} (f : Env -> Db -> Db * outcome A) : Prog A := act (run_statement f).

(** A statement that changes the tables at the time [NOW()]. *)
Definition execute {A} (f : Z -> Db -> Db * A) : Prog A :=
  statement (fun e d => let '(d', a) := f (NOW e) d in (d', Ok a)).
(** A query. *)
Definition query {A} (f : Db -> A) : Prog A := statement (fun _ d => (d, Ok (f d))).
Definition query_one {A} (f : Db -> outcome A) : Prog A := statement (fun _ d => (d, f d)).

(** A remote call, or a read of a clock. *)
Definition ask {A} (f : Env -> outcome A) : Prog A := act (fun s => (s, f (env s))).
Definition ask_now {A} (f : Env -> A) : Prog A := ask (fun e => Ok (f e)).

Definition get_tasks : Prog (gmap Z Task) := act (fun s => (s, Ok (tasks s))).
Definition get_handles : Prog (gmap Z ClusterProofHandle) := act (fun s => (s, Ok (cluster_handles s))).
Definition change_handles (f : gmap Z ClusterProofHandle -> gmap Z ClusterProofHandle) : Prog unit :=
  act (fun s => (with_handles (f (cluster_handles s)) s, Ok tt)).

(** [signer.send_transaction_request_with_timeout] *)
Definition send (tx : TxRequest) : Prog Receipt := act (fun s =>
  (with_submitted (submitted s ++ [tx]) s,
   send_transaction_request (env s) (length (submitted s)) tx)).

(** [get_latest_proposed_block_number] *)
Definition get_latest_proposed_block_number : Prog Z :=
  ask (fun e => block_number ← latestBlockNumber e; to_u64 block_number).

(** [network_call_with_timeout] *)
Definition network_call_with_timeout {A} (call : Env -> NetworkAnswer A) : Prog A :=
  ask (fun e => match call e with
                | Answered (Ok result) => Ok result
                | Answered (Err network_error) => Err ("Network error: " +:+ network_error)
                | Answered Panic => Panic
                | TimedOut => Err "Timeout"
                end).

(** [u64::try_from(n).context(msg)] and [i64::try_from(n).context(msg)]. *)
Definition u64_try_from (msg : string) (n : Z) : outcome Z :=
  if (0 <=? n) && (n <=? u64_max) then Ok n else Err msg.
Definition i64_try_from (msg : string) (n : Z) : outcome Z :=
  if n <=? i64_max then Ok n else Err msg.

(** ** Laws of the actions *)

(** A statement touches only the tables and the faults; an answer means that
    it took effect. *)
Lemma run_statement_cases {A} (f : Env -> Db -> Db * outcome A) s s' o :
  run_statement f s = (s', o) ->
  tasks s' = tasks s /\ env s' = env s /\ cluster_handles s' = cluster_handles s /\
  submitted s' = submitted s /\
  (f (env s) (db s) = (db s', o) \/
   (o = Err "database error" /\ (db s' = db s \/ db s' = (f (env s) (db s)).1))).
Proof.
  unfold run_statement. destruct (f (env s) (db s)) as [d o'] eqn:E.
  destruct (faults s) as [|[] rest]; intros [= <- <-]; cbn; rewrite ?E; cbn; auto 10.
Qed.

Lemma run_statement_Ok {A} (f : Env -> Db -> Db * outcome A) s s' a :
  run_statement f s = (s', Ok a) ->
  tasks s' = tasks s /\ env s' = env s /\ cluster_handles s' = cluster_handles s /\
  submitted s' = submitted s /\ f (env s) (db s) = (db s', Ok a).
Proof.
  intros H. destruct (run_statement_cases _ _ _ _ H) as (?&?&?&?&[?|[? _]]); [done|done].
Qed.

Lemma run_query_Ok {A} (f : Db -> A) s s' a :
  run (query f) s = (s', Ok a) ->
  a = f (db s) /\ db s' = db s /\ env s' = env s /\ tasks s' = tasks s /\
  submitted s' = submitted s.
Proof.
  unfold query, statement. rewrite run_act.
  intros (?&?&?&?&[= <- <-])%run_statement_Ok. done.
Qed.

Lemma run_query_one_Ok {A} (f : Db -> outcome A) s s' a :
  run (query_one f) s = (s', Ok a) ->
  f (db s) = Ok a /\ db s' = db s /\ env s' = env s /\ tasks s' = tasks s /\
  submitted s' = submitted s.
Proof.
  unfold query_one, statement. rewrite run_act.
  intros (?&?&?&?&H)%run_statement_Ok. by injection H as <- ->.
Qed.

Lemma run_execute_Ok {A} (f : Z -> Db -> Db * A) s s' a :
  run (execute f) s = (s', Ok a) ->
  f (NOW (env s)) (db s) = (db s', a) /\ env s' = env s /\ tasks s' = tasks s /\
  submitted s' = submitted s.
Proof.
  unfold execute, statement. rewrite run_act. intros (?&?&?&?&H)%run_statement_Ok.
  destruct (f (NOW (env s)) (db s)) as [d' a']. by injection H as <- <-.
Qed.

Lemma run_ask_Ok {A} (f : Env -> outcome A) s s' a :
  run (ask f) s = (s', Ok a) -> s' = s /\ f (env s) = Ok a.
Proof. cbn. by intros [= -> ->]. Qed.

(** ** Promises *)

(** A relation that an action on anything but the tables and the task map
    keeps. *)
Class Local (G : relation Shared) :=
  local : forall s s', db s' = db s -> tasks s' = tasks s -> G s s'.

Section promises.
Context (G : relation Shared) `{HL : !Local G}.

Lemma guar_ask {A} (f : Env -> outcome A) : guar G (ask f).
Proof. apply guar_act. intros s. by apply HL. Qed.

Lemma guar_ask_now {A} (f : Env -> A) : guar G (ask_now f).
Proof. apply guar_ask. Qed.

Lemma guar_statement {A} (f : Env -> Db -> Db * outcome A) :
  (forall s s', tasks s' = tasks s -> db s' = (f (env s) (db s)).1 -> G s s') ->
  guar G (statement f).
Proof.
  intros Hf. apply guar_act. intros s. destruct (run_statement f s) as [s' o] eqn:E.
  apply run_statement_cases in E as (Ht & _ & _ & _ & [Hd|[_ [Hd|Hd]]]); cbn.
  - apply Hf; [done|]. by rewrite Hd.
  - by apply HL.
  - by apply Hf.
Qed.

Lemma guar_query {A} (f : Db -> A) : guar G (query f).
Proof. apply guar_statement. intros s s' Ht Hd. by apply HL. Qed.

Lemma guar_query_one {A} (f : Db -> outcome A) : guar G (query_one f).
Proof. apply guar_statement. intros s s' Ht Hd. by apply HL. Qed.

Lemma guar_execute {A} (f : Z -> Db -> Db * A) :
  (forall s s', tasks s' = tasks s -> db s' = (f (NOW (env s)) (db s)).1 -> G s s') ->
  guar G (execute f).
Proof.
  intros Hf. apply guar_statement. intros s s' Ht Hd. apply Hf; [done|].
  by destruct (f (NOW (env s)) (db s)).
Qed.

Lemma guar_get_tasks : guar G get_tasks.
Proof. apply guar_act. intros s. by apply HL. Qed.

Lemma guar_get_handles : guar G get_handles.
Proof. apply guar_act. intros s. by apply HL. Qed.

Lemma guar_change_handles f : guar G (change_handles f).
Proof. apply guar_act. intros s. by apply HL. Qed.

Lemma guar_send tx : guar G (send tx).
Proof. apply guar_act. intros s. by apply HL. Qed.

Lemma guar_latest : guar G get_latest_proposed_block_number.
Proof. apply guar_ask. Qed.

Lemma guar_network_call {A} (call : Env -> NetworkAnswer A) : guar G (network_call_with_timeout call).
Proof. apply guar_ask. Qed.

Context (R : relation Shared).

(** A statement under interference: its promise, and what holds after it. *)
Lemma wp_execute {A} (f : Z -> Db -> Db * A) (Q : outcome A -> Shared -> Prop) s :
  (forall s1, tasks s1 = tasks s -> db s1 = (f (NOW (env s)) (db s)).1 -> G s s1) ->
  (forall a s1 s', tasks s1 = tasks s -> f (NOW (env s)) (db s) = (db s1, a) -> R s1 s' -> Q (Ok a) s') ->
  (forall e s', Q (Err e) s') ->
  wp R G (execute f) Q s.
Proof.
  intros HG HQ HE. unfold execute, statement. apply wp_act.
  - destruct (run_statement _ s) as [s1 o] eqn:E.
    apply run_statement_cases in E as (Ht & _ & _ & _ & [Hd|[_ [Hd|Hd]]]); cbn.
    + apply HG; [done|]. destruct (f (NOW (env s)) (db s)). cbn. congruence.
    + by apply HL.
    + apply HG; [done|]. by destruct (f (NOW (env s)) (db s)).
  - intros s' Hs'. destruct (run_statement _ s) as [s1 o] eqn:E.
    apply run_statement_cases in E as (Ht & _ & _ & _ & [Hd|[-> _]]); cbn in *; [|apply HE].
    destruct (f (NOW (env s)) (db s)) as [d a] eqn:Ef. injection Hd as -> <-. by eapply HQ.
Qed.

Lemma wp_query {A} (f : Db -> A) (Q : outcome A -> Shared -> Prop) s :
  (forall o s1 s', tasks s1 = tasks s -> db s1 = db s -> R s1 s' ->
     o = Ok (f (db s)) \/ (exists e, o = Err e) -> Q o s') ->
  wp R G (query f) Q s.
Proof.
  intros HQ. unfold query, statement. apply wp_act.
  - destruct (run_statement _ s) as [s1 o] eqn:E.
    apply run_statement_cases in E as (Ht & _ & _ & _ & [[= Hd _]|[_ [Hd|Hd]]]); by apply HL.
  - intros s' Hs'. destruct (run_statement _ s) as [s1 o] eqn:E.
    apply run_statement_cases in E as (Ht & _ & _ & _ & [[= Hd <-]|[-> [Hd|Hd]]]); cbn in *;
      eapply (HQ _ s1); eauto.
Qed.

Lemma wp_query_one {A} (f : Db -> outcome A) (Q : outcome A -> Shared -> Prop) s :
  (forall o s1 s', tasks s1 = tasks s -> db s1 = db s -> R s1 s' ->
     o = f (db s) \/ (exists e, o = Err e) -> Q o s') ->
  wp R G (query_one f) Q s.
Proof.
  intros HQ. unfold query_one, statement. apply wp_act.
  - destruct (run_statement _ s) as [s1 o] eqn:E.
    apply run_statement_cases in E as (Ht & _ & _ & _ & [[= Hd _]|[_ [Hd|Hd]]]); by apply HL.
  - intros s' Hs'. destruct (run_statement _ s) as [s1 o] eqn:E.
    apply run_statement_cases in E as (Ht & _ & _ & _ & [[= Hd <-]|[-> [Hd|Hd]]]); cbn in *;
      eapply (HQ _ s1); eauto.
Qed.
End promises.

#[export] Hint Resolve guar_ask guar_ask_now guar_query guar_query_one guar_get_tasks
  guar_get_handles guar_change_handles guar_send guar_latest guar_network_call : guar.

(** ** A sample world *)

(** The contract's latest block, the provable L2 head and the network status
    vary; every L1 block [n] has hash [1000 + n], L2 blocks have gas 10. *)
Definition sample_commitment : CommitmentConfig :=
  {| c_range_vkey_commitment := 11; c_agg_vkey_hash := 12; c_rollup_config_hash := 13 |}.

Definition sample_env (latest provable fulfillment : Z) : Env := {|
  NOW := 5000; local_now := 5000; utc_now := 5000; unix_now := 5000;
  latestBlockNumber := Ok latest; submissionInterval := Ok 20;
  historicBlockHashes := fun n => Ok (1000 + n);
  opSuccinctConfigs := fun _ => Ok {| aggregation_vkey := 12; contract_range_vkey_commitment := 11;
                                      contract_rollup_config_hash := 13 |};
  dgf_initBonds := fun _ => Ok 7;
  max_provable_l2_block_number := Ok provable;
  l2_block_data_range := fun a b => Ok ((fun n => {| block_number := n; transaction_count := 1;
    gas_used := 10; ValidityRanges.total_l1_fees := 1; ValidityRanges.total_tx_fees := 2 |}) <$> seqZ (a + 1) (b - a));
  get_l1_header := fun b =>
    let n := match b with L1Safe => 70 | L1Number n => n | L1Hash h => h - 1000 end in
    if (0 <=? n) && (n <=? 80) then Ok {| number := n; hash_slow := 1000 + n |} else Err "no such block";
  get_l2_header := fun _ => Ok provable;
  get_l2_output_at_block := fun n => Ok (2000 + n);
  get_l2_safe_head_from_l1_block_number := fun n => Ok (60 + n);
  get_header_preimages := fun _ h => Ok [h];
  l1_get_chain_id := Ok 1; l2_get_chain_id := Ok 10;
  signer_address := 77;
  send_transaction_request := fun k _ => Ok {| r_status := true; r_hash := 9000 + Z.of_nat k |};
  get_proof_status := fun _ => Answered (Ok ({| fulfillment_status := fulfillment;
    execution_status := 2; deadline := 6000 |},
    Some {| sp1_proof := Compressed 33; public_values := 34 |}));
  get_proof_request := fun _ => Answered (Ok None);
  cancel_request := fun _ => Answered (Ok tt);
  network_prove := fun _ => Ok 500;
  network_execute := fun _ _ => Err "no mock execution";
  cluster_create_request := fun _ => Err "no cluster";
  cluster_poll_proof := fun _ => Err "no cluster";
  host_fetch := fun a b _ => Ok (a + b);
  host_l1_head_hash := fun _ => Some 1065;
  host_run := fun a => Ok a; host_sp1_stdin := fun w => Ok w;
  deserialize_proof := fun _ => Ok {| sp1_proof := Compressed 33; public_values := 34 |};
  serialize_proof := fun _ => Ok 333;
  proof_bytes := fun _ => 334;
  serialize_proof_be := fun _ => Ok 335;
  create_mock_proof := fun _ pv _ => {| sp1_proof := Compressed 33; public_values := pv |};
  read_boot_info := fun _ => Ok {| l1Head := 1065; l2PreRoot := 0; l2PostRoot := 1;
    l2BlockNumber := 110; rollupConfigHash := 13 |} |}.

Definition sample_config : Config := {|
  cfg_l1_chain_id := 1; cfg_l2_chain_id := 10; l2oo_address := 21; dgf_address := 0;
  evm_gas_limit := 0; range_proof_interval := 10; submission_interval := 20;
  max_concurrent_witness_gen := 1; max_concurrent_proof_requests := 2;
  op_succinct_config_name_hash := 4; mock := false; cluster := false; has_network_prover := true;
  has_cluster_config := false; range_strategy := Reserved; agg_strategy := Hosted;
  agg_mode := Groth16Mode; max_price_per_pgu := 300; range_cycle_limit := 10000; range_gas_limit := 10000;
  agg_cycle_limit := 10000; agg_gas_limit := 10000; whitelist := None; min_auction_period := 1;
  private_stdin := false;
  safe_db_fallback := false; proving_timeout := 1000; auction_timeout := 60; loop_interval := 60;
  agglayer := false; commitments := sample_commitment |}.

Definition sample_range (i start end_ : Z) (st : RequestStatus) (l1_head : option (Z * Z))
    (gone : option Z) : OPSuccinctRequest :=
  mk_request {| id := i; req_type := Range; mode := Real; start_block := start; end_block := end_;
    created_at := 0; checkpointed_l1_block_number := None; checkpointed_l1_block_hash := None;
    range_vkey_commitment := 11; aggregation_vkey_hash := None; rollup_config_hash := 13;
    total_nb_transactions := 0; total_eth_gas_used := 0; total_l1_fees := 0;
    total_tx_fees := 0; l1_chain_id := 1; l2_chain_id := 10; prover_address := None |}
  {| status := st; updated_at := 0; proof_request_id := Some 500; proof_request_time := Some 100;
    execution_statistics := None; witnessgen_duration := None; execution_duration := None;
    prove_duration := None; relay_tx_hash := None; proof := Some 333; contract_address := None;
    l1_head_block_number := fst <$> l1_head; l1_head_block_hash := snd <$> l1_head;
    cluster_proof_handle := None; invalidated_at := gone |}.

Definition sample_agg (i start end_ : Z) (st : RequestStatus) (gone : option Z) : OPSuccinctRequest :=
  mk_request {| id := i; req_type := Aggregation; mode := Real; start_block := start;
    end_block := end_; created_at := 0; checkpointed_l1_block_number := Some 70;
    checkpointed_l1_block_hash := Some 1070; range_vkey_commitment := 11;
    aggregation_vkey_hash := Some 12; rollup_config_hash := 13; total_nb_transactions := 0;
    total_eth_gas_used := 0; total_l1_fees := 0; total_tx_fees := 0;
    l1_chain_id := 1; l2_chain_id := 10; prover_address := Some 77 |}
  {| status := st; updated_at := 0; proof_request_id := Some 501; proof_request_time := Some 100;
    execution_statistics := None; witnessgen_duration := None; execution_duration := None;
    prove_duration := None; relay_tx_hash := None; proof := Some 444; contract_address := None;
    l1_head_block_number := None; l1_head_block_hash := None; cluster_proof_handle := None;
    invalidated_at := gone |}.

Definition sample_db (l : list OPSuccinctRequest) : Db := {|
  rows := list_to_map ((fun r : OPSuccinctRequest => (id r, r)) <$> l);
  next_id := foldr (fun (r : OPSuccinctRequest) m => Z.max m (id r + 1)) 1 l;
  chain_locks := ∅ |}.

Definition sample_shared (l : list OPSuccinctRequest) (e : Env) : Shared :=
  {| db := sample_db l; faults := []; env := e; tasks := ∅; cluster_handles := ∅; submitted := [] |}.

(** ** An operation run alone meets one environment *)

Definition keeps_env (s s' : Shared) : Prop := env s' = env s.
#[export] Instance keeps_env_preorder : PreOrder keeps_env.
Proof. split; unfold keeps_env; [done|congruence]. Qed.

Lemma env_ask {A} (f : Env -> outcome A) : guar keeps_env (ask f).
Proof. by apply guar_act. Qed.
Lemma env_ask_now {A} (f : Env -> A) : guar keeps_env (ask_now f).
Proof. by apply guar_act. Qed.
Lemma env_statement {A} (f : Env -> Db -> Db * outcome A) : guar keeps_env (statement f).
Proof.
  apply guar_act. intros s. destruct (run_statement f s) as [s' o] eqn:E.
  by apply run_statement_cases in E as (_ & He & _).
Qed.
Lemma env_execute {A} (f : Z -> Db -> Db * A) : guar keeps_env (execute f).
Proof. apply env_statement. Qed.
Lemma env_query {A} (f : Db -> A) : guar keeps_env (query f).
Proof. apply env_statement. Qed.
Lemma env_query_one {A} (f : Db -> outcome A) : guar keeps_env (query_one f).
Proof. apply env_statement. Qed.
Lemma env_get_tasks : guar keeps_env get_tasks.
Proof. by apply guar_act. Qed.
Lemma env_get_handles : guar keeps_env get_handles.
Proof. by apply guar_act. Qed.
Lemma env_change_handles f : guar keeps_env (change_handles f).
Proof. by apply guar_act. Qed.
Lemma env_send tx : guar keeps_env (send tx).
Proof. by apply guar_act. Qed.
Lemma env_latest : guar keeps_env get_latest_proposed_block_number.
Proof. apply env_ask. Qed.
Lemma env_network_call {A} (call : Env -> NetworkAnswer A) :
  guar keeps_env (network_call_with_timeout call).
Proof. apply env_ask. Qed.

#[export] Hint Resolve env_ask env_ask_now env_execute env_query env_query_one env_get_tasks
  env_get_handles env_change_handles env_send env_latest env_network_call : guar.

Lemma run_env {A} (p : Prog A) s s' o : guar keeps_env p -> run p s = (s', o) -> env s' = env s.
Proof. intros Hp Hr. pose proof (guar_run keeps_env p s Hp) as H. by rewrite Hr in H. Qed.
