(* ===== verification/ProofWait.v ===== *)
(** * Proof providers of the fault-proof proposer

    [fault-proof/src/prover.rs]: how a proof is asked for and waited for. The
    prover network is a parameter ([ProverNetwork]): its answer to, and the
    time of, each call is any function of the number of calls made so far, and
    so are the wall clock and what a sleep takes beyond its duration.
    Durations are in nanoseconds. *)

From S2P Require Import Prelude.
From S2P Require Import Interleaving.
From S2P Require Import RequestDb.
From S2P Require Import ValidityTypes.

(** Seconds. *)
Definition PROOF_STATUS_POLL_INTERVAL : Z := 2.

Definition from_secs (secs : Z) : Z := secs * 10 ^ 9.
Definition as_secs (duration : Z) : Z := duration / 10 ^ 9.

(** [ProofProviderConfig] of fault-proof/src/config.rs *)
Record ProofProviderConfig := {
  timeout : Z;
  network_calls_timeout : Z;
  auction_timeout : Z;
  range_proof_strategy : FulfillmentStrategy;
  agg_proof_strategy : FulfillmentStrategy;
  agg_proof_mode : SP1ProofMode;
  range_cycle_limit : Z;
  range_gas_limit : Z;
  agg_cycle_limit : Z;
  agg_gas_limit : Z;
  max_price_per_pgu : Z;
  min_auction_period : Z;
  whitelist : option (list Z);
  private_stdin : bool;
}.

(** ** Checks *)

Inductive ProvingTimeout := TimeoutOk | TimeoutExceeded (elapsed_secs : Z).

Definition check_timeout (elapsed timeout : Z) : ProvingTimeout :=
  if timeout <? elapsed then TimeoutExceeded (as_secs elapsed) else TimeoutOk.

Inductive AuctionTimeout := AuctionOk | AuctionSkip | AuctionExceeded (elapsed_secs : Z).

Definition check_auction (is_mainnet : bool) (fulfillment_status created_at auction_timeout current_time : Z)
    : AuctionTimeout :=
  if negb is_mainnet then AuctionSkip
  else if negb (fulfillment_status =? FulfillmentStatus_Requested) then AuctionSkip
  else
    let deadline := wrap64 (created_at + auction_timeout) in
    if deadline <? current_time then AuctionExceeded (wrap64 (current_time - created_at)) else AuctionOk.

Inductive Deadline := DeadlineOk | DeadlineExceeded (deadline : Z).

Definition check_deadline (deadline current_time : Z) : Deadline :=
  if deadline <=? current_time then DeadlineExceeded deadline else DeadlineOk.

Inductive ProofStatus := Ready | ProofFailed | Pending.

Definition check_status (status : Z) : ProofStatus :=
  if status =? FulfillmentStatus_Fulfilled then Ready
  else if status =? FulfillmentStatus_Unfulfillable then ProofFailed
  else Pending.

(** ** The network and the clock *)

(** Time since the start of the process, the number of actions so far, and the
    requests asked to be cancelled. *)
Record World := { instant : Z; actions : nat; cancelled : list Z }.

Class ProverNetwork := {
  call_time : nat -> Z;
  get_proof_status : nat -> Z -> outcome (ProofRequestStatus * option SP1ProofWithPublicValues);
  get_proof_request : nat -> Z -> outcome (option ProofRequestDetails);
  cancel_request : nat -> Z -> outcome unit;
  request : nat -> NetworkRequest -> outcome Z;
  execute : nat -> RequestType -> SP1Stdin -> outcome (Z * ExecutionReport);
  create_mock_proof : RequestType -> Z -> SP1ProofMode -> SP1ProofWithPublicValues;
  cluster_range_proof : nat -> Z -> SP1Stdin -> outcome SP1ProofWithPublicValues;
  cluster_agg_proof : nat -> Z -> SP1ProofMode -> SP1Stdin -> outcome SP1ProofWithPublicValues;
  current_timestamp : nat -> Z;
  oversleep : nat -> Z;
}.

Notation Wait := (prog World).

Section providers.
Context `{ProverNetwork} (config : ProofProviderConfig).

Definition pass (duration : Z) (w : World) : World :=
  {| instant := instant w + duration; actions := S (actions w); cancelled := cancelled w |}.

(** A call that is waited for to its end. *)
Definition call {A} (f : nat -> outcome A) : Wait A :=
  act (fun w => (pass (call_time (actions w)) w, f (actions w))).

Definition now : Wait Z := act (fun w => (pass 0 w, Ok (current_timestamp (actions w)))).
Definition instant_now : Wait Z := act (fun w => (w, Ok (instant w))).
Definition sleep (duration : Z) : Wait unit :=
  act (fun w => (pass (duration + oversleep (actions w)) w, Ok tt)).

Definition network_call_with_timeout {A} (f : nat -> outcome A) : Wait A :=
  act (fun w =>
    let d := call_time (actions w) in
    let limit := from_secs (network_calls_timeout config) in
    if limit <? d then (pass limit w, Err "Network timeout") else (pass d w, f (actions w))).

(** [self.prover.cancel_request], noted when it is sent. *)
Definition send_cancel (proof_id : Z) : Wait unit :=
  _ ← act (fun w => ({| instant := instant w; actions := actions w; cancelled := cancelled w ++ [proof_id] |}, Ok tt));
  network_call_with_timeout (fun k => cancel_request k proof_id).

(** ** [wait_for_proof] *)

(** The auction check of one pass of the loop. *)
Definition settle_auction (is_mainnet : bool) (proof_id current_time : Z)
    (request_details : option ProofRequestDetails) : Wait unit :=
  match request_details with
  | Some details =>
      match check_auction is_mainnet (pr_fulfillment_status details) (pr_created_at details)
              (auction_timeout config) current_time with
      | AuctionExceeded _ =>
          _ ← catch (send_cancel proof_id);
          done (Err "Auction timeout")
      | _ => mret tt
      end
  | None => mret tt
  end.

(** What one pass of the loop learns from the network: a proof, or nothing yet. *)
Definition poll_network (is_mainnet : bool) (proof_id : Z) : Wait (option SP1ProofWithPublicValues) :=
  answer ← catch (network_call_with_timeout (fun k => get_proof_status k proof_id));
  match answer with
  | inr _ => mret None
  | inl (status, proof) =>
      answer ← catch (network_call_with_timeout (fun k => get_proof_request k proof_id));
      match answer with
      | inr _ => mret None
      | inl request_details =>
          current_time ← now;
          _ ← settle_auction is_mainnet proof_id current_time request_details;
          done (match check_deadline (deadline status) current_time with
                | DeadlineExceeded _ => Err "Deadline exceeded"
                | DeadlineOk =>
                    match check_status (fulfillment_status status) with
                    | Ready => Some <$> with_context "Proof status is fulfilled but proof is None" proof
                    | ProofFailed => Err "Proving failed"
                    | Pending => Ok None
                    end
                end)
      end
  end.

(** One pass of the loop up to its sleep. *)
Definition poll_once (is_mainnet : bool) (start_time proof_id : Z)
    : Wait (option SP1ProofWithPublicValues) :=
  t ← instant_now;
  match check_timeout (t - start_time) (from_secs (timeout config)) with
  | TimeoutExceeded _ => done (Err "Proving timeout")
  | TimeoutOk => poll_network is_mainnet proof_id
  end.

(** The [loop]; [None] is a loop that has not ended within [fuel] passes. *)
Fixpoint wait_loop (fuel : nat) (is_mainnet : bool) (start_time proof_id : Z)
    : Wait (option SP1ProofWithPublicValues) :=
  match fuel with
  | O => mret None
  | S fuel =>
      polled ← poll_once is_mainnet start_time proof_id;
      match polled with
      | Some proof => mret (Some proof)
      | None =>
          _ ← sleep (from_secs PROOF_STATUS_POLL_INTERVAL);
          wait_loop fuel is_mainnet start_time proof_id
      end
  end.

Definition wait_for_proof (fuel : nat) (network_mode : NetworkMode) (proof_id : Z)
    : Wait (option SP1ProofWithPublicValues) :=
  start_time ← instant_now;
  wait_loop fuel (bool_decide (network_mode = Mainnet)) start_time proof_id.

(** A pass every two seconds until the proving timeout, and the last one. *)
Definition wait_fuel : nat := (Z.to_nat (timeout config / PROOF_STATUS_POLL_INTERVAL) + 2)%nat.

(** ** The providers *)

Inductive ProofProvider := Network (network_mode : NetworkMode) | MockProvider | Cluster.

Definition request_range_proof (stdin : SP1Stdin) : Wait Z :=
  call (fun k => request k {|
    nr_program := Range; nr_stdin := stdin; nr_mode := CompressedMode;
    nr_strategy := range_proof_strategy config; nr_skip_simulation := true;
    nr_timeout := timeout config; nr_min_auction_period := min_auction_period config;
    nr_max_price_per_pgu := max_price_per_pgu config;
    nr_cycle_limit := range_cycle_limit config; nr_gas_limit := range_gas_limit config;
    nr_private_stdin := private_stdin config; nr_whitelist := whitelist config |}).

Definition request_agg_proof (stdin : SP1Stdin) : Wait Z :=
  call (fun k => request k {|
    nr_program := Aggregation; nr_stdin := stdin; nr_mode := agg_proof_mode config;
    nr_strategy := agg_proof_strategy config; nr_skip_simulation := false;
    nr_timeout := timeout config; nr_min_auction_period := min_auction_period config;
    nr_max_price_per_pgu := max_price_per_pgu config;
    nr_cycle_limit := agg_cycle_limit config; nr_gas_limit := agg_gas_limit config;
    nr_private_stdin := private_stdin config; nr_whitelist := whitelist config |}).

(** Each provider's range proof comes with its instruction cycles and gas. *)
Definition network_range_proof (fuel : nat) (network_mode : NetworkMode) (stdin : SP1Stdin)
    : Wait (option (SP1ProofWithPublicValues * Z * Z)) :=
  proof_id ← request_range_proof stdin;
  proof ← wait_for_proof fuel network_mode proof_id;
  mret (option_map (fun proof => (proof, 0, 0)) proof).

Definition mock_range_proof (stdin : SP1Stdin) : Wait (SP1ProofWithPublicValues * Z * Z) :=
  executed ← call (fun k => map_err (fun _ => "Mock range proof execution failed") (execute k Range stdin));
  let '(public_values, report) := executed in
  let total_instruction_cycles := total_instruction_count report in
  let total_sp1_gas := default 0 (gas report) in
  mret (create_mock_proof Range public_values CompressedMode, total_instruction_cycles, total_sp1_gas).

Definition cluster_range_proof_provider (stdin : SP1Stdin) : Wait (SP1ProofWithPublicValues * Z * Z) :=
  proof ← call (fun k => cluster_range_proof k (timeout config) stdin);
  mret (proof, 0, 0).

Definition generate_range_proof (fuel : nat) (provider : ProofProvider) (stdin : SP1Stdin)
    : Wait (option (SP1ProofWithPublicValues * Z * Z)) :=
  match provider return Wait (option (SP1ProofWithPublicValues * Z * Z)) with
  | Network network_mode => network_range_proof fuel network_mode stdin
  | MockProvider => proof ← mock_range_proof stdin; mret (Some proof)
  | Cluster => proof ← cluster_range_proof_provider stdin; mret (Some proof)
  end.

Definition network_agg_proof (fuel : nat) (network_mode : NetworkMode) (stdin : SP1Stdin)
    : Wait (option SP1ProofWithPublicValues) :=
  proof_id ← request_agg_proof stdin;
  wait_for_proof fuel network_mode proof_id.

Definition mock_agg_proof (stdin : SP1Stdin) : Wait SP1ProofWithPublicValues :=
  executed ← call (fun k =>
    map_err (fun _ => "Mock aggregation proof execution failed") (execute k Aggregation stdin));
  mret (create_mock_proof Aggregation executed.1 (agg_proof_mode config)).

Definition cluster_agg_proof_provider (stdin : SP1Stdin) : Wait SP1ProofWithPublicValues :=
  call (fun k => cluster_agg_proof k (timeout config) (agg_proof_mode config) stdin).

Definition generate_agg_proof (fuel : nat) (provider : ProofProvider) (stdin : SP1Stdin)
    : Wait (option SP1ProofWithPublicValues) :=
  match provider with
  | Network network_mode => network_agg_proof fuel network_mode stdin
  | MockProvider => proof ← mock_agg_proof stdin; mret (Some proof)
  | Cluster => proof ← cluster_agg_proof_provider stdin; mret (Some proof)
  end.

End providers.

(** ** How long a pass takes *)

Section waiting.
Context `{ProverNetwork} (config : ProofProviderConfig).
Context (slack : Z) (Hcalls : forall k, 0 <= call_time k) (Hsleep : forall k, 0 <= oversleep k <= slack).
Context (Htimeout : 0 <= timeout config) (Hlimit : 0 <= network_calls_timeout config).
Notation limit := (from_secs (network_calls_timeout config)).

Lemma limit_nonneg : 0 <= limit.
Proof. unfold from_secs. lia. Qed.

Definition takes {A} (d : Z) (p : Wait A) : Prop :=
  forall w w' o, run p w = (w', o) -> instant w <= instant w' <= instant w + d.

Lemma takes_done {A} (o : outcome A) : takes 0 (done o).
Proof. intros w w' o' [= <- <-]. lia. Qed.

Lemma takes_mono {A} d d' (p : Wait A) : d <= d' -> takes d p -> takes d' p.
Proof. intros Hd Hp w w' o Hr. specialize (Hp _ _ _ Hr). lia. Qed.

Lemma takes_bind {A B} d d' (p : Wait A) (f : A -> Wait B) :
  0 <= d' -> takes d p -> (forall a, takes d' (f a)) -> takes (d + d') (p ≫= f).
Proof.
  intros Hd Hp Hf w w' o Hr. apply run_bind_cases in Hr as [(w1 & a & H1 & H2)|(o1 & H1 & _)].
  - apply Hp in H1. apply Hf in H2. lia.
  - apply Hp in H1. lia.
Qed.

Lemma takes_catch {A} d (p : Wait A) : takes d p -> takes d (catch p).
Proof.
  intros Hp w w' o Hr. rewrite run_catch in Hr. unfold attempt in Hr.
  destruct (run p w) as [w1 o1] eqn:E. apply Hp in E. by destruct o1; injection Hr as <- _.
Qed.

Lemma takes_network_call {A} (f : nat -> outcome A) : takes limit (network_call_with_timeout config f).
Proof.
  intros w w' o Hr. cbn in Hr. pose proof (Hcalls (actions w)). pose proof limit_nonneg.
  destruct (Z.ltb_spec limit (call_time (actions w))); injection Hr as <- _; cbn; lia.
Qed.

Lemma takes_now : takes 0 now.
Proof. intros w w' o [= <- _]. cbn. lia. Qed.

Lemma takes_settle is_mainnet proof_id t details : takes limit (settle_auction config is_mainnet proof_id t details).
Proof.
  pose proof limit_nonneg. unfold settle_auction. destruct details as [d|]; [|eapply takes_mono, takes_done; done].
  destruct (check_auction _ _ _ _ _); [eapply takes_mono, takes_done; done..|].
  replace limit with (limit + 0) by lia. apply takes_bind; [lia| |intros ?; apply takes_done].
  apply takes_catch. unfold send_cancel. replace limit with (0 + limit) by lia.
  apply takes_bind; [done| |intros ?; apply takes_network_call].
  intros w w' o [= <- _]. cbn. lia.
Qed.

Lemma takes_poll_network is_mainnet proof_id : takes (3 * limit) (poll_network config is_mainnet proof_id).
Proof.
  pose proof limit_nonneg. unfold poll_network. replace (3 * limit) with (limit + (limit + (0 + (limit + 0)))) by lia.
  apply takes_bind; [lia|apply takes_catch, takes_network_call|]. intros [[st p]|e].
  2: { eapply takes_mono, takes_done. lia. }
  apply takes_bind; [lia|apply takes_catch, takes_network_call|]. intros [details|e].
  2: { eapply takes_mono, takes_done. lia. }
  apply takes_bind; [lia|apply takes_now|]. intros t.
  apply takes_bind; [lia|apply takes_settle|]. intros _. apply takes_done.
Qed.

(** ** One pass of the loop *)

(** A proof the network gave as fulfilled before its deadline. *)
Definition fulfilled (proof_id : Z) (p : SP1ProofWithPublicValues) : Prop :=
  exists k k' st, get_proof_status k proof_id = Ok (st, Some p) /\
    fulfillment_status st = FulfillmentStatus_Fulfilled /\ (k < k')%nat /\
    current_timestamp k' < deadline st.

Lemma run_network_call_Ok {A} (f : nat -> outcome A) w w' a :
  run (catch (network_call_with_timeout config f)) w = (w', Ok (inl a)) ->
  f (actions w) = Ok a /\ actions w' = S (actions w).
Proof.
  rewrite run_catch. unfold attempt. cbn. destruct (_ <? _); [done|].
  by destruct (f (actions w)); intros [= <- ->].
Qed.

Lemma settle_Ok is_mainnet proof_id t details w w' :
  run (settle_auction config is_mainnet proof_id t details) w = (w', Ok tt) -> w' = w.
Proof.
  unfold settle_auction. destruct details as [d|]; [|by intros [= <-]].
  destruct (check_auction _ _ _ _ _); [by intros [= <-]..|].
  by intros (w1 & a & _ & H1)%run_bind_Ok.
Qed.

Lemma poll_network_fulfilled is_mainnet proof_id w w' p :
  run (poll_network config is_mainnet proof_id) w = (w', Ok (Some p)) -> fulfilled proof_id p.
Proof.
  unfold poll_network. intros Hr.
  apply run_bind_Ok in Hr as (w1 & [[st q]|e] & H1 & Hr); [|done].
  apply run_network_call_Ok in H1 as [Hst H1].
  apply run_bind_Ok in Hr as (w2 & [details|e] & H2 & Hr); [|done].
  apply run_network_call_Ok in H2 as [_ H2].
  apply run_bind_Ok in Hr as (w3 & t & H3 & Hr). injection H3 as <- <-.
  apply run_bind_Ok in Hr as (w4 & [] & _ & Hr). injection Hr as -> Hr.
  unfold check_deadline, check_status in Hr.
  destruct (Z.leb_spec (deadline st) (current_timestamp (actions w2))); [done|].
  destruct (Z.eqb_spec (fulfillment_status st) FulfillmentStatus_Fulfilled) as [Hf|]; [|by destruct (_ =? _)].
  destruct q as [q|]; [|done]. injection Hr as <-. exists (actions w), (actions w2), st.
  split_and!; [done|done|lia|done].
Qed.

(** Off mainnet nothing is ever cancelled, and a cancellation ends the wait. *)
Definition keeps_requests (w w' : World) : Prop := cancelled w' = cancelled w.
#[local] Instance keeps_requests_preorder : PreOrder keeps_requests.
Proof. split; [done|]. intros ? ? ? H1 H2. unfold keeps_requests in *. congruence. Qed.

Lemma keeps_network_call {A} (f : nat -> outcome A) : guar keeps_requests (network_call_with_timeout config f).
Proof. apply guar_act. intros w. unfold keeps_requests. cbn. by destruct (_ <? _). Qed.

Lemma poll_network_cancels is_mainnet proof_id w w' o :
  run (poll_network config is_mainnet proof_id) w = (w', o) ->
  cancelled w' <> cancelled w -> is_mainnet = true /\ forall a, o <> Ok a.
Proof.
  unfold poll_network. intros Hr Hc.
  assert (Hcall : forall A (f : nat -> outcome A) v v' r,
    run (catch (network_call_with_timeout config f)) v = (v', r) -> cancelled v' = cancelled v).
  { intros A f v v' r Hv. pose proof (guar_run keeps_requests _ v
      (guar_catch _ _ (keeps_network_call f))) as Hk. by rewrite Hv in Hk. }
  apply run_bind_cases in Hr as [(w1 & [[st q]|e] & H1 & Hr)|(o1 & H1 & _)]; apply Hcall in H1;
    [|by injection Hr as <- _|done].
  apply run_bind_cases in Hr as [(w2 & [details|e] & H2 & Hr)|(o1 & H2 & _)]; apply Hcall in H2;
    [|injection Hr as <- _; congruence|congruence].
  apply run_bind_cases in Hr as [(w3 & t & H3 & Hr)|(o1 & H3 & _)];
    [|injection H3 as <- _; cbn in Hc; congruence].
  injection H3 as <- <-. apply run_bind_cases in Hr as [(w4 & [] & H4 & Hr)|(o1 & H4 & _ & Ho)].
  - apply settle_Ok in H4 as ->. injection Hr as <- _. cbn in Hc. congruence.
  - split; [|done]. unfold settle_auction in H4. destruct details as [d|]; [|injection H4 as <- _; cbn in Hc; congruence].
    unfold check_auction in H4. destruct is_mainnet; [done|]. injection H4 as <- _. cbn in Hc. congruence.
Qed.

(** ** The loop *)

(** The longest a wait can take: a last pass may begin at the timeout, and the
    loop then sleeps before it finds out. *)
Definition longest : Z :=
  from_secs (timeout config) + 3 * limit + from_secs PROOF_STATUS_POLL_INTERVAL + slack.

Lemma poll_once_cases is_mainnet start proof_id w w' o :
  run (poll_once config is_mainnet start proof_id) w = (w', o) ->
  (w' = w /\ o = Err "Proving timeout" /\ from_secs (timeout config) < instant w - start) \/
  (instant w - start <= from_secs (timeout config) /\
   run (poll_network config is_mainnet proof_id) w = (w', o)).
Proof.
  unfold poll_once. intros Hr.
  apply run_bind_cases in Hr as [(w0 & t & Ht & Hr)|(o1 & Ht & Hn & _)];
    [|injection Ht as _ <-; by destruct (Hn (instant w))].
  injection Ht as <- <-. unfold check_timeout in Hr.
  destruct (Z.ltb_spec (from_secs (timeout config)) (instant w - start)); [|by right].
  injection Hr as <- <-. by left.
Qed.

Lemma wait_loop_spec fuel is_mainnet start proof_id w w' o :
  run (wait_loop config fuel is_mainnet start proof_id) w = (w', o) -> start <= instant w ->
  (o = Ok None -> fuel <> O ->
     instant w - start + (Z.of_nat fuel - 1) * from_secs PROOF_STATUS_POLL_INTERVAL
       <= from_secs (timeout config)) /\
  (o <> Ok None -> instant w' - start <= Z.max (instant w - start) longest) /\
  (forall p, o = Ok (Some p) -> fulfilled proof_id p) /\
  (cancelled w' <> cancelled w -> is_mainnet = true /\ forall a, o <> Ok a).
Proof.
  pose proof limit_nonneg as Hl. revert w. induction fuel as [|fuel IH]; intros w; cbn [wait_loop].
  { intros [= <- <-] _. by split_and!. }
  intros Hr Hstart. apply run_bind_cases in Hr as [(w1 & polled & H1 & Hr)|(o1 & H1 & Ho1 & Ho)].
  - apply poll_once_cases in H1 as [(_ & [=] & _)|[Hle H1]].
    pose proof (takes_poll_network _ _ _ _ _ H1) as Htime.
    assert (Hc1 : cancelled w1 = cancelled w).
    { destruct (decide (cancelled w1 = cancelled w)) as [|Hne]; [done|].
      apply (poll_network_cancels _ _ _ _ _ H1) in Hne as [_ Hn]. by destruct (Hn polled). }
    destruct polled as [p|].
    + injection Hr as <- <-. split_and!; [done| | |done].
      * intros _. specialize (Hsleep 0%nat). unfold longest, from_secs, PROOF_STATUS_POLL_INTERVAL in *. lia.
      * intros p' [= <-]. by apply (poll_network_fulfilled is_mainnet proof_id w w1).
    + apply run_bind_cases in Hr as [(w2 & [] & H2 & Hr)|(o1 & H2 & Hn & _)];
        [|injection H2 as _ <-; by destruct (Hn tt)].
      injection H2 as H2. assert (Hw2 : instant w2 = instant w1 + (from_secs PROOF_STATUS_POLL_INTERVAL +
        oversleep (actions w1)) /\ cancelled w2 = cancelled w1) by (by subst w2).
      destruct Hw2 as [Hi2 Hc2]. specialize (Hsleep (actions w1)).
      destruct (IH _ Hr) as (Hnone & Hsome & Hful & Hcan); [unfold from_secs, PROOF_STATUS_POLL_INTERVAL in *; lia|].
      split_and!; [| |done|by rewrite <- Hc1, <- Hc2].
      * intros Ho _. destruct fuel as [|fuel]; [cbn; lia|]. specialize (Hnone Ho ltac:(done)). lia.
      * intros Ho. specialize (Hsome Ho). unfold longest in *. lia.
  - apply poll_once_cases in H1 as [(-> & -> & Hgt)|[Hle H1]].
    + destruct o; [by destruct (Ho a)|..]; (split_and!; [done|lia|done|done]).
    + pose proof (takes_poll_network _ _ _ _ _ H1) as Htime. specialize (Hsleep 0%nat).
      split_and!.
      * intros ->. by destruct (Ho None).
      * intros _. unfold longest, from_secs, PROOF_STATUS_POLL_INTERVAL in *. lia.
      * intros p ->. by destruct (Ho (Some p)).
      * intros Hc. split; [|done]. by apply (poll_network_cancels _ _ _ _ _ H1).
Qed.

(** C31: A wait for a proof always ends: it takes at most one pass every two
    seconds until the proving timeout and one more, and never longer than the
    timeout, three network calls and a sleep. It returns only a proof the
    network gave as fulfilled before the deadline, and it cancels the request
    only on mainnet, in a wait that then fails. *)
Theorem wait_for_proof_ends network_mode proof_id w w' o :
  run (wait_for_proof config (wait_fuel config) network_mode proof_id) w = (w', o) ->
  o <> Ok None /\ instant w' - instant w <= longest /\
  (forall p, o = Ok (Some p) -> fulfilled proof_id p) /\
  (cancelled w' <> cancelled w -> network_mode = Mainnet /\ forall a, o <> Ok a).
Proof.
  unfold wait_for_proof. intros Hr.
  apply run_bind_cases in Hr as [(w0 & t & Ht & Hr)|(o1 & Ht & Hn & _)];
    [|injection Ht as _ <-; by destruct (Hn (instant w))].
  injection Ht as <- <-. apply wait_loop_spec in Hr as (Hnone & Htime & Hful & Hcan); [|lia].
  assert (Ho : o <> Ok None).
  { intros Ho. specialize (Hnone Ho). unfold wait_fuel, from_secs, PROOF_STATUS_POLL_INTERVAL in Hnone.
    pose proof (Z.div_mod (timeout config) 2). pose proof (Z.mod_pos_bound (timeout config) 2).
    specialize (Hnone ltac:(lia)). lia. }
  pose proof limit_nonneg. specialize (Hsleep 0%nat). split_and!; [done| |done|].
  - specialize (Htime Ho). unfold longest, from_secs, PROOF_STATUS_POLL_INTERVAL in *. lia.
  - intros Hc. destruct (Hcan Hc) as [Hm Hno]. split; [exact (bool_decide_eq_true_1 _ Hm)|exact Hno].
Qed.
End waiting.

(** ** Samples *)

Definition sample_proof : SP1ProofWithPublicValues := {| sp1_proof := Compressed 5; public_values := 6 |}.

(** Calls take a second; the request is fulfilled from the fifth action on. *)
Definition sample_network (picked_up : bool) : ProverNetwork := {|
  call_time _ := 10 ^ 9;
  get_proof_status k _ :=
    Ok ({| fulfillment_status := if (5 <=? k)%nat then FulfillmentStatus_Fulfilled else 2;
           execution_status := 0; deadline := 5000 |},
        if (5 <=? k)%nat then Some sample_proof else None);
  get_proof_request _ _ :=
    Ok (Some {| pr_created_at := 1000; pr_cycles := 0; pr_gas_used := 0;
                pr_fulfillment_status := if picked_up then 2 else FulfillmentStatus_Requested |});
  cancel_request _ _ := Ok tt;
  request _ _ := Ok 40;
  execute _ _ _ := Err "not used";
  create_mock_proof _ pv _ := {| sp1_proof := Core 0; public_values := pv |};
  cluster_range_proof _ _ _ := Err "not used";
  cluster_agg_proof _ _ _ _ := Err "not used";
  current_timestamp k := 1000 + 30 * Z.of_nat k;
  oversleep _ := 0 |}.

Definition sample_provider_config : ProofProviderConfig := {|
  timeout := 60; network_calls_timeout := 15; auction_timeout := 60;
  range_proof_strategy := Auction; agg_proof_strategy := Auction; agg_proof_mode := Groth16Mode;
  range_cycle_limit := 1; range_gas_limit := 1; agg_cycle_limit := 1; agg_gas_limit := 1;
  max_price_per_pgu := 1; min_auction_period := 1; whitelist := None; private_stdin := false |}.

Definition sample_world : World := {| instant := 0; actions := 0; cancelled := [] |}.

(** Not picked up for a minute after its creation, the request is cancelled. *)
Example sample_auction_times_out :
  let '(w, o) := run (wait_for_proof (H := sample_network false) sample_provider_config 10 Mainnet 40) sample_world in
  cancelled w = [40] /\ o = Err "Auction timeout".
Proof. vm_compute. done. Qed.

Lemma wait_for_proof_ends_witness :
  let '(w', o) := run (wait_for_proof (H := sample_network true) sample_provider_config
    (wait_fuel sample_provider_config) Mainnet 40) sample_world in
  o = Ok (Some sample_proof) /\ fulfilled (H := sample_network true) 40 sample_proof /\
  instant w' <= 107 * 10 ^ 9.
Proof.
  set (r := run _ _). assert (Hr : r = (r.1, Ok (Some sample_proof))) by (vm_compute; reflexivity).
  destruct (wait_for_proof_ends (H := sample_network true) sample_provider_config 0
    ltac:(intros k; cbn; lia) ltac:(intros k; cbn; lia) ltac:(cbn; lia) ltac:(cbn; lia)
    Mainnet 40 sample_world r.1 (Ok (Some sample_proof)) Hr) as (_ & Htime & Hful & _).
  rewrite Hr. cbn [fst snd]. split; [reflexivity|]. split; [by apply Hful|].
  change (longest sample_provider_config 0) with (107 * 10 ^ 9) in Htime.
  change (instant sample_world) with 0 in Htime. by rewrite Z.sub_0_r in Htime.
Defined.
