(* ===== verification/ProofRequester.v ===== *)
(** * Requesting proofs

    [validity/src/proof_requester.rs]: from a queued request to a witness, to a
    proof requested from the network or the cluster (or mocked on the spot),
    and what becomes of a request that failed. [make_proof_request] is the body
    of a spawned task. *)

From S2P Require Import Prelude.
From S2P Require Import AggregationProgram.
From S2P Require Import ValidityRanges.
From S2P Require Import Interleaving.
From S2P Require Import RequestDb.
From S2P Require Import ValidityTypes.

Section requester.
Context {HO : HashOrder} (config : Config).

Definition validate_external_prover_mode (is_cluster : bool) : outcome unit :=
  ensure (negb is_cluster)
    "The agglayer API requires network proof IDs; SP1_PROVER=cluster is not supported".

(** [Proposer::new] and [OPSuccinctProofRequester::new] check the modes. *)
Definition check_modes : outcome unit :=
  _ ← (if agglayer config then validate_external_prover_mode (cluster config) else Ok tt);
  _ ← ensure (negb (private_stdin config) || (negb (mock config) && negb (cluster config)))
        "PRIVATE_STDIN only applies to SP1 network proof requests; disable mock mode and SP1_PROVER=cluster";
  Ok tt.

Definition new_requester : outcome unit :=
  _ ← ensure (negb (mock config && cluster config))
        "mock and cluster modes are mutually exclusive";
  ensure (negb (cluster config) || has_cluster_config config) "cluster mode requires cluster_config".

Definition is_synchronous_proving : bool := mock config.

(** [OPSuccinctRequest::create_range_request] *)
Definition create_range_request (mode : RequestMode) (start_block end_block : Z)
    (range_vkey_commitment rollup_config_hash l1_chain_id l2_chain_id : Z)
    : Prog OPSuccinctRequest :=
  block_data ← ask (fun e => l2_block_data_range e (as_u64 start_block) (as_u64 end_block));
  now ← ask_now local_now;
  mret (new_range_request now mode start_block end_block range_vkey_commitment
          rollup_config_hash block_data l1_chain_id l2_chain_id).

Definition submit_cluster_proof (request : OPSuccinctRequest)
    (submit_result : ClusterProofRequest + string) : Prog unit :=
  match submit_result with
  | inr e => done (Err e)
  | inl pr =>
      let handle_json := {| proof_id := cp_proof_id pr; proof_output_id := cp_output_id pr |} in
      _ ← execute (fun now => update_request_to_prove_cluster now (id request) handle_json);
      change_handles (insert (id request)
        {| proof_request := pr; consecutive_poll_failures := 0 |})
  end.

Definition range_proof_witnessgen (request : OPSuccinctRequest) : Prog SP1Stdin :=
  host_args ← ask (fun e => host_fetch e (as_u64 (start_block request))
                              (as_u64 (end_block request)) (safe_db_fallback config));
  l1_head ← ask_now (fun e => host_l1_head_hash e host_args);
  _ ← match l1_head with
      | Some l1_head =>
          header ← ask (fun e => get_l1_header e (L1Hash l1_head));
          _ ← execute (fun now => update_l1_head now (id request) (as_i64 (number header)) l1_head);
          mret tt
      | None => mret tt
      end;
  witness ← ask (fun e => host_run e host_args);
  sp1_stdin ← ask (fun e => host_sp1_stdin e witness);
  mret (RangeStdin sp1_stdin).

(** [get_agg_proof_stdin] of utils/host/src/proof.rs *)
Definition get_agg_proof_stdin (proofs : list SP1Proof) (boot_infos : list BootInfoStruct)
    (headers : list Z) (latest_checkpoint_head prover_address : Z) : outcome SP1Stdin :=
  compressed ← with_context "Invalid proof passed as compressed proof!"
    (mapM (fun p => match p with Compressed c => Some c | _ => None end) proofs);
  Ok (AggStdin compressed boot_infos headers latest_checkpoint_head prover_address).

(** One pass of the [for proof in range_proofs] loop. *)
Definition read_range_proof (acc : list BootInfoStruct * list SP1Proof) (r : OPSuccinctRequest)
    : Prog (list BootInfoStruct * list SP1Proof) :=
  bytes ← done (with_context "Range proof is missing proof data." (proof r));
  proof_with_pv ← ask (fun e => map_err (fun _ => "Failed to deserialize range proof")
                                  (deserialize_proof e bytes));
  boot_info ← ask (fun e => read_boot_info e (public_values proof_with_pv));
  mret (acc.1 ++ [boot_info], acc.2 ++ [sp1_proof proof_with_pv]).

Definition agg_proof_witnessgen (start_block end_block checkpointed_l1_block_hash : Z)
    (l1_chain_id l2_chain_id prover_address : Z) : Prog SP1Stdin :=
  range_proofs ← query_one (get_complete_aggregation_range_proofs (commitments config)
                              l1_chain_id l2_chain_id start_block end_block);
  read ← fold range_proofs ([], []) read_range_proof;
  headers ← ask (fun e => map_err (fun _ => "Failed to get header preimages")
                   (get_header_preimages e read.1 checkpointed_l1_block_hash));
  done (map_err (fun _ => "Failed to get agg proof stdin")
    (get_agg_proof_stdin read.2 read.1 headers checkpointed_l1_block_hash prover_address)).

Definition request_range_proof (stdin : SP1Stdin) : Prog Z :=
  _ ← done (ensure (has_network_prover config) "network_prover required for request_range_proof");
  ask (fun e => network_prove e {|
    nr_program := Range; nr_stdin := stdin; nr_mode := CompressedMode;
    nr_strategy := range_strategy config; nr_skip_simulation := true;
    nr_timeout := proving_timeout config; nr_min_auction_period := min_auction_period config;
    nr_max_price_per_pgu := max_price_per_pgu config;
    nr_cycle_limit := range_cycle_limit config; nr_gas_limit := range_gas_limit config;
    nr_private_stdin := private_stdin config; nr_whitelist := whitelist config |}).

Definition request_agg_proof (stdin : SP1Stdin) : Prog Z :=
  _ ← done (ensure (has_network_prover config) "network_prover required for request_agg_proof");
  ask (fun e => network_prove e {|
    nr_program := Aggregation; nr_stdin := stdin; nr_mode := agg_mode config;
    nr_strategy := agg_strategy config; nr_skip_simulation := false;
    nr_timeout := proving_timeout config; nr_min_auction_period := min_auction_period config;
    nr_max_price_per_pgu := max_price_per_pgu config;
    nr_cycle_limit := agg_cycle_limit config; nr_gas_limit := agg_gas_limit config;
    nr_private_stdin := private_stdin config; nr_whitelist := whitelist config |}).

(** [RequestExecutionStatistics::new] of validity/src/types.rs; the [keys] are
    the names the client programs give their precompiles. *)
Definition new_statistics (execution_report : ExecutionReport) : RequestExecutionStatistics :=
  let get_cycles key := default 0 (cycle_tracker execution_report key) in {|
  total_instruction_cycles := total_instruction_count execution_report;
  total_sp1_gas := default 0 (gas execution_report);
  block_execution_cycles := get_cycles "block-execution";
  oracle_verify_cycles := get_cycles "oracle-verify";
  derivation_cycles := get_cycles "payload-derivation";
  blob_verification_cycles := get_cycles "blob-verification";
  bn_add_cycles := get_cycles "precompile-bn-add";
  bn_mul_cycles := get_cycles "precompile-bn-mul";
  bn_pair_cycles := get_cycles "precompile-bn-pair";
  kzg_eval_cycles := get_cycles "precompile-kzg-eval";
  ec_recover_cycles := get_cycles "precompile-ec-recover";
  p256_verify_cycles := get_cycles "precompile-p256-verify" |}.

Definition generate_mock_range_proof (request : OPSuccinctRequest) (stdin : SP1Stdin)
    : Prog SP1ProofWithPublicValues :=
  _ ← done (ensure (has_network_prover config) "network_prover required for generate_mock_range_proof");
  report ← ask (fun e => network_execute e Range stdin);
  let '(pv, report, execution_duration) := report in
  _ ← execute (fun _ => insert_execution_statistics (id request) (new_statistics report)
                          (as_i64 execution_duration));
  ask_now (fun e => create_mock_proof e Range pv CompressedMode).

Definition generate_mock_agg_proof (request : OPSuccinctRequest) (stdin : SP1Stdin)
    : Prog SP1ProofWithPublicValues :=
  _ ← done (ensure (has_network_prover config) "network_prover required for generate_mock_agg_proof");
  report ← ask (fun e => network_execute e Aggregation stdin);
  let '(pv, report, execution_duration) := report in
  _ ← execute (fun _ => insert_execution_statistics (id request) (new_statistics report)
                          (as_i64 execution_duration));
  ask_now (fun e => create_mock_proof e Aggregation pv (agg_mode config)).

(** The [vec!] of two halves. *)
Definition split_request (request : OPSuccinctRequest) (l1_chain_id l2_chain_id : Z)
    : Prog (list OPSuccinctRequest) :=
  let mid_block := Z.quot (as_i64 (start_block request + end_block request)) 2 in
  first ← create_range_request (mode request) (start_block request) mid_block
            (c_range_vkey_commitment (commitments config))
            (c_rollup_config_hash (commitments config)) (as_i64 l1_chain_id) (as_i64 l2_chain_id);
  second ← create_range_request (mode request) mid_block (end_block request)
             (c_range_vkey_commitment (commitments config))
             (c_rollup_config_hash (commitments config)) (as_i64 l1_chain_id) (as_i64 l2_chain_id);
  mret [first; second].

Definition handle_failed_request (request : OPSuccinctRequest) (execution_status : Z) : Prog unit :=
  gone ← query_one (is_request_invalidated (id request));
  if gone : bool then
    _ ← execute (fun now => finish_invalidated_request now (id request)); mret tt
  else
    _ ← execute (fun now => update_request_status now (id request) Failed);
    l1_chain_id_ ← ask l1_get_chain_id;
    l2_chain_id_ ← ask l2_get_chain_id;
    if (1 <? as_i64 (end_block request - start_block request)) && bool_decide (req_type request = Range) then
      num_failed_requests ← query (fetch_failed_request_count_by_block_range (commitments config)
        (l1_chain_id request) (l2_chain_id request) (start_block request) (end_block request));
      if (2 <? num_failed_requests) || (execution_status =? ExecutionStatus_Unexecutable) then
        new_requests ← split_request request l1_chain_id_ l2_chain_id_;
        execute (fun _ => insert_requests new_requests)
      else mret tt
    else mret tt.

Definition handle_cancelled_request (request : OPSuccinctRequest) : Prog unit :=
  _ ← execute (fun now => update_request_status now (id request) Cancelled); mret tt.

Definition generate_proof_stdin (request : OPSuccinctRequest) : Prog SP1Stdin :=
  match req_type request with
  | Range => range_proof_witnessgen request
  | Aggregation =>
      hash ← done (with_context "Aggregation proof has no checkpointed block."
                     (checkpointed_l1_block_hash request));
      prover ← done (with_context "Prover address must be set for aggregation proofs."
                       (prover_address request));
      agg_proof_witnessgen (start_block request) (end_block request) hash
        (l1_chain_id request) (l2_chain_id request) prover
  end.

Definition store_completed_proof (request_id proof : Z) : Prog unit :=
  stored ← execute (fun now => update_proof_to_complete now request_id proof);
  if stored : bool then mret tt
  else
    finished ← execute (fun now => finish_invalidated_request now request_id);
    if finished : bool then mret tt
    else done (Err "Request could not transition to Complete").

(** [DriverDBClient::try_start_witness_generation]: the request is read before
    the transaction. *)
Definition try_start_witness_generation (i max_witnesses max_proofs : Z) : Prog bool :=
  request ← query_one (fetch_request i);
  execute (fun now => admit_request now request max_witnesses max_proofs).

(** The three ways to go on from a witness. *)
Definition finish_mock (request : OPSuccinctRequest) (stdin : SP1Stdin) : Prog unit :=
  bytes ← match req_type request with
          | Range =>
              proof ← generate_mock_range_proof request stdin;
              ask (fun e => serialize_proof e proof)
          | Aggregation =>
              proof ← generate_mock_agg_proof request stdin;
              ask (fun e => if agglayer config then serialize_proof_be e proof
                            else Ok (ValidityTypes.proof_bytes e proof))
          end;
  store_completed_proof (id request) bytes.

Definition finish_cluster (request : OPSuccinctRequest) (stdin : SP1Stdin) : Prog unit :=
  _ ← done (ensure (has_cluster_config config) "cluster_config required");
  result ← catch (ask (fun e => cluster_create_request e stdin));
  submit_cluster_proof request result.

Definition finish_network (request : OPSuccinctRequest) (stdin : SP1Stdin) : Prog unit :=
  proof_id ← match req_type request with
             | Range => request_range_proof stdin
             | Aggregation => request_agg_proof stdin
             end;
  _ ← execute (fun now => update_request_to_prove now (id request) proof_id);
  mret tt.

(** [make_proof_request] after the admission. *)
Definition make_admitted_request (request : OPSuccinctRequest) : Prog unit :=
  started ← ask_now unix_now;
  stdin ← generate_proof_stdin request;
  ended ← ask_now unix_now;
  _ ← execute (fun now => update_witnessgen_duration now (id request)
                            (as_i64 (saturating_sub ended started)));
  gone ← query_one (is_request_invalidated (id request));
  if gone : bool then
    _ ← execute (fun now => finish_invalidated_request now (id request)); mret tt
  else
    _ ← (if mock config
         then _ ← execute (fun now => update_request_status now (id request) Execution); mret tt
         else mret tt);
    if mock config then finish_mock request stdin
    else if cluster config then finish_cluster request stdin
    else finish_network request stdin.

Definition make_proof_request (request : OPSuccinctRequest) (max_witnesses max_proofs : Z)
    : Prog unit :=
  admitted ← try_start_witness_generation (id request) max_witnesses max_proofs;
  if admitted : bool then make_admitted_request request else mret tt.
End requester.
