(* ===== verification/ValidityProposer.v ===== *)
(** * The validity proposer

    [validity/src/proposer.rs]: the operations of one turn of the loop, in the
    order [run_loop_iteration] calls them. Each is a [Prog]: a sequence of
    database statements, remote calls and accesses to the task map and the
    handle map, between which the spawned tasks may act. *)

From S2P Require Import Prelude.
From S2P Require Import AggregationProgram.
From S2P Require Import ValidityRanges.
From S2P Require Import Interleaving.
From S2P Require Import RequestDb.
From S2P Require Import ValidityTypes.
From S2P Require Import ProofRequester.

Definition MAX_CONSECUTIVE_POLL_FAILURES : Z := 3.
Definition RANGE_METADATA_HYDRATION_LIMIT : Z := 100.
Definition OP_SUCCINCT_VALIDITY_DISPUTE_GAME_TYPE : Z := 6.
Definition Address_ZERO : Z := 0.
Definition B256_ZERO : Z := 0.

(** ** Pure helpers *)

(** [Option::map_or] with [max]. *)
Definition select_checkpoint_block_number (safe_block_number : Z) (batch_max_l1_head : option Z) : Z :=
  match batch_max_l1_head with
  | Some max => Z.max max safe_block_number
  | None => safe_block_number
  end.

(** The [for] loop over [current_end] and [found]. *)
Fixpoint contiguous_loop (current_end : Z) (found : bool) (completed_ranges : list (Z * Z))
    : outcome (option Z) :=
  match completed_ranges with
  | [] => Ok (if found then Some current_end else None)
  | (start, end_) :: rest =>
      if current_end <? start then Ok (if found then Some current_end else None)
      else if start <? current_end then Err "Completed range overlaps the contiguous chain"
      else if end_ <=? start then Err "Completed range is empty or reversed"
      else contiguous_loop end_ true rest
  end.

Definition highest_contiguous_end (expected_start : Z) (completed_ranges : list (Z * Z))
    : outcome (option Z) :=
  contiguous_loop expected_start false completed_ranges.

(** No gap and no overlap between neighbours. *)
Fixpoint adjacent (prev : OPSuccinctRequest) (range_proofs : list OPSuccinctRequest) : bool :=
  match range_proofs with
  | [] => true
  | curr :: rest =>
      negb (end_block prev <? start_block curr) && negb (start_block curr <? end_block prev) &&
      adjacent curr rest
  end.

Definition validate_aggregation_request (range_proofs : list OPSuccinctRequest)
    (agg_request : OPSuccinctRequest) : bool :=
  match range_proofs, last range_proofs with
  | first :: rest, Some last_ =>
      (start_block first =? start_block agg_request) &&
      (end_block last_ =? end_block agg_request) && adjacent first rest
  | _, _ => false
  end.

Section proposer.
Context {HO : HashOrder} (config : Config).

Definition auction_timed_out (request_type : RequestType) (status now deadline : Z) : bool :=
  negb (agglayer config && bool_decide (request_type = Aggregation)) &&
  (status =? FulfillmentStatus_Requested) && (deadline <? now).

Definition handle_terminal_proof_failure_before_request_details {T}
    (request : OPSuccinctRequest) (status : ProofRequestStatus) (current_time : Z)
    (handle_failed : OPSuccinctRequest -> Z -> Prog unit) (request_details : Prog T)
    : Prog (option T) :=
  if deadline status <? current_time then
    _ ← handle_failed request (execution_status status); mret None
  else if negb (fulfillment_status status =? FulfillmentStatus_Unfulfillable) then
    details ← request_details; mret (Some details)
  else
    _ ← handle_failed request (execution_status status); mret None.

Notation l1 := (cfg_l1_chain_id config).
Notation l2 := (cfg_l2_chain_id config).
Notation commitment := (commitments config).

(** ** Start-up *)

(** [Proposer::new], up to the set-up of the keys. *)
Definition new : Prog unit :=
  _ ← done (check_modes config);
  is_locked ← statement (fun e d => (d, Ok (is_chain_locked (NOW e) l1 l2 (loop_interval config) d)));
  if is_locked : bool then
    done (Err "There is another proposer for the same chain connected to the database.")
  else
    _ ← execute (fun now => add_chain_lock now l1 l2);
    _ ← (if cluster config then mret tt
         else done (_ ← determine_network_mode (range_strategy config) (agg_strategy config); Ok tt));
    done (new_requester config).

Definition validate_contract_config : Prog unit :=
  contract_config ← ask (fun e => opSuccinctConfigs e (op_succinct_config_name_hash config));
  let rollup_config_hash_match :=
    contract_rollup_config_hash contract_config =? c_rollup_config_hash commitment in
  let agg_vkey_hash_match := aggregation_vkey contract_config =? c_agg_vkey_hash commitment in
  let range_vkey_commitment_match :=
    contract_range_vkey_commitment contract_config =? c_range_vkey_commitment commitment in
  if negb rollup_config_hash_match || negb agg_vkey_hash_match || negb range_vkey_commitment_match
  then done (Err "Config mismatches detected.")
  else mret tt.

Definition initialize_proposer : Prog unit :=
  validated ← catch validate_contract_config;
  _ ← match validated with
      | inl _ => mret tt
      | inr _ => done (Err "Failed to validate the requester config matches the contract.")
      end;
  _ ← execute (fun _ => delete_all_requests_with_statuses
                 [Unrequested; Execution; WitnessGeneration] l1 l2);
  _ ← execute (fun _ => cancel_prove_requests_with_different_commitment_config commitment l1 l2);
  mret tt.

(** ** Metrics: reads that fail the turn when they fail *)

Definition log_proposer_metrics : Prog unit :=
  latest_proposed_block_number ← get_latest_proposed_block_number;
  completed_range_proofs ← query (fetch_completed_ranges commitment l1 l2
                                    (as_i64 latest_proposed_block_number));
  _ ← done (highest_contiguous_end (as_i64 latest_proposed_block_number) completed_range_proofs);
  _ ← query (fetch_request_count commitment l1 l2 Unrequested);
  _ ← query (fetch_request_count commitment l1 l2 Prove);
  _ ← query (fetch_request_count commitment l1 l2 Execution);
  _ ← query (fetch_request_count commitment l1 l2 WitnessGeneration);
  _ ← ask (fun e => get_l2_header e L2Latest);
  _ ← ask (fun e => get_l2_header e L2Finalized);
  _ ← ask max_provable_l2_block_number;
  contract_submission_interval ← ask submissionInterval;
  _ ← done (u64_try_from "submission interval" contract_submission_interval);
  mret tt.

(** ** Finished and orphaned tasks *)

Definition take_task (i : Z) : Prog (option Task) := act (fun s =>
  (with_tasks (delete i (tasks s)) s, Ok (tasks s !! i))).

Definition is_finished (t : Task) : bool :=
  match t_result t with Some _ => true | None => false end.

(** The retry of a task that ended in an error or a panic; its own failure is
    only logged. *)
Definition retry_task (i : Z) : Prog unit :=
  task ← take_task i;
  match task with
  | Some {| t_request := request; t_result := Some (Err _) |}
  | Some {| t_request := request; t_result := Some Panic |} =>
      _ ← catch (handle_failed_request config request UnspecifiedExecutionStatus); mret tt
  | _ => mret tt
  end.

Definition handle_ongoing_tasks : Prog unit :=
  running ← get_tasks;
  each (fst <$> filter (fun p => is_finished p.2) (iter_map running)) retry_task.

Definition fail_orphan (request : OPSuccinctRequest) : Prog unit :=
  running ← get_tasks;
  if bool_decide (is_Some (running !! id request)) then mret tt
  else
    gone ← query_one (is_request_invalidated (id request));
    if gone : bool then
      _ ← execute (fun now => finish_invalidated_request now (id request)); mret tt
    else
      _ ← execute (fun now => update_request_status now (id request) Failed); mret tt.

Definition set_orphaned_tasks_to_failed : Prog unit :=
  witnessgen_requests ← query (fetch_requests_by_status commitment l1 l2 WitnessGeneration);
  execution_requests ← query (fetch_requests_by_status commitment l1 l2 Execution);
  each (witnessgen_requests ++ execution_requests) fail_orphan.

(** ** Polling *)

(** The [match proof.proof] that turns a proof into stored bytes. *)
Definition stored_bytes (p : SP1ProofWithPublicValues) : Prog Z :=
  match sp1_proof p with
  | Compressed _ => ask (fun e => serialize_proof e p)
  | Groth16 _ | Plonk _ => ask_now (fun e => ValidityTypes.proof_bytes e p)
  | Core _ => done (Err "Core proofs are not supported.")
  end.

Definition complete_request (request : OPSuccinctRequest) (p : SP1ProofWithPublicValues) : Prog unit :=
  bytes ← stored_bytes p;
  stored ← execute (fun now => update_proof_to_complete now (id request) bytes);
  _ ← done (ensure stored "Request could not transition to Complete");
  _ ← execute (fun now => update_prove_duration now (id request));
  mret tt.

(** [RequestExecutionStatistics::from(&proof_request)] *)
Definition statistics_of (details : ProofRequestDetails) : RequestExecutionStatistics := {|
  total_instruction_cycles := pr_cycles details; total_sp1_gas := pr_gas_used details;
  block_execution_cycles := 0; oracle_verify_cycles := 0; derivation_cycles := 0;
  blob_verification_cycles := 0; bn_add_cycles := 0; bn_mul_cycles := 0; bn_pair_cycles := 0;
  kzg_eval_cycles := 0; ec_recover_cycles := 0; p256_verify_cycles := 0 |}.

(** The branch for a request invalidated while it was being proved. *)
Definition cancel_invalidated (request : OPSuccinctRequest) (proof_request_id : Z) : Prog unit :=
  if bool_decide (network_mode config = Mainnet) then
    request_details ← network_call_with_timeout (fun e => get_proof_request e proof_request_id);
    match request_details with
    | Some details =>
        if pr_fulfillment_status details =? FulfillmentStatus_Requested then
          _ ← network_call_with_timeout (fun e => cancel_request e proof_request_id);
          _ ← execute (fun now => finish_invalidated_request now (id request));
          mret tt
        else mret tt
    | None => mret tt
    end
  else mret tt.

(** The branch for a fulfilled request. *)
Definition store_fulfilled (request : OPSuccinctRequest) (proof_request_id : Z)
    (p : option SP1ProofWithPublicValues) : Prog unit :=
  p ← done (with_context "Network reported Fulfilled but returned no proof" p);
  _ ← complete_request request p;
  details ← network_call_with_timeout (fun e => get_proof_request e proof_request_id);
  match details with
  | Some details =>
      _ ← execute (fun _ => insert_execution_statistics (id request) (statistics_of details) 0);
      mret tt
  | None => mret tt
  end.

(** The auction check that ends the function. *)
Definition check_auction (request : OPSuccinctRequest) (proof_request_id current_time : Z)
    (request_details : option ProofRequestDetails) : Prog unit :=
  match request_details with
  | Some details =>
      let auction_deadline := wrap64 (pr_created_at details + auction_timeout config) in
      if bool_decide (network_mode config = Mainnet) &&
         auction_timed_out (req_type request) (pr_fulfillment_status details) current_time
           auction_deadline
      then
        _ ← network_call_with_timeout (fun e => cancel_request e proof_request_id);
        handle_cancelled_request request
      else mret tt
  | None => mret tt
  end.

(** The [async] block passed to the terminal-failure check. *)
Definition fetch_details (status : ProofRequestStatus) (proof_request_id : Z)
    : Prog (option ProofRequestDetails) :=
  if (fulfillment_status status =? FulfillmentStatus_Fulfilled) ||
     negb (bool_decide (network_mode config = Mainnet))
  then mret None
  else network_call_with_timeout (fun e => get_proof_request e proof_request_id).

Definition process_proof_request_status (request : OPSuccinctRequest) : Prog unit :=
  _ ← done (ensure (has_network_prover config) "network_prover required for proof status polling");
  match proof_request_id request with
  | None => mret tt
  | Some proof_request_id =>
      answer ← network_call_with_timeout (fun e => get_proof_status e proof_request_id);
      let '(status, p) := answer in
      current_time ← ask_now unix_now;
      request_invalidated ← query_one (is_request_invalidated (id request));
      if request_invalidated &&
         ((fulfillment_status status =? FulfillmentStatus_Fulfilled) ||
          (fulfillment_status status =? FulfillmentStatus_Unfulfillable) ||
          (deadline status <? current_time))
      then _ ← execute (fun now => finish_invalidated_request now (id request)); mret tt
      else if request_invalidated : bool then cancel_invalidated request proof_request_id
      else
        request_details ← handle_terminal_proof_failure_before_request_details request status
          current_time (handle_failed_request config) (fetch_details status proof_request_id);
        match request_details with
        | None => mret tt
        | Some request_details =>
            if fulfillment_status status =? FulfillmentStatus_Fulfilled
            then store_fulfilled request proof_request_id p
            else check_auction request proof_request_id current_time request_details
        end
  end.

Definition fail_cluster_request (request : OPSuccinctRequest) : Prog unit :=
  _ ← change_handles (delete (id request));
  handle_failed_request config request UnspecifiedExecutionStatus.

(** Seconds since the proof was requested. *)
Definition elapsed_secs (now proof_request_time : Z) : Z := Z.max (now - proof_request_time) 0.

(** Drops a request that was invalidated, fails one that was not. *)
Definition drop_or_fail (invalidated : bool) (request : OPSuccinctRequest) : Prog unit :=
  if invalidated then
    _ ← change_handles (delete (id request));
    _ ← execute (fun now => finish_invalidated_request now (id request));
    mret tt
  else fail_cluster_request request.

(** The handle in memory, or one rebuilt from the row ([reconstruct_proof_request]). *)
Definition find_handle (request : OPSuccinctRequest) : Prog ClusterProofRequest :=
  handles ← get_handles;
  match handles !! id request with
  | Some h => mret (proof_request h)
  | None =>
      handle_json ← done (with_context "request in Prove status has no cluster_proof_handle"
                            (cluster_proof_handle request));
      proof_request_time ← done (with_context "request in Prove status has no proof_request_time"
                                   (proof_request_time request));
      now ← ask_now utc_now;
      let remaining := saturating_sub (proving_timeout config) (elapsed_secs now proof_request_time) in
      now ← ask_now unix_now;
      let pr := {| cp_proof_id := proof_id handle_json;
                   cp_output_id := proof_output_id handle_json;
                   cp_deadline := now + remaining |} in
      _ ← change_handles (insert (id request)
            {| proof_request := pr; consecutive_poll_failures := 0 |});
      mret pr
  end.

(** A failed poll: one more failure, and whether it is the last straw. *)
Definition count_poll_failure (i : Z) : Prog bool := act (fun s =>
  match cluster_handles s !! i with
  | Some h =>
      let h' := {| proof_request := proof_request h;
                   consecutive_poll_failures := (consecutive_poll_failures h + 1) mod 2 ^ 32 |} in
      (with_handles (<[i := h']> (cluster_handles s)) s,
       Ok (MAX_CONSECUTIVE_POLL_FAILURES <=? consecutive_poll_failures h'))
  | None => (s, Ok true)
  end).

Definition reset_poll_failures (h : ClusterProofHandle) : ClusterProofHandle :=
  {| proof_request := proof_request h; consecutive_poll_failures := 0 |}.

(** Has the proof exceeded its wall-clock timeout? *)
Definition wall_clock_exceeded (request : OPSuccinctRequest) : Prog bool :=
  match proof_request_time request with
  | Some proof_request_time =>
      now ← ask_now utc_now;
      mret (as_i64 (proving_timeout config) <? elapsed_secs now proof_request_time)
  | None => mret false
  end.

Definition process_cluster_proof_status (request : OPSuccinctRequest) : Prog unit :=
  _ ← done (ensure (has_cluster_config config) "cluster_config required for cluster proof polling");
  invalidated ← query_one (is_request_invalidated (id request));
  timed_out ← wall_clock_exceeded request;
  if timed_out : bool then drop_or_fail invalidated request
  else
    pr ← find_handle request;
    polled ← catch (ask (fun e => cluster_poll_proof e pr));
    match polled with
    | inl (Some results) =>
        if invalidated : bool then
          _ ← change_handles (delete (id request));
          _ ← execute (fun now => finish_invalidated_request now (id request));
          mret tt
        else
          _ ← complete_request request results;
          change_handles (delete (id request))
    | inl None => change_handles (alter reset_poll_failures (id request))
    | inr _ =>
        should_fail ← count_poll_failure (id request);
        if should_fail : bool then drop_or_fail invalidated request else mret tt
    end.

Definition handle_proving_requests : Prog unit :=
  if is_synchronous_proving config then mret tt
  else
    prove_requests ← query (fetch_requests_by_status commitment l1 l2 Prove);
    each prove_requests (fun request =>
      if cluster config then _ ← catch (process_cluster_proof_status request); mret tt
      else process_proof_request_status request).

(** ** Canonicality *)

(** Reads the L1 head a completed range proof was made against out of the
    proof, and records it. *)
Definition hydrate_range (range : OPSuccinctRequest) : Prog unit :=
  bytes ← done (with_context "Completed range has no proof bytes" (proof range));
  proof ← ask (fun e => map_err (fun _ => "Failed to deserialize completed range")
                          (deserialize_proof e bytes));
  boot_info ← ask (fun e => read_boot_info e (public_values proof));
  expected_end_block ← done (u64_try_from "Completed range end block is negative" (end_block range));
  _ ← done (ensure (l2BlockNumber boot_info =? expected_end_block)
              "Completed range reports another L2 block");
  _ ← done (ensure (rollupConfigHash boot_info =? c_rollup_config_hash commitment)
              "Completed range has a different rollup config hash");
  l1_head_number ←
    match l1_head_block_number range with
    | Some number => done (u64_try_from "Completed range L1 head number is negative" number)
    | None =>
        header ← ask (fun e => get_l1_header e (L1Hash (l1Head boot_info)));
        mret (number header)
    end;
  stored ← done (i64_try_from "Completed range L1 head is too large" l1_head_number);
  _ ← execute (fun now => update_l1_head now (id range) stored (l1Head boot_info));
  mret tt.

Definition l1_head_number_of (range : OPSuccinctRequest) : outcome Z :=
  number ← with_context "Completed range has no L1 head number" (l1_head_block_number range);
  u64_try_from "Completed range L1 head number is negative" number.

(** One pass of the loop that fills [canonical_hashes]. *)
Definition fetch_canonical_hash (canonical_hashes : gmap Z Z) (range : OPSuccinctRequest)
    : Prog (gmap Z Z) :=
  l1_head_number ← done (l1_head_number_of range);
  match canonical_hashes !! l1_head_number with
  | Some _ => mret canonical_hashes
  | None =>
      header ← ask (fun e => get_l1_header e (L1Number l1_head_number));
      mret (<[l1_head_number := hash_slow header]> canonical_hashes)
  end.

(** The loop that collects [stale_range_ids]. *)
Fixpoint collect_stale (canonical_hashes : gmap Z Z) (completed_ranges : list OPSuccinctRequest)
    : outcome (list Z) :=
  match completed_ranges with
  | [] => Ok []
  | range :: rest =>
      l1_head_number ← l1_head_number_of range;
      stored_hash ← with_context "Completed range has no L1 head hash" (l1_head_block_hash range);
      canonical_hash ← with_context "Canonical L1 hash was not fetched"
                         (canonical_hashes !! l1_head_number);
      stale ← collect_stale canonical_hashes rest;
      Ok (if canonical_hash =? stored_hash then stale else id range :: stale)
  end.

Definition reconcile_completed_range_canonicality : Prog bool :=
  latest ← get_latest_proposed_block_number;
  let latest_proposed_block := as_i64 latest in
  missing ← query (fetch_missing_range_metadata commitment l1 l2 latest_proposed_block
                     (RANGE_METADATA_HYDRATION_LIMIT + 1));
  let more_metadata_remains := RANGE_METADATA_HYDRATION_LIMIT <? Z.of_nat (length missing) in
  _ ← each (take (Z.to_nat RANGE_METADATA_HYDRATION_LIMIT) missing) hydrate_range;
  if more_metadata_remains then mret false
  else
    completed_ranges ← query (fetch_completed_range_metadata commitment l1 l2 latest_proposed_block);
    canonical_hashes ← fold completed_ranges ∅ fetch_canonical_hash;
    stale_range_ids ← done (collect_stale canonical_hashes completed_ranges);
    _ ← execute (fun now => invalidate_noncanonical_ranges now stale_range_ids commitment l1 l2);
    mret true.

(** ** New range requests *)

(** The block data of the gaps, for the gas-based planner. *)
Definition fetch_block_infos (all_block_infos : gmap Z BlockInfo) (r : Z * Z)
    : Prog (gmap Z BlockInfo) :=
  if r.1 <? r.2 then
    block_data ← ask (fun e => l2_block_data_range e (as_u64 r.1) (as_u64 r.2));
    mret (foldl (fun m info => <[as_i64 (block_number info) := info]> m) all_block_infos block_data)
  else mret all_block_infos.

(** The planner, with [fuel] for the block-based loop; running out of fuel
    stands for a loop that has not ended, and ends nothing here. *)
Definition plan_ranges (fuel : nat) (disjoint_ranges : list (Z * Z)) : Prog (list (Z * Z)) :=
  if 0 <? evm_gas_limit config then
    all_block_infos ← fold disjoint_ranges ∅ fetch_block_infos;
    done (get_ranges_to_prove_by_gas (evm_gas_limit config)
            (as_i64 (range_proof_interval config)) all_block_infos disjoint_ranges)
  else
    match get_ranges_to_prove_by_blocks fuel disjoint_ranges
            (as_i64 (range_proof_interval config)) with
    | Some ranges => mret ranges
    | None => done Panic
    end.

Definition request_mode : RequestMode := if mock config then Mock else Real.

Definition new_range (acc : list OPSuccinctRequest) (range : Z * Z) : Prog (list OPSuccinctRequest) :=
  request ← create_range_request request_mode range.1 range.2
              (c_range_vkey_commitment commitment) (c_rollup_config_hash commitment) l1 l2;
  mret (acc ++ [request]).

#[global] Instance start_le_dec a b : Decision (start_le a b).
Proof. unfold start_le. apply _. Defined.

Definition add_new_ranges (fuel : nat) : Prog unit :=
  latest_proposed_block_number ← get_latest_proposed_block_number;
  finalized_block_number ← ask max_provable_l2_block_number;
  requests ← query (fetch_ranges_after_block commitment l1 l2 PENDING
                      (as_i64 latest_proposed_block_number));
  let requests := merge_sort start_le requests in
  let disjoint_ranges :=
    find_gaps (as_i64 latest_proposed_block_number) (as_i64 finalized_block_number) requests in
  ranges_to_prove ← plan_ranges fuel disjoint_ranges;
  match ranges_to_prove with
  | [] => mret tt
  | _ =>
      new_range_requests ← fold ranges_to_prove [] new_range;
      execute (fun _ => insert_requests new_range_requests)
  end.

(** ** Aggregation *)

(** The checkpoint of an earlier request, if it still matches the chain and
    covers the batch. *)
Definition reusable_checkpoint (existing : option (Z * Z)) (batch_max_l1_head : option Z)
    : Prog (option (Z * Z)) :=
  match existing with
  | None => mret None
  | Some (existing_l1_block_hash, existing_l1_block_number) =>
      n ← done (u64_try_from "Existing checkpointed L1 block number is negative"
                  existing_l1_block_number);
      onchain_l1_block_hash ← ask (fun e => historicBlockHashes e n);
      if onchain_l1_block_hash =? B256_ZERO then mret None
      else if negb (onchain_l1_block_hash =? existing_l1_block_hash) then mret None
      else if match batch_max_l1_head with Some max => n <? max | None => false end then mret None
      else mret (Some (existing_l1_block_hash, existing_l1_block_number))
  end.

(** Checkpoints an L1 block on chain. *)
Definition new_checkpoint (batch_max_l1_head : option Z) : Prog (Z * Z) :=
  safe_header ← ask (fun e => get_l1_header e L1Safe);
  let checkpoint_number := select_checkpoint_block_number (number safe_header) batch_max_l1_head in
  checkpoint_header ←
    (if checkpoint_number =? number safe_header then mret safe_header
     else ask (fun e => get_l1_header e (L1Number checkpoint_number)));
  receipt ← send (TxCheckpointBlockHash (number checkpoint_header));
  if negb (r_status receipt) then done (Err "Checkpoint block transaction reverted")
  else mret (hash_slow checkpoint_header, as_i64 (number checkpoint_header)).

Definition create_aggregation_proofs : Prog unit :=
  latest ← get_latest_proposed_block_number;
  let latest_proposed_block_number := as_i64 latest in
  active_agg_proofs_count ← query (fetch_active_agg_proofs_count commitment l1 l2
                                     latest_proposed_block_number);
  if 0 <? active_agg_proofs_count then mret tt
  else
    completed_range_proofs ← query (fetch_completed_ranges commitment l1 l2
                                      latest_proposed_block_number);
    highest ← done (highest_contiguous_end latest_proposed_block_number completed_range_proofs);
    match highest with
    | None => mret tt
    | Some highest_proven_contiguous_block_number =>
        contract_submission_interval ← ask (fun e => n ← submissionInterval e; to_u64 n);
        let submission_interval_ :=
          as_i64 (Z.max contract_submission_interval (submission_interval config)) in
        if submission_interval_ <=? highest_proven_contiguous_block_number - latest_proposed_block_number
        then
          existing_request ← query (fetch_reusable_agg_checkpoint commitment l1 l2
            latest_proposed_block_number highest_proven_contiguous_block_number);
          max_l1_head ← query (get_max_l1_head_block_number_for_range commitment l1 l2
            latest_proposed_block_number highest_proven_contiguous_block_number);
          batch_max_l1_head ← done (match max_l1_head with
            | Some n => Some <$> u64_try_from "Range proof l1_head_block_number is negative" n
            | None => Ok None
            end);
          reuse_checkpoint ← reusable_checkpoint existing_request batch_max_l1_head;
          checkpoint ← (match reuse_checkpoint with
                        | Some reuse => mret reuse
                        | None => new_checkpoint batch_max_l1_head
                        end);
          prover_address_ ← ask_now signer_address;
          now ← ask_now local_now;
          let agg_request := new_agg_request now request_mode latest_proposed_block_number
            highest_proven_contiguous_block_number (c_range_vkey_commitment commitment)
            (c_agg_vkey_hash commitment) (c_rollup_config_hash commitment) l1 l2
            checkpoint.2 checkpoint.1 prover_address_ in
          _ ← execute (fun _ => insert_request agg_request);
          mret tt
        else mret tt
    end.

(** ** Requesting queued proofs *)

Definition get_next_unrequested_proof : Prog (option OPSuccinctRequest) :=
  latest_proposed_block_number ← get_latest_proposed_block_number;
  agg_request ← (if negb (agglayer config) then
      unreq_agg_request ← query (fetch_unrequested_agg_proof commitment l1 l2
                                   (as_i64 latest_proposed_block_number));
      match unreq_agg_request with
      | Some agg =>
          range_proofs ← query (get_consecutive_complete_range_proofs commitment l1 l2
                                  (start_block agg) (end_block agg));
          mret (if validate_aggregation_request range_proofs agg then Some agg else None)
      | None => mret None
      end
    else mret None);
  match agg_request with
  | Some agg => mret (Some agg)
  | None => query (fetch_first_unrequested_range_proof commitment l1 l2
                     (as_i64 latest_proposed_block_number))
  end.

(** Under the lock of the task map: a task is spawned unless there is one. *)
Definition spawn_task (request : OPSuccinctRequest) : Prog unit := act (fun s =>
  match tasks s !! id request with
  | Some _ => (s, Ok tt)
  | None => (with_tasks (<[id request := {| t_request := request; t_result := None |}]> (tasks s)) s,
             Ok tt)
  end).

Definition request_queued_proofs : Prog unit :=
  next ← get_next_unrequested_proof;
  match next with
  | Some request => spawn_task request
  | None => mret tt
  end.

(** ** Relaying *)

(** The [receipt]: through the dispute game factory, or to the oracle. *)
Definition propose_output (completed_agg_proof : OPSuccinctRequest) (output_root : Z) : Prog Receipt :=
  if negb (dgf_address config =? Address_ZERO) then
    init_bond ← ask (fun e => dgf_initBonds e OP_SUCCINCT_VALIDITY_DISPUTE_GAME_TYPE);
    match checkpointed_l1_block_number completed_agg_proof, proof completed_agg_proof with
    | Some checkpoint, Some bytes =>
        prover ← ask_now signer_address;
        sent ← catch (send (TxDgfProposeL2Output (op_succinct_config_name_hash config)
          output_root (end_block completed_agg_proof) checkpoint bytes prover init_bond));
        match sent with
        | inl receipt => mret receipt
        | inr e => done (Err ("Failed to relay aggregation proof onchain: " +:+ e))
        end
    | _, _ => done Panic
    end
  else
    match checkpointed_l1_block_number completed_agg_proof, proof completed_agg_proof with
    | Some checkpoint, Some bytes =>
        prover ← ask_now signer_address;
        send (TxProposeL2Output (op_succinct_config_name_hash config) output_root
          (end_block completed_agg_proof) checkpoint bytes prover)
    | _, _ => done Panic
    end.

Definition relay_aggregation_proof (completed_agg_proof : OPSuccinctRequest) : Prog Z :=
  output_root ← ask (fun e => get_l2_output_at_block e (as_u64 (end_block completed_agg_proof)));
  receipt ← propose_output completed_agg_proof output_root;
  if negb (r_status receipt) then done (Err "Transaction reverted") else mret (r_hash receipt).

Definition submit_agg_proofs : Prog unit :=
  latest_proposed_block_number ← get_latest_proposed_block_number;
  completed_agg_proof ← query (fetch_completed_agg_proof_after_block commitment l1 l2
                                 (as_i64 latest_proposed_block_number));
  match completed_agg_proof : option OPSuccinctRequest with
  | None => mret tt
  | Some completed_agg_proof =>
      transaction_hash ← relay_aggregation_proof completed_agg_proof;
      recorded ← execute (fun now => update_request_to_relayed now (id completed_agg_proof)
                            transaction_hash (l2oo_address config));
      done (ensure recorded "Aggregation request changed before relay persistence")
  end.

(** ** The loop *)

Definition run_loop_iteration (fuel : nat) : Prog unit :=
  _ ← validate_contract_config;
  _ ← log_proposer_metrics;
  _ ← handle_ongoing_tasks;
  _ ← set_orphaned_tasks_to_failed;
  _ ← handle_proving_requests;
  canonicality_ready ← reconcile_completed_range_canonicality;
  _ ← (if canonicality_ready : bool then
         _ ← add_new_ranges fuel;
         _ ← (if negb (agglayer config) then create_aggregation_proofs else mret tt);
         _ ← request_queued_proofs;
         if negb (agglayer config) then submit_agg_proofs else mret tt
       else mret tt);
  execute (fun now => update_chain_lock now l1 l2).
End proposer.
