(* ===== verification/ExternalAggregation.v ===== *)
(** * Aggregation driven from outside

    The [agglayer] build of [validity/src/proposer.rs] and [validity/src/grpc.rs]:
    a coordinator asks over gRPC for an aggregation proof, the proposer checks
    the request, queues it, spawns its task and answers with the proof's id. A
    handler is a [Prog] that ends in a value or in an
    [ExternalAggregationError]; it runs beside the loop and the tasks. *)

From S2P Require Import Prelude.
From S2P Require Import Interleaving.
From S2P Require Import RequestDb.
From S2P Require Import ValidityTypes.
From S2P Require Import ProofRequester.
From S2P Require Import ValidityProposer.

Definition SAFE_HEAD_L1_LOOKBACK : Z := 20.

Record ExternalAggregationRequest := {
  last_proven_block : Z;
  requested_end_block : Z;
  ea_l1_block_number : Z;
  ea_l1_block_hash : Z;
}.

Record ExternalAggregationResult := {
  er_last_proven_block : Z;
  er_end_block : Z;
  er_proof_request_id : Z;
}.

Inductive ExternalAggregationError :=
| InvalidArgument (message : string)
| NotFound (message : string)
| ResourceExhausted (message : string)
| Internal (message : string).

(** [Result<_, ExternalAggregationError>] and its [?]. *)
Notation Ext A := (Prog (A + ExternalAggregationError)).
Definition and_then {A B} (p : Ext A) (f : A -> Ext B) : Ext B :=
  r ← p; match r with inl a => f a | inr e => mret (inr e) end.
Definition reject {A} (e : ExternalAggregationError) : Ext A := mret (inr e).
Definition accept {A} (a : A) : Ext A := mret (inl a).

(** [.map_err(|error| ExternalAggregationError::internal(context, error))] *)
Definition internal {A} (context : string) (p : Prog A) : Ext A :=
  r ← catch p;
  match r with
  | inl a => accept a
  | inr error => reject (Internal (context +:+ ": " +:+ error))
  end.

Notation "x ←? p ; q" := (and_then p (fun x => q))
  (at level 20, p at level 100, q at level 200, right associativity,
   format "x  ←?  p ;  '/' q") : stdpp_scope.

Definition checked_external_block_number (value : Z) (field : string) : Ext Z :=
  if value <=? i64_max then accept value
  else reject (InvalidArgument (field +:+ " exceeds the supported range")).

Definition validate_checkpoint_hash (requested canonical : Z) : Ext unit :=
  if negb (requested =? canonical)
  then reject (InvalidArgument "l1_block_hash does not match l1_block_number")
  else accept tt.

(** The stored ids are those [update_request_to_prove] wrote, 32 bytes each;
    [B256::left_padding_from(&row_id.to_be_bytes())] is the number of the row. *)
Definition external_proof_request_id (row_id : Z) (mock : bool) : Ext Z :=
  stored ←? internal "Failed to read proof request" (query_one (fetch_request row_id));
  if bool_decide (status stored = Unrequested) then
    _ ←? internal "Failed to cancel request without capacity"
           (execute (fun now => update_request_status now row_id Cancelled));
    reject (ResourceExhausted "Proof capacity is full; retry after an active request completes")
  else if mock && bool_decide (status stored = Complete) then accept (as_u64 row_id)
  else
    match proof_request_id stored with
    | Some id => accept id
    | None => reject (Internal "Request ended without a proof ID")
    end.

Section external.
Context {HO : HashOrder} (config : Config).
Notation l1 := (cfg_l1_chain_id config).
Notation l2 := (cfg_l2_chain_id config).
Notation commitment := (commitments config).

Definition with_id (i : Z) (r : OPSuccinctRequest) : OPSuccinctRequest :=
  let q := fixed r in
  mk_request {|
    id := i; req_type := req_type q; mode := mode q; start_block := start_block q;
    end_block := end_block q; created_at := created_at q;
    checkpointed_l1_block_number := checkpointed_l1_block_number q;
    checkpointed_l1_block_hash := checkpointed_l1_block_hash q;
    range_vkey_commitment := range_vkey_commitment q;
    aggregation_vkey_hash := aggregation_vkey_hash q;
    rollup_config_hash := rollup_config_hash q;
    total_nb_transactions := total_nb_transactions q;
    total_eth_gas_used := total_eth_gas_used q;
    total_l1_fees := total_l1_fees q; total_tx_fees := total_tx_fees q;
    l1_chain_id := l1_chain_id q; l2_chain_id := l2_chain_id q;
    prover_address := prover_address q |} (progress r).

(** The row is inserted and its task spawned and entered in the task map under
    the lock of the map. The lock is held in between, and the entry is visible
    only to its holders, so this is one action; a refused insertion, or one
    whose answer is lost, enters nothing. *)
Definition insert_and_spawn (op_request : OPSuccinctRequest) : Prog OPSuccinctRequest := act (fun s =>
  match run_statement (fun _ d => let '(d, row_id) := insert_request op_request d in (d, Ok row_id)) s with
  | (s, Ok row_id) =>
      let op_request := with_id row_id op_request in
      (with_tasks (<[row_id := {| t_request := op_request; t_result := None |}]> (tasks s)) s,
       Ok op_request)
  | (s, Err e) => (s, Err e)
  | (s, Panic) => (s, Panic)
  end).

(** [request_external_aggregation] up to the spawned task. *)
Definition accept_external_aggregation (request : ExternalAggregationRequest)
    : Ext OPSuccinctRequest :=
  last_proven_block ←? checked_external_block_number (last_proven_block request) "last_proven_block";
  _ ←? checked_external_block_number (requested_end_block request) "requested_end_block";
  l1_block_number ←? checked_external_block_number (ea_l1_block_number request) "l1_block_number";
  checkpoint_header ←? internal "Failed to get checkpointed L1 block"
    (ask (fun e => get_l1_header e (L1Number (ea_l1_block_number request))));
  _ ←? validate_checkpoint_hash (ea_l1_block_hash request) (hash_slow checkpoint_header);
  safe_head ←? internal "Failed to get L2 safe head"
    (ask (fun e => get_l2_safe_head_from_l1_block_number e
       (saturating_sub (ea_l1_block_number request) SAFE_HEAD_L1_LOOKBACK)));
  let clamped := Z.min (requested_end_block request) safe_head in
  end_block_i64 ←? checked_external_block_number clamped "requested_end_block";
  if end_block_i64 <=? last_proven_block then
    reject (InvalidArgument "Requested end block must be greater than the last proven block")
  else
    range_proofs ←? internal "Failed to fetch range proofs"
      (query (get_consecutive_complete_range_proofs commitment l1 l2 last_proven_block end_block_i64));
    match last range_proofs with
    | None => reject (NotFound "No completed range proofs found for the requested range")
    | Some last_range_proof =>
        prover ← ask_now signer_address;
        now ← ask_now local_now;
        let op_request := new_agg_request now (request_mode config) last_proven_block (end_block last_range_proof)
          (c_range_vkey_commitment commitment) (c_agg_vkey_hash commitment)
          (c_rollup_config_hash commitment) l1 l2 l1_block_number (ea_l1_block_hash request) prover in
        if negb (validate_aggregation_request range_proofs op_request) then
          reject (InvalidArgument "Aggregation request validation failed")
        else internal "Failed to save request to DB" (insert_and_spawn op_request)
    end.

(** The spawned task: its response on the channel, and its result. *)
Definition external_task_response (task_request : OPSuccinctRequest)
    : Prog ((Z + ExternalAggregationError) * (unit + string)) :=
  result ← catch (make_proof_request config task_request (max_concurrent_witness_gen config)
                    (max_concurrent_proof_requests config));
  response ← (match result with
              | inl _ => external_proof_request_id (id task_request) (mock config)
              | inr error => reject (Internal ("Failed to request proof: " +:+ error))
              end);
  mret (response, result).

Definition external_task (task_request : OPSuccinctRequest) : Prog unit :=
  r ← external_task_response task_request;
  match r.2 with
  | inl _ => mret tt
  | inr error => done (Err error)
  end.

(** The whole handler, with the task it waits for and nothing else running; a
    task that panics drops the channel. *)
Definition request_external_aggregation (request : ExternalAggregationRequest)
    : M Shared (ExternalAggregationResult + ExternalAggregationError) := fun s =>
  match run (accept_external_aggregation request) s with
  | (s, Ok (inl op_request)) =>
      let '(s, o) := run (external_task_response op_request) s in
      (s, Ok (match o with
              | Ok (inl proof_request_id, _) =>
                  inl {| er_last_proven_block := last_proven_block request;
                         er_end_block := as_u64 (end_block op_request);
                         er_proof_request_id := proof_request_id |}
              | Ok (inr error, _) => inr error
              | _ => inr (Internal "Proof task ended without a result")
              end))
  | (s, Ok (inr error)) => (s, Ok (inr error))
  | (s, Err error) => (s, Err error)
  | (s, Panic) => (s, Panic)
  end.

Definition get_external_mock_proof (proof_id : Z) : Ext Z :=
  if negb (mock config) then reject (InvalidArgument "GetMockProof is only available in mock mode")
  else
    found ← catch (query_one (get_mock_aggregation_proof_by_request_id commitment l1 l2 proof_id));
    match found with
    | inl proof => accept proof
    | inr error =>
        if String.eqb error "RowNotFound" then reject (NotFound "Mock aggregation proof was not found")
        else reject (Internal ("Failed to fetch mock proof: " +:+ error))
    end.

(** ** [grpc.rs] *)

Inductive Code := CodeInvalidArgument | CodeNotFound | CodeResourceExhausted | CodeInternal.
Record Status := { status_code : Code; status_message : string }.

Definition grpc_status (error : ExternalAggregationError) : Status :=
  match error with
  | InvalidArgument message => {| status_code := CodeInvalidArgument; status_message := message |}
  | NotFound message => {| status_code := CodeNotFound; status_message := message |}
  | ResourceExhausted message => {| status_code := CodeResourceExhausted; status_message := message |}
  | Internal message => {| status_code := CodeInternal; status_message := message |}
  end.

(** [B256::from_hex] is a parameter. *)
Context (from_hex : string -> outcome Z).

Definition request_agg_proof (last_proven requested_end l1_number : Z) (l1_hash : string)
    : M Shared (ExternalAggregationResult + Status) := fun s =>
  match from_hex l1_hash with
  | Ok hash =>
      let '(s, o) := request_external_aggregation {|
        last_proven_block := last_proven; requested_end_block := requested_end;
        ea_l1_block_number := l1_number; ea_l1_block_hash := hash |} s in
      (s, match o with
          | Ok (inl result) => Ok (inl result)
          | Ok (inr error) => Ok (inr (grpc_status error))
          | Err error => Err error
          | Panic => Panic
          end)
  | Err error =>
      (s, Ok (inr {| status_code := CodeInvalidArgument;
                     status_message := "Invalid hex string for l1_block_hash: " +:+ error |}))
  | Panic => (s, Panic)
  end.

Definition get_mock_proof (proof_id : Z) : Prog (Z + Status) :=
  proof ← get_external_mock_proof proof_id;
  mret (match proof with inl proof => inl proof | inr error => inr (grpc_status error) end).
End external.
