(* ===== verification/ValidityRely.v ===== *)
(** * What tasks and loop promise each other

    The loop and the proof tasks of the validity proposer act on the same rows.
    A task may move only the row it was spawned for; the loop leaves that row
    alone while the task is running and holds it ([WitnessGeneration] or
    [Execution]). Under these promises every action keeps the database
    invariant, never undoes an invalidation, and keeps the number of active
    requests within the configured limits. *)

From S2P Require Import Prelude.
From S2P Require Import ValidityRanges.
From S2P Require Import Interleaving.
From S2P Require Import RequestDb.
From S2P Require Import RequestDbLaws.
From S2P Require Import ValidityTypes.
From S2P Require Import ProofRequester.
From S2P Require Import ValidityProposer.

(** The task of row [i] has not ended. *)
Definition running (i : Z) (s : Shared) : Prop :=
  exists t, tasks s !! i = Some t /\ t_result t = None.

(** A row in the hands of its task keeps its status. *)
Definition hands_off (i : Z) (d d' : Db) : Prop :=
  forall r : OPSuccinctRequest, rows d !! i = Some r -> owned r ->
    exists r' : OPSuccinctRequest, rows d' !! i = Some r' /\ status r' = status r.

Lemma hands_off_refl i d : hands_off i d d.
Proof. intros r Hr _. by exists r. Qed.

Lemma hands_off_trans i d1 d2 d3 : hands_off i d1 d2 -> hands_off i d2 d3 -> hands_off i d1 d3.
Proof.
  intros H12 H23 r Hr Ho. destruct (H12 r Hr Ho) as (r2 & Hr2 & Hs2).
  destruct (H23 r2 Hr2) as (r3 & Hr3 & Hs3); [by unfold owned; rewrite Hs2|].
  exists r3. split; [done|congruence].
Qed.

(** A task sits in the map at the id of its request, an id already in use. *)
Definition keyed (s : Shared) : Prop :=
  forall i t, tasks s !! i = Some t -> id (t_request t) = i /\ i < next_id (db s).

Lemma keyed_mono s s' :
  tasks s' = tasks s -> next_id (db s) <= next_id (db s') -> keyed s -> keyed s'.
Proof. intros Ht Hn Hk i t. rewrite Ht. intros [? ?]%Hk. split; [done|lia]. Qed.

Section rely.
Context {HO : HashOrder} (config : Config) (q : OPSuccinctRequest).

(** The effect of any action, under the limits of the configuration. *)
Definition effects : relation Db :=
  effect (max_concurrent_witness_gen config) (max_concurrent_proof_requests config) q.

#[export] Instance effects_preorder : PreOrder effects.
Proof. unfold effects. apply _. Qed.

Lemma effects_inv d d' : effects d d' -> db_inv d -> db_inv d'.
Proof. intros He Hd. by apply (eff_sealed _ _ _ _ _ He). Qed.

Lemma evolves_effects Phi d d' :
  (forall i r r', Phi i r r' -> life i r r') -> evolves Phi d d' -> effects d d'.
Proof.
  intros HP He. apply evolves_effect. destruct He as (Hn & Hk & Hf). split; [done|]. split; [|done].
  intros i r Hr. destruct (Hk i r Hr) as (r' & ? & ? & ?). exists r'. auto.
Qed.

(** One action: its effect, and a step of the abstract ledger. *)
Definition acts (d d' : Db) : Prop := effects d d' /\ ledger_step (ledger d) (ledger d').

Lemma acts_refl d : db_inv d -> acts d d.
Proof. intros Hd. split; [reflexivity|by apply ledger_refl]. Qed.

Lemma evolves_acts Phi d d' :
  (forall i r r', Phi i r r' -> life i r r') -> db_inv d -> evolves Phi d d' -> acts d d'.
Proof.
  intros HP Hd He. split; [by eapply evolves_effects|].
  eapply evolves_ledger; [|done|exact He]. intros i r r' HL%HP. split; apply HL.
Qed.

Definition task_promise (i : Z) (s s' : Shared) : Prop :=
  db_inv (db s) ->
  acts (db s) (db s') /\ tasks s' = tasks s /\ (forall j, j <> i -> hands_off j (db s) (db s')).
Definition task_rely (i : Z) (s s' : Shared) : Prop :=
  db_inv (db s) ->
  effects (db s) (db s') /\ (running i s -> running i s' /\ hands_off i (db s) (db s')).
Definition loop_promise (s s' : Shared) : Prop :=
  db_inv (db s) ->
  acts (db s) (db s') /\ (forall i, running i s -> running i s' /\ hands_off i (db s) (db s')) /\
  (keyed s -> keyed s').
Definition loop_rely (s s' : Shared) : Prop :=
  db_inv (db s) ->
  effects (db s) (db s') /\
  (forall i, i < next_id (db s) -> ~ running i s -> ~ running i s') /\ (keyed s -> keyed s').

#[export] Instance task_promise_local i : Local (task_promise i).
Proof.
  intros s s' Hd Ht Hi. rewrite Hd. split_and!; [by apply acts_refl|done|]. intros j _. apply hands_off_refl.
Qed.
#[export] Instance loop_promise_local : Local loop_promise.
Proof.
  intros s s' Hd Ht Hinv. rewrite Hd. split; [by apply acts_refl|]. split.
  - intros i Hi. split; [|apply hands_off_refl]. unfold running. by rewrite Ht.
  - apply keyed_mono; [done|by rewrite Hd].
Qed.
#[export] Instance task_rely_preorder i : PreOrder (task_rely i).
Proof.
  split.
  - intros s _. split; [reflexivity|]. intros Hr. split; [done|apply hands_off_refl].
  - intros s1 s2 s3 H12 H23 H1. destruct (H12 H1) as [He12 Hr12].
    destruct (H23 (effects_inv _ _ He12 H1)) as [He23 Hr23]. split; [by etrans|].
    intros H. destruct (Hr12 H) as [H2 ?]. destruct (Hr23 H2) as [H3 ?].
    split; [done|by eapply hands_off_trans].
Qed.
#[export] Instance loop_rely_preorder : PreOrder loop_rely.
Proof.
  split.
  - intros s _. split; [reflexivity|auto].
  - intros s1 s2 s3 H12 H23 H1. destruct (H12 H1) as (He12 & Hr12 & Hk12).
    destruct (H23 (effects_inv _ _ He12 H1)) as (He23 & Hr23 & Hk23). split; [by etrans|].
    pose proof (eff_next _ _ _ _ _ He12). split; [|auto]. intros i Hi Hr. apply Hr23; [lia|auto].
Qed.

(** Each keeps what the other relies on. *)
Lemma task_helps_task i j s s' : i <> j -> task_promise i s s' -> task_rely j s s'.
Proof.
  intros Hne H Hd. destruct (H Hd) as ([He _] & Ht & Hh). split; [done|]. intros Hr.
  split; [|by apply Hh]. unfold running. by rewrite Ht.
Qed.

Lemma task_helps_loop i s s' : task_promise i s s' -> loop_rely s s'.
Proof.
  intros H Hd. destruct (H Hd) as ([He _] & Ht & _). split; [done|].
  split; [intros j _ Hr; unfold running; by rewrite Ht|]. apply keyed_mono; [done|apply (eff_next _ _ _ _ _ He)].
Qed.

Lemma loop_helps_task i s s' : loop_promise s s' -> task_rely i s s'.
Proof. intros H Hd. destruct (H Hd) as ([He _] & Hr & _). split; [done|apply Hr]. Qed.

(** ** The tasks *)

(** A promise to move one row at most, from what the statement does. *)
Lemma promise_at_key i s s' :
  tasks s' = tasks s ->
  (db_inv (db s) -> acts (db s) (db s')) ->
  (db_inv (db s) -> forall j, j <> i -> rows (db s') !! j = rows (db s) !! j) ->
  task_promise i s s'.
Proof.
  intros Ht He Hk Hd. split_and!; [auto|done|]. intros j Hne r Hr _. exists r.
  by rewrite (Hk Hd j Hne).
Qed.

(** A statement on row [i] that keeps its life. *)
Lemma promise_update i s s' guard set :
  tasks s' = tasks s -> db s' = (update_row i guard set (db s)).1 ->
  (wf_db (db s) -> evolves life (db s) (update_row i guard set (db s)).1) ->
  task_promise i s s'.
Proof.
  intros Ht Hd He. apply promise_at_key; [done| |]; intros Hinv; pose proof (inv_wf _ Hinv) as Hwf; rewrite Hd.
  - eapply evolves_acts; [|done|by apply He]. done.
  - intros j Hne. by apply update_row_other.
Qed.

Lemma promise_finish i : guar (task_promise i) (execute (fun now => finish_invalidated_request now i)).
Proof.
  apply guar_execute; [apply _|]. intros s s' Ht Hd.
  apply promise_at_key; [done| |]; intros Hinv; pose proof (inv_wf _ Hinv) as Hwf; rewrite Hd.
  - eapply evolves_acts; [|done|by apply finish_invalidated_evolves]. done.
  - intros j Hne. by apply finish_other.
Qed.

Lemma promise_complete i bytes :
  guar (task_promise i) (execute (fun now => update_proof_to_complete now i bytes)).
Proof.
  apply guar_execute; [apply _|]. intros s s' Ht Hd.
  apply promise_at_key; [done| |]; intros Hinv; pose proof (inv_wf _ Hinv) as Hwf; rewrite Hd.
  - eapply evolves_acts; [|done|by apply update_to_complete_evolves]. done.
  - intros j Hne. by apply complete_other.
Qed.

(** ** A task that holds its row *)

(** Row [i] is in the hands of its running task, at status [st]. *)
Definition held (st : RequestStatus) (i : Z) (s : Shared) : Prop :=
  db_inv (db s) /\ running i s /\
  exists r : OPSuccinctRequest, rows (db s) !! i = Some r /\ status r = st /\ owned r.

Lemma held_rely st i s s' : held st i s -> task_rely i s s' -> held st i s'.
Proof.
  intros (Hd & Hr & r & Hi & Hst & Ho) HR. destruct (HR Hd) as [He Hk]. destruct (Hk Hr) as [Hr' Hh].
  destruct (Hh r Hi Ho) as (r' & Hi' & Hs'). split; [by eapply effects_inv|]. split; [done|].
  exists r'. split_and!; [done|congruence|]. unfold owned. by rewrite Hs'.
Qed.

(** A promise that also leaves the status of the task's own row. *)
Definition quiet_promise (i : Z) (s s' : Shared) : Prop :=
  task_promise i s s' /\ (db_inv (db s) -> hands_off i (db s) (db s')).

#[export] Instance quiet_promise_local i : Local (quiet_promise i).
Proof.
  intros s s' Hd Ht. split; [by apply task_promise_local|]. intros _. rewrite Hd. apply hands_off_refl.
Qed.

Lemma held_quiet st i s s' : held st i s -> quiet_promise i s s' -> held st i s'.
Proof.
  intros (Hd & Hr & r & Hi & Hst & Ho) [HP Hh]. destruct (HP Hd) as ([He _] & Ht & _).
  destruct (Hh Hd r Hi Ho) as (r' & Hi' & Hs'). split; [by eapply effects_inv|].
  split; [unfold running; by rewrite Ht|]. exists r'. split_and!; [done|congruence|]. unfold owned. by rewrite Hs'.
Qed.

Lemma promise_silent i {A} (f : Z -> Db -> Db * A) set :
  (forall now d, (f now d).1 = (update_row i always (set now) d).1) ->
  (forall now p, status (set now p) = status p /\ invalidated_at (set now p) = invalidated_at p) ->
  guar (quiet_promise i) (execute f).
Proof.
  intros Hf Hset. apply guar_execute; [apply _|]. intros s s' Ht Hd. rewrite Hf in Hd. split.
  - eapply promise_update; [done|exact Hd|]. intros Hwf.
    apply silent_update_evolves; [done|]. intros p. apply Hset.
  - intros [Hwf _] r Hr Ho. rewrite Hd, (update_row_lookup _ _ _ _ _ r) by done.
    eexists. split; [done|]. destruct (_ && _); [|done]. apply Hset.
Qed.

Lemma promise_l1_head i number hash :
  guar (quiet_promise i) (execute (fun now => update_l1_head now i number hash)).
Proof. by apply (promise_silent i _ (fun now p => set_l1_head now p number hash)). Qed.

Lemma promise_witnessgen i duration :
  guar (quiet_promise i) (execute (fun now => update_witnessgen_duration now i duration)).
Proof. by apply (promise_silent i _ (fun now p => set_witnessgen_duration now p duration)). Qed.

Lemma promise_statistics i statistics duration :
  guar (quiet_promise i) (execute (fun _ => insert_execution_statistics i statistics duration)).
Proof. by apply (promise_silent i _ (fun _ p => set_execution p statistics duration)). Qed.

#[local] Hint Resolve promise_finish promise_complete promise_l1_head promise_witnessgen
  promise_statistics task_promise_local quiet_promise_local : guar.
#[local] Hint Extern 1 (Local _) => typeclasses eauto : guar.

Lemma guar_witness i (request : OPSuccinctRequest) :
  id request = i -> guar (quiet_promise i) (generate_proof_stdin config request).
Proof.
  intros <-. unfold generate_proof_stdin, range_proof_witnessgen, agg_proof_witnessgen, read_range_proof.
  guar_tac.
Qed.

Lemma guar_mock_range_proof i (request : OPSuccinctRequest) stdin :
  id request = i -> guar (quiet_promise i) (generate_mock_range_proof config request stdin).
Proof. intros <-. unfold generate_mock_range_proof. guar_tac. Qed.

Lemma guar_mock_agg_proof i (request : OPSuccinctRequest) stdin :
  id request = i -> guar (quiet_promise i) (generate_mock_agg_proof config request stdin).
Proof. intros <-. unfold generate_mock_agg_proof. guar_tac. Qed.

Lemma guar_store i bytes : guar (task_promise i) (store_completed_proof i bytes).
Proof. unfold store_completed_proof. guar_tac. Qed.

(** A task runs under the rely of its row; its result is its own affair. *)
Notation wp_task i p s := (wp (task_rely i) (task_promise i) p (fun _ _ => True) s).

(** A quiet part of the task, then the rest of it from a held row. *)
Lemma wp_quiet_bind st i {A B} (p : Prog A) (f : A -> Prog B) s :
  guar (quiet_promise i) p -> held st i s -> (forall a s', held st i s' -> wp_task i (f a) s') ->
  wp_task i (p ≫= f) s.
Proof.
  intros Hp Hs Hf. apply wp_bind. eapply wp_mono.
  - eapply (wp_invariant _ _ (quiet_promise i) _ (held st i));
      [apply held_rely|apply held_quiet|by intros ? ? [? _]|done|done].
  - intros [a|e|] s' Hs'; [by apply Hf|done..].
Qed.

(** The statements that move a held row on. *)
Lemma wp_move i {A} (f : Z -> Db -> Db * A) guard set (Q : outcome A -> Shared -> Prop) s :
  held WitnessGeneration i s ->
  (forall now d, (f now d).1 = (update_row i guard (set now) d).1) ->
  (forall now d, wf_db d -> (forall r : OPSuccinctRequest, rows d !! i = Some r -> status r = WitnessGeneration) ->
     evolves life d (update_row i guard (set now) d).1) ->
  (forall a s1 s', tasks s1 = tasks s -> f (NOW (env s)) (db s) = (db s1, a) ->
     task_rely i s1 s' -> Q (Ok a) s') ->
  (forall e s', Q (Err e) s') -> wp (task_rely i) (task_promise i) (execute f) Q s.
Proof.
  intros (Hd & _ & r & Hr & Hst & Ho) Hf He HQ HE. apply wp_execute; [apply _| |done|done].
  intros s1 Ht Hs1. rewrite Hf in Hs1. eapply promise_update; [done|exact Hs1|].
  intros Hwf. apply He; [done|]. intros r' Hr'. by simplify_eq.
Qed.

(** Executing a held row leaves it held. *)
Lemma wp_execution i s :
  held WitnessGeneration i s ->
  wp (task_rely i) (task_promise i) (execute (fun now => update_request_status now i Execution))
    (fun o s' => match o with Ok _ => held Execution i s' | _ => True end) s.
Proof.
  intros Hs. pose proof Hs as (Hd & Hrun & r & Hr & Hst & Ho).
  eapply (wp_move i _ always (fun now p => set_status now p Execution)); [done|done| | |done].
  { intros now d Hwf Hown. by apply update_execution_evolves. }
  intros a s1 s' Ht Hf. apply held_rely.
  assert (Hdb : db s1 = (update_row i always (fun p => set_status (NOW (env s)) p Execution) (db s)).1)
    by (symmetry; exact (f_equal fst Hf)).
  assert (He : evolves life (db s) (db s1)).
  { rewrite Hdb. apply update_execution_evolves; [apply Hd|]. intros r' Hr'. by simplify_eq. }
  split; [|split].
  - eapply effects_inv; [|done]. by eapply evolves_effects.
  - unfold running. by rewrite Ht.
  - rewrite Hdb. eexists. split; [apply update_row_lookup; [apply Hd|done]|]. rewrite Z.eqb_refl. cbn.
    split; [done|]. unfold owned. cbn. status_solve.
Qed.

Lemma wp_finish_mock i (request : OPSuccinctRequest) stdin s :
  id request = i -> held Execution i s -> wp_task i (finish_mock config request stdin) s.
Proof.
  intros Hi Hs. unfold finish_mock.
  eapply wp_quiet_bind.
  { destruct (req_type request); (apply guar_bind; [|intros; apply guar_ask; apply _]);
      [by apply guar_mock_range_proof|by apply guar_mock_agg_proof]. }
  { done. }
  intros bytes s1 Hs1. rewrite Hi. apply wp_guar, guar_store.
Qed.

Lemma wp_finish_cluster i (request : OPSuccinctRequest) stdin s :
  id request = i -> held WitnessGeneration i s -> wp_task i (finish_cluster config request stdin) s.
Proof.
  intros Hi Hs. unfold finish_cluster.
  eapply wp_quiet_bind; [done|done|]. intros _ s1 Hs1.
  eapply wp_quiet_bind; [apply guar_catch, guar_ask; apply _|done|]. intros [pr|e] s2 Hs2; [|done].
  unfold submit_cluster_proof. rewrite Hi. apply wp_bind.
  eapply (wp_move i _ always (fun now p => set_prove_cluster now p _)); [done|done| | |done].
  { intros now d Hwf Hown. by apply update_to_prove_cluster_evolves. }
  intros a s3 s' _ _ _. apply wp_guar, guar_change_handles, _.
Qed.

Lemma wp_finish_network i (request : OPSuccinctRequest) stdin s :
  id request = i -> held WitnessGeneration i s -> wp_task i (finish_network config request stdin) s.
Proof.
  intros Hi Hs. unfold finish_network, request_range_proof, request_agg_proof.
  eapply wp_quiet_bind.
  { destruct (req_type request); (apply guar_bind; [done|intros; apply guar_ask; apply _]). }
  { done. }
  intros proof_id s1 Hs1. rewrite Hi. apply wp_bind.
  eapply (wp_move i _ always (fun now p => set_prove now p proof_id)); [done|done| | |done].
  { intros now d Hwf Hown. by apply update_to_prove_evolves. }
  done.
Qed.

Lemma wp_admitted i (request : OPSuccinctRequest) s :
  id request = i -> held WitnessGeneration i s -> wp_task i (make_admitted_request config request) s.
Proof.
  intros Hi Hs. unfold make_admitted_request.
  eapply wp_quiet_bind; [apply guar_ask_now; apply _|done|]. intros started s1 Hs1.
  eapply wp_quiet_bind; [by apply guar_witness|done|]. intros stdin s2 Hs2.
  eapply wp_quiet_bind; [apply guar_ask_now; apply _|done|]. intros ended s3 Hs3.
  rewrite Hi. eapply wp_quiet_bind; [apply promise_witnessgen|done|]. intros _ s4 Hs4.
  eapply wp_quiet_bind; [apply guar_query_one; apply _|done|]. intros [] s5 Hs5.
  { apply wp_guar. apply guar_bind; [apply promise_finish|done]. }
  apply wp_bind. eapply (wp_mono _ _ _ (fun o s => match o with
    | Ok _ => held (if mock config then Execution else WitnessGeneration) i s | _ => True end)).
  - destruct (mock config); [|done]. apply wp_bind.
    eapply wp_mono; [by apply wp_execution|]. by intros [] ?.
  - intros [[]|e|] s6 Hs6; [|done..].
    destruct (mock config); [by apply wp_finish_mock|].
    destruct (cluster config); [by apply wp_finish_cluster|by apply wp_finish_network].
Qed.

(** The whole body of a task, started on a running task. *)
Lemma wp_make_proof_request i (request : OPSuccinctRequest) s :
  id request = i -> db_inv (db s) -> running i s ->
  wp_task i (make_proof_request config request (max_concurrent_witness_gen config)
               (max_concurrent_proof_requests config)) s.
Proof.
  intros Hi Hd Hrun. unfold make_proof_request, try_start_witness_generation. rewrite Hi.
  apply wp_bind, wp_bind. apply wp_query_one; [apply _|].
  intros o s1 s2 Ht1 Hd1 HR [->|[e ->]]; [|done].
  destruct (fetch_request i (db s)) as [r0|e|] eqn:E; [|done..].
  apply fetch_request_Ok in E; [|apply Hd]. rewrite <- Hd1 in E.
  assert (Hid : id r0 = i) by (eapply wf_id; [rewrite <- Hd1 in Hd; apply Hd|done]).
  destruct (HR ltac:(by rewrite Hd1)) as [He Hk].
  destruct (Hk ltac:(unfold running; by rewrite Ht1)) as [Hrun2 _].
  destruct (eff_keep _ _ _ _ _ He i r0 E) as (r2 & Hr2 & Hf2 & _).
  assert (Hd2 : db_inv (db s2)) by (eapply effects_inv; [done|by rewrite Hd1]).
  assert (Hfix : forall r : OPSuccinctRequest, rows (db s2) !! id r0 = Some r -> fixed r = fixed r0)
    by (rewrite Hid; intros r Hr; congruence).
  apply wp_execute; [apply _| | |done].
  - intros s3 Ht3 Hd3. apply promise_at_key; [done| |]; intros Hinv; pose proof (inv_wf _ Hinv) as Hwf; rewrite Hd3.
    + split; [by apply admit_effect|]. eapply evolves_ledger; [|done|by apply admit_evolves]. done.
    + intros j Hne. destruct (admit_cases (NOW (env s2)) r0 (max_concurrent_witness_gen config)
        (max_concurrent_proof_requests config) (db s2) Hwf) as [->|(r & _ & _ & _ & _ & _ & _ & ->)];
        [done|]. cbn. by rewrite lookup_insert_ne by congruence.
  - intros b s3 s' Ht3 Hf HR3. destruct b; [|done]. apply wp_admitted; [done|].
    eapply held_rely, HR3.
    destruct (admit_cases (NOW (env s2)) r0 (max_concurrent_witness_gen config)
        (max_concurrent_proof_requests config) (db s2) ltac:(apply Hd2))
      as [Hno|(r & Hr & _ & _ & _ & _ & _ & Hdb)]; [congruence|].
    rewrite Hf in Hdb. cbn in Hdb. split; [|split].
    + eapply effects_inv; [|exact Hd2].
      replace (db s3) with (admit_request (NOW (env s2)) r0 (max_concurrent_witness_gen config)
        (max_concurrent_proof_requests config) (db s2)).1 by by rewrite Hf.
      apply admit_effect; [apply Hd2|done].
    + unfold running. by rewrite Ht3.
    + rewrite Hdb, Hid. cbn. rewrite lookup_insert_eq. eexists. split_and!; [done|done|].
      unfold owned. cbn. status_solve.
Qed.

(** ** The loop *)

(** An action of the loop on the database only. *)
Definition steady (s s' : Shared) : Prop := loop_promise s s' /\ tasks s' = tasks s.

#[export] Instance steady_local : Local steady.
Proof. intros s s' Hd Ht. split; [by apply loop_promise_local|done]. Qed.

(** Row [j] is not in the hands of a running task, and will not be. *)
Definition at_rest (j : Z) (s : Shared) : Prop :=
  db_inv (db s) /\
  ((j < next_id (db s) /\ ~ running j s) \/
   exists r : OPSuccinctRequest, rows (db s) !! j = Some r /\ past r).

Lemma at_rest_keep j s s' :
  at_rest j s -> effects (db s) (db s') ->
  (j < next_id (db s) -> ~ running j s -> ~ running j s') -> at_rest j s'.
Proof.
  intros [Hd Hj] He Hr. split; [by eapply effects_inv|].
  destruct Hj as [[Hn Hj]|(r & Hj & Hp)].
  { left. split; [|auto]. pose proof (eff_next _ _ _ _ _ He). lia. }
  right.
  destruct (eff_keep _ _ _ _ _ He j r Hj) as (r' & ? & _ & ?). exists r'. auto.
Qed.

Lemma at_rest_rely j s s' : at_rest j s -> loop_rely s s' -> at_rest j s'.
Proof. intros Hj HR. pose proof Hj as [Hd _]. destruct (HR Hd) as (He & Hr & _). by eapply at_rest_keep; eauto. Qed.

Lemma at_rest_steady j s s' : at_rest j s -> steady s s' -> at_rest j s'.
Proof.
  intros Hj [HP Ht]. pose proof Hj as [Hd _]. destruct (HP Hd) as [[? _] _]. eapply at_rest_keep; [done..|].
  unfold running. by rewrite Ht.
Qed.

(** A statement that spares the rows in the hands of tasks. *)
Lemma steady_spares s s' Phi :
  tasks s' = tasks s ->
  (forall i r r', Phi i r r' -> spares i r r') ->
  (wf_db (db s) -> evolves Phi (db s) (db s')) -> steady s s'.
Proof.
  intros Ht HP He. split; [|done]. intros Hinv. specialize (He (inv_wf _ Hinv)). split.
  - eapply evolves_acts; [|done|done]. intros i r r' H. by apply HP in H as [? _].
  - split; [|apply keyed_mono; [done|apply He]]. intros i Hi. split; [unfold running; by rewrite Ht|]. intros r Hr Ho.
    destruct He as (_ & He & _). destruct (He i r Hr) as (r' & Hr' & _ & HL). exists r'.
    split; [done|]. by apply HP in HL as [_ HL]; apply HL.
Qed.

Lemma spares_same i (r r' : OPSuccinctRequest) : r' = r -> spares i r r'.
Proof. intros ->. apply spares_refl. Qed.

Lemma steady_silent i {A} (f : Z -> Db -> Db * A) set :
  (forall now d, (f now d).1 = (update_row i always (set now) d).1) ->
  (forall now p, status (set now p) = status p /\ invalidated_at (set now p) = invalidated_at p) ->
  guar steady (execute f).
Proof.
  intros Hf Hset. apply guar_execute; [apply _|]. intros s s' Ht Hd. rewrite Hf in Hd.
  apply (steady_spares _ _ spares); [done|done|]. intros Hwf. rewrite Hd.
  apply in_place_evolves, in_place_update_rows. intros j r Hr.
  destruct (_ && _); [|apply spares_refl].
  split; [apply life_same_status; apply Hset|]. intros _. apply Hset.
Qed.

Lemma steady_l1_head i number hash :
  guar steady (execute (fun now => update_l1_head now i number hash)).
Proof. by apply (steady_silent i _ (fun now p => set_l1_head now p number hash)). Qed.

Lemma steady_prove_duration i : guar steady (execute (fun now => update_prove_duration now i)).
Proof. by apply (steady_silent i _ (fun now p => set_prove_duration now p)). Qed.

Lemma steady_statistics i statistics duration :
  guar steady (execute (fun _ => insert_execution_statistics i statistics duration)).
Proof. by apply (steady_silent i _ (fun _ p => set_execution p statistics duration)). Qed.

Lemma steady_invalidate ids c l1 l2 :
  guar steady (execute (fun now => invalidate_noncanonical_ranges now ids c l1 l2)).
Proof.
  apply guar_execute; [apply _|]. intros s s' Ht Hd.
  apply (steady_spares _ _ spares); [done|done|]. intros Hwf. rewrite Hd.
  by apply in_place_evolves, invalidate_in_place.
Qed.

Lemma steady_relayed i tx contract :
  guar steady (execute (fun now => update_request_to_relayed now i tx contract)).
Proof.
  apply guar_execute; [apply _|]. intros s s' Ht Hd.
  apply (steady_spares _ _ spares); [done|done|]. intros Hwf. rewrite Hd.
  unfold update_request_to_relayed. rewrite (surjective_pairing (update_row _ _ _ _)).
  apply in_place_evolves, in_place_update_rows. intros j r Hr.
  destruct (_ && _) eqn:Hg; [|apply spares_refl].
  rewrite !andb_true_iff, has_status_iff in Hg. destruct Hg as (_ & Hs & Hi).
  apply list_elem_of_singleton in Hs. apply negb_true_iff in Hi. split.
  - apply life_intro; [done|congruence|status_solve..|]. rewrite Hs. apply rtc_once. constructor.
  - intros Ho%owned_cases. rewrite Hs in Ho. by destruct Ho.
Qed.

Lemma steady_inserts reqs :
  Forall (fun req : OPSuccinctRequest => status req = Unrequested) reqs ->
  guar steady (execute (fun _ => insert_requests reqs)).
Proof.
  intros HF. apply guar_execute; [apply _|]. intros s s' Ht Hd.
  eapply (steady_spares _ _ (fun _ r r' => r' = r)); [done|intros i ? ?; by apply spares_same|].
  intros Hwf. rewrite Hd. by apply insert_requests_evolves.
Qed.

Lemma steady_insert (req : OPSuccinctRequest) :
  status req = Unrequested -> guar steady (execute (fun _ => insert_request req)).
Proof.
  intros Hs. apply guar_execute; [apply _|]. intros s s' Ht Hd.
  eapply (steady_spares _ _ (fun _ r r' => r' = r)); [done|intros i ? ?; by apply spares_same|].
  intros Hwf. rewrite Hd. by apply insert_evolves.
Qed.

Lemma steady_lock l1 l2 : guar steady (execute (fun now => update_chain_lock now l1 l2)).
Proof.
  apply guar_execute; [apply _|]. intros s s' Ht Hd.
  eapply (steady_spares _ _ (fun _ r r' => r' = r)); [done|intros i ? ?; by apply spares_same|].
  intros Hwf. rewrite Hd. split; [cbn; lia|]. cbn. split; [|congruence]. intros i r Hr. by exists r.
Qed.

#[local] Hint Resolve steady_l1_head steady_prove_duration steady_statistics steady_invalidate
  steady_relayed steady_inserts steady_insert steady_lock steady_local : guar.

(** ** Moving a row at rest *)

(** The program is safe to run when row [j] is at rest. *)
Definition rests {A} (j : Z) (p : Prog A) : Prop :=
  forall s, at_rest j s -> wp loop_rely steady p (fun _ s' => at_rest j s') s.

Lemma rests_done {A} j (o : outcome A) : rests j (done o).
Proof. intros s Hs. exact Hs. Qed.

Lemma rests_guar {A} j (p : Prog A) : guar steady p -> rests j p.
Proof.
  intros Hp s Hs. eapply (wp_invariant _ _ steady _ (at_rest j));
    [intros ? ?; apply at_rest_rely|intros ? ?; apply at_rest_steady|done|done|done].
Qed.

Lemma rests_bind {A B} j (p : Prog A) (f : A -> Prog B) :
  rests j p -> (forall a, rests j (f a)) -> rests j (p ≫= f).
Proof.
  intros Hp Hf s Hs. apply wp_bind. eapply wp_mono; [by apply Hp|].
  intros [a|e|] s' Hs'; [by apply Hf|done..].
Qed.

Lemma rests_catch {A} j (p : Prog A) : rests j p -> rests j (catch p).
Proof. intros Hp s Hs. apply wp_catch. eapply wp_mono; [by apply Hp|]. by intros []. Qed.

(** A statement on row [j] only. *)
Lemma rests_update j {A} (f : Z -> Db -> Db * A) :
  (forall now d, wf_db d -> evolves life d (f now d).1) ->
  (forall now d i, wf_db d -> i <> j -> rows (f now d).1 !! i = rows d !! i) ->
  rests j (execute f).
Proof.
  intros He Hk s Hs.
  assert (HG : forall s1, tasks s1 = tasks s -> db s1 = (f (NOW (env s)) (db s)).1 -> steady s s1).
  { intros s1 Ht Hd. split; [|done]. intros Hinv. pose proof (inv_wf _ Hinv) as Hwf. rewrite Hd. split.
    - eapply evolves_acts; [|done|by apply He]. done.
    - split; [|apply keyed_mono; [done|rewrite Hd; by apply He]].
      intros i Hi. split; [unfold running; by rewrite Ht|].
      destruct (decide (i = j)) as [->|Hne].
      + destruct Hs as [_ [[_ Hs]|(r & Hr & Hp)]]; [done|]. intros r' Hr' Ho. simplify_eq.
        by destruct (owned_not_past r).
      + intros r Hr _. exists r. by rewrite Hk. }
  assert (HI : forall s1 s', (tasks s1 = tasks s /\ (db s1 = db s \/ db s1 = (f (NOW (env s)) (db s)).1)) ->
                 loop_rely s1 s' -> at_rest j s').
  { intros s1 s' [Ht Hd] HR. eapply at_rest_rely; [|exact HR].
    eapply at_rest_steady; [exact Hs|]. destruct Hd; [by apply steady_local|by apply HG]. }
  unfold execute, statement. apply wp_act.
  - destruct (run_statement _ s) as [s1 o] eqn:E.
    apply run_statement_cases in E as (Ht & _ & _ & _ & [Hd|[_ [Hd|Hd]]]); cbn.
    + apply HG; [done|]. destruct (f (NOW (env s)) (db s)). cbn. congruence.
    + by apply steady_local.
    + apply HG; [done|]. by destruct (f (NOW (env s)) (db s)).
  - intros s'. destruct (run_statement _ s) as [s1 o] eqn:E.
    apply run_statement_cases in E as (Ht & _ & _ & _ & Hd). apply HI. split; [done|].
    destruct (f (NOW (env s)) (db s)) as [d a]. cbn in *.
    destruct Hd as [[= -> _]|[_ [Hd|Hd]]]; auto.
Qed.

Lemma rests_finish j : rests j (execute (fun now => finish_invalidated_request now j)).
Proof.
  apply rests_update; intros; [by apply finish_invalidated_evolves|by apply finish_other].
Qed.

Lemma rests_status j s :
  s ∈ [Failed; Cancelled; Invalidated] -> rests j (execute (fun now => update_request_status now j s)).
Proof.
  intros Hs. apply rests_update; intros; [by apply update_status_evolves|by apply update_row_other].
Qed.

Lemma rests_complete j bytes : rests j (execute (fun now => update_proof_to_complete now j bytes)).
Proof.
  apply rests_update; intros; [by apply update_to_complete_evolves|by apply complete_other].
Qed.

Lemma range_request_unrequested mode sb eb vk rc l1 l2 :
  yields (fun r : OPSuccinctRequest => status r = Unrequested) (create_range_request mode sb eb vk rc l1 l2).
Proof. intros [] ; cbn; try done. intros []; cbn; done. Qed.

Lemma split_unrequested (request : OPSuccinctRequest) l1 l2 :
  yields (Forall (fun r : OPSuccinctRequest => status r = Unrequested)) (split_request config request l1 l2).
Proof.
  unfold split_request. eapply yields_bind; [apply range_request_unrequested|]. intros a Ha.
  eapply yields_bind; [apply range_request_unrequested|]. intros b Hb. cbn. by repeat constructor.
Qed.

Lemma guar_split (request : OPSuccinctRequest) l1 l2 : guar steady (split_request config request l1 l2).
Proof. unfold split_request, create_range_request. guar_tac. Qed.

Lemma rests_failed (request : OPSuccinctRequest) st :
  rests (id request) (handle_failed_request config request st).
Proof.
  unfold handle_failed_request.
  apply rests_bind; [apply rests_guar; auto with guar|]. intros [].
  { apply rests_bind; [apply rests_finish|]. intros _. apply rests_done. }
  apply rests_bind; [apply rests_status; status_solve|]. intros _.
  apply rests_guar. apply guar_bind; [auto with guar|]. intros a.
  apply guar_bind; [auto with guar|]. intros b. destruct (_ && _); [|done].
  apply guar_bind; [auto with guar|]. intros n. destruct (_ || _); [|done].
  eapply guar_bind_yields; [apply guar_split|apply split_unrequested|]. intros reqs Hreqs.
  by apply steady_inserts.
Qed.

Lemma rests_cancelled (request : OPSuccinctRequest) :
  rests (id request) (handle_cancelled_request request).
Proof.
  apply rests_bind; [apply rests_status; status_solve|]. intros _. apply rests_done.
Qed.

(** Walks through a program run for one row at rest. *)
Ltac rests_step :=
  match goal with
  | |- rests _ (mbind _ _) => apply rests_bind; [|intros ?]
  | |- rests _ (catch _) => apply rests_catch
  | |- rests _ (mret _) => apply rests_done
  | |- rests _ (done _) => apply rests_done
  | |- rests _ (Ret _) => apply rests_done
  | |- rests _ (match ?x with _ => _ end) => destruct x
  | |- rests _ (handle_failed_request _ _ _) => apply rests_failed
  | |- rests _ (handle_cancelled_request _) => apply rests_cancelled
  | |- rests _ (execute (fun _ => finish_invalidated_request _ _)) => apply rests_finish
  | |- rests _ (execute (fun _ => update_proof_to_complete _ _ _)) => apply rests_complete
  | |- rests _ (execute (fun _ => update_request_status _ _ _)) => apply rests_status; status_solve
  | |- rests _ _ => apply rests_guar; solve [eauto with guar]
  end.
Ltac rests_tac := repeat (rests_step; cbn beta iota zeta).

Lemma rests_complete_request (request : OPSuccinctRequest) p :
  rests (id request) (complete_request request p).
Proof. unfold complete_request, stored_bytes. rests_tac. Qed.

Lemma rests_network_status (request : OPSuccinctRequest) :
  rests (id request) (process_proof_request_status config request).
Proof.
  unfold process_proof_request_status, cancel_invalidated, store_fulfilled, check_auction,
    handle_terminal_proof_failure_before_request_details, fetch_details.
  rests_tac; apply rests_complete_request.
Qed.

Lemma rests_drop_or_fail gone (request : OPSuccinctRequest) :
  rests (id request) (drop_or_fail config gone request).
Proof. unfold drop_or_fail, fail_cluster_request. rests_tac. Qed.

Lemma guar_count_failure i : guar steady (count_poll_failure i).
Proof.
  apply guar_act. intros s. destruct (cluster_handles s !! i); by apply steady_local.
Qed.

Lemma rests_cluster_status (request : OPSuccinctRequest) :
  rests (id request) (process_cluster_proof_status config request).
Proof.
  unfold process_cluster_proof_status, wall_clock_exceeded, find_handle.
  rests_tac; first [apply rests_drop_or_fail | apply rests_complete_request
                   | apply rests_guar, guar_count_failure].
Qed.

(** ** The steps of a turn *)

Definition sound (s : Shared) : Prop := db_inv (db s) /\ keyed s.

Notation wp_loop p s := (wp loop_rely loop_promise p (fun _ s' => sound s') s).

Lemma sound_rely s s' : sound s -> loop_rely s s' -> sound s'.
Proof. intros [Hd Hk] HR. destruct (HR Hd) as (He & _ & ?). split; [by eapply effects_inv|auto]. Qed.

Lemma sound_promise s s' : sound s -> loop_promise s s' -> sound s'.
Proof. intros [Hd Hk] HR. destruct (HR Hd) as ([He _] & _ & ?). split; [by eapply effects_inv|auto]. Qed.

Lemma wp_loop_guar {A} (p : Prog A) s : guar steady p -> sound s -> wp_loop p s.
Proof.
  intros Hp Hs. eapply (wp_invariant _ _ steady _ sound);
    [apply sound_rely|by intros ? ? ? [H _]; eapply sound_promise|by intros ? ? [? _]|done|done].
Qed.

Lemma wp_loop_bind {A B} (p : Prog A) (f : A -> Prog B) s :
  wp_loop p s -> (forall a s', sound s' -> wp_loop (f a) s') -> wp_loop (p ≫= f) s.
Proof.
  intros Hp Hf. apply wp_bind. eapply wp_mono; [exact Hp|]. intros [a|e|] s' Hs'; [by apply Hf|done..].
Qed.

(** A program for one row at rest keeps [J], if others and the loop do. *)
Lemma wp_loop_rests {A} j (p : Prog A) (J : Shared -> Prop) s :
  rests j p -> at_rest j s -> J s ->
  (forall s s', J s -> loop_rely s s' -> J s') -> (forall s s', J s -> steady s s' -> J s') ->
  wp loop_rely loop_promise p (fun _ s' => J s') s.
Proof.
  intros Hp Hs HJ HR HG. apply (wp_weaken _ steady); [by intros ? ? [? _]|].
  eapply wp_mono; [apply (wp_frame _ _ _ J); [done|done|done|by apply Hp]|].
  by intros ? ? [? _].
Qed.

Definition all_at_rest (l : list OPSuccinctRequest) (s : Shared) : Prop :=
  sound s /\ forall r : OPSuccinctRequest, r ∈ l -> at_rest (id r) s.

Lemma all_at_rest_rely l s s' : all_at_rest l s -> loop_rely s s' -> all_at_rest l s'.
Proof.
  intros [Hs Hl] HR. split; [by eapply sound_rely|]. intros r Hr. eapply at_rest_rely; [by apply Hl|done].
Qed.

Lemma all_at_rest_steady l s s' : all_at_rest l s -> steady s s' -> all_at_rest l s'.
Proof.
  intros [Hs Hl] HR. split; [eapply sound_promise; [done|apply HR]|].
  intros r Hr. eapply at_rest_steady; [by apply Hl|done].
Qed.

(** Each row of a list of rows at rest. *)
Lemma wp_each_rests (l : list OPSuccinctRequest) (body : OPSuccinctRequest -> Prog unit) s :
  (forall r : OPSuccinctRequest, r ∈ l -> rests (id r) (body r)) -> all_at_rest l s ->
  wp_loop (each l body) s.
Proof.
  intros Hb Hl. apply (wp_each _ _ _ _ (all_at_rest l)); [done| |by intros ? [? _]].
  intros r s1 Hr Hs1.
  eapply wp_mono; [eapply (wp_loop_rests _ _ (all_at_rest l));
    [by apply Hb|by apply Hs1|done|apply all_at_rest_rely|apply all_at_rest_steady]|].
  intros [[]|e|] s2 Hs2; [done|apply Hs2..].
Qed.

Lemma query_sound s s1 s' :
  sound s -> db s1 = db s -> tasks s1 = tasks s -> loop_rely s1 s' -> sound s'.
Proof.
  intros [Hd Hk] H1 Ht HR. eapply sound_rely; [|exact HR]. split; [by rewrite H1|].
  apply (keyed_mono s); [done|by rewrite H1|done].
Qed.

(** A row that a query found has an id in use. *)
Definition known (j : Z) (s : Shared) : Prop := j < next_id (db s).

Lemma known_rely j s s' : sound s -> known j s -> loop_rely s s' -> known j s'.
Proof. intros [Hd _] Hj HR. destruct (HR Hd) as [He _]. unfold known in *. pose proof (eff_next _ _ _ _ _ He). lia. Qed.

Lemma known_steady j s s' : sound s -> known j s -> steady s s' -> known j s'.
Proof. intros [Hd _] Hj [HP _]. destruct (HP Hd) as [[He _] _]. unfold known in *. pose proof (eff_next _ _ _ _ _ He). lia. Qed.

Definition all_known (l : list OPSuccinctRequest) (s : Shared) : Prop :=
  sound s /\ forall r : OPSuccinctRequest, r ∈ l -> known (id r) s.

Lemma all_known_rely l s s' : all_known l s -> loop_rely s s' -> all_known l s'.
Proof. intros [Hs Hl] HR. split; [by eapply sound_rely|]. intros r Hr. eapply known_rely; [done|by apply Hl|done]. Qed.

Lemma all_known_steady l s s' : all_known l s -> steady s s' -> all_known l s'.
Proof.
  intros [Hs Hl] HR. split; [eapply sound_promise; [done|apply HR]|].
  intros r Hr. eapply known_steady; [done|by apply Hl|done].
Qed.

(** What a query found is known, next to what was known before. *)
Lemma wp_known_query {A} (f : Db -> A) (found : A -> list OPSuccinctRequest) l s :
  (forall d (r : OPSuccinctRequest), wf_db d -> r ∈ found (f d) -> rows d !! id r = Some r) ->
  all_known l s ->
  wp loop_rely loop_promise (query f)
    (fun o s' => sound s' /\ match o with Ok a => all_known (l ++ found a) s' | _ => True end) s.
Proof.
  intros Hf [Hs Hl]. apply wp_query; [apply _|]. intros o s1 s' Ht Hd1 HR Ho.
  split; [by eapply query_sound|]. destruct Ho as [->|[e ->]]; [|done].
  eapply all_known_rely, HR. split; [split; [rewrite Hd1; apply Hs|]|].
  - apply (keyed_mono s); [done|by rewrite Hd1|apply Hs].
  - intros r Hr. unfold known. rewrite Hd1. apply elem_of_app in Hr as [Hr|Hr]; [by apply Hl|].
    destruct Hs as [[Hwf _] _]. eapply wf_next; [done|by apply Hf].
Qed.

(** Rows that a query found in status [Prove] are at rest. *)
Lemma proving_at_rest c l1 l2 (s s1 s' : Shared) (r : OPSuccinctRequest) :
  sound s -> db s1 = db s -> loop_rely s1 s' ->
  r ∈ fetch_requests_by_status c l1 l2 Prove (db s) -> at_rest (id r) s'.
Proof.
  intros [Hd _] H1 HR Hin. eapply at_rest_rely; [|exact HR]. split; [by rewrite H1|]. right.
  exists r. rewrite H1. apply select_at_key in Hin as [Hr Hw]; [|apply Hd]. split; [done|].
  rewrite !andb_true_iff, has_status_iff in Hw. destruct Hw as [[_ Hs] _].
  apply list_elem_of_singleton in Hs. unfold past. rewrite Hs. status_solve.
Qed.

Lemma wp_handle_proving_requests s : sound s -> wp_loop (handle_proving_requests config) s.
Proof.
  intros Hs. unfold handle_proving_requests. destruct (is_synchronous_proving config); [done|].
  apply wp_bind, wp_query; [apply _|]. intros o s1 s' Ht Hd1 HR [->|[e ->]]; [|by eapply query_sound].
  apply wp_each_rests.
  - intros r _. destruct (cluster config); [|apply rests_network_status].
    apply rests_bind; [apply rests_catch, rests_cluster_status|]. intros _. apply rests_done.
  - split; [by eapply query_sound|]. intros r Hr. by eapply proving_at_rest.
Qed.

Lemma wp_fail_orphan l (r : OPSuccinctRequest) s :
  r ∈ l -> all_known l s ->
  wp loop_rely loop_promise (fail_orphan r) (fun _ s' => all_known l s') s.
Proof.
  intros Hr Hs. unfold fail_orphan. apply wp_bind, wp_act; [by apply loop_promise_local|].
  intros s' HR. cbn beta iota delta [fst snd] in *.
  assert (Hs' : all_known l s') by (by eapply all_known_rely).
  case_bool_decide as Hin; [done|].
  apply (wp_loop_rests (id r) _ (all_known l));
    [rests_tac| |done|apply all_known_rely|apply all_known_steady].
  split; [apply Hs'|]. left. split; [by apply Hs'|].
  destruct (HR (proj1 (proj1 Hs))) as (_ & HR' & _). apply HR'; [by apply Hs|].
  intros (t & Ht & _). apply Hin. by rewrite Ht.
Qed.

Lemma wp_set_orphaned s : sound s -> wp_loop (set_orphaned_tasks_to_failed config) s.
Proof.
  assert (Hq : forall st d (r : OPSuccinctRequest), wf_db d ->
    r ∈ fetch_requests_by_status (commitments config) (cfg_l1_chain_id config) (cfg_l2_chain_id config) st d ->
    rows d !! id r = Some r) by (intros st d r Hwf [Hr _]%select_at_key; done).
  intros Hs. unfold set_orphaned_tasks_to_failed.
  apply wp_bind. eapply wp_mono; [apply (wp_known_query _ (fun l => l) []); [apply Hq|by split; [|intros ? ?%elem_of_nil]]|].
  intros [l|e|] s1 [H1 Hl]; [|done..].
  apply wp_bind. eapply wp_mono; [apply (wp_known_query _ (fun l => l) l); [apply Hq|exact Hl]|].
  intros [l'|e|] s2 [H2 Hl']; [|done..].
  apply (wp_each _ _ _ _ (all_known (l ++ l'))); [done| |by intros ? [? _]].
  intros r s3 Hr Hs3. eapply wp_mono; [by apply wp_fail_orphan|]. intros [] s4 Hs4; [done|apply Hs4..].
Qed.

(** ** Ended tasks *)

Definition all_ended (l : list Z) (s : Shared) : Prop :=
  sound s /\ forall j, j ∈ l -> known j s /\ ~ running j s.

Lemma all_ended_rely l s s' : all_ended l s -> loop_rely s s' -> all_ended l s'.
Proof.
  intros [Hs Hl] HR. split; [by eapply sound_rely|]. intros j [Hk Hj]%Hl.
  destruct (HR (proj1 Hs)) as (_ & HR' & _). split; [by eapply known_rely|by apply HR'].
Qed.

Lemma all_ended_steady l s s' : all_ended l s -> steady s s' -> all_ended l s'.
Proof.
  intros [Hs Hl] HP. split; [eapply sound_promise; [done|apply HP]|]. intros j [Hk Hj]%Hl.
  split; [by eapply known_steady|]. unfold running. destruct HP as [_ ->]. exact Hj.
Qed.

Lemma all_ended_take l i s : all_ended l s -> all_ended l (with_tasks (delete i (tasks s)) s).
Proof.
  intros [[Hd Hk] Hl]. split; [split; [done|]|].
  - intros j t Ht. cbn [tasks with_tasks] in Ht. apply lookup_delete_Some in Ht as [_ Ht]. by apply Hk.
  - intros j Hj. split; [by apply Hl|]. intros (t & Ht & Hr). cbn [tasks with_tasks] in Ht.
    apply lookup_delete_Some in Ht as [_ Ht]. apply (Hl j Hj). by exists t.
Qed.

Lemma take_promise i s : ~ running i s -> loop_promise s (with_tasks (delete i (tasks s)) s).
Proof.
  intros Hi Hd. split; [by apply acts_refl|]. split.
  - intros j (t & Ht & Hr). split; [|apply hands_off_refl]. exists t. split; [|done]. cbn.
    rewrite lookup_delete_ne; [done|]. intros <-. apply Hi. by exists t.
  - intros Hk j t Ht. cbn [tasks with_tasks] in Ht. apply lookup_delete_Some in Ht as [_ Ht]. by apply Hk.
Qed.

(** The retry of a task that has ended, beside other ended tasks. *)
Lemma wp_retry_task (l : list Z) i s :
  i ∈ l -> all_ended l s ->
  wp loop_rely loop_promise (retry_task config i) (fun _ s' => all_ended l s') s.
Proof.
  intros Hi Hl. unfold retry_task. set (s1 := with_tasks (delete i (tasks s)) s).
  apply wp_bind, wp_act; [by apply take_promise, Hl|].
  cbn beta iota delta [fst snd]. fold s1. intros s2 HR.
  assert (H2 : all_ended l s2) by (eapply all_ended_rely, HR; by apply all_ended_take).
  assert (Hretry : forall request, tasks s !! i = Some request -> forall st,
    wp loop_rely loop_promise
      (_ ← catch (handle_failed_request config (t_request request) st); mret tt)
      (fun _ s' => all_ended l s') s2).
  { intros request Ht st. apply (wp_loop_rests i _ (all_ended l)); [| |done|apply all_ended_rely|apply all_ended_steady].
    - destruct Hl as [[_ Hk] _]. rewrite <- (proj1 (Hk i _ Ht)). rests_tac.
    - split; [apply H2|]. left. by apply H2. }
  destruct (tasks s !! i) as [[request [[]|]]|] eqn:Ht; try exact H2;
    by apply (Hretry _ eq_refl).
Qed.

Lemma wp_handle_ongoing s : sound s -> wp_loop (handle_ongoing_tasks config) s.
Proof.
  intros Hs. unfold handle_ongoing_tasks. apply wp_bind, wp_act; [by apply loop_promise_local|].
  cbn beta iota delta [fst snd]. intros s1 HR.
  set (l := fst <$> filter _ (iter_map (tasks s))).
  apply (wp_each _ _ _ _ (all_ended l)).
  - eapply all_ended_rely, HR. split; [done|]. intros j Hj.
    apply list_elem_of_fmap in Hj as ([j' t'] & -> & Hj).
    apply list_elem_of_filter in Hj as [Hf Hj]. apply elem_of_iter_map in Hj. cbn in *.
    split; [by apply (proj2 Hs j' t')|]. intros (t & Ht & Hr).
    rewrite Ht in Hj. injection Hj as ->. unfold is_finished in Hf. by rewrite Hr in Hf.
  - intros i s2 Hi Hs2. eapply wp_mono; [by apply wp_retry_task|].
    intros [[]|e|] s3 Hs3; [done|apply Hs3..].
  - by intros s2 [? _].
Qed.

(** ** The rest of a turn *)

Lemma guar_hydrate (r : OPSuccinctRequest) : guar steady (hydrate_range config r).
Proof. unfold hydrate_range. guar_tac. Qed.

Lemma guar_reconcile : guar steady (reconcile_completed_range_canonicality config).
Proof.
  unfold reconcile_completed_range_canonicality, fetch_canonical_hash.
  guar_tac; apply guar_hydrate.
Qed.

Lemma new_range_unrequested l :
  yields (Forall (fun r : OPSuccinctRequest => status r = Unrequested)) (fold l [] (new_range config)).
Proof.
  apply yields_fold; [done|]. intros acc r Hacc.
  eapply yields_bind; [apply range_request_unrequested|]. intros a Ha. cbn.
  apply Forall_app. by repeat constructor.
Qed.

Lemma guar_add_new_ranges fuel : guar steady (add_new_ranges config fuel).
Proof.
  unfold add_new_ranges, plan_ranges, fetch_block_infos.
  apply guar_bind; [auto with guar|]. intros a. apply guar_bind; [auto with guar|]. intros b.
  apply guar_bind; [auto with guar|]. intros c. apply guar_bind; [guar_tac|].
  intros [|r l]; [done|].
  eapply guar_bind_yields; [|apply new_range_unrequested|intros reqs Hreqs; by apply steady_inserts].
  unfold new_range, create_range_request. guar_tac.
Qed.

Lemma guar_create_aggregation : guar steady (create_aggregation_proofs config).
Proof.
  unfold create_aggregation_proofs, reusable_checkpoint, new_checkpoint.
  guar_tac.
Qed.

Lemma guar_submit : guar steady (submit_agg_proofs config).
Proof. unfold submit_agg_proofs, relay_aggregation_proof, propose_output. guar_tac. Qed.

Lemma guar_metrics : guar steady (log_proposer_metrics config).
Proof. unfold log_proposer_metrics. guar_tac. Qed.

(** The request that is spawned was found in the tables. *)
Lemma wp_next s : sound s ->
  wp loop_rely loop_promise (get_next_unrequested_proof config)
    (fun o s' => sound s' /\ match o with Ok (Some r) => known (id r) s' | _ => True end) s.
Proof.
  assert (Hq : forall (w : OPSuccinctRequest -> bool) d (r : OPSuccinctRequest),
    wf_db d -> head (select_ordered w d) = Some r -> rows d !! id r = Some r).
  { intros w d r Hwf [Hr _]%head_elem%select_ordered_at_key; done. }
  assert (Hrange : forall latest s1, sound s1 ->
    wp loop_rely loop_promise (query (fetch_first_unrequested_range_proof (commitments config)
        (cfg_l1_chain_id config) (cfg_l2_chain_id config) latest))
      (fun o s' => sound s' /\ match o with Ok (Some r) => known (id r) s' | _ => True end) s1).
  { intros latest s1 H1. eapply wp_mono.
    - apply (wp_known_query _ (fun o => match o with Some r => [r] | None => [] end) []).
      + intros d r Hwf Hr. destruct (fetch_first_unrequested_range_proof _ _ _ _ d) as [r'|] eqn:E;
          [|by apply elem_of_nil in Hr]. apply list_elem_of_singleton in Hr as ->. by eapply Hq.
      + by split; [|intros ? ?%elem_of_nil].
    - intros [[r|]|e|] s' [Hs' Hl]; [|done..]. split; [done|]. apply Hl. by apply list_elem_of_singleton. }
  intros Hs. unfold get_next_unrequested_proof.
  apply wp_bind. eapply wp_mono; [apply wp_loop_guar; [auto with guar|done]|]. intros [latest|e|] s1 H1; [|done..].
  apply wp_bind. destruct (negb (agglayer config)); [|by apply Hrange].
  apply wp_bind. eapply wp_mono.
  { apply (wp_known_query _ (fun o => match o with Some r => [r] | None => [] end) []).
    - intros d r Hwf Hr. destruct (fetch_unrequested_agg_proof _ _ _ _ d) as [r'|] eqn:E;
        [|by apply elem_of_nil in Hr]. apply list_elem_of_singleton in Hr as ->. by eapply Hq.
    - by split; [|intros ? ?%elem_of_nil]. }
  intros [[agg|]|e|] s2 [H2 Hl]; [| |done..]; [|by apply Hrange].
  apply wp_bind. eapply wp_mono.
  { eapply (wp_invariant _ _ steady _ (all_known [agg])); [apply all_known_rely|apply all_known_steady
      |by intros ? ? [? _]|auto with guar|exact Hl]. }
  intros [proofs|e|] s3 H3; [|by split; [apply H3|]..]. cbn.
  destruct (validate_aggregation_request proofs agg); [|by apply Hrange, H3].
  split; [apply H3|]. apply H3. by apply list_elem_of_singleton.
Qed.

Lemma spawn_promise (request : OPSuccinctRequest) s :
  known (id request) s -> loop_promise s (run (spawn_task request) s).1.
Proof.
  intros Hkn. unfold spawn_task. rewrite run_act.
  destruct (tasks s !! id request) eqn:E; [by apply loop_promise_local|].
  intros Hd. split; [by apply acts_refl|]. cbn. split.
  - intros i (t & Ht & Hr). split; [|apply hands_off_refl]. exists t. split; [|done]. cbn.
    by rewrite lookup_insert_ne by congruence.
  - intros Hk i t. cbn. destruct (decide (i = id request)) as [->|Hne].
    + rewrite lookup_insert_eq. by intros [= <-].
    + rewrite lookup_insert_ne by done. apply Hk.
Qed.

Lemma wp_request_queued s : sound s -> wp_loop (request_queued_proofs config) s.
Proof.
  intros Hs. unfold request_queued_proofs. apply wp_bind. eapply wp_mono; [by apply wp_next|].
  intros [[r|]|e|] s1 [H1 Hk]; [|done..]. pose proof (spawn_promise r s1 Hk) as HP.
  unfold spawn_task in *. rewrite run_act in HP. apply wp_act; [exact HP|].
  intros s' HR. eapply sound_rely; [|exact HR]. by eapply sound_promise.
Qed.

Lemma wp_run_loop_iteration fuel s : sound s -> wp_loop (run_loop_iteration config fuel) s.
Proof.
  intros Hs. unfold run_loop_iteration.
  apply wp_loop_bind; [by apply wp_loop_guar; [unfold validate_contract_config; guar_tac|]|]. intros _ s1 H1.
  apply wp_loop_bind; [by apply wp_loop_guar; [apply guar_metrics|]|]. intros _ s2 H2.
  apply wp_loop_bind; [by apply wp_handle_ongoing|]. intros _ s3 H3.
  apply wp_loop_bind; [by apply wp_set_orphaned|]. intros _ s4 H4.
  apply wp_loop_bind; [by apply wp_handle_proving_requests|]. intros _ s5 H5.
  apply wp_loop_bind; [by apply wp_loop_guar; [apply guar_reconcile|]|]. intros ready s6 H6.
  apply wp_loop_bind; [|intros _ s7 H7; by apply wp_loop_guar; [apply steady_lock|]].
  destruct ready; [|done].
  apply wp_loop_bind; [by apply wp_loop_guar; [apply guar_add_new_ranges|]|]. intros _ s7 H7.
  apply wp_loop_bind.
  { apply wp_loop_guar; [|done]. destruct (negb _); [apply guar_create_aggregation|done]. }
  intros _ s8 H8. apply wp_loop_bind; [by apply wp_request_queued|]. intros _ s9 H9.
  apply wp_loop_guar; [|done]. destruct (negb _); [apply guar_submit|done].
Qed.
End rely.
