(* ===== verification/ExternalRely.v ===== *)
(** * What the handlers of a coordinator promise

    A gRPC handler of [ExternalAggregation] runs beside the loop and the tasks
    of the validity proposer. It only ever adds a row under a fresh id, with its
    task, so it keeps what loop and tasks rely on; the task it spawns keeps the
    promise of every task. *)

From S2P Require Import Prelude.
From S2P Require Import Interleaving.
From S2P Require Import RequestDb.
From S2P Require Import RequestDbLaws.
From S2P Require Import ValidityTypes.
From S2P Require Import ProofRequester.
From S2P Require Import ValidityProposer.
From S2P Require Import ExternalAggregation.
From S2P Require Import ValidityRely.

Section handlers.
Context {HO : HashOrder} (config : Config) (q : OPSuccinctRequest).
Notation loop_promise := (loop_promise config q).
Notation loop_rely := (loop_rely config q).
Notation task_promise := (task_promise config q).
Notation task_rely := (task_rely config q).
#[local] Hint Extern 1 (Local _) => typeclasses eauto : guar.

(** A handler adds a row with its task, and nothing else. *)
Definition handler_promise (s s' : Shared) : Prop := keyed s -> loop_promise s s' /\ loop_rely s s'.

#[export] Instance handler_promise_local : Local handler_promise.
Proof.
  intros s s' Hd Ht Hk. split; [by apply loop_promise_local|]. intros Hi. rewrite Hd. split; [reflexivity|].
  split; [intros i _; unfold running; by rewrite Ht|]. apply keyed_mono; [done|by rewrite Hd].
Qed.

Lemma handler_spawn (req : OPSuccinctRequest) :
  status req = Unrequested -> guar handler_promise (insert_and_spawn req).
Proof.
  intros Hst. apply guar_act. intros s Hk. set (n := next_id (db s)).
  assert (Hins : forall s1, tasks s1 = tasks s -> db s1 = db s \/ db s1 = (insert_request req (db s)).1 ->
    loop_promise s s1 /\ loop_rely s s1).
  { intros s1 Ht [Hd|Hd]; [by apply handler_promise_local|].
    assert (He : wf_db (db s) -> evolves (fun _ r r' => r' = r) (db s) (db s1))
      by (intros Hwf; rewrite Hd; by apply insert_evolves).
    assert (HP : steady config q s s1) by (eapply (steady_spares _ _ _ _ (fun _ r r' => r' = r));
      [done|intros i ? ?; by apply spares_same|exact He]).
    split; [apply HP|]. intros Hi. destruct (proj1 HP Hi) as ([Heff _] & _ & Hk').
    split; [done|]. split; [intros i _; unfold running; by rewrite Ht|done]. }
  destruct (run_statement _ s) as [s1 o] eqn:E.
  pose proof E as (Ht & _ & _ & _ & Hdb)%run_statement_cases.
  assert (Hs1 : loop_promise s s1 /\ loop_rely s s1).
  { apply Hins; [done|]. destruct Hdb as [Hdb|[_ Hdb]]; [right; by injection Hdb|]. by cbn in Hdb. }
  destruct o as [row_id|e|]; [|exact Hs1..].
  destruct Hdb as [Hdb|[? _]]; [|done]. cbn in Hdb. injection Hdb as Hdb <-. fold n in Hdb |- *. cbn [fst].
  assert (Hn : next_id (db s1) = n + 1) by by rewrite <- Hdb.
  assert (Hfree : tasks s !! n = None).
  { destruct (tasks s !! n) as [t|] eqn:Et; [|done]. apply Hk in Et as [_ Hlt]. unfold n in Hlt. lia. }
  set (s2 := with_tasks _ s1).
  assert (Hrun : forall i, i <> n -> running i s2 <-> running i s1).
  { intros i Hne. unfold running, s2. cbn. by rewrite lookup_insert_ne. }
  assert (Hkeyed : keyed s1 -> keyed s2).
  { intros Hk1 i t. unfold s2. cbn. destruct (decide (i = n)) as [->|Hne].
    - rewrite lookup_insert_eq. intros [= <-]. split; [done|lia].
    - rewrite lookup_insert_ne by done. apply Hk1. }
  destruct Hs1 as [HP HR]. split.
  - intros Hi. destruct (HP Hi) as (Ha & Hr & Hk1). split; [done|]. split; [|auto].
    intros i Hri. destruct (Hr i Hri) as [Hri1 Hh]. split; [|done]. apply Hrun; [|done].
    intros ->. destruct Hri as (t & Et & _). by rewrite Hfree in Et.
  - intros Hi. destruct (HR Hi) as (He & Hr & Hk1). split; [done|]. split; [|auto].
    intros i Hlt Hri. rewrite Hrun; [by apply Hr|]. unfold n. lia.
Qed.

#[local] Hint Resolve handler_promise_local : guar.

Lemma guar_and_then {A B} G (p : Ext A) (f : A -> Ext B) :
  guar G p -> (forall a, guar G (f a)) -> guar G (and_then p f).
Proof. intros Hp Hf. apply guar_bind; [done|]. intros [a|e]; [apply Hf|done]. Qed.

Lemma guar_internal {A} G context (p : Prog A) : guar G p -> guar G (internal context p).
Proof. intros Hp. apply guar_bind; [by apply guar_catch|]. by intros []. Qed.

Lemma guar_accept request : guar handler_promise (accept_external_aggregation config request).
Proof.
  unfold accept_external_aggregation, checked_external_block_number, validate_checkpoint_hash.
  repeat first [apply guar_and_then; [|intros ?] | apply guar_internal; auto with guar; fail
               | guar_step]; cbn beta iota zeta.
  all: apply guar_internal; by apply handler_spawn.
Qed.

(** The task a handler spawned, beside the loop and the other tasks. *)
Lemma wp_external_task i (request : OPSuccinctRequest) s :
  id request = i -> db_inv (db s) -> running i s ->
  wp (task_rely i) (task_promise i) (external_task config request) (fun _ _ => True) s.
Proof.
  intros Hi Hd Hrun. unfold external_task, external_task_response.
  apply wp_bind, wp_bind, wp_catch. eapply wp_mono; [by apply (wp_make_proof_request config q i)|].
  assert (Hcancel : guar (task_promise i)
    (execute (fun now => update_request_status now (id request) Cancelled))).
  { rewrite Hi. apply guar_execute; [apply _|]. intros s1 s2 Ht Hd2.
    eapply promise_update; [done|exact Hd2|]. intros Hwf. apply update_status_evolves; [done|status_solve]. }
  intros [u|e|] s1 _; [| |done].
  - apply wp_bind. eapply wp_mono; [|by intros [r|e|] s2 _].
    apply wp_guar. unfold external_proof_request_id.
    apply guar_and_then; [apply guar_internal; auto with guar|]. intros stored.
    destruct (bool_decide _); [|by destruct (_ && _); [|destruct (proof_request_id stored)]].
    apply guar_and_then; [by apply guar_internal|done].
  - done.
Qed.
End handlers.
