(* ===== verification/ValidityRun.v ===== *)
(** * The validity proposer as a concurrent system

    [Proposer::run] and the spawned proof tasks as threads that interleave at
    every database statement, remote call and lock: the loop takes turn after
    turn, a task starts once it is in the task map and hands its result to its
    [JoinHandle] when it ends, the environment (chain, network, clocks) may
    change and statements may fault at any time, and the process may crash and
    restart on the same database. In an [agglayer] build a coordinator calls
    and hangs up when it likes; each call is a handler that runs beside the
    others, and the task it spawns outlives it. *)

From S2P Require Import Prelude.
From S2P Require Import ValidityRanges.
From S2P Require Import Interleaving.
From S2P Require Import RequestDb.
From S2P Require Import RequestDbLaws.
From S2P Require Import ValidityTypes.
From S2P Require Import ProofRequester.
From S2P Require Import ValidityProposer.
From S2P Require Import ExternalAggregation.
From S2P Require Import ValidityRely.
From S2P Require Import ExternalRely.

(** The main thread: [Proposer::new] and [initialize], then the loop. *)
Inductive Main :=
| Starting (p : prog Shared unit)
| Turn (p : prog Shared unit).

Record System := {
  shared : Shared;
  main : Main;
  threads : gmap Z (prog Shared unit);
  handlers : list (Ext OPSuccinctRequest);  (** gRPC calls being served *)
}.

Section system.
Context {HO : HashOrder} (config : Config).

Definition startup : prog Shared unit := new config ≫= fun _ => initialize_proposer config.

(** A spawned task runs [make_proof_request] with the configured limits. In an
    [agglayer] build the loop spawns range tasks only, and the aggregation tasks
    are those of the handlers. *)
Definition task_body (t : Task) : prog Shared unit :=
  if agglayer config && bool_decide (req_type (t_request t) = Aggregation)
  then external_task config (t_request t)
  else make_proof_request config (t_request t) (max_concurrent_witness_gen config)
         (max_concurrent_proof_requests config).

Definition set_result (o : outcome unit) (t : Task) : Task :=
  {| t_request := t_request t; t_result := Some o |}.

Inductive step : System -> System -> Prop :=
| step_start s X q k ts hs :
    step {| shared := s; main := Starting (Act X q k); threads := ts; handlers := hs |}
         {| shared := (q s).1; main := Starting (k (q s).2); threads := ts; handlers := hs |}
| step_started s ts hs fuel :
    step {| shared := s; main := Starting (Ret (Ok tt)); threads := ts; handlers := hs |}
         {| shared := s; main := Turn (run_loop_iteration config fuel); threads := ts; handlers := hs |}
| step_turn s X q k ts hs :
    step {| shared := s; main := Turn (Act X q k); threads := ts; handlers := hs |}
         {| shared := (q s).1; main := Turn (k (q s).2); threads := ts; handlers := hs |}
| step_next_turn s o ts hs fuel :
    o <> Panic ->
    step {| shared := s; main := Turn (Ret o); threads := ts; handlers := hs |}
         {| shared := s; main := Turn (run_loop_iteration config fuel); threads := ts; handlers := hs |}
| step_spawn s m ts hs i t :
    tasks s !! i = Some t -> t_result t = None -> ts !! i = None ->
    step {| shared := s; main := m; threads := ts; handlers := hs |}
         {| shared := s; main := m; threads := <[i := task_body t]> ts; handlers := hs |}
| step_task s m ts hs i X q k :
    ts !! i = Some (Act X q k) ->
    step {| shared := s; main := m; threads := ts; handlers := hs |}
         {| shared := (q s).1; main := m; threads := <[i := k (q s).2]> ts; handlers := hs |}
| step_end s m ts hs i o :
    ts !! i = Some (Ret o) ->
    step {| shared := s; main := m; threads := ts; handlers := hs |}
         {| shared := with_tasks (alter (set_result o) i (tasks s)) s; main := m;
            threads := delete i ts; handlers := hs |}
| step_call s p ts hs request :
    agglayer config = true ->
    step {| shared := s; main := Turn p; threads := ts; handlers := hs |}
         {| shared := s; main := Turn p; threads := ts;
            handlers := accept_external_aggregation config request :: hs |}
| step_handler s p ts hs1 X q k hs2 :
    step {| shared := s; main := Turn p; threads := ts; handlers := hs1 ++ Act X q k :: hs2 |}
         {| shared := (q s).1; main := Turn p; threads := ts; handlers := hs1 ++ k (q s).2 :: hs2 |}
| step_hang_up s p ts hs1 h hs2 :
    step {| shared := s; main := Turn p; threads := ts; handlers := hs1 ++ h :: hs2 |}
         {| shared := s; main := Turn p; threads := ts; handlers := hs1 ++ hs2 |}
| step_env s m ts hs e f :
    step {| shared := s; main := m; threads := ts; handlers := hs |}
         {| shared := with_env e (with_faults f s); main := m; threads := ts; handlers := hs |}
| step_restart s m ts hs :
    step {| shared := s; main := m; threads := ts; handlers := hs |}
         {| shared := with_handles ∅ (with_tasks ∅ s); main := Starting startup; threads := ∅;
            handlers := [] |}.

(** A fresh process on a database. *)
Definition initial (s : Shared) : System :=
  {| shared := with_handles ∅ (with_tasks ∅ s); main := Starting startup; threads := ∅;
     handlers := [] |}.

Context (q : OPSuccinctRequest).
Notation limits := (within (max_concurrent_witness_gen config) (max_concurrent_proof_requests config) q).

(** What starting up does: no task exists yet. *)
Definition start_promise (s s' : Shared) : Prop :=
  sealed (db s) (db s') /\ (limits (db s) -> limits (db s')) /\ tasks s' = tasks s /\
  (db_inv (db s) -> ledger_step (ledger (db s)) (ledger (db s'))).

#[local] Instance start_promise_local : Local start_promise.
Proof. intros s s' Hd Ht. unfold start_promise. rewrite Hd. split_and!; [done..|apply ledger_refl]. Qed.

Lemma start_evolves s s' : tasks s' = tasks s -> evolves life (db s) (db s') -> start_promise s s'.
Proof.
  intros Ht He. destruct (evolves_effects config q life (db s) (db s') ltac:(done) He) as [Hs _ Hw].
  split_and!; [done..|]. intros Hd. eapply evolves_ledger; [|done|exact He]. intros i r r' HL.
  split; apply HL.
Qed.

#[local] Hint Resolve start_promise_local : guar.

Lemma guar_startup : guar start_promise startup.
Proof.
  unfold startup, new, initialize_proposer, validate_contract_config.
  assert (Hlock : guar start_promise
    (execute (fun now => add_chain_lock now (cfg_l1_chain_id config) (cfg_l2_chain_id config)))).
  { apply guar_execute; [apply _|]. intros s s' Ht Hd. apply start_evolves; [done|]. rewrite Hd. split; [cbn; lia|]. cbn. split; [|congruence].
    intros i r Hr. exists r. split_and!; [done..|apply life_refl]. }
  assert (Hdel : guar start_promise (execute (fun _ => delete_all_requests_with_statuses
    [Unrequested; Execution; WitnessGeneration] (cfg_l1_chain_id config) (cfg_l2_chain_id config)))).
  { apply guar_execute; [apply _|]. intros s s' Ht Hd. unfold start_promise. rewrite Hd.
    assert (Hw : forall r, has_status [Unrequested; Execution; WitnessGeneration] r &&
      negb (invalidated r) && on_chain (cfg_l1_chain_id config) (cfg_l2_chain_id config) r = true ->
      invalidated r = false /\ status r ∈ [Unrequested; WitnessGeneration; Execution]).
    { intros r. rewrite !andb_true_iff, negb_true_iff, has_status_iff. intros [[Hs Hi] _].
      split; [done|]. clear -Hs. revert Hs. destruct (status r);
        first [intros _; apply status_in; reflexivity|intros Hs; exfalso; revert Hs; apply status_not_in; reflexivity]. }
    destruct (delete_keeps (max_concurrent_witness_gen config) (max_concurrent_proof_requests config)
      q (db s) _ (fun r Hr => proj1 (Hw r Hr))). split_and!; [done..|].
    by apply delete_ledger. }
  assert (Hcan : guar start_promise (execute (fun _ =>
    cancel_prove_requests_with_different_commitment_config (commitments config)
      (cfg_l1_chain_id config) (cfg_l2_chain_id config)))).
  { apply guar_execute; [apply _|]. intros s s' Ht Hd. apply start_evolves; [done|]. rewrite Hd.
    apply cancel_evolves. }
  assert (Hlocked : guar start_promise (statement (fun e d =>
    (d, Ok (is_chain_locked (NOW e) (cfg_l1_chain_id config) (cfg_l2_chain_id config)
              (loop_interval config) d))))).
  { apply guar_statement; [apply _|]. intros s s' Ht Hd. by apply start_promise_local. }
  guar_tac; assumption.
Qed.

(** ** The invariant *)

Definition main_ok (s : Shared) (hs : list (Ext OPSuccinctRequest)) (m : Main) : Prop :=
  match m with
  | Starting p => guar start_promise p /\ tasks s = ∅ /\ hs = []
  | Turn p => poised (loop_rely config q) (loop_promise config q) p (fun _ _ => True) s
  end.

Record ok (x : System) : Prop := {
  ok_sound : sound (shared x);
  ok_main : main_ok (shared x) (handlers x) (main x);
  ok_threads : forall i p, threads x !! i = Some p ->
    running i (shared x) /\
    poised (task_rely config q i) (task_promise config q i) p (fun _ _ => True) (shared x);
  ok_handlers : Forall (guar (handler_promise config q)) (handlers x);
}.

Lemma poised_loop fuel s : sound s ->
  poised (loop_rely config q) (loop_promise config q) (run_loop_iteration config fuel) (fun _ _ => True) s.
Proof.
  intros Hs s' HR. eapply wp_mono; [apply wp_run_loop_iteration; by eapply sound_rely|done].
Qed.

Lemma rely_env i s e f :
  task_rely config q i s (with_env e (with_faults f s)) /\
  loop_rely config q s (with_env e (with_faults f s)).
Proof.
  split; intros Hd; cbn; (split; [reflexivity|]); [|done]. intros Hr. split; [done|apply hands_off_refl].
Qed.

(** The end of task [i], to the other threads. *)
Lemma rely_end i o s :
  running i s ->
  loop_rely config q s (with_tasks (alter (set_result o) i (tasks s)) s) /\
  forall j, j <> i -> task_rely config q j s (with_tasks (alter (set_result o) i (tasks s)) s).
Proof.
  intros Hi. split.
  - intros Hd. cbn. split; [reflexivity|]. split.
    + intros j _ Hj (t & Ht & Hr). cbn in Ht. destruct (decide (j = i)) as [->|Hne]; [done|].
      rewrite lookup_alter_ne in Ht by done. apply Hj. by exists t.
    + intros Hk j t. cbn. destruct (decide (j = i)) as [->|Hne].
      * rewrite lookup_alter_eq. intros (t' & Ht' & ->)%fmap_Some. by apply (Hk i t').
      * rewrite lookup_alter_ne by done. apply Hk.
  - intros j Hne Hd. cbn. split; [reflexivity|]. intros (t & Ht & Hr).
    split; [|apply hands_off_refl]. exists t. cbn. by rewrite lookup_alter_ne.
Qed.

Lemma starting_idle s hs p : main_ok s hs (Starting p) -> forall i, ~ running i s.
Proof. intros (_ & Ht & _) i (t & Hi & _). by rewrite Ht in Hi. Qed.

(** An action of the main thread, a task or a handler, as the invariant sees
    it. *)
Lemma ok_loop_action s X q0 k ts hs :
  ok {| shared := s; main := Turn (Act X q0 k); threads := ts; handlers := hs |} ->
  ok {| shared := (q0 s).1; main := Turn (k (q0 s).2); threads := ts; handlers := hs |}.
Proof.
  intros [Hs Hm Ht Hh]. cbn in *. apply poised_step in Hm as [HP Hm]; [|apply _].
  destruct (HP (proj1 Hs)) as ([He _] & Hr & _). split; cbn; [|done| |done].
  - by eapply sound_promise.
  - intros i p Hp. destruct (Ht i p Hp) as [Hi Hpo]. split; [by apply Hr|].
    eapply poised_interfere; [apply _|exact Hpo|by apply loop_helps_task].
Qed.

Lemma ok_task_action s m i X q0 k ts hs :
  ts !! i = Some (Act X q0 k) ->
  ok {| shared := s; main := m; threads := ts; handlers := hs |} ->
  ok {| shared := (q0 s).1; main := m; threads := <[i := k (q0 s).2]> ts; handlers := hs |}.
Proof.
  intros Hi [Hs Hm Ht Hh]. cbn in *. destruct (Ht i _ Hi) as [Hri Hpi].
  apply poised_step in Hpi as [HP Hpi]; [|apply _].
  destruct (HP (proj1 Hs)) as ([He _] & Htasks & _).
  assert (Hrun : forall j, running j s -> running j (q0 s).1)
    by (intros j; unfold running; by rewrite Htasks).
  split; cbn; [| | |done].
  - split; [eapply effects_inv; [done|apply Hs]|]. apply (keyed_mono s); [done|by eapply eff_next|apply Hs].
  - destruct m as [p|p]; [by destruct (starting_idle s hs p Hm i)|]. cbn in *.
    eapply poised_interfere; [apply _|exact Hm|by eapply task_helps_loop].
  - intros j p. destruct (decide (j = i)) as [->|Hne].
    + rewrite lookup_insert_eq. intros [= <-]. split; [by apply Hrun|done].
    + rewrite lookup_insert_ne by done. intros Hp. destruct (Ht j p Hp) as [Hj Hpo].
      split; [by apply Hrun|]. eapply poised_interfere; [apply _|exact Hpo|].
      by eapply task_helps_task.
Qed.

Lemma ok_end s m i o ts hs :
  ts !! i = Some (Ret o) ->
  ok {| shared := s; main := m; threads := ts; handlers := hs |} ->
  ok {| shared := with_tasks (alter (set_result o) i (tasks s)) s; main := m; threads := delete i ts;
        handlers := hs |}.
Proof.
  intros Hi [Hs Hm Ht Hh]. cbn in *. destruct (Ht i _ Hi) as [Hri _].
  destruct (rely_end i o s Hri) as [HL HT]. split; cbn; [| | |done].
  - by eapply sound_rely.
  - destruct m as [p|p]; [by destruct (starting_idle s hs p Hm i)|]. cbn in *.
    by eapply poised_interfere; [apply _|exact Hm|].
  - intros j p [Hne Hp]%lookup_delete_Some. destruct (Ht j p Hp) as [Hj Hpo].
    assert (HR : task_rely config q j s (with_tasks (alter (set_result o) i (tasks s)) s)) by auto.
    split; [by apply (HR (proj1 Hs))|]. by eapply poised_interfere; [apply _|exact Hpo|].
Qed.

Lemma ok_spawn s m ts hs i t :
  tasks s !! i = Some t -> t_result t = None ->
  ok {| shared := s; main := m; threads := ts; handlers := hs |} ->
  ok {| shared := s; main := m; threads := <[i := task_body t]> ts; handlers := hs |}.
Proof.
  intros Hi Hn [Hs Hm Ht Hh]. cbn in *. split; cbn; [done|by destruct m| |done].
  intros j p. destruct (decide (j = i)) as [->|Hne]; [|rewrite lookup_insert_ne by done; apply Ht].
  rewrite lookup_insert_eq. intros [= <-]. assert (Hrun : running i s) by (by exists t).
  split; [done|]. intros s' HR. destruct (HR (proj1 Hs)) as [He Hk].
  assert (Hid : id (t_request t) = i) by by apply Hs.
  assert (Hd' : db_inv (db s')) by (eapply effects_inv; [done|apply Hs]).
  destruct (Hk Hrun) as [Hrun' _]. unfold task_body.
  destruct (_ && _); [by apply wp_external_task|by apply wp_make_proof_request].
Qed.

Lemma ok_handler_action s p X q0 k ts hs1 hs2 :
  ok {| shared := s; main := Turn p; threads := ts; handlers := hs1 ++ Act X q0 k :: hs2 |} ->
  ok {| shared := (q0 s).1; main := Turn p; threads := ts; handlers := hs1 ++ k (q0 s).2 :: hs2 |}.
Proof.
  intros [Hs Hm Ht Hh]. cbn in *. apply Forall_app in Hh as [Hh1 [[HG Hk] Hh2]%Forall_cons].
  destruct (HG s (proj2 Hs)) as [HP HR]. split; cbn.
  - by eapply sound_promise.
  - eapply poised_interfere; [apply _|exact Hm|done].
  - intros i p' Hp. destruct (Ht i p' Hp) as [Hi Hpo]. split; [by apply (HP (proj1 Hs))|].
    eapply poised_interfere; [apply _|exact Hpo|by apply loop_helps_task].
  - apply Forall_app. split; [done|]. apply Forall_cons. split; [apply Hk|done].
Qed.

Lemma ok_step x y : step x y -> ok x -> ok y.
Proof.
  intros Hstep Hok. destruct Hstep as [s X q0 k ts hs|s ts hs fuel|s X q0 k ts hs|s o ts hs fuel Ho
    |s m ts hs i t Hi Hn Hf|s m ts hs i X q0 k Hi|s m ts hs i o Hi|s p ts hs request Ha
    |s p ts hs1 X q0 k hs2|s p ts hs1 h hs2|s m ts hs e f|s m ts hs].
  - destruct Hok as [Hs Hm Ht Hh]. cbn in *. destruct Hm as [[HG Hg] [H0 Hhs]].
    destruct (HG s) as (He & Hw & Htasks & _). split; cbn; [| | |done].
    + split; [apply He, Hs|]. unfold keyed. rewrite Htasks, H0. intros i t. by rewrite lookup_empty.
    + split_and!; [apply Hg|congruence|done].
    + intros i p Hp. destruct (Ht i p Hp) as [(t & Hr & _) _]. by rewrite H0 in Hr.
  - destruct Hok as [Hs Hm Ht Hh]. split; cbn in *; [done| |done..]. by apply poised_loop.
  - by apply ok_loop_action.
  - destruct Hok as [Hs Hm Ht Hh]. split; cbn in *; [done| |done..]. by apply poised_loop.
  - by apply ok_spawn.
  - by apply ok_task_action.
  - by apply ok_end.
  - destruct Hok as [Hs Hm Ht Hh]. split; cbn in *; [done..|]. apply Forall_cons. split; [apply guar_accept|done].
  - by apply ok_handler_action.
  - destruct Hok as [Hs Hm Ht Hh]. split; cbn in *; [done..|].
    apply Forall_app in Hh as [Hh1 [_ Hh2]%Forall_cons]. by apply Forall_app.
  - destruct Hok as [Hs Hm Ht Hh]. split; cbn in *; [done| | |done].
    + destruct m; [done|]. eapply poised_interfere; [apply _|exact Hm|]. apply (rely_env 0).
    + intros i p Hp. destruct (Ht i p Hp) as [Hr Hpo]. split; [done|].
      eapply poised_interfere; [apply _|exact Hpo|]. apply rely_env.
  - destruct Hok as [Hs Hm Ht Hh]. split; cbn in *; [| | |done].
    + split; [apply Hs|]. intros i t. cbn. by rewrite lookup_empty.
    + split; [apply guar_startup|done].
    + intros i p. by rewrite lookup_empty.
Qed.

Lemma ok_initial s : db_inv (db s) -> ok (initial s).
Proof.
  intros Hd. split; cbn; [| | |done].
  - split; [done|]. intros i t. cbn. by rewrite lookup_empty.
  - split; [apply guar_startup|done].
  - intros i p. by rewrite lookup_empty.
Qed.

Lemma ok_reachable s x : db_inv (db s) -> rtc step (initial s) x -> ok x.
Proof.
  intros Hd Hx. assert (Hok : ok (initial s)) by by apply ok_initial. revert Hok.
  induction Hx as [x|x y z Hxy Hyz IH]; [done|]. intros Hok. by eapply IH, ok_step.
Qed.

(** What a step does to the tables. *)
Lemma step_tables x y :
  step x y -> ok x ->
  sealed (db (shared x)) (db (shared y)) /\ (limits (db (shared x)) -> limits (db (shared y))) /\
  ledger_step (ledger (db (shared x))) (ledger (db (shared y))).
Proof.
  intros Hstep [Hs Hm Ht Hh]. pose proof (proj1 Hs) as Hd. pose proof (ledger_refl _ Hd) as Hl.
  destruct Hstep; cbn in *; try (split_and!; [apply (reflexivity _)|done|exact Hl]).
  - destruct Hm as [[HG _] _]. destruct (HG s) as (? & ? & _ & HL). split_and!; auto.
  - apply poised_step in Hm as [HP _]; [|apply _]. destruct (HP Hd) as ([[? _ ?] ?] & _). done.
  - destruct (Ht i _ ltac:(eassumption)) as [_ Hp]. apply poised_step in Hp as [HP _]; [|apply _].
    destruct (HP Hd) as ([[? _ ?] ?] & _). done.
  - apply Forall_app in Hh as [_ [[HG _] _]%Forall_cons].
    destruct (HG s (proj2 Hs)) as [HP _]. destruct (HP Hd) as ([[? _ ?] ?] & _). done.
Qed.

Lemma reachable_tables x y :
  ok x -> rtc step x y ->
  sealed (db (shared x)) (db (shared y)) /\ (limits (db (shared x)) -> limits (db (shared y))).
Proof.
  intros Hok Hxy. induction Hxy as [x|x y z Hxy Hyz IH]; [split; [reflexivity|done]|].
  destruct (step_tables _ _ Hxy Hok) as (H1 & H2 & _). destruct (IH (ok_step _ _ Hxy Hok)) as [H3 H4].
  split; [by etrans|auto].
Qed.
End system.

(** ** Schedules

    A schedule names, step by step, the thread that acts; it runs the system. *)

Inductive Choice :=
| ChMain | ChSpawn (i : Z) | ChTask (i : Z)
| ChCall (request : ExternalAggregationRequest) | ChHandler (n : nat) | ChHangUp (n : nat)
| ChEnv (e : Env) | ChCrash.

Definition advance {HO : HashOrder} (config : Config) (x : System) (c : Choice) : System :=
  let '{| shared := s; main := m; threads := ts; handlers := hs |} := x in
  match c with
  | ChMain =>
      match m with
      | Starting (Act X q k) =>
          {| shared := (q s).1; main := Starting (k (q s).2); threads := ts; handlers := hs |}
      | Starting (Ret (Ok tt)) | Turn (Ret (Ok _)) | Turn (Ret (Err _)) =>
          {| shared := s; main := Turn (run_loop_iteration config 100); threads := ts; handlers := hs |}
      | Turn (Act X q k) =>
          {| shared := (q s).1; main := Turn (k (q s).2); threads := ts; handlers := hs |}
      | _ => x
      end
  | ChSpawn i =>
      match tasks s !! i, ts !! i with
      | Some {| t_request := r; t_result := None |}, None =>
          {| shared := s; main := m; handlers := hs;
             threads := <[i := task_body config {| t_request := r; t_result := None |}]> ts |}
      | _, _ => x
      end
  | ChTask i =>
      match ts !! i with
      | Some (Act X q k) =>
          {| shared := (q s).1; main := m; threads := <[i := k (q s).2]> ts; handlers := hs |}
      | Some (Ret o) =>
          {| shared := with_tasks (alter (set_result o) i (tasks s)) s; main := m;
             threads := delete i ts; handlers := hs |}
      | None => x
      end
  | ChCall request =>
      match m with
      | Turn p =>
          if agglayer config then
            {| shared := s; main := Turn p; threads := ts;
               handlers := accept_external_aggregation config request :: hs |}
          else x
      | Starting _ => x
      end
  | ChHandler n =>
      match m, hs !! n with
      | Turn p, Some (Act X q k) =>
          {| shared := (q s).1; main := Turn p; threads := ts;
             handlers := take n hs ++ k (q s).2 :: drop (S n) hs |}
      | _, _ => x
      end
  | ChHangUp n =>
      match m, hs !! n with
      | Turn p, Some _ =>
          {| shared := s; main := Turn p; threads := ts; handlers := take n hs ++ drop (S n) hs |}
      | _, _ => x
      end
  | ChEnv e => {| shared := with_env e (with_faults [] s); main := m; threads := ts; handlers := hs |}
  | ChCrash => {| shared := with_handles ∅ (with_tasks ∅ s); main := Starting (startup config);
                  threads := ∅; handlers := [] |}
  end.

Definition schedule {HO : HashOrder} (config : Config) (x : System) (cs : list Choice) : System :=
  foldl (advance config) x cs.

Lemma advance_steps {HO : HashOrder} config x c : rtc (step config) x (advance config x c).
Proof.
  destruct x as [s m ts hs].
  destruct c as [|i|i|request|n|n|e|]; cbn beta iota zeta delta [advance].
  - destruct m as [[[[]|e|]|X q k]|[[[]|e|]|X q k]]; try reflexivity; apply rtc_once;
      by constructor.
  - destruct (tasks s !! i) as [[r [o|]]|] eqn:Ht; try reflexivity.
    destruct (ts !! i) eqn:Hi; [reflexivity|]. apply rtc_once. by eapply step_spawn.
  - destruct (ts !! i) as [[o|X q k]|] eqn:Hi; [|..|reflexivity]; apply rtc_once;
      [by apply step_end|by apply step_task].
  - destruct m; [reflexivity|]. destruct (agglayer config) eqn:Ha; [|reflexivity].
    apply rtc_once. by apply step_call.
  - destruct m; [reflexivity|]. destruct (hs !! n) as [[o|X q k]|] eqn:Hn; [reflexivity|..|reflexivity].
    apply rtc_once. rewrite <- (take_drop_middle hs n _ Hn) at 1. apply step_handler.
  - destruct m; [reflexivity|]. destruct (hs !! n) as [h|] eqn:Hn; [|reflexivity].
    apply rtc_once. rewrite <- (take_drop_middle hs n _ Hn) at 1. apply step_hang_up.
  - apply rtc_once. apply step_env.
  - apply rtc_once. apply step_restart.
Qed.

Lemma advance_task_steps {HO : HashOrder} config x i :
  (match threads x !! i with Some _ => true | None => false end) = true ->
  step config x (advance config x (ChTask i)).
Proof.
  destruct x as [s m ts hs]. cbn beta iota zeta delta [advance shared main threads].
  destruct (ts !! i) as [[o|X q k]|] eqn:Hi; [intros _..|done]; [by apply step_end|by apply step_task].
Qed.

Lemma schedule_steps {HO : HashOrder} config x cs : rtc (step config) x (schedule config x cs).
Proof.
  revert x. induction cs as [|c cs IH]; intros x; cbn; [reflexivity|].
  etrans; [apply advance_steps|apply IH].
Qed.

(** A completed range against an L1 block that is not canonical, an aggregation
    over it, and a queued range. *)
Definition sample_rows : list OPSuccinctRequest :=
  [sample_range 1 100 110 Complete (Some (65, 999)) None; sample_agg 2 100 110 Prove None;
   sample_range 3 110 120 Unrequested (Some (65, 1065)) None].
Definition sample_start : Shared := sample_shared sample_rows (sample_env 100 140 3).
Definition sample_run (cs : list Choice) : System :=
  schedule sample_config (initial sample_config sample_start) cs.

Section theorems.
Context {HO : HashOrder} (config : Config).

(** C4: however the loop, the tasks, the calls of a coordinator, the
    environment, database faults and restarts interleave, a request that was invalidated stays invalidated, and
    it is never queued, complete or relayed again, so its proof is never
    aggregated or submitted. *)
Theorem invalidation_is_final s x y i (r : OPSuccinctRequest) :
  db_inv (db s) -> rtc (step config) (initial config s) x -> rtc (step config) x y ->
  rows (db (shared x)) !! i = Some r -> invalidated r = true ->
  exists r' : OPSuccinctRequest, rows (db (shared y)) !! i = Some r' /\ fixed r' = fixed r /\
    invalidated r' = true /\ status r' ∉ [Unrequested; Complete; Relayed].
Proof.
  intros Hd Hx Hxy Hr Hi.
  assert (Hok : ok config r x) by by eapply ok_reachable.
  destruct (reachable_tables _ _ _ _ Hok Hxy) as [Hs _].
  destruct (Hs (proj1 (ok_sound _ _ _ Hok))) as [Hinv Hk].
  destruct (Hk i r Hr Hi) as (r' & Hr' & Hf & Hi'). exists r'. split_and!; [done..|].
  by apply (inv_retired _ Hinv i).
Qed.

(** C5: however the loop, the tasks, the calls of a coordinator, the
    environment, database faults and restarts interleave, the requests of one chain and set of programs never
    exceed the configured limits: at most [max_concurrent_witness_gen] are in
    witness generation and at most [max_concurrent_proof_requests] are active. *)
Theorem admissions_within_limits q s x :
  db_inv (db s) ->
  within (max_concurrent_witness_gen config) (max_concurrent_proof_requests config) q (db s) ->
  rtc (step config) (initial config s) x ->
  count_rows (fun r => has_status [WitnessGeneration] r && admission_peer q r) (db (shared x))
    <= max_concurrent_witness_gen config /\
  count_rows (fun r => has_status [WitnessGeneration; Execution; Prove] r && admission_peer q r)
    (db (shared x)) <= max_concurrent_proof_requests config.
Proof.
  intros Hd Hl Hx. eapply (reachable_tables config q); [by apply ok_initial|exact Hx|exact Hl].
Qed.
(** C6: the whole system refines the abstract request ledger: every step of the
    loop, of a task, of a coordinator's call, of the environment or of a restart moves each request only
    along [advances], never undoes an invalidation and takes an invalidated
    request out of use, queues new requests under fresh numbers, and discards
    only requests that were never proved. *)
Theorem system_refines_ledger s x y :
  db_inv (db s) -> rtc (step config) (initial config s) x -> step config x y ->
  ledger_step (ledger (db (shared x))) (ledger (db (shared y))).
Proof.
  intros Hd Hx Hxy. eapply (step_tables config (sample_range 0 0 0 Unrequested None None)); [done|].
  by eapply ok_reachable.
Qed.
End theorems.

Definition sample_reorged : System := sample_run (replicate 40 ChMain).
Definition sample_later : System := schedule sample_config sample_reorged
  (replicate 40 ChMain ++ [ChSpawn 4] ++ replicate 20 (ChTask 4) ++ [ChCrash] ++ replicate 80 ChMain).

(** The first turn invalidates the range; the next turns, a task, a crash and
    the turns after it leave it so. *)
Lemma invalidation_is_final_witness :
  exists r r' : OPSuccinctRequest,
    rows (db (shared sample_reorged)) !! 1 = Some r /\ invalidated r = true /\
    rows (db (shared sample_later)) !! 1 = Some r' /\ invalidated r' = true /\ fixed r' = fixed r.
Proof.
  set (r := match rows (db (shared sample_reorged)) !! 1 with
            | Some r => r | None => sample_range 1 0 0 Failed None None end).
  destruct (invalidation_is_final sample_config sample_start sample_reorged sample_later 1 r)
    as (r' & Hr' & Hf & Hi & _).
  - apply db_check_inv. vm_compute. reflexivity.
  - apply schedule_steps.
  - apply schedule_steps.
  - vm_compute. reflexivity.
  - vm_compute. reflexivity.
  - exists r, r'. split_and!; [vm_compute; reflexivity|vm_compute; reflexivity|exact Hr'|exact Hi|exact Hf].
Defined.

(** A task has been admitted and is generating its witness. *)
Lemma admissions_within_limits_witness :
  let x := sample_run (replicate 80 ChMain ++ [ChSpawn 4] ++ replicate 4 (ChTask 4)) in
  count_rows (fun r => has_status [WitnessGeneration] r && admission_peer (sample_range 1 100 110 Complete None None) r)
    (db (shared x)) = 1 /\ 1 <= max_concurrent_witness_gen sample_config.
Proof.
  intros x.
  destruct (admissions_within_limits sample_config (sample_range 1 100 110 Complete None None)
    sample_start x) as [Hw _].
  - apply db_check_inv. vm_compute. reflexivity.
  - split; apply Z.leb_le; vm_compute; reflexivity.
  - apply schedule_steps.
  - assert (E : count_rows (fun r => has_status [WitnessGeneration] r &&
      admission_peer (sample_range 1 100 110 Complete None None) r) (db (shared x)) = 1)
      by (vm_compute; reflexivity).
    split; [exact E|]. by rewrite E in Hw.
Defined.

(** The step in which the task of request 4 is admitted. *)
Lemma system_refines_ledger_witness :
  let x := sample_run (replicate 80 ChMain ++ [ChSpawn 4; ChTask 4]) in
  let y := advance sample_config x (ChTask 4) in
  entries (ledger (db (shared x))) !! 4 = Some (Unrequested, false) /\
  entries (ledger (db (shared y))) !! 4 = Some (WitnessGeneration, false) /\
  ledger_step (ledger (db (shared x))) (ledger (db (shared y))).
Proof.
  intros x y. split; [vm_compute; reflexivity|]. split; [vm_compute; reflexivity|].
  apply (system_refines_ledger sample_config sample_start).
  - apply db_check_inv. vm_compute. reflexivity.
  - apply schedule_steps.
  - apply advance_task_steps. vm_compute. reflexivity.
Defined.
