(* ===== verification/ValidityColumns.v ===== *)
(** * The columns of the request table

    Which columns of a row are set at which status, as an invariant of every
    statement of the service: an aggregation row carries its checkpoint, its
    verification key and its prover, a proving row says since when and by whom
    it is being proved, a complete row carries its proof, and a relayed row its
    transaction. The [unwrap]s and [context]s of the code rest on it. *)

From S2P Require Import Prelude.
From S2P Require Import ValidityRanges.
From S2P Require Import Interleaving.
From S2P Require Import RequestDb.
From S2P Require Import RequestDbLaws.
From S2P Require Import ValidityTypes.
From S2P Require Import ProofRequester.
From S2P Require Import ValidityProposer.
From S2P Require Import ExternalAggregation.
From S2P Require Import ValidityRely.
From S2P Require Import ExternalRely.
From S2P Require Import ValidityRun.

(** ** Typed rows *)

Definition set_in {A} (o : option A) : bool := match o with Some _ => true | None => false end.

(** The columns fixed by the insertion. *)
Definition typed_request (q : Request) : bool :=
  implb (bool_decide (req_type q = Aggregation))
    (set_in (checkpointed_l1_block_number q) && set_in (checkpointed_l1_block_hash q) &&
     set_in (aggregation_vkey_hash q) && set_in (prover_address q)).

(** The columns that follow the status. *)
Definition typed_progress (p : Progress) : bool :=
  match status p with
  | Prove => set_in (proof_request_time p) && (set_in (proof_request_id p) || set_in (cluster_proof_handle p))
  | Complete => set_in (proof p)
  | Relayed => set_in (proof p) && set_in (relay_tx_hash p) && set_in (contract_address p)
  | _ => true
  end.

Definition typed (r : OPSuccinctRequest) : bool :=
  typed_request (fixed r) && typed_progress (progress r).

Definition typed_db (d : Db) : Prop :=
  forall i (r : OPSuccinctRequest), rows d !! i = Some r -> typed r = true.

(** Every action keeps the rows typed. *)
Definition keeps_typed (s s' : Shared) : Prop := typed_db (db s) -> typed_db (db s').

#[export] Instance keeps_typed_preorder : PreOrder keeps_typed.
Proof. split; unfold keeps_typed; auto. Qed.
#[export] Instance keeps_typed_local : Local keeps_typed.
Proof. intros s s' Hd _. unfold keeps_typed. by rewrite Hd. Qed.

(** ** Statements *)

Lemma typed_update_rows (where_ : OPSuccinctRequest -> bool) set d :
  (forall r : OPSuccinctRequest, where_ r = true -> typed_progress (progress r) = true ->
     typed_progress (set (progress r)) = true) ->
  typed_db d -> typed_db (update_rows where_ set d).1.
Proof.
  intros Hset Hd i r'. rewrite lookup_update_rows. destruct (rows d !! i) as [r|] eqn:E; [|done].
  cbn. intros [= <-]. specialize (Hd i r E). destruct (where_ r) eqn:Hw; [|done].
  unfold typed in *. cbn. apply andb_true_iff in Hd as [-> Hp]. cbn. by apply Hset.
Qed.

Lemma typed_insert d (req : OPSuccinctRequest) :
  typed req = true -> status req = Unrequested -> typed_db d -> typed_db (insert_request req d).1.
Proof.
  intros Hr Hs Hd i r. cbn. destruct (decide (i = next_id d)) as [->|Hne].
  - rewrite lookup_insert_eq. intros [= <-]. unfold typed, typed_progress in *. cbn.
    rewrite Hs in *. rewrite andb_true_r in *. exact Hr.
  - rewrite lookup_insert_ne by done. apply Hd.
Qed.

(** A request as it is queued. *)
Definition queued (req : OPSuccinctRequest) : Prop := typed req = true /\ status req = Unrequested.

Lemma typed_inserts reqs d : Forall queued reqs -> typed_db d -> typed_db (insert_requests reqs d).1.
Proof.
  unfold insert_requests. cbn [fst]. intros HF. revert d.
  induction HF as [|req reqs [Ht Hs] HF IH]; intros d Hd; cbn [foldl]; [done|].
  apply IH. by apply typed_insert.
Qed.

(** An [UPDATE] by primary key whose values fit the columns. *)
Lemma guar_typed_update {A} (f : Z -> Db -> Db * A) i guard set :
  (forall now d, (f now d).1 = (update_row i guard (set now) d).1) ->
  (forall now r, guard r = true -> typed_progress (progress r) = true ->
     typed_progress (set now (progress r)) = true) ->
  guar keeps_typed (execute f).
Proof.
  intros Hf Hset. apply guar_execute; [apply _|]. intros s s' _ He Hd. rewrite He. rewrite Hf.
  apply typed_update_rows; [|done]. intros r [_ Hg]%andb_true_iff. by apply Hset.
Qed.

Section statements.
Context (i : Z).

Lemma typed_finish : guar keeps_typed (execute (fun now => finish_invalidated_request now i)).
Proof.
  eapply (guar_typed_update _ i _ (fun now p => set_status now p Invalidated)); [|done].
  intros now d. unfold finish_invalidated_request. by rewrite (surjective_pairing (update_row _ _ _ _)).
Qed.

Lemma typed_complete bytes :
  guar keeps_typed (execute (fun now => update_proof_to_complete now i bytes)).
Proof.
  eapply (guar_typed_update _ i _ (fun now p => set_complete now p bytes)); [|done].
  intros now d. unfold update_proof_to_complete. by rewrite (surjective_pairing (update_row _ _ _ _)).
Qed.

Lemma typed_relayed tx contract :
  guar keeps_typed (execute (fun now => update_request_to_relayed now i tx contract)).
Proof.
  eapply (guar_typed_update _ i _ (fun now p => set_relayed now p tx contract)).
  - intros now d. unfold update_request_to_relayed. by rewrite (surjective_pairing (update_row _ _ _ _)).
  - intros now r Hg Hp. apply andb_true_iff in Hg as [Hs _].
    apply has_status_iff, list_elem_of_singleton in Hs. unfold typed_progress in *. rewrite Hs in Hp.
    cbn. by rewrite Hp.
Qed.

Lemma typed_admit request W N :
  guar keeps_typed (execute (fun now => admit_request now request W N)).
Proof.
  apply guar_execute; [apply _|]. intros s s' _ He Hd. rewrite He. unfold admit_request.
  destruct (_ || _); [done|]. rewrite (surjective_pairing (update_row _ _ _ _)).
  by apply typed_update_rows.
Qed.

(** The statuses [update_request_status] is called with. *)
Lemma typed_status st :
  st ∈ [Execution; Failed; Cancelled] ->
  guar keeps_typed (execute (fun now => update_request_status now i st)).
Proof.
  intros Hs. apply (guar_typed_update _ i always (fun now p => set_status now p st)); [done|].
  intros now r _ _. unfold typed_progress. cbn. destruct st; try done;
    exfalso; revert Hs; apply status_not_in; reflexivity.
Qed.

Lemma typed_to_prove request_id :
  guar keeps_typed (execute (fun now => update_request_to_prove now i request_id)).
Proof. by apply (guar_typed_update _ i always (fun now p => set_prove now p request_id)). Qed.

Lemma typed_to_prove_cluster handle :
  guar keeps_typed (execute (fun now => update_request_to_prove_cluster now i handle)).
Proof.
  apply (guar_typed_update _ i always (fun now p => set_prove_cluster now p handle)); [done|].
  intros now r _ _. unfold typed_progress. cbn. apply orb_true_r.
Qed.

Lemma typed_l1_head number hash : guar keeps_typed (execute (fun now => update_l1_head now i number hash)).
Proof. by apply (guar_typed_update _ i always (fun now p => set_l1_head now p number hash)). Qed.

Lemma typed_witnessgen duration :
  guar keeps_typed (execute (fun now => update_witnessgen_duration now i duration)).
Proof. by apply (guar_typed_update _ i always (fun now p => set_witnessgen_duration now p duration)). Qed.

Lemma typed_prove_duration : guar keeps_typed (execute (fun now => update_prove_duration now i)).
Proof. by apply (guar_typed_update _ i always (fun now p => set_prove_duration now p)). Qed.

Lemma typed_statistics statistics duration :
  guar keeps_typed (execute (fun _ => insert_execution_statistics i statistics duration)).
Proof. by apply (guar_typed_update _ i always (fun _ p => set_execution p statistics duration)). Qed.
End statements.

(** The statements on many rows. *)
Lemma typed_invalidate ids c l1 l2 :
  guar keeps_typed (execute (fun now => invalidate_noncanonical_ranges now ids c l1 l2)).
Proof.
  apply guar_execute; [apply _|]. intros s s' _ He Hd. rewrite He. destruct ids as [|i0 ids]; [done|].
  cbn [invalidate_noncanonical_ranges].
  rewrite (surjective_pairing (update_rows _ _ (db s))).
  rewrite (surjective_pairing (update_rows _ _ (update_rows _ _ (db s)).1)). cbn [fst].
  apply typed_update_rows; [|by apply typed_update_rows].
  intros r _ Hp. unfold typed_progress, invalidated_status in *. cbn.
  destruct (status r) eqn:E; cbn; by rewrite ?E.
Qed.

Lemma typed_cancel c l1 l2 :
  guar keeps_typed (execute (fun _ => cancel_prove_requests_with_different_commitment_config c l1 l2)).
Proof. apply guar_execute; [apply _|]. intros s s' _ He Hd. rewrite He. by apply typed_update_rows. Qed.

Lemma typed_delete statuses l1 l2 :
  guar keeps_typed (execute (fun _ => delete_all_requests_with_statuses statuses l1 l2)).
Proof.
  apply guar_execute; [apply _|]. intros s s' _ He Hd i r. rewrite He. cbn.
  intros [Hr _]%map_lookup_filter_Some. by apply (Hd i).
Qed.

Lemma typed_lock l1 l2 : guar keeps_typed (execute (fun now => update_chain_lock now l1 l2)).
Proof. apply guar_execute; [apply _|]. intros s s' _ He Hd. by rewrite He. Qed.
Lemma typed_add_lock l1 l2 : guar keeps_typed (execute (fun now => add_chain_lock now l1 l2)).
Proof. apply guar_execute; [apply _|]. intros s s' _ He Hd. by rewrite He. Qed.

Lemma typed_insert_requests reqs :
  Forall queued reqs -> guar keeps_typed (execute (fun _ => insert_requests reqs)).
Proof. intros HF. apply guar_execute; [apply _|]. intros s s' _ He Hd. rewrite He. by apply typed_inserts. Qed.

Lemma typed_insert_request req :
  queued req -> guar keeps_typed (execute (fun _ => insert_request req)).
Proof. intros [Ht Hs]. apply guar_execute; [apply _|]. intros s s' _ He Hd. rewrite He. by apply typed_insert. Qed.

#[local] Hint Resolve typed_finish typed_complete typed_relayed typed_admit typed_to_prove
  typed_to_prove_cluster typed_l1_head typed_witnessgen typed_prove_duration typed_statistics
  typed_invalidate typed_cancel typed_delete typed_lock typed_add_lock : guar.
#[local] Hint Extern 1 (guar _ (execute (fun _ => update_request_status _ _ _))) =>
  apply typed_status; apply status_in; reflexivity : guar.
#[local] Hint Extern 1 (Local _) => typeclasses eauto : guar.

(** ** Programs *)

Section programs.
Context {HO : HashOrder} (config : Config).

Lemma range_request_queued mode sb eb vk rc l1 l2 :
  yields queued (create_range_request mode sb eb vk rc l1 l2).
Proof. intros []; cbn; try done. intros []; cbn; done. Qed.

Lemma typed_failed (request : OPSuccinctRequest) st :
  guar keeps_typed (handle_failed_request config request st).
Proof.
  unfold handle_failed_request. apply guar_bind; [auto with guar|]. intros [].
  { guar_tac. }
  apply guar_bind; [auto with guar|]. intros _. apply guar_bind; [auto with guar|]. intros a.
  apply guar_bind; [auto with guar|]. intros b. destruct (_ && _); [|done].
  apply guar_bind; [auto with guar|]. intros n. destruct (_ || _); [|done].
  apply (guar_bind_yields _ (Forall queued)).
  - unfold split_request, create_range_request. guar_tac.
  - unfold split_request. eapply yields_bind; [apply range_request_queued|]. intros x Hx.
    eapply yields_bind; [apply range_request_queued|]. intros y Hy. cbn. apply Forall_cons; split; [done|]. by apply Forall_singleton.
  - apply typed_insert_requests.
Qed.
#[local] Hint Resolve typed_failed : guar.

Lemma typed_task (request : OPSuccinctRequest) W N :
  guar keeps_typed (make_proof_request config request W N).
Proof.
  unfold make_proof_request, try_start_witness_generation, make_admitted_request,
    generate_proof_stdin, range_proof_witnessgen, agg_proof_witnessgen, read_range_proof,
    finish_mock, finish_cluster, finish_network, generate_mock_range_proof, generate_mock_agg_proof,
    request_range_proof, ProofRequester.request_agg_proof, submit_cluster_proof, store_completed_proof.
  guar_tac.
Qed.

Lemma typed_external_task (request : OPSuccinctRequest) :
  guar keeps_typed (external_task config request).
Proof.
  unfold external_task, external_task_response, external_proof_request_id, and_then, internal, accept, reject.
  apply guar_bind; [|by intros [? []]].
  apply guar_bind; [apply guar_catch, typed_task|]. intros r. guar_tac.
Qed.

Lemma typed_accept request : guar keeps_typed (accept_external_aggregation config request).
Proof.
  assert (Hspawn : forall req, queued req -> guar keeps_typed (insert_and_spawn req)).
  { intros req [Hq Hst]. apply guar_act. intros s Hd.
    destruct (run_statement _ s) as [s1 o] eqn:E.
    assert (Hs1 : typed_db (db s1)).
    { pose proof E as (_ & _ & _ & _ & [Hdb|[_ [Hdb|Hdb]]])%run_statement_cases;
        [injection Hdb as Hdb _; rewrite <- Hdb|rewrite Hdb|rewrite Hdb]; try done; by apply typed_insert. }
    by destruct o. }
  unfold accept_external_aggregation, checked_external_block_number, validate_checkpoint_hash.
  repeat first [apply guar_and_then; [|intros ?] | apply guar_internal; auto with guar; fail
               | guar_step]; cbn beta iota zeta.
  all: apply guar_internal; by apply Hspawn.
Qed.

Lemma typed_startup : guar keeps_typed (startup config).
Proof.
  unfold startup, new, initialize_proposer, validate_contract_config.
  assert (Hlocked : guar keeps_typed (statement (fun e d =>
    (d, Ok (is_chain_locked (NOW e) (cfg_l1_chain_id config) (cfg_l2_chain_id config)
              (loop_interval config) d))))).
  { apply guar_statement; [apply _|]. intros s s' _ He Hd. by rewrite He. }
  guar_tac.
Qed.

Lemma typed_take i : guar keeps_typed (take_task i).
Proof. apply guar_act. intros s Hd. exact Hd. Qed.
Lemma typed_spawn request : guar keeps_typed (spawn_task request).
Proof. apply guar_act. intros s Hd. destruct (tasks s !! id request); exact Hd. Qed.
Lemma typed_count i : guar keeps_typed (count_poll_failure i).
Proof. apply guar_act. intros s Hd. destruct (cluster_handles s !! i); exact Hd. Qed.
#[local] Hint Resolve typed_take typed_spawn typed_count : guar.

Lemma typed_polling : guar keeps_typed (handle_proving_requests config).
Proof.
  unfold handle_proving_requests, process_cluster_proof_status, wall_clock_exceeded, find_handle,
    drop_or_fail, fail_cluster_request, process_proof_request_status, cancel_invalidated,
    store_fulfilled, check_auction, handle_terminal_proof_failure_before_request_details,
    fetch_details, complete_request, stored_bytes, handle_cancelled_request.
  guar_tac.
Qed.

Lemma typed_new_ranges fuel : guar keeps_typed (add_new_ranges config fuel).
Proof.
  unfold add_new_ranges, plan_ranges, fetch_block_infos.
  apply guar_bind; [auto with guar|]. intros a. apply guar_bind; [auto with guar|]. intros b.
  apply guar_bind; [auto with guar|]. intros c. apply guar_bind; [guar_tac|].
  intros [|r l]; [done|]. apply (guar_bind_yields _ (Forall queued)).
  - unfold new_range, create_range_request. guar_tac.
  - apply yields_fold; [done|]. intros acc x Hacc. eapply yields_bind; [apply range_request_queued|].
    intros y Hy. cbn. apply Forall_app. split; [done|]. by apply Forall_singleton.
  - apply typed_insert_requests.
Qed.

Lemma typed_create_aggregation : guar keeps_typed (create_aggregation_proofs config).
Proof.
  unfold create_aggregation_proofs, reusable_checkpoint, new_checkpoint.
  guar_tac. by apply typed_insert_request.
Qed.
#[local] Hint Resolve typed_polling typed_new_ranges typed_create_aggregation : guar.

Lemma typed_iteration fuel : guar keeps_typed (run_loop_iteration config fuel).
Proof.
  unfold run_loop_iteration, validate_contract_config, log_proposer_metrics, handle_ongoing_tasks,
    retry_task, set_orphaned_tasks_to_failed, fail_orphan, reconcile_completed_range_canonicality,
    hydrate_range, fetch_canonical_hash, request_queued_proofs, get_next_unrequested_proof,
    submit_agg_proofs, relay_aggregation_proof, propose_output.
  guar_tac.
Qed.

(** ** The system *)

(** The rows are typed, and every thread keeps them so. *)
Record typed_system (x : System) : Prop := {
  ts_rows : typed_db (db (shared x));
  ts_main : match main x with Starting p | Turn p => guar keeps_typed p end;
  ts_threads : forall i p, threads x !! i = Some p -> guar keeps_typed p;
  ts_handlers : Forall (guar keeps_typed) (handlers x);
}.

Lemma typed_initial s : typed_db (db s) -> typed_system (initial config s).
Proof. intros Hd. split; [done|apply typed_startup| |done]. intros i p. cbn. by rewrite lookup_empty. Qed.

Lemma typed_step x y : step config x y -> typed_system x -> typed_system y.
Proof.
  intros Hstep [Hd Hm Ht Hh].
  destruct Hstep as [s X q0 k ts hs|s ts hs fuel|s X q0 k ts hs|s o ts hs fuel Ho
    |s m ts hs i t Hi Hn Hf|s m ts hs i X q0 k Hi|s m ts hs i o Hi|s p ts hs request Ha
    |s p ts hs1 X q0 k hs2|s p ts hs1 h hs2|s m ts hs e f|s m ts hs]; cbn in *.
  - destruct Hm as [HG Hk]. split; cbn; [by apply HG|apply Hk|done..].
  - split; cbn; [done|apply typed_iteration|done..].
  - destruct Hm as [HG Hk]. split; cbn; [by apply HG|apply Hk|done..].
  - split; cbn; [done|apply typed_iteration|done..].
  - split; cbn; [done|done| |done]. intros j p. destruct (decide (j = i)) as [->|Hne].
    + rewrite lookup_insert_eq. intros [= <-]. unfold task_body.
      destruct (_ && _); [apply typed_external_task|apply typed_task].
    + rewrite lookup_insert_ne by done. apply Ht.
  - destruct (Ht i _ Hi) as [HG Hk]. split; cbn; [by apply HG|done| |done].
    intros j p. destruct (decide (j = i)) as [->|Hne].
    + rewrite lookup_insert_eq. intros [= <-]. apply Hk.
    + rewrite lookup_insert_ne by done. apply Ht.
  - split; cbn; [done|done| |done]. intros j p [_ Hp]%lookup_delete_Some. by apply (Ht j).
  - split; cbn; [done..|]. apply Forall_cons. split; [apply typed_accept|done].
  - apply Forall_app in Hh as [Hh1 [[HG Hk] Hh2]%Forall_cons]. split; cbn; [by apply HG|done|done|].
    apply Forall_app. split; [done|]. apply Forall_cons. split; [apply Hk|done].
  - apply Forall_app in Hh as [Hh1 [_ Hh2]%Forall_cons]. split; cbn; [done..|]. by apply Forall_app.
  - by split.
  - split; cbn; [done|apply typed_startup| |done]. intros i p. by rewrite lookup_empty.
Qed.

(** C20: in every reachable state of the service the columns of every row fit its
    type and status: an aggregation carries its L1 checkpoint, its verification
    key and its prover, a request being proved says since when and under which
    proof id or cluster handle, a complete one carries its proof, and a relayed
    one its transaction and contract. *)
Theorem rows_well_typed s x :
  typed_db (db s) -> rtc (step config) (initial config s) x ->
  forall i (r : OPSuccinctRequest), rows (db (shared x)) !! i = Some r ->
    (req_type r = Aggregation ->
       is_Some (checkpointed_l1_block_number r) /\ is_Some (checkpointed_l1_block_hash r) /\
       is_Some (aggregation_vkey_hash r) /\ is_Some (prover_address r)) /\
    (status r = Prove ->
       is_Some (proof_request_time r) /\
       (is_Some (proof_request_id r) \/ is_Some (cluster_proof_handle r))) /\
    (status r = Complete -> is_Some (proof r)) /\
    (status r = Relayed -> is_Some (proof r) /\ is_Some (relay_tx_hash r) /\ is_Some (contract_address r)).
Proof.
  intros Hd Hx i r Hr.
  assert (Hsys : typed_system x).
  { apply typed_initial in Hd. revert Hd. clear Hr.
    induction Hx as [x|x y z Hxy _ IH]; [done|]. intros H. by eapply IH, typed_step. }
  pose proof (ts_rows _ Hsys i r Hr) as Ht. unfold typed, typed_request, typed_progress in Ht.
  assert (Hset : forall A (o : option A), set_in o = true -> is_Some o) by (intros A [a|]; [by exists a|done]).
  apply andb_true_iff in Ht as [Hq Hp]. split_and!.
  - intros HA. rewrite bool_decide_eq_true_2 in Hq by done. cbn [implb] in Hq. rewrite !andb_true_iff in Hq.
    destruct Hq as [[[? ?] ?] ?]. auto.
  - intros Hs. rewrite Hs, andb_true_iff, orb_true_iff in Hp. destruct Hp as [? [?|?]]; auto.
  - intros Hs. rewrite Hs in Hp. auto.
  - intros Hs. rewrite Hs, !andb_true_iff in Hp. destruct Hp as [[? ?] ?]. auto.
Qed.
End programs.

(** After some turns the queued range of the sample is being proved. *)
Lemma rows_well_typed_witness :
  let x := sample_run (replicate 80 ChMain ++ [ChSpawn 4] ++ replicate 30 (ChTask 4)) in
  exists r : OPSuccinctRequest, rows (db (shared x)) !! 4 = Some r /\ status r = Prove /\
    is_Some (proof_request_time r).
Proof.
  intros x.
  set (r := match rows (db (shared x)) !! 4 with
            | Some r => r | None => sample_range 1 0 0 Failed None None end).
  assert (Hr : rows (db (shared x)) !! 4 = Some r) by (vm_compute; reflexivity).
  assert (Hs : status r = Prove) by (vm_compute; reflexivity).
  assert (Hd : typed_db (db sample_start)).
  { intros i r' Hr'. cbn in Hr'.
    repeat (apply lookup_insert_Some in Hr' as [[<- <-]|[_ Hr']]; [vm_compute; reflexivity|]).
    by rewrite lookup_empty in Hr'. }
  exists r. split; [exact Hr|]. split; [exact Hs|].
  pose proof (rows_well_typed sample_config sample_start x Hd (schedule_steps _ _ _) 4 r Hr) as Ht.
  apply proj2, proj1 in Ht. exact (proj1 (Ht Hs)).
Defined.
