(* ===== verification/ValidityPlanning.v ===== *)
(** * What the validity proposer's operations achieve

    One operation of the loop at a time, run alone ([run]) on any tables and
    any environment: which chain of range proofs an aggregation request covers
    and how its checkpoint relates to them, which ranges are added and that
    they never overlap, how a failing range is split, what a reconciliation
    leaves behind, and what is relayed. *)

From S2P Require Import Prelude.
From S2P Require Import ValidityRanges.
From S2P Require Import Interleaving.
From S2P Require Import RequestDb.
From S2P Require Import RequestDbLaws.
From S2P Require Import ValidityTypes.
From S2P Require Import ProofRequester.
From S2P Require Import ValidityProposer.

(** ** Reads of a run *)

(** Two states between which only statements that change nothing have run. *)
Record same (s s' : Shared) : Prop := {
  same_db : db s' = db s;
  same_env : env s' = env s;
  same_submitted : submitted s' = submitted s;
}.
#[global] Instance same_preorder : PreOrder same.
Proof. split; [by split|]. intros s1 s2 s3 [] []. split; congruence. Qed.

Lemma query_same {A} (f : Db -> A) s0 s s' a :
  same s0 s -> run (query f) s = (s', Ok a) -> a = f (db s0) /\ same s0 s'.
Proof.
  intros [H1 H2 H3] (-> & Hd & He & _ & Hs)%run_query_Ok. split; [by rewrite H1|]. split; congruence.
Qed.

Lemma ask_same {A} (f : Env -> outcome A) s0 s s' a :
  same s0 s -> run (ask f) s = (s', Ok a) -> f (env s0) = Ok a /\ same s0 s'.
Proof. intros Hs [-> Ha]%run_ask_Ok. split; [|done]. by rewrite <- (same_env _ _ Hs). Qed.

Lemma done_same {A} (o : outcome A) s0 s s' a :
  same s0 s -> run (done o) s = (s', Ok a) -> o = Ok a /\ same s0 s'.
Proof. by intros Hs [= -> ->]. Qed.

Lemma same_left s s' : same s s' -> db s' = db s /\ submitted s' = submitted s.
Proof. intros [? _ ?]. by split. Qed.

(** Peels a read off a run and keeps that nothing has changed since the start. *)
Ltac read_step H x Hx Q :=
  let Q' := fresh Q in
  apply run_bind_Ok in H; destruct H as (? & x & Hx & H);
  lazymatch type of Hx with
  | run (query _) _ = _ => apply (query_same _ _ _ _ _ Q) in Hx
  | run (done _) _ = _ => apply (done_same _ _ _ _ _ Q) in Hx
  | run (ask_now _) _ = _ => apply (ask_same _ _ _ _ _ Q) in Hx
  | run (ask _) _ = _ => apply (ask_same _ _ _ _ _ Q) in Hx
  | run get_latest_proposed_block_number _ = _ => apply (ask_same _ _ _ _ _ Q) in Hx
  end;
  destruct Hx as [Hx Q']; clear Q; rename Q' into Q.

Lemma latest_inv e n : (k ← latestBlockNumber e; to_u64 k) = Ok n -> latestBlockNumber e = Ok n.
Proof. intros (k & Hk & [_ ->]%to_u64_Ok)%outcome_bind_Ok. done. Qed.

Lemma run_latest_Ok s s' n :
  run get_latest_proposed_block_number s = (s', Ok n) -> s' = s /\ latestBlockNumber (env s) = Ok n.
Proof. intros [-> H%latest_inv]%run_ask_Ok. done. Qed.

(** ** Contiguous chains *)

(** The longest chain from [a] at the head of a list, and what follows it. *)
Definition chain_prefix (a : Z) (l : list (Z * Z)) (p : list (Z * Z)) (b : Z) : Prop :=
  exists rest, l = p ++ rest /\ chain a p b /\
    match rest with [] => True | (s, _) :: _ => b < s end.

Lemma contiguous_loop_Ok cur found l o :
  contiguous_loop cur found l = Ok o ->
  exists p e, chain_prefix cur l p e /\ o = (if found || negb (bool_decide (p = [])) then Some e else None).
Proof.
  revert cur found o. induction l as [|[s e] l IH]; intros cur found o; cbn.
  - intros [= <-]. exists [], cur. split; [by exists []|]. by destruct found.
  - destruct (Z.ltb_spec cur s) as [Hs|Hs].
    { intros [= <-]. exists [], cur. split; [by exists ((s, e) :: l)|]. by destruct found. }
    destruct (Z.ltb_spec s cur); [done|]. destruct (Z.leb_spec e s); [done|].
    intros H1. destruct (IH _ _ _ H1) as (p & b & (rest & -> & Hc & Hr) & ->).
    exists ((s, e) :: p), b. split; [|by rewrite orb_true_r].
    exists rest. split; [done|]. split; [|done]. cbn. split_and!; [lia|lia|done].
Qed.

Lemma contiguous_loop_chain cur found p e rest :
  chain cur p e -> match rest with [] => True | (s, _) :: _ => e < s end ->
  contiguous_loop cur found (p ++ rest) =
  Ok (if found || negb (bool_decide (p = [])) then Some e else None).
Proof.
  revert cur found. induction p as [|[s b] p IH]; intros cur found; cbn.
  - intros <- Hr. rewrite orb_false_r. destruct rest as [|[s b] rest]; [done|]. cbn.
    by rewrite (proj2 (Z.ltb_lt _ _) Hr).
  - intros (-> & Hlt & Hc) Hr. rewrite Z.ltb_irrefl.
    rewrite (proj2 (Z.leb_gt _ _)) by lia. rewrite (IH b true Hc Hr). cbn. by rewrite orb_true_r.
Qed.

Lemma highest_contiguous_prefix start l e :
  highest_contiguous_end start l = Ok (Some e) -> exists p, p <> [] /\ chain_prefix start l p e.
Proof.
  intros H. destruct (contiguous_loop_Ok _ _ _ _ H) as (p & b & Hp & Ho). exists p.
  cbn in Ho. case_bool_decide; [done|]. injection Ho as ->. done.
Qed.

(** [highest_contiguous_end] returns [e] exactly when the sorted completed
    ranges begin with a nonempty contiguous chain from the expected start to
    [e] that the next range, if any, does not continue; it returns nothing
    exactly when no range begins at the expected start, and it fails on an
    overlap or an empty range. *)
Theorem highest_contiguous_end_spec start l :
  (forall e, highest_contiguous_end start l = Ok (Some e) <->
     exists p, p <> [] /\ chain_prefix start l p e) /\
  (highest_contiguous_end start l = Ok None <->
     match l with [] => True | (s, _) :: _ => start < s end).
Proof.
  unfold highest_contiguous_end. split; [intros e|]; split.
  - apply highest_contiguous_prefix.
  - intros (p & Hne & rest & -> & Hc & Hr). rewrite (contiguous_loop_chain _ _ _ e) by done. cbn.
    by rewrite bool_decide_eq_false_2.
  - intros H. destruct (contiguous_loop_Ok _ _ _ _ H) as (p & b & (rest & -> & Hc & Hr) & Ho).
    cbn in Ho. case_bool_decide as Hp; [subst p|done]. cbn in Hc. by subst b.
  - intros H. by apply (contiguous_loop_chain start false [] start l).
Qed.

Section coverage.
Context {HO : HashOrder} (c : CommitmentConfig) (l1 l2 : Z).

Lemma check_contiguous_Ok a proofs b :
  check_contiguous a proofs = Ok b <-> chain a (blocks_of <$> proofs) b.
Proof.
  revert a. induction proofs as [|r proofs IH]; intros a; cbn; [naive_solver|].
  destruct (Z.eqb_spec (start_block r) a); cbn; [|naive_solver].
  destruct (Z.ltb_spec (start_block r) (end_block r)); cbn; [|naive_solver lia].
  rewrite IH. naive_solver.
Qed.

(** the range proofs handed to the aggregation program are exactly the
    stored, still valid completed ranges within the request, and they are
    handed over only if they form a contiguous chain over the whole request. *)
Theorem aggregation_witness_covers a b d proofs :
  get_complete_aggregation_range_proofs c l1 l2 a b d = Ok proofs <->
  a < b /\ proofs = get_consecutive_complete_range_proofs c l1 l2 a b d /\
  chain a (blocks_of <$> proofs) b.
Proof.
  unfold get_complete_aggregation_range_proofs.
  set (l := get_consecutive_complete_range_proofs c l1 l2 a b d).
  destruct (Z.ltb_spec a b) as [Hab|Hab]; cbn; [|split; [done|lia]].
  destruct (check_contiguous a l) as [e|m|] eqn:E; cbn.
  - apply check_contiguous_Ok in E. destruct (Z.eqb_spec e b) as [->|Hne]; cbn.
    + split; [intros [= <-]; done|intros (_ & -> & _); done].
    + split; [done|]. intros (_ & -> & Hc). apply check_contiguous_Ok in Hc.
      apply check_contiguous_Ok in E. congruence.
  - split; [done|]. intros (_ & -> & Hc). apply check_contiguous_Ok in Hc. congruence.
  - split; [done|]. intros (_ & -> & Hc). apply check_contiguous_Ok in Hc. congruence.
Qed.

Lemma adjacent_chain (prev : OPSuccinctRequest) proofs :
  Forall (fun r : OPSuccinctRequest => start_block r < end_block r) proofs ->
  adjacent prev proofs = true <->
  chain (end_block prev) (blocks_of <$> proofs)
    (end_block (default prev (last proofs))).
Proof.
  intros HF. revert prev. induction HF as [|r proofs Hr HF IH]; intros prev; cbn; [done|].
  rewrite !andb_true_iff, !negb_true_iff, !Z.ltb_ge, IH.
  replace (default prev (last (r :: proofs))) with (default r (last proofs)).
  2: { destruct proofs as [|x proofs]; [done|]. rewrite last_cons_cons.
       destruct (last (x :: proofs)) eqn:E; [done|]. by apply last_None in E. }
  split; [intros [[? ?] ?]; split_and!; [lia|done|done]|intros (? & ? & ?); split_and!; [lia|lia|done]].
Qed.

(** an aggregation request passes validation exactly when the (nonempty)
    range proofs found for it form a contiguous chain over the whole request,
    the check [get_complete_aggregation_range_proofs] repeats when the witness
    is made. *)
Theorem validate_aggregation_chain proofs (agg : OPSuccinctRequest) :
  Forall (fun r : OPSuccinctRequest => start_block r < end_block r) proofs ->
  validate_aggregation_request proofs agg = true <->
  proofs <> [] /\ chain (start_block agg) (blocks_of <$> proofs) (end_block agg).
Proof.
  destruct proofs as [|r proofs]; [naive_solver|]. intros [Hr HF]%Forall_cons.
  unfold validate_aggregation_request.
  assert (Hl : last (r :: proofs) = Some (default r (last proofs))).
  { destruct proofs as [|x proofs]; [done|]. rewrite last_cons_cons.
    destruct (last (x :: proofs)) eqn:E; [done|]. by apply last_None in E. }
  rewrite Hl, !andb_true_iff, !Z.eqb_eq, adjacent_chain by done. cbn.
  split.
  - intros [[H1 H2] H3]. split_and!; [done|done|done|]. by rewrite <- H2.
  - intros (_ & H1 & H2 & H3). split_and!; [done| |].
    + destruct (last proofs) as [y|] eqn:E; cbn.
      * apply last_Some in E as (l & ->). rewrite fmap_app in H3. apply chain_app in H3 as (m & _ & H3).
        cbn in H3. naive_solver.
      * apply last_None in E as ->. cbn in H3. done.
    + destruct (last proofs) as [y|] eqn:E; cbn.
      * pose proof E as E'. apply last_Some in E as (l & ->).
        assert (Hy : end_block y = end_block agg); [|by rewrite Hy].
        rewrite fmap_app in H3. apply chain_app in H3 as (m & _ & H3). cbn in H3. naive_solver.
      * apply last_None in E as ->. done.
Qed.
End coverage.

Lemma validate_aggregation_chain_witness :
  validate_aggregation_request [sample_range 1 100 110 Complete None None;
    sample_range 2 110 130 Complete None None] (sample_agg 3 100 130 Unrequested None) = true.
Proof.
  apply validate_aggregation_chain.
  - repeat constructor.
  - split; [done|]. cbn. lia.
Defined.

(** ** Reconciliation *)

Section reconcile.
Context {HO : HashOrder} (config : Config).
Notation l1 := (cfg_l1_chain_id config).
Notation l2 := (cfg_l2_chain_id config).
Notation commitment := (commitments config).

(** Rows keep everything but the L1 head they record. *)
Definition same_life (r r' : OPSuccinctRequest) : Prop :=
  fixed r' = fixed r /\ status r' = status r /\ invalidated_at r' = invalidated_at r.
Definition only_heads (s s' : Shared) : Prop :=
  wf_db (db s) -> wf_db (db s') /\
  forall i, option_Forall2 same_life (rows (db s) !! i) (rows (db s') !! i).

#[local] Instance only_heads_preorder : PreOrder only_heads.
Proof.
  split.
  - intros s Hwf. split; [done|]. intros i. destruct (rows (db s) !! i); by constructor.
  - intros s1 s2 s3 H12 H23 H1. destruct (H12 H1) as [H2 H2']. destruct (H23 H2) as [H3 H3'].
    split; [done|]. intros i. specialize (H2' i). specialize (H3' i).
    destruct H2' as [r r2 (Ha & Hb & Hc)|]; inversion H3' as [? r3 (Hd & He & Hf)|]; subst;
      constructor. unfold same_life. split_and!; congruence.
Qed.
#[local] Instance only_heads_local : Local only_heads.
Proof.
  intros s s' Hd _ Hwf. rewrite Hd. split; [done|]. intros i. destruct (rows (db s) !! i); by constructor.
Qed.
#[local] Hint Resolve only_heads_local : guar.

Lemma heads_l1_head i number hash :
  guar only_heads (execute (fun now => update_l1_head now i number hash)).
Proof.
  apply guar_execute; [apply _|]. intros s s' _ Hd Hwf. rewrite Hd. split.
  - eapply (evolves_wf life); [|done]. by apply silent_update_evolves.
  - intros j. unfold update_l1_head, update_row. rewrite lookup_update_rows.
    destruct (rows (db s) !! j) as [r|]; cbn; constructor. by destruct (_ && _).
Qed.
#[local] Hint Resolve heads_l1_head : guar.

Lemma heads_hydrate r : guar only_heads (hydrate_range config r).
Proof. unfold hydrate_range. guar_tac. Qed.

Lemma env_hydrate r : guar keeps_env (hydrate_range config r).
Proof. unfold hydrate_range. guar_tac. Qed.

(** What the loop over [canonical_hashes] knows of a block. *)
Definition known (e : Env) (m : gmap Z Z) : Prop :=
  forall n h, m !! n = Some h -> exists hd, get_l1_header e (L1Number n) = Ok hd /\ hash_slow hd = h.

Lemma fetch_hashes_Ok l m s s' m' :
  run (fold l m fetch_canonical_hash) s = (s', Ok m') -> known (env s) m ->
  s' = s /\ known (env s) m'.
Proof.
  revert m s. induction l as [|r l IH]; intros m s; cbn [fold].
  { intros H Hk. run_inv. done. }
  intros H Hk. apply run_bind_Ok in H as (s1 & m1 & H1 & H2). unfold fetch_canonical_hash in H1.
  apply run_bind_Ok in H1 as (s2 & n & H1 & H3). injection H1 as -> Hn.
  destruct (m !! n) as [h|] eqn:E.
  - injection H3 as -> ->. by apply (IH _ _ H2).
  - apply run_bind_Ok in H3 as (s3 & hd & H3 & H4). apply run_ask_Ok in H3 as [-> Hhd].
    injection H4 as -> <-. apply (IH _ _ H2). intros k h.
    destruct (decide (k = n)) as [->|Hne]; [|rewrite lookup_insert_ne by done; apply Hk].
    rewrite lookup_insert_eq. intros [= <-]. by exists hd.
Qed.

(** A range whose recorded L1 head is the block of that number, by [hash_at]. *)
Definition head_matches (hash_at : Z -> option Z) (r : OPSuccinctRequest) : Prop :=
  exists n h, l1_head_block_number r = Some n /\ l1_head_block_hash r = Some h /\ hash_at n = Some h.
Definition head_read (hash_at : Z -> option Z) (r : OPSuccinctRequest) : Prop :=
  exists n h ch, l1_head_block_number r = Some n /\ l1_head_block_hash r = Some h /\ hash_at n = Some ch.

Lemma collect_stale_Ok (m : gmap Z Z) l ids :
  collect_stale m l = Ok ids ->
  (forall r, r ∈ l -> head_read (fun n => m !! n) r) /\
  forall i, i ∈ ids <-> exists r : OPSuccinctRequest, r ∈ l /\ id r = i /\ ~ head_matches (fun n => m !! n) r.
Proof.
  revert ids. induction l as [|x l IH]; intros ids; cbn.
  { intros [= <-]. split; [by intros r ?%elem_of_nil|]. intros i. split; [by intros ?%elem_of_nil|].
    by intros (r & ?%elem_of_nil & _). }
  intros H. apply outcome_bind_Ok in H as (n & Hn & H).
  apply outcome_bind_Ok in H as (h & Hh & H). apply with_context_Ok in Hh.
  apply outcome_bind_Ok in H as (ch & Hch & H). apply with_context_Ok in Hch.
  apply outcome_bind_Ok in H as (ids' & Hids & H). injection H as <-.
  destruct (IH _ Hids) as [Hread Hin].
  assert (Hnum : l1_head_block_number x = Some n).
  { unfold l1_head_number_of in Hn. apply outcome_bind_Ok in Hn as (k & Hk & Hn).
    apply with_context_Ok in Hk. unfold u64_try_from in Hn. destruct (_ && _); [|done].
    by injection Hn as ->. }
  assert (Hx : head_matches (fun n => m !! n) x <-> ch = h).
  { split; [intros (n' & h' & Hn' & Hh' & Hm); congruence|]. intros ->. by exists n, h. }
  split.
  - intros r [->|Hr]%elem_of_cons; [|by apply Hread]. by exists n, h, ch.
  - intros i. transitivity (id x = i /\ ch <> h \/ i ∈ ids').
    + destruct (Z.eqb_spec ch h) as [->|Hne]; [naive_solver|]. rewrite elem_of_cons. naive_solver.
    + rewrite Hin. split.
      * intros [[<- Hne]|(r & Hr & Hi & Hm)].
        { exists x. split; [left|]. split; [done|]. by rewrite Hx. }
        { exists r. split; [by right|done]. }
      * intros (r & [->|Hr]%elem_of_cons & Hi & Hm); [left|right].
        { split; [done|]. by rewrite Hx in Hm. }
        { by exists r. }
Qed.

(** The rows two [UPDATE]s leave, read backwards and forwards. *)
Lemma stale_rows (ids : list Z) (where_ : OPSuccinctRequest -> bool) set d (agg : OPSuccinctRequest) :
  wf_db d ->
  contains_stale (filter (fun r : OPSuccinctRequest => id r ∈ ids)
    (map_to_list (rows (update_rows where_ set d).1)).*2) agg = true <->
  exists j (x : OPSuccinctRequest), j ∈ ids /\ rows d !! j = Some x /\
    start_block agg <= start_block x /\ end_block x <= end_block agg.
Proof.
  intros Hwf. unfold contains_stale. rewrite existsb_exists. split.
  - intros (x1 & Hin & Hc). apply list_elem_of_In, list_elem_of_filter in Hin as [Hid Hin].
    apply list_elem_of_fmap in Hin as ([j x1'] & -> & Hin). apply elem_of_map_to_list in Hin.
    rewrite lookup_update_rows in Hin. destruct (rows d !! j) as [x|] eqn:E; [|done].
    assert (Hf : fixed x1' = fixed x) by (cbn in Hin; injection Hin as <-; by destruct (where_ x)).
    cbn in Hid, Hc. rewrite Hf in Hid, Hc. rewrite (wf_id _ Hwf _ _ E) in Hid.
    apply andb_true_iff in Hc as [?%Z.leb_le ?%Z.leb_le]. by exists j, x.
  - intros (j & x & Hj & Hx & H1 & H2).
    set (x1 := if where_ x then mk_request (fixed x) (set (progress x)) else x).
    assert (Hf : fixed x1 = fixed x) by (unfold x1; by destruct (where_ x)).
    exists x1. split.
    + apply list_elem_of_In, list_elem_of_filter. rewrite Hf, (wf_id _ Hwf _ _ Hx). split; [done|].
      apply list_elem_of_fmap. exists (j, x1). split; [done|]. apply elem_of_map_to_list.
      by rewrite lookup_update_rows, Hx.
    + rewrite Hf. apply andb_true_iff. by rewrite !Z.leb_le.
Qed.

(** The aggregations a stale range takes with it. *)
Definition takes_along (ids : list Z) (d : Db) (r : OPSuccinctRequest) : Prop :=
  req_type r = Aggregation /\ status r ∈ PENDING /\ same_programs commitment r = true /\
  same_agg_vkey commitment r = true /\ on_chain l1 l2 r = true /\
  exists j (x : OPSuccinctRequest), j ∈ ids /\ rows d !! j = Some x /\
    start_block r <= start_block x /\ end_block x <= end_block r.

(** What an invalidation does to a row that is still valid. *)
Lemma invalidate_row now ids d i (r : OPSuccinctRequest) :
  wf_db d -> rows d !! i = Some r -> invalidated r = false ->
  exists r' : OPSuccinctRequest,
    rows (invalidate_noncanonical_ranges now ids commitment l1 l2 d).1 !! i = Some r' /\
    fixed r' = fixed r /\ l1_head_block_number r' = l1_head_block_number r /\
    l1_head_block_hash r' = l1_head_block_hash r /\
    (invalidated r' = true <->
       (i ∈ ids /\ req_type r = Range /\ status r = Complete) \/ takes_along ids d r) /\
    (invalidated r' = false -> r' = r).
Proof.
  intros Hwf Hr Hv. destruct ids as [|i0 ids].
  { exists r. split_and!; [done..| |done]. rewrite Hv. split; [done|].
    intros [[?%elem_of_nil _]|(_ & _ & _ & _ & _ & j & x & ?%elem_of_nil & _)]; done. }
  cbn [invalidate_noncanonical_ranges].
  rewrite (surjective_pairing (update_rows _ _ d)).
  rewrite (surjective_pairing (update_rows _ _ (update_rows _ _ d).1)). cbn [fst].
  rewrite lookup_update_rows, lookup_update_rows, Hr. cbn [fmap option_fmap option_map].
  eexists. split; [done|].
  set (stale := filter _ _). set (L := i0 :: ids) in *.
  assert (Hid : id r = i) by by apply (wf_id _ Hwf).
  assert (HT : stale_aggregation commitment l1 l2 stale r = true <-> takes_along L d r).
  { unfold stale_aggregation, takes_along, stale. rewrite !andb_true_iff, has_status_iff, Hv.
    unfold has_type. rewrite bool_decide_eq_true, stale_rows by done. unfold PENDING. tauto. }
  assert (HS : stale_range L r = true <-> i ∈ L /\ req_type r = Range /\ status r = Complete).
  { unfold stale_range, has_type. rewrite !andb_true_iff, has_status_iff, !bool_decide_eq_true, Hv, Hid.
    rewrite list_elem_of_singleton. cbn. tauto. }
  destruct (stale_range L r) eqn:ES.
  - assert (Hno : stale_aggregation commitment l1 l2 stale
      (mk_request (fixed r) (set_invalidated now (progress r) Invalidated)) = false).
    { unfold stale_aggregation. apply andb_false_iff. left. cbn. by rewrite !andb_false_r. }
    rewrite Hno. split_and!; [done..| |done]. split; [|done]. intros _. left. by apply HS.
  - destruct (stale_aggregation commitment l1 l2 stale r) eqn:EA.
    + split_and!; [done..| |done]. split; [|done]. intros _. right. by apply HT.
    + split_and!; [done..| |done]. rewrite Hv. split; [done|]. intros [H|H]; [by apply HS in H|by apply HT in H].
Qed.

(** A row that was invalidated before is left alone. *)
Lemma invalidate_other now ids d i (r : OPSuccinctRequest) :
  rows d !! i = Some r -> invalidated r = true ->
  rows (invalidate_noncanonical_ranges now ids commitment l1 l2 d).1 !! i = Some r.
Proof.
  intros Hr Hv. destruct ids as [|i0 ids]; [done|]. cbn [invalidate_noncanonical_ranges].
  rewrite (surjective_pairing (update_rows _ _ d)).
  rewrite (surjective_pairing (update_rows _ _ (update_rows _ _ d).1)). cbn [fst].
  rewrite lookup_update_rows, lookup_update_rows, Hr. cbn [fmap option_fmap option_map]. f_equal.
  unfold stale_range, stale_aggregation. rewrite Hv. cbn [negb]. by rewrite !andb_false_r, Hv, !andb_false_r.
Qed.
(** ** The whole reconciliation *)

Definition canonical_hash (e : Env) (n : Z) : option Z :=
  match get_l1_header e (L1Number n) with Ok hd => Some (hash_slow hd) | _ => None end.

Lemma known_matches e m (r : OPSuccinctRequest) :
  known e m -> head_read (fun n => m !! n) r ->
  head_matches (fun n => m !! n) r <-> head_matches (canonical_hash e) r.
Proof.
  intros Hk (n & h & ch & Hn & Hh & Hm). destruct (Hk _ _ Hm) as (hd & Hhd & <-).
  unfold head_matches, canonical_hash. split; intros (n' & h' & Hn' & Hh' & Hm'); exists n', h';
    (split_and!; [done|done|]); assert (n' = n) as -> by congruence.
  - rewrite Hhd. congruence.
  - rewrite Hhd in Hm'. congruence.
Qed.

(** A completed range at or after [latest], valid in [s], whose L1 head, as
    recorded in [s'], is not a canonical block. *)
Definition stale (latest : Z) (s s' : Shared) (j : Z) : Prop :=
  exists x x' : OPSuccinctRequest, rows (db s) !! j = Some x /\ rows (db s') !! j = Some x' /\
    completed_range commitment l1 l2 latest x = true /\ ~ head_matches (canonical_hash (env s)) x'.

Lemma same_life_completed latest (r r' : OPSuccinctRequest) :
  same_life r r' ->
  completed_range commitment l1 l2 latest r' = completed_range commitment l1 l2 latest r.
Proof.
  intros (Hf & Hs & Hi). unfold completed_range, same_programs, has_status, invalidated, has_type, on_chain.
  by rewrite Hf, Hs, Hi.
Qed.

Lemma same_life_invalidated (r r' : OPSuccinctRequest) : same_life r r' -> invalidated r' = invalidated r.
Proof. intros (_ & _ & Hi). unfold invalidated. by rewrite Hi. Qed.

Lemma completed_range_iff latest (r : OPSuccinctRequest) :
  completed_range commitment l1 l2 latest r = true ->
  req_type r = Range /\ status r = Complete /\ invalidated r = false.
Proof.
  unfold completed_range, has_type. rewrite !andb_true_iff, has_status_iff, bool_decide_eq_true,
    negb_true_iff, list_elem_of_singleton. tauto.
Qed.

Lemma run_heads {A} (p : Prog A) s s' o : guar only_heads p -> run p s = (s', o) -> only_heads s s'.
Proof. intros Hp Hr. pose proof (guar_run only_heads p s Hp) as H. by rewrite Hr in H. Qed.

(** What the run does after the hydration, on tables [d1]. *)
Lemma reconcile_run s s' :
  run (reconcile_completed_range_canonicality config) s = (s', Ok true) ->
  exists latest s1 ids, latestBlockNumber (env s) = Ok latest /\ only_heads s s1 /\
    db s' = (invalidate_noncanonical_ranges (NOW (env s)) ids commitment l1 l2 (db s1)).1 /\
    exists m, known (env s) m /\
      collect_stale m (fetch_completed_range_metadata commitment l1 l2 (as_i64 latest) (db s1)) = Ok ids.
Proof.
  unfold reconcile_completed_range_canonicality. intros H.
  apply run_bind_Ok in H as (s1 & latest & H1 & H). apply run_latest_Ok in H1 as [-> Hlat].
  apply run_bind_Ok in H as (s2 & missing & H2 & H). apply run_query_Ok in H2 as (_ & Hd2 & He2 & _).
  apply run_bind_Ok in H as (s3 & [] & H3 & H).
  assert (Hheads : only_heads s2 s3).
  { eapply run_heads; [|exact H3]. apply guar_each. intros r. apply heads_hydrate. }
  assert (He3 : env s3 = env s2).
  { eapply run_env; [|exact H3]. apply guar_each. intros r. apply env_hydrate. }
  destruct (_ <? _); [by injection H|].
  apply run_bind_Ok in H as (s4 & l & H4 & H). apply run_query_Ok in H4 as (-> & Hd4 & He4 & _).
  apply run_bind_Ok in H as (s5 & m & H5 & H). apply fetch_hashes_Ok in H5 as [-> Hk]; [|by intros ? ? ?].
  apply run_bind_Ok in H as (s6 & ids & H6 & H). injection H6 as -> Hids.
  apply run_bind_Ok in H as (s7 & res & H7 & H). apply run_execute_Ok in H7 as (Hd7 & _).
  injection H as ->. exists latest, s3, ids. split_and!; [done| |by rewrite He4, He3, He2 in Hd7; rewrite Hd4 in Hd7; rewrite Hd7|].
  - unfold only_heads in *. by rewrite Hd2 in Hheads.
  - exists m. split; [by rewrite He4, He3, He2 in Hk|]. done.
Qed.

Section reconciled.
Context (s s1 s' : Shared) (latest : Z) (ids : list Z) (m : gmap Z Z).
Context (Hwf : wf_db (db s)) (Hheads : only_heads s s1) (Hknown : known (env s) m).
Context (Hids : collect_stale m (fetch_completed_range_metadata commitment l1 l2 latest (db s1)) = Ok ids).
Context (Hdb : db s' = (invalidate_noncanonical_ranges (NOW (env s)) ids commitment l1 l2 (db s1)).1).

Lemma hydrated_row i (r : OPSuccinctRequest) :
  rows (db s) !! i = Some r -> exists r1 : OPSuccinctRequest, rows (db s1) !! i = Some r1 /\ same_life r r1.
Proof.
  intros Hr. destruct (Hheads Hwf) as [_ HL]. specialize (HL i). rewrite Hr in HL.
  inversion HL as [? r1 H|]; subst. by exists r1.
Qed.

Lemma unhydrated_row i (r1 : OPSuccinctRequest) :
  rows (db s1) !! i = Some r1 -> exists r : OPSuccinctRequest, rows (db s) !! i = Some r /\ same_life r r1.
Proof.
  intros Hr. destruct (Hheads Hwf) as [_ HL]. specialize (HL i). rewrite Hr in HL.
  inversion HL as [r ? H|]; subst. by exists r.
Qed.

Lemma final_row i (r1 : OPSuccinctRequest) :
  rows (db s1) !! i = Some r1 -> invalidated r1 = false ->
  exists r' : OPSuccinctRequest, rows (db s') !! i = Some r' /\ fixed r' = fixed r1 /\
    (head_matches (canonical_hash (env s)) r' <-> head_matches (canonical_hash (env s)) r1) /\
    (invalidated r' = true <->
     (i ∈ ids /\ req_type r1 = Range /\ status r1 = Complete) \/ takes_along ids (db s1) r1).
Proof.
  intros Hr Hv. destruct (Hheads Hwf) as [Hwf1 _].
  destruct (invalidate_row (NOW (env s)) ids _ i r1 Hwf1 Hr Hv) as (r' & Hr' & Hf & Hn & Hh & Hiff & _).
  rewrite <- Hdb in Hr'. exists r'. split_and!; [done..| |done]. unfold head_matches. by rewrite Hn, Hh.
Qed.

(** The collected ids are those of the stale ranges. *)
Lemma stale_ids j : stale latest s s' j <-> j ∈ ids.
Proof.
  destruct (Hheads Hwf) as [Hwf1 _]. destruct (collect_stale_Ok _ _ _ Hids) as [Hread Hin].
  rewrite Hin. split.
  - intros (x & x' & Hx & Hx' & Hc & Hm). destruct (hydrated_row j x Hx) as (x1 & Hx1 & HL).
    rewrite <- (same_life_completed _ _ _ HL) in Hc. destruct (completed_range_iff _ _ Hc) as (_ & _ & Hv).
    destruct (final_row j x1 Hx1 Hv) as (x2 & Hx2 & _ & Hmm & _). assert (x2 = x') as -> by congruence.
    assert (Hinl : x1 ∈ fetch_completed_range_metadata commitment l1 l2 latest (db s1)).
    { apply elem_of_select_ordered. split; [done|by exists j]. }
    exists x1. split; [done|]. split; [by apply (wf_id _ Hwf1)|].
    rewrite (known_matches _ _ _ Hknown (Hread _ Hinl)). by rewrite <- Hmm.
  - intros (r1 & Hr1 & <- & Hm). rewrite (known_matches _ _ _ Hknown (Hread _ Hr1)) in Hm.
    apply select_ordered_at_key in Hr1 as [Hr1 Hc]; [|done].
    destruct (completed_range_iff _ _ Hc) as (_ & _ & Hv).
    destruct (unhydrated_row _ _ Hr1) as (r & Hr & HL). rewrite (same_life_completed _ _ _ HL) in Hc.
    destruct (final_row _ r1 Hr1 Hv) as (r' & Hr' & _ & Hmm & _). exists r, r'.
    split_and!; [done..|]. by rewrite Hmm.
Qed.

Lemma stale_type j (r1 : OPSuccinctRequest) :
  j ∈ ids -> rows (db s1) !! j = Some r1 -> req_type r1 = Range /\ status r1 = Complete.
Proof.
  destruct (Hheads Hwf) as [Hwf1 _]. intros Hj Hr.
  apply (collect_stale_Ok _ _ _ Hids) in Hj as (x & Hx & Hid & _).
  apply select_ordered_at_key in Hx as [Hx Hc]; [|done]. rewrite Hid in Hx.
  assert (x = r1) as -> by congruence. by destruct (completed_range_iff _ _ Hc) as (? & ? & _).
Qed.

(** A stale range within [a, b], before and after the hydration. *)
Lemma stale_within a b :
  (exists j (x : OPSuccinctRequest), j ∈ ids /\ rows (db s1) !! j = Some x /\
     a <= start_block x /\ end_block x <= b) <->
  (exists j (x : OPSuccinctRequest), stale latest s s' j /\ rows (db s) !! j = Some x /\
     a <= start_block x /\ end_block x <= b).
Proof.
  split; intros (j & x & Hj & Hx & H1 & H2).
  - destruct (unhydrated_row _ _ Hx) as (x0 & Hx0 & Hf & _). exists j, x0. rewrite stale_ids, <- Hf. done.
  - destruct (hydrated_row _ _ Hx) as (x0 & Hx0 & Hf & _). exists j, x0. rewrite <- stale_ids, Hf. done.
Qed.
End reconciled.

(** C19: a reconciliation that reports it is ready leaves every completed range
    proof of the unproposed chain bound to a canonical L1 block: it invalidates
    exactly the completed ranges whose recorded L1 head is not the canonical
    block of that number, and the pending aggregations that contain one of
    them; every other request keeps its validity. *)
Theorem reconcile_invalidates_exactly s s' :
  wf_db (db s) ->
  run (reconcile_completed_range_canonicality config) s = (s', Ok true) ->
  exists latest, latestBlockNumber (env s) = Ok latest /\
  forall i (r : OPSuccinctRequest), rows (db s) !! i = Some r ->
  exists r' : OPSuccinctRequest, rows (db s') !! i = Some r' /\ fixed r' = fixed r /\
    (invalidated r = true -> invalidated r' = true) /\
    (invalidated r = false ->
       invalidated r' = true <->
       stale (as_i64 latest) s s' i \/
       (req_type r = Aggregation /\ status r ∈ PENDING /\ same_programs commitment r = true /\
        same_agg_vkey commitment r = true /\ on_chain l1 l2 r = true /\
        exists j (x : OPSuccinctRequest), stale (as_i64 latest) s s' j /\ rows (db s) !! j = Some x /\
          start_block r <= start_block x /\ end_block x <= end_block r)).
Proof.
  intros Hwf Hrun. destruct (reconcile_run s s' Hrun) as (latest & s1 & ids & Hl & Hh & Hd & m & Hk & Hids).
  exists latest. split; [done|]. intros i r Hr.
  destruct (hydrated_row s s1 Hwf Hh i r Hr) as (r1 & Hr1 & HL). pose proof HL as (Hf & Hs & _).
  pose proof (same_life_invalidated _ _ HL) as Hsame. destruct (invalidated r) eqn:Hv.
  { exists r1. split; [rewrite Hd; by apply invalidate_other|]. by split_and!. }
  destruct (final_row s s1 s' ids Hwf Hh Hd i r1 Hr1 Hsame) as (r' & Hr' & Hf' & _ & Hiff).
  exists r'. split_and!; [done|congruence|done|]. intros _. rewrite Hiff.
  rewrite (stale_ids s s1 s' (as_i64 latest) ids m), <- (stale_within s s1 s' (as_i64 latest) ids m) by done.
  unfold takes_along, same_programs, same_agg_vkey, on_chain. rewrite Hf, Hs.
  apply or_iff_compat_r. split; [tauto|]. intros Hi. split; [done|].
  destruct (stale_type s s1 (as_i64 latest) ids m Hwf Hh Hids i r1 Hi Hr1) as [Ht Hc].
  rewrite Hf in Ht. by rewrite Hs in Hc.
Qed.
End reconcile.

(** The first range is bound to a block that is not canonical; the aggregation
    over it goes with it. *)
Definition sample_stale : Shared := sample_shared
  [sample_range 1 100 110 Complete (Some (65, 999)) None; sample_agg 2 100 110 Prove None;
   sample_range 3 110 120 Complete (Some (65, 1065)) None] (sample_env 100 140 3).

Lemma reconcile_invalidates_exactly_witness :
  let s' := (run (reconcile_completed_range_canonicality sample_config) sample_stale).1 in
  exists r' : OPSuccinctRequest, rows (db s') !! 2 = Some r' /\ invalidated r' = true.
Proof.
  intros s'.
  assert (Hrun : run (reconcile_completed_range_canonicality sample_config) sample_stale = (s', Ok true))
    by (vm_compute; reflexivity).
  assert (Hwf : wf_db (db sample_stale)) by (apply db_check_inv; vm_compute; reflexivity).
  destruct (reconcile_invalidates_exactly sample_config sample_stale s' Hwf Hrun) as (latest & Hl & Hrows).
  injection Hl as <-.
  destruct (Hrows 2 (sample_agg 2 100 110 Prove None) eq_refl) as (r' & Hr' & _ & _ & Hiff).
  exists r'. split; [exact Hr'|]. apply Hiff; [reflexivity|]. right.
  split; [reflexivity|]. split; [apply status_in; reflexivity|]. split; [reflexivity|].
  split; [reflexivity|]. split; [reflexivity|].
  set (x := sample_range 1 100 110 Complete (Some (65, 999)) None).
  exists 1, x. split; [|split; [reflexivity|split; apply Z.leb_le; reflexivity]].
  set (x' := match rows (db s') !! 1 with Some r => r | None => x end).
  exists x, x'. split; [reflexivity|]. split; [vm_compute; reflexivity|]. split; [vm_compute; reflexivity|].
  intros (n & h & Hn & Hh & Hc).
  assert (Hn' : l1_head_block_number x' = Some 65) by (vm_compute; reflexivity).
  assert (Hh' : l1_head_block_hash x' = Some 999) by (vm_compute; reflexivity).
  rewrite Hn' in Hn. rewrite Hh' in Hh. injection Hn as <-. injection Hh as <-. vm_compute in Hc. discriminate.
Defined.
