(* ===== verification/ValidityAggregation.v ===== *)
(** * Aggregation requests and their relay

    What one run of [create_aggregation_proofs] queues, on any tables and any
    environment (which chain of range proofs the request covers, and how its L1
    checkpoint relates to them), and what [submit_agg_proofs] sends. *)

From S2P Require Import Prelude.
From S2P Require Import ValidityRanges.
From S2P Require Import Interleaving.
From S2P Require Import RequestDb.
From S2P Require Import RequestDbLaws.
From S2P Require Import ValidityTypes.
From S2P Require Import ProofRequester.
From S2P Require Import ValidityProposer.
From S2P Require Import ValidityRely.
From S2P Require Import ValidityRun.
From S2P Require Import ValidityColumns.
From S2P Require Import ValidityPlanning.

(** A node answers a query by number with the block of that number, and block
    numbers fit the database. *)
Definition headers_by_number (e : Env) : Prop :=
  forall b hd, get_l1_header e b = Ok hd ->
    0 <= number hd <= i64_max /\ forall n, b = L1Number n -> number hd = n.

(** A checkpoint [n] is at or after the batch's largest L1 head. *)
Definition covers_head (batch_max_l1_head : option Z) (n : Z) : Prop :=
  forall mx, batch_max_l1_head = Some mx -> mx <= n.

Lemma run_send_Ok tx s s' r :
  run (send tx) s = (s', Ok r) ->
  db s' = db s /\ env s' = env s /\ submitted s' = submitted s ++ [tx] /\
  send_transaction_request (env s) (length (submitted s)) tx = Ok r.
Proof. cbn. by intros [= <- ->]. Qed.

Lemma reusable_checkpoint_Ok existing bm s s' o :
  run (reusable_checkpoint existing bm) s = (s', Ok o) ->
  s' = s /\ forall h n, o = Some (h, n) ->
    historicBlockHashes (env s) n = Ok h /\ h <> B256_ZERO /\ covers_head bm n.
Proof.
  unfold reusable_checkpoint. destruct existing as [[eh en]|]; [|by intros [= <- <-]].
  intros H. apply run_bind_Ok in H as (s1 & n & H1 & H). injection H1 as -> Hn.
  apply run_bind_Ok in H as (s2 & oh & H2 & H). apply run_ask_Ok in H2 as [-> Hoh].
  assert (n = en) as ->.
  { unfold u64_try_from in Hn. destruct (_ && _); [|done]. by injection Hn. }
  destruct (Z.eqb_spec oh B256_ZERO) as [|Hz]; [by injection H as -> <-|].
  destruct (Z.eqb_spec oh eh) as [E|]; cbn [negb] in H; [|by injection H as -> <-]. rewrite E in *. clear E.
  destruct bm as [mx|].
  - destruct (Z.ltb_spec en mx); [by injection H as -> <-|]. injection H as -> <-. split; [done|].
    intros h n [= <- <-]. split_and!; [done|done|]. by intros mx' [= <-].
  - injection H as -> <-. split; [done|]. intros h n [= <- <-]. by split_and!.
Qed.

Lemma new_checkpoint_Ok bm s s' h n :
  run (new_checkpoint bm) s = (s', Ok (h, n)) ->
  db s' = db s /\ env s' = env s /\
  exists hd b, get_l1_header (env s) b = Ok hd /\ h = hash_slow hd /\ n = as_i64 (number hd) /\
    submitted s' = submitted s ++ [TxCheckpointBlockHash (number hd)] /\
    (headers_by_number (env s) -> covers_head bm n).
Proof.
  unfold new_checkpoint. intros H. apply run_bind_Ok in H as (s1 & safe & H1 & H).
  apply run_ask_Ok in H1 as [-> Hsafe].
  apply run_bind_Ok in H as (s2 & hd & H2 & H).
  assert (Hhd : s2 = s /\ exists b, get_l1_header (env s) b = Ok hd /\
    (headers_by_number (env s) -> number hd = select_checkpoint_block_number (number safe) bm)).
  { destruct (Z.eqb_spec (select_checkpoint_block_number (number safe) bm) (number safe)) as [E|].
    - injection H2 as -> <-. split; [done|]. exists L1Safe. split; [done|]. by rewrite E.
    - apply run_ask_Ok in H2 as [-> Hhd]. split; [done|]. eexists. split; [exact Hhd|].
      intros HN. by apply (HN _ _ Hhd). }
  destruct Hhd as (-> & b & Hb & Hnum).
  apply run_bind_Ok in H as (s3 & receipt & H3 & H). apply run_send_Ok in H3 as (Hd & He & Hs & _).
  destruct (r_status receipt); [|done]. cbn in H. injection H as -> <- <-. split_and!; [done..|].
  exists hd, b. split_and!; [done..|]. intros HN mx ->. destruct (HN _ _ Hb) as [Hr _].
  rewrite as_i64_small by done. rewrite (Hnum HN). cbn. lia.
Qed.

Section aggregation.
Context {HO : HashOrder} (config : Config).
Notation l1 := (cfg_l1_chain_id config).
Notation l2 := (cfg_l2_chain_id config).
Notation commitment := (commitments config).

Lemma max_head_covers a b d n (r : OPSuccinctRequest) k :
  covers_head (get_max_l1_head_block_number_for_range commitment l1 l2 a b d) n ->
  r ∈ get_consecutive_complete_range_proofs commitment l1 l2 a b d ->
  l1_head_block_number r = Some k -> k <= n.
Proof.
  unfold get_max_l1_head_block_number_for_range, get_consecutive_complete_range_proofs, covers_head.
  rewrite select_ordered_perm. intros Hc Hr Hk.
  assert (Hin : k ∈ omap (fun r : OPSuccinctRequest => l1_head_block_number r)
    (select (consecutive_complete_range commitment l1 l2 a b) d))
    by (apply list_elem_of_omap; by exists r).
  destruct (max_by_key _ _) as [mx|] eqn:E.
  - apply max_by_key_Some in E as [_ Hmax]. specialize (Hmax k Hin). specialize (Hc mx eq_refl). cbn in Hmax. lia.
  - apply max_by_key_None in E. rewrite E in Hin. by apply elem_of_nil in Hin.
Qed.

(** The checkpoint of a new aggregation: one that the contract already knows,
    or one sent in this run. *)
Definition checkpoint_of (s s' : Shared) (n h : Z) : Prop :=
  (submitted s' = submitted s /\ historicBlockHashes (env s) n = Ok h /\ h <> B256_ZERO) \/
  (exists hd b, get_l1_header (env s) b = Ok hd /\ h = hash_slow hd /\ n = as_i64 (number hd) /\
     submitted s' = submitted s ++ [TxCheckpointBlockHash (number hd)]).

Lemma choose_checkpoint_Ok existing bm s s' c :
  run (reuse ← reusable_checkpoint existing bm;
       match reuse with Some reuse => mret reuse | None => new_checkpoint bm end) s = (s', Ok c) ->
  db s' = db s /\ env s' = env s /\ checkpoint_of s s' c.2 c.1 /\
  (headers_by_number (env s) -> covers_head bm c.2).
Proof.
  intros H. apply run_bind_Ok in H as (s1 & reuse & H1 & H).
  apply reusable_checkpoint_Ok in H1 as [-> Hreuse]. destruct reuse as [[h n]|].
  - injection H as -> <-. destruct (Hreuse h n eq_refl) as (? & ? & ?).
    split_and!; [done|done| |done]. by left.
  - destruct c as [h n]. apply new_checkpoint_Ok in H as (Hd & He & hd & b & Hb & Hh & Hn & Hs & Hc).
    split_and!; [done|done| |done]. right. exists hd, b. by split_and!.
Qed.

(** C14: one run of [create_aggregation_proofs] leaves the tables alone, or
    queues exactly one aggregation request: none was pending from the latest
    proposed block, its blocks are those of the longest contiguous chain of
    valid completed ranges from that block, at least as long as both submission
    intervals ask, and its L1 checkpoint (one the contract already stores, or
    the block checkpointed by the one transaction of the run) is at or after
    the L1 head of every range proof it covers. *)
Theorem create_aggregation_sound s s' :
  headers_by_number (env s) ->
  run (create_aggregation_proofs config) s = (s', Ok tt) ->
  (db s' = db s /\ submitted s' = submitted s) \/
  exists latest interval e p n h now,
    latestBlockNumber (env s) = Ok latest /\ submissionInterval (env s) = Ok interval /\
    fetch_active_agg_proofs_count commitment l1 l2 (as_i64 latest) (db s) <= 0 /\
    p <> [] /\ chain_prefix (as_i64 latest) (fetch_completed_ranges commitment l1 l2 (as_i64 latest) (db s)) p e /\
    as_i64 (Z.max interval (submission_interval config)) <= e - as_i64 latest /\
    checkpoint_of s s' n h /\
    (forall (r : OPSuccinctRequest) k,
       r ∈ get_consecutive_complete_range_proofs commitment l1 l2 (as_i64 latest) e (db s) ->
       l1_head_block_number r = Some k -> k <= n) /\
    db s' = (insert_request (new_agg_request now (request_mode config) (as_i64 latest) e
      (c_range_vkey_commitment commitment) (c_agg_vkey_hash commitment)
      (c_rollup_config_hash commitment) l1 l2 n h (signer_address (env s))) (db s)).1.
Proof.
  intros HN. unfold create_aggregation_proofs. intros H. assert (Q : same s s) by reflexivity.
  read_step H latest Hl Q. apply latest_inv in Hl.
  read_step H count Hcount Q. destruct (Z.ltb_spec 0 count) as [|Hle]; [injection H as ->; left; by apply same_left|].
  read_step H l Hranges Q. read_step H highest Hhigh Q.
  destruct highest as [e|]; [|injection H as ->; left; by apply same_left].
  read_step H interval Hint Q.
  apply outcome_bind_Ok in Hint as (i & Hint & Hu). apply to_u64_Ok in Hu as [_ ->].
  destruct (Z.leb_spec (as_i64 (Z.max i (submission_interval config))) (e - as_i64 latest)) as [Hlen|];
    [|injection H as ->; left; by apply same_left].
  read_step H existing Hex Q. read_step H mx Hmx Q. read_step H bm Hbm Q.
  assert (bm = mx) as ->.
  { destruct mx as [n|]; [|by injection Hbm]. apply outcome_fmap_Ok in Hbm as (n' & Hn & <-).
    unfold u64_try_from in Hn. destruct (_ && _); [|done]. by injection Hn as ->. }
  apply run_bind_Ok in H as (s1 & reuse & H1 & H). apply run_bind_Ok in H as (s2 & c & H2 & H).
  destruct (choose_checkpoint_Ok _ _ _ _ _ (proj2 (run_bind_Ok _ _ _ _ _) (ex_intro _ _ (ex_intro _ _ (conj H1 H2)))))
    as (Hd & He & Hc & Hcov). clear H1 H2.
  apply run_bind_Ok in H as (s3 & prover & H3 & H). apply run_ask_Ok in H3 as [-> [= Hp]].
  apply run_bind_Ok in H as (s4 & now & H4 & H). apply run_ask_Ok in H4 as [-> _].
  apply run_bind_Ok in H as (s5 & i5 & H5 & H). apply run_execute_Ok in H5 as (Hins & _ & _ & Hsub).
  injection H as <-. right. destruct Q as [Qd Qe Qs]. exists latest, i, e.
  apply highest_contiguous_prefix in Hhigh as (p & Hp0 & Hp1).
  exists p, c.2, c.1, now. rewrite Hcount in Hle. rewrite Hranges in Hp1. rewrite Hmx, Qe in Hcov.
  split_and!; [done..| | |].
  - unfold checkpoint_of in *. by rewrite Hsub, <- Qs, <- Qe.
  - intros r k Hr Hk. eapply max_head_covers; [by apply Hcov|exact Hr|exact Hk].
  - rewrite <- Hp, Hd, He, Qd, Qe in Hins. by rewrite Hins.
Qed.
End aggregation.

(** ** Relaying *)

Section relay.
Context {HO : HashOrder} (config : Config).
Notation l1 := (cfg_l1_chain_id config).
Notation l2 := (cfg_l2_chain_id config).
Notation commitment := (commitments config).

Lemma same_ask {A} (f : Env -> outcome A) s s' o : run (ask f) s = (s', o) -> same s s'.
Proof. cbn. by intros [= <- _]. Qed.

Lemma same_query {A} (f : Db -> A) s s' o : run (query f) s = (s', o) -> same s s'.
Proof.
  unfold query, statement. rewrite run_act.
  intros (_ & He & _ & Hs & [[= Hd _]|[_ [Hd|Hd]]])%run_statement_cases; by split.
Qed.

(** The transaction that proposes the output of an aggregation. *)
Definition proposes (e : Env) (r : OPSuccinctRequest) (output_root : Z) (tx : TxRequest) : Prop :=
  exists checkpoint bytes, checkpointed_l1_block_number r = Some checkpoint /\ proof r = Some bytes /\
  if dgf_address config =? Address_ZERO then
    tx = TxProposeL2Output (op_succinct_config_name_hash config) output_root (end_block r) checkpoint
           bytes (signer_address e)
  else exists bond, dgf_initBonds e OP_SUCCINCT_VALIDITY_DISPUTE_GAME_TYPE = Ok bond /\
    tx = TxDgfProposeL2Output (op_succinct_config_name_hash config) output_root (end_block r) checkpoint
           bytes (signer_address e) bond.

(** The outcome of one submission. *)
Definition sent_once (s s' : Shared) (tx : TxRequest) (o : outcome Receipt) : Prop :=
  db s' = db s /\ env s' = env s /\ submitted s' = submitted s ++ [tx] /\
  forall receipt, o = Ok receipt -> send_transaction_request (env s) (length (submitted s)) tx = Ok receipt.

Lemma send_cases tx s s' o : run (send tx) s = (s', o) -> sent_once s s' tx o.
Proof. cbn. intros [= <- <-]. by split_and!. Qed.

Lemma propose_cases (r : OPSuccinctRequest) root s s' o :
  run (propose_output config r root) s = (s', o) ->
  (same s s' /\ forall receipt, o <> Ok receipt) \/
  exists tx, proposes (env s) r root tx /\ sent_once s s' tx o.
Proof.
  unfold propose_output, proposes. intros H. destruct (Z.eqb_spec (dgf_address config) Address_ZERO); cbn [negb] in H.
  - destruct (checkpointed_l1_block_number r) as [ck|], (proof r) as [bytes|];
      try (injection H as <- <-; by left).
    apply run_bind_cases in H as [(s1 & prover & H1 & H)|(o1 & H1 & Hn & _)]; [|by destruct (Hn (signer_address (env s))); injection H1].
    apply run_ask_Ok in H1 as [-> [= <-]]. right. eexists. split; [|by apply send_cases].
    by exists ck, bytes.
  - apply run_bind_cases in H as [(s1 & bond & H1 & H)|(o1 & H1 & _ & Ho)]; [|left; by apply same_ask in H1].
    apply run_ask_Ok in H1 as [-> Hbond].
    destruct (checkpointed_l1_block_number r) as [ck|], (proof r) as [bytes|];
      try (injection H as <- <-; by left).
    apply run_bind_cases in H as [(s1 & prover & H1 & H)|(o1 & H1 & Hn & _)]; [|by destruct (Hn (signer_address (env s))); injection H1].
    apply run_ask_Ok in H1 as [-> [= <-]]. right. eexists. split; [exists ck, bytes; by split_and!; [..|exists bond]|].
    set (tx := TxDgfProposeL2Output _ _ _ _ _ _ _) in *.
    assert (Hcatch : exists o2, run (send tx) s = (s', o2) /\
      forall receipt, o = Ok receipt -> o2 = Ok receipt).
    { cbn in H |- *. destruct (send_transaction_request (env s) (length (submitted s)) tx);
        cbn in H; injection H as <- <-; eexists; (split; [done|]); intros ? ?; congruence. }
    destruct Hcatch as (o2 & H2 & Ho). apply send_cases in H2 as (Hd & He & Hs & Hr).
    split_and!; try done. intros receipt Hok. by apply Hr, Ho.
Qed.

Lemma relay_cases (r : OPSuccinctRequest) s s' o :
  run (relay_aggregation_proof config r) s = (s', o) ->
  (same s s' /\ forall h, o <> Ok h) \/
  exists root tx, get_l2_output_at_block (env s) (as_u64 (end_block r)) = Ok root /\
    proposes (env s) r root tx /\ db s' = db s /\ env s' = env s /\ submitted s' = submitted s ++ [tx] /\
    forall h, o = Ok h -> exists receipt,
      send_transaction_request (env s) (length (submitted s)) tx = Ok receipt /\
      r_status receipt = true /\ h = r_hash receipt.
Proof.
  unfold relay_aggregation_proof. intros H.
  apply run_bind_cases in H as [(s1 & root & H1 & H)|(o1 & H1 & _ & Ho)]; [|left; by apply same_ask in H1].
  apply run_ask_Ok in H1 as [-> Hroot].
  apply run_bind_cases in H as [(s1 & receipt & H1 & H)|(o1 & H1 & _ & Ho)];
    apply propose_cases in H1 as [[Hs Hn]|(tx & Hp & Hd & He & Hs & Hr)].
  - by destruct (Hn receipt).
  - right. exists root, tx. specialize (Hr receipt eq_refl).
    destruct (r_status receipt) eqn:Est; cbn in H; injection H as <- <-; split_and!; try done.
    intros h [= <-]. by exists receipt.
  - by left.
  - right. exists root, tx. split_and!; try done. intros h ->. by destruct (Ho h).
Qed.

(** C15: one run of [submit_agg_proofs], whatever its outcome, sends at most one
    transaction: the proposal of the output root of a stored aggregation that
    is complete, valid, made with the current programs, and starts at the
    latest proposed block; and if the run succeeds after sending it, the
    transaction was accepted and the request is recorded as relayed by it. *)
Theorem submit_agg_sound s s' o :
  wf_db (db s) ->
  run (submit_agg_proofs config) s = (s', o) ->
  (db s' = db s /\ submitted s' = submitted s) \/
  exists latest (r : OPSuccinctRequest) root tx,
    latestBlockNumber (env s) = Ok latest /\ rows (db s) !! id r = Some r /\
    status r = Complete /\ invalidated r = false /\ req_type r = Aggregation /\
    start_block r = as_i64 latest /\ same_programs commitment r = true /\
    same_agg_vkey commitment r = true /\ on_chain l1 l2 r = true /\
    get_l2_output_at_block (env s) (as_u64 (end_block r)) = Ok root /\
    proposes (env s) r root tx /\ submitted s' = submitted s ++ [tx] /\
    (o = Ok tt -> exists receipt,
       send_transaction_request (env s) (length (submitted s)) tx = Ok receipt /\
       r_status receipt = true /\
       rows (db s') !! id r = Some (mk_request (fixed r)
         (set_relayed (NOW (env s)) (progress r) (r_hash receipt) (l2oo_address config)))).
Proof.
  intros Hwf. unfold submit_agg_proofs. intros H.
  apply run_bind_cases in H as [(s1 & latest & H1 & H)|(o1 & H1 & _ & Ho)];
    [|left; by apply same_ask, same_left in H1].
  apply run_latest_Ok in H1 as [-> Hl].
  apply run_bind_cases in H as [(s1 & agg & H1 & H)|(o1 & H1 & _ & Ho)];
    [|left; by apply same_query, same_left in H1].
  pose proof (same_query _ _ _ _ H1) as [Qd Qe Qs]. apply run_query_Ok in H1 as (-> & _).
  destruct (fetch_completed_agg_proof_after_block _ _ _ _ _) as [r|] eqn:Er;
    [|injection H as <- _; by left].
  apply head_elem, select_ordered_at_key in Er as [Hr Hw]; [|done].
  unfold has_type in Hw. rewrite !andb_true_iff, has_status_iff, negb_true_iff, bool_decide_eq_true, Z.eqb_eq,
    list_elem_of_singleton in Hw. destruct Hw as [[[[[[Hprog Hvk] Hst] Hv] Hty] Hsb] Hch].
  apply run_bind_cases in H as [(s2 & h & H1 & H)|(o1 & H1 & _ & Ho)];
    apply relay_cases in H1 as [[[? ? ?] Hn]|(root & tx & Hroot & Hp & Hd & He & Hs & Hh)].
  - by destruct (Hn h).
  - right. rewrite Qe in *. exists latest, r, root, tx. rewrite <- Qs.
    apply run_bind_cases in H as [(s3 & recorded & H3 & H)|(o1 & H3 & Hn3 & Ho)].
    + apply run_execute_Ok in H3 as (Hf & He3 & _ & Hs3).
      assert (Hs' : s' = s3 /\ (o = Ok tt -> recorded = true)).
      { injection H as <- <-. split; [done|]. by destruct recorded. }
      destruct Hs' as [-> Hrec]. split_and!; try done; [by rewrite Hs3|].
      intros Hok. destruct (Hh h eq_refl) as (receipt & Hsend & Hstat & ->). exists receipt.
      split_and!; [done..|]. rewrite He in Hf. rewrite Hd, Qd in Hf.
      unfold update_request_to_relayed in Hf. erewrite update_row_hit in Hf; [|done|exact Hr|].
      * injection Hf as <- _. cbn. by rewrite lookup_insert_eq.
      * rewrite Hv, andb_true_r. apply has_status_iff. rewrite Hst. by apply list_elem_of_singleton.
    + unfold execute, statement in H3. rewrite run_act in H3.
      apply run_statement_cases in H3 as (_ & _ & _ & Hs3 & _).
      split_and!; try done; [by rewrite Hs3|]. intros ->. by destruct (Ho tt).
  - left. split; congruence.
  - right. rewrite Qe in *. exists latest, r, root, tx. rewrite <- Qs. split_and!; try done.
    intros ->. by destruct (Ho tt).
Qed.
End relay.

Lemma sample_headers latest provable f : headers_by_number (sample_env latest provable f).
Proof.
  intros b hd. cbn. set (n := match b with L1Safe => 70 | L1Number n => n | L1Hash h => h - 1000 end).
  destruct (Z.leb_spec 0 n); [|done]. destruct (Z.leb_spec n 80); [|done]. intros [= <-]. cbn.
  split; [unfold i64_max; lia|]. intros m ->. done.
Qed.

(** Two completed ranges make the twenty blocks the sample asks for. *)
Definition sample_completed : Shared := sample_shared
  [sample_range 1 100 110 Complete (Some (65, 1065)) None;
   sample_range 2 110 120 Complete (Some (75, 1075)) None] (sample_env 100 140 3).

Lemma create_aggregation_sound_witness :
  let s' := (run (create_aggregation_proofs sample_config) sample_completed).1 in
  exists n h, checkpoint_of sample_completed s' n h /\ 75 <= n.
Proof.
  intros s'.
  assert (Hrun : run (create_aggregation_proofs sample_config) sample_completed = (s', Ok tt))
    by (vm_compute; reflexivity).
  destruct (create_aggregation_sound sample_config sample_completed s' (sample_headers 100 140 3) Hrun)
    as [[Hd _]|(latest & i & e & p & n & h & now & Hl & _ & _ & _ & Hp & _ & Hc & Hcov & _)].
  - apply (f_equal next_id) in Hd. vm_compute in Hd. discriminate.
  - injection Hl as <-. exists n, h. split; [exact Hc|].
    destruct Hp as (rest & Hp & Hch & Hr).
    pose proof (contiguous_loop_chain _ true _ _ _ Hch Hr) as Hend. rewrite <- Hp in Hend.
    vm_compute in Hend. injection Hend as <-.
    apply (Hcov (sample_range 2 110 120 Complete (Some (75, 1075)) None)); [|reflexivity].
    apply elem_of_select_ordered. split; [reflexivity|]. exists 2. reflexivity.
Defined.

(** A complete aggregation of the sample is proposed to the oracle. *)
Definition sample_complete_agg : Shared := sample_shared
  [sample_agg 2 100 110 Complete None] (sample_env 100 140 3).

Lemma submit_agg_sound_witness :
  let s' := (run (submit_agg_proofs sample_config) sample_complete_agg).1 in
  exists tx, submitted s' = [tx] /\ proposes sample_config (env sample_complete_agg)
    (sample_agg 2 100 110 Complete None) 2110 tx.
Proof.
  intros s'.
  assert (Hrun : run (submit_agg_proofs sample_config) sample_complete_agg = (s', Ok tt))
    by (vm_compute; reflexivity).
  assert (Hwf : wf_db (db sample_complete_agg)) by (apply db_check_inv; vm_compute; reflexivity).
  destruct (submit_agg_sound sample_config sample_complete_agg s' (Ok tt) Hwf Hrun)
    as [[_ Hs]|(latest & r & root & tx & _ & Hr & _ & _ & _ & _ & _ & _ & _ & Hroot & Hp & Hs & _)].
  - vm_compute in Hs. discriminate.
  - exists tx. split; [exact Hs|].
    assert (r = sample_agg 2 100 110 Complete None) as ->.
    { cbn in Hr. apply lookup_insert_Some in Hr as [[_ Hr]|[_ Hr]]; [by rewrite <- Hr|by rewrite lookup_empty in Hr]. }
    vm_compute in Hroot. injection Hroot as <-. exact Hp.
Defined.
