(* ===== verification/ValidityScheduling.v ===== *)
(** * New and split range requests

    What one run of [add_new_ranges] and of [handle_failed_request] does to the
    tables, on any tables and any environment: which blocks get a new range
    request, that no block is requested twice, and when and how a failed range
    is split. *)

From S2P Require Import Prelude.
From S2P Require Import ValidityRanges.
From S2P Require Import Interleaving.
From S2P Require Import RequestDb.
From S2P Require Import RequestDbLaws.
From S2P Require Import ValidityTypes.
From S2P Require Import ProofRequester.
From S2P Require Import ValidityProposer.
From S2P Require Import ValidityRely.
From S2P Require Import ValidityRun.
From S2P Require Import ValidityColumns.
From S2P Require Import ValidityPlanning.

Section scheduling.
Context {HO : HashOrder} (config : Config).
Notation l1 := (cfg_l1_chain_id config).
Notation l2 := (cfg_l2_chain_id config).
Notation commitment := (commitments config).

(** A queued range request for the configured programs. *)
Definition queued_range (m : RequestMode) (k1 k2 : Z) (r : OPSuccinctRequest) : Prop :=
  req_type r = Range /\ status r = Unrequested /\ mode r = m /\ same_programs commitment r = true /\
  on_chain k1 k2 r = true.

Lemma create_range_request_Ok m a b k1 k2 s0 s s' (r : OPSuccinctRequest) :
  same s0 s ->
  run (create_range_request m a b (c_range_vkey_commitment commitment)
         (c_rollup_config_hash commitment) k1 k2) s = (s', Ok r) ->
  same s0 s' /\ blocks_of r = (a, b) /\ queued_range m k1 k2 r.
Proof.
  intros Q H. unfold create_range_request in H. read_step H data Hdata Q. read_step H now Hnow Q.
  injection H as <- <-. split_and!; [done|done|]. unfold queued_range. split_and!; [done..| |].
  - unfold same_programs. cbn. by rewrite !Z.eqb_refl.
  - unfold on_chain. cbn. by rewrite !Z.eqb_refl.
Qed.

(** ** Splitting a failed range *)

Lemma split_request_Ok (request : OPSuccinctRequest) k1 k2 s0 s s' l :
  same s0 s -> run (split_request config request k1 k2) s = (s', Ok l) ->
  same s0 s' /\
  blocks_of <$> l =
    [(start_block request, Z.quot (as_i64 (start_block request + end_block request)) 2);
     (Z.quot (as_i64 (start_block request + end_block request)) 2, end_block request)] /\
  Forall (queued_range (mode request) (as_i64 k1) (as_i64 k2)) l.
Proof.
  intros Q H. unfold split_request in H.
  apply run_bind_Ok in H as (s1 & a & H1 & H). apply (create_range_request_Ok _ _ _ _ _ _ _ _ _ Q) in H1 as (Q1 & Ha & Hqa).
  apply run_bind_Ok in H as (s2 & b & H2 & H). apply (create_range_request_Ok _ _ _ _ _ _ _ _ _ Q1) in H2 as (Q2 & Hb & Hqb).
  injection H as <- <-. split_and!; [done| |by rewrite Forall_cons, Forall_singleton]. cbn. by rewrite Ha, Hb.
Qed.

Lemma midpoint a b : 0 <= a -> 1 < b - a -> a + b <= i64_max ->
  a < Z.quot (as_i64 (a + b)) 2 < b /\
  Z.abs ((b - Z.quot (as_i64 (a + b)) 2) - (Z.quot (as_i64 (a + b)) 2 - a)) <= 1.
Proof.
  intros. rewrite as_i64_small by lia. rewrite Z.quot_div_nonneg by lia.
  pose proof (Z.div_mod (a + b) 2). pose proof (Z.mod_pos_bound (a + b) 2). lia.
Qed.

(** The tables once the request is recorded as failed. *)
Definition failed_tables (request : OPSuccinctRequest) (s : Shared) : Db :=
  (update_request_status (NOW (env s)) (id request) Failed (db s)).1.

(** The condition under which the range is worth splitting. *)
Definition splits (request : OPSuccinctRequest) (execution_status : Z) (d : Db) : Prop :=
  req_type request = Range /\ 1 < end_block request - start_block request /\
  (2 < fetch_failed_request_count_by_block_range commitment (l1_chain_id request)
         (l2_chain_id request) (start_block request) (end_block request) d \/
   execution_status = ExecutionStatus_Unexecutable).

(** C18: A successful failure handler drops an invalidated request without
    failing it. Any other request becomes [Failed], and its range is requested
    again as two nonempty contiguous halves, equal up to one block, exactly
    when it is a range of at least two blocks that is unexecutable or has now
    failed more than twice; nothing else in the tables changes. *)
Theorem handle_failed_request_spec s s' execution_status (request : OPSuccinctRequest) :
  0 <= start_block request -> 0 <= end_block request ->
  start_block request + end_block request <= i64_max ->
  run (handle_failed_request config request execution_status) s = (s', Ok tt) ->
  exists r, fetch_request (id request) (db s) = Ok r /\
  (invalidated r = true ->
     db s' = (finish_invalidated_request (NOW (env s)) (id request) (db s)).1) /\
  (invalidated r = false -> splits request execution_status (failed_tables request s) ->
     exists x y mid k1 k2, l1_get_chain_id (env s) = Ok k1 /\ l2_get_chain_id (env s) = Ok k2 /\
       db s' = (insert_requests [x; y] (failed_tables request s)).1 /\
       Forall (queued_range (mode request) (as_i64 k1) (as_i64 k2)) [x; y] /\
       chain (start_block request) (blocks_of <$> [x; y]) (end_block request) /\
       blocks_of x = (start_block request, mid) /\
       Z.abs ((end_block request - mid) - (mid - start_block request)) <= 1) /\
  (invalidated r = false -> ~ splits request execution_status (failed_tables request s) ->
     db s' = failed_tables request s).
Proof.
  intros Ha Hb Hsum. unfold handle_failed_request. intros H.
  apply run_bind_Ok in H as (s1 & gone & H1 & H).
  apply run_query_one_Ok in H1 as (Hgone & Hd1 & He1 & _).
  unfold is_request_invalidated in Hgone. apply outcome_bind_Ok in Hgone as (r & Hr & [= <-]).
  exists r. split; [done|]. destruct (invalidated r) eqn:Ev.
  { apply run_bind_Ok in H as (s2 & done_ & H2 & H). apply run_execute_Ok in H2 as (H2 & _).
    injection H as ->. rewrite He1, Hd1 in H2. split; [|by split]. intros _. by rewrite H2. }
  split; [done|].
  apply run_bind_Ok in H as (s2 & n & H2 & H). apply run_execute_Ok in H2 as (H2 & He2 & _).
  rewrite He1, Hd1 in H2.
  assert (Hd2 : db s2 = failed_tables request s) by (unfold failed_tables; by rewrite H2).
  assert (Henv : env s2 = env s) by congruence. assert (Q : same s2 s2) by reflexivity.
  read_step H k1 Hk1 Q. read_step H k2 Hk2 Q. rewrite Henv in Hk1, Hk2.
  rewrite as_i64_small_diff in H by lia.
  destruct (Z.ltb_spec 1 (end_block request - start_block request)) as [Hlong|Hshort]; cbn [andb] in H.
  2: { injection H as ->. rewrite (same_db _ _ Q), Hd2. split; [|done]. intros _ (_ & ? & _). lia. }
  case_bool_decide as Hrange.
  2: { injection H as ->. rewrite (same_db _ _ Q), Hd2. split; [|done]. by intros _ (? & _). }
  read_step H failures Hcount Q. rewrite Hd2 in Hcount. subst failures.
  destruct (_ || _) eqn:Ebig.
  - assert (Hsplit : splits request execution_status (failed_tables request s)).
    { apply orb_true_iff in Ebig. rewrite Z.ltb_lt, Z.eqb_eq in Ebig. by split_and!. }
    split; [intros _ _|done].
    apply run_bind_Ok in H as (s3 & l & H3 & H). apply (split_request_Ok _ _ _ _ _ _ _ Q) in H3 as (Q3 & Hl & Hq).
    apply run_execute_Ok in H as (H & _). rewrite (same_db _ _ Q3), Hd2 in H.
    destruct l as [|qa [|qb [|]]]; try done. destruct (midpoint _ _ Ha Hlong Hsum) as [Hmid Habs].
    exists qa, qb, (Z.quot (as_i64 (start_block request + end_block request)) 2), k1, k2.
    split_and!; [done|done|by rewrite H|done| | |done].
    + rewrite Hl. cbn. lia.
    + cbn in Hl. congruence.
  - injection H as ->. rewrite (same_db _ _ Q), Hd2. split; [|done].
    apply orb_false_iff in Ebig as [?%Z.ltb_ge ?%Z.eqb_neq]. intros _ (_ & _ & [?|?]); [lia|done].
Qed.

(** ** Filling the gaps *)

#[local] Instance start_le_total : Total start_le.
Proof. intros a b. unfold start_le. lia. Qed.
#[local] Instance start_le_trans : Transitive start_le.
Proof. intros a b c. unfold start_le. lia. Qed.

Lemma fetch_infos_same rs m s s' m' :
  run (fold rs m fetch_block_infos) s = (s', Ok m') -> same s s'.
Proof.
  intros H. assert (Hg : guar same (fold rs m fetch_block_infos)).
  { apply guar_fold. intros m1 r. unfold fetch_block_infos. destruct (_ <? _); [|done].
    apply guar_bind; [|done]. apply guar_act. by split. }
  pose proof (guar_run same _ s Hg) as Hs. by rewrite H in Hs.
Qed.

(** What the block planner leaves for later: at most one final range, shorter
    than the interval. *)
Definition deferred (rest : list (Z * Z)) : Prop :=
  rest = [] \/ exists r, rest = [r] /\ evm_gas_limit config <= 0 /\
    r.2 - r.1 < as_i64 (range_proof_interval config).

Lemma plan_ranges_Ok fuel rs s s' out :
  Forall nonempty rs -> 0 <= as_i64 (range_proof_interval config) ->
  Forall (plannable (as_i64 (range_proof_interval config))) rs -> run (plan_ranges config fuel rs) s = (s', Ok out) ->
  same s s' /\ (exists ps rest, Forall2 cut rs ps /\ concat ps = out ++ rest /\ deferred rest) /\
  (0 < as_i64 (range_proof_interval config) -> Forall (short (as_i64 (range_proof_interval config))) out).
Proof.
  intros Hne Hm Hi. unfold plan_ranges. destruct (Z.ltb_spec 0 (evm_gas_limit config)) as [Hgas|Hgas]; intros H.
  - apply run_bind_Ok in H as (s1 & infos & H1 & H). apply fetch_infos_same in H1.
    injection H as -> H. split; [done|].
    assert (Hin : Forall in_i64 rs) by (eapply Forall_impl; [exact Hi|]; intros r; apply plannable_in).
    split; [|intros Hpos; by eapply gas_short].
    apply gas_cut in H as (ps & -> & HF); [|done..].
    exists ps, []. split_and!; [done|by rewrite app_nil_r|by left].
  - destruct (get_ranges_to_prove_by_blocks _ _ _) as [ranges|] eqn:E; [|done].
    injection H as <- <-. split; [reflexivity|]. split; [|intros Hpos; by eapply blocks_short]. apply blocks_cut in E as (ps & HF & Hps); [|done..].
    destruct Hps as [Hps|(r & Hps & Hr)].
    + exists ps, []. split_and!; [done|by rewrite app_nil_r|by left].
    + exists ps, [r]. split_and!; [done..|]. right. by exists r.
Qed.

Lemma new_ranges_Ok rs acc s0 s s' l :
  same s0 s -> run (fold rs acc (new_range config)) s = (s', Ok l) ->
  Forall (queued_range (request_mode config) l1 l2) acc ->
  same s0 s' /\ blocks_of <$> l = (blocks_of <$> acc) ++ rs /\
  Forall (queued_range (request_mode config) l1 l2) l.
Proof.
  revert acc s. induction rs as [|r rs IH]; intros acc s Q; cbn [fold]; intros H Hacc.
  { injection H as <- <-. by rewrite app_nil_r. }
  apply run_bind_Ok in H as (s1 & acc' & H1 & H). unfold new_range in H1.
  apply run_bind_Ok in H1 as (s2 & x & H1 & H2).
  apply (create_range_request_Ok _ _ _ _ _ _ _ _ _ Q) in H1 as (Q1 & Hx & Hq). injection H2 as <- <-.
  destruct (IH _ _ Q1 H) as (Q2 & Hl & HF).
  { rewrite Forall_app, Forall_singleton. done. }
  split_and!; [done| |done]. rewrite Hl, fmap_app. cbn. rewrite Hx, <- app_assoc. by destruct r.
Qed.

Definition active_ranges (latest : Z) (d : Db) : list (Z * Z) :=
  fetch_ranges_after_block commitment l1 l2 PENDING latest d.

(** The heights an [i64] can hold with the interval added: the interval, the heads
    and the starts of the active ranges. *)
Definition heights_fit (s : Shared) : Prop :=
  0 <= as_i64 (range_proof_interval config) /\
  forall latest finalized, latestBlockNumber (env s) = Ok latest ->
    max_provable_l2_block_number (env s) = Ok finalized ->
    0 <= as_i64 latest /\
    as_i64 finalized + as_i64 (range_proof_interval config) <= i64_max /\
    Forall (fun r => r.1 + as_i64 (range_proof_interval config) <= i64_max)
      (active_ranges (as_i64 latest) (db s)).

(** C17: While the heights stay an interval below [i64::MAX], a successful run of
    [add_new_ranges] queues range requests for nonempty,
    pairwise disjoint ranges in increasing order from the latest proposed
    block on. None of their blocks is in a pending or completed valid range;
    together with those, and with at most one final range too short to be
    worth a proof yet, they cover every block up to the provable head, and
    they stay below it if the active ranges do. None is longer than a positive
    interval. *)
Theorem add_new_ranges_spec fuel s s' :
  heights_fit s -> run (add_new_ranges config fuel) s = (s', Ok tt) ->
  exists latest finalized reqs rest,
    latestBlockNumber (env s) = Ok latest /\
    max_provable_l2_block_number (env s) = Ok finalized /\
    db s' = (insert_requests reqs (db s)).1 /\
    Forall (queued_range (request_mode config) l1 l2) reqs /\
    deferred rest /\ ascending (as_i64 latest) ((blocks_of <$> reqs) ++ rest) /\
    (0 < as_i64 (range_proof_interval config) ->
       Forall (short (as_i64 (range_proof_interval config))) (blocks_of <$> reqs)) /\
    forall n,
      (covered n (blocks_of <$> reqs) -> ~ covered n (active_ranges (as_i64 latest) (db s))) /\
      (as_i64 latest <= n < as_i64 finalized ->
         covered n (active_ranges (as_i64 latest) (db s)) \/ covered n (blocks_of <$> reqs) \/
         covered n rest) /\
      (Forall (fun r => r.1 <= as_i64 finalized) (active_ranges (as_i64 latest) (db s)) ->
         covered n (blocks_of <$> reqs) -> n < as_i64 finalized).
Proof.
  unfold add_new_ranges. intros [Hm Hfit] H. assert (Q : same s s) by reflexivity.
  read_step H latest Hl Q. apply latest_inv in Hl. read_step H finalized Hf Q. read_step H pending Ha Q.
  destruct (Hfit latest finalized Hl Hf) as (Hlat & Hfin & Hact). set (m := as_i64 (range_proof_interval config)) in *.
  fold (active_ranges (as_i64 latest) (db s)) in Ha. subst pending.
  set (a := as_i64 latest) in *. set (b := as_i64 finalized) in *.
  set (pending := active_ranges a (db s)) in *.
  pose proof (StronglySorted_merge_sort start_le pending) as Hsorted.
  pose proof (merge_sort_Permutation start_le pending) as Hperm.
  set (sorted := merge_sort start_le pending) in *.
  apply run_bind_Ok in H as (s1 & out & H1 & H).
  apply plan_ranges_Ok in H1 as (Q1 & (ps & rest & HF & Hps & Hrest) & Hshort); [|apply find_gaps_nonempty|exact Hm|].
  2: { fold m. apply Forall_forall. intros r Hr. rewrite <- Hperm in Hact.
       destruct (find_gaps_within a b (i64_max - m) sorted r) as [? ?]; [lia| |exact Hr|].
       - eapply Forall_impl; [exact Hact|]. intros r0. cbn. lia.
       - unfold plannable. lia. }
  pose proof (transitivity Q Q1) as Q2.
  assert (Hreqs : exists reqs, db s' = (insert_requests reqs (db s)).1 /\
      Forall (queued_range (request_mode config) l1 l2) reqs /\ blocks_of <$> reqs = out).
  { destruct out as [|r out].
    - injection H as <-. exists []. by rewrite (same_db _ _ Q2).
    - apply run_bind_Ok in H as (s2 & reqs & H2 & H).
      apply (new_ranges_Ok _ _ _ _ _ _ Q2) in H2 as (Q3 & Hb & Hq); [|by constructor].
      apply run_execute_Ok in H as (H & _). rewrite (same_db _ _ Q3) in H. exists reqs. by rewrite H. }
  destruct Hreqs as (reqs & Hdb & Hq & Hout). exists latest, finalized, reqs, rest.
  fold a b. fold pending. split_and!; [done..| |by rewrite Hout|].
  - rewrite Hout, <- Hps. apply (cuts_ascending _ (find_gaps a b sorted)); [| |..|done].
    + apply merge_ranges_separated.
    + apply find_gaps_nonempty.
    + pose proof (find_gaps_nonempty a b sorted) as Hne. rewrite Forall_forall in *. intros r Hr.
      specialize (Hne r Hr). apply (find_gaps_disjoint a b sorted r.1 Hsorted). exists r.
      unfold nonempty in Hne. split; [done|lia].
  - intros n. pose proof (cuts_covered n _ _ HF) as Hcov. rewrite Hps, covered_app in Hcov. rewrite Hout.
    rewrite <- (covered_perm n _ _ Hperm). split_and!.
    + intros Hn. apply (find_gaps_disjoint a b sorted n Hsorted). apply Hcov. by left.
    + intros Hn. destruct (decide (covered n sorted)) as [|Hno]; [by left|right]. apply Hcov.
      unfold find_gaps. rewrite merge_ranges_covered. by apply gaps_loop_spec.
    + intros Hb Hn. rewrite <- Hperm in Hb.
      apply (find_gaps_complement a b sorted Hsorted Hb). apply Hcov. by left.
Qed.
End scheduling.

(** ** Samples *)

(** Blocks 110 to 120 and the end of the chain have no request. *)
Definition sample_gapped : Shared := sample_shared
  [sample_range 1 100 110 Complete (Some (65, 1065)) None; sample_range 2 120 130 Prove None None]
  (sample_env 100 145 3).

Example sample_gapped_plan :
  let s' := (run (add_new_ranges sample_config 100) sample_gapped).1 in
  fetch_ranges_after_block sample_commitment 1 10 [Unrequested] 100 (db s') =
    [(110, 120); (130, 140)].
Proof. vm_compute. reflexivity. Qed.

Lemma add_new_ranges_spec_witness :
  let s' := (run (add_new_ranges sample_config 100) sample_gapped).1 in
  exists reqs, db s' = (insert_requests reqs (db sample_gapped)).1 /\
    ascending 100 (blocks_of <$> reqs) /\
    forall n, covered n (blocks_of <$> reqs) -> ~ covered n [(120, 130); (100, 110)].
Proof.
  intros s'.
  assert (Hrun : run (add_new_ranges sample_config 100) sample_gapped = (s', Ok tt))
    by (vm_compute; reflexivity).
  assert (Hfit : heights_fit sample_config sample_gapped).
  { split; [vm_compute; discriminate|]. intros latest finalized [= <-] [= <-].
    split; [vm_compute; discriminate|]. split; [vm_compute; discriminate|].
    replace (active_ranges sample_config (as_i64 100) (db sample_gapped)) with [(120, 130); (100, 110)]
      by (vm_compute; reflexivity).
    repeat constructor; vm_compute; discriminate. }
  destruct (add_new_ranges_spec sample_config 100 sample_gapped s' Hfit Hrun)
    as (latest & finalized & reqs & rest & Hl & Hf & Hdb & _ & Hrest & Hasc & _ & Hn).
  injection Hl as <-. exists reqs. split; [exact Hdb|]. split; [exact (ascending_app _ _ _ Hasc)|].
  intros n Hc. exact (proj1 (Hn n) Hc).
Defined.

(** A range the network could not execute is split in the middle. *)
Lemma handle_failed_request_spec_witness :
  let s' := (run (handle_failed_request sample_config (sample_range 2 120 130 Prove None None)
                    ExecutionStatus_Unexecutable) sample_gapped).1 in
  exists x y, chain 120 (blocks_of <$> [x; y]) 130 /\
    db s' = (insert_requests [x; y]
      (failed_tables (sample_range 2 120 130 Prove None None) sample_gapped)).1.
Proof.
  intros s'.
  assert (Hrun : run (handle_failed_request sample_config (sample_range 2 120 130 Prove None None)
    ExecutionStatus_Unexecutable) sample_gapped = (s', Ok tt)) by (vm_compute; reflexivity).
  destruct (handle_failed_request_spec sample_config sample_gapped s' ExecutionStatus_Unexecutable
    (sample_range 2 120 130 Prove None None)) as (r & Hr & _ & Hsplit & _);
    [done|done|vm_compute; discriminate|exact Hrun|].
  injection Hr as <-. destruct Hsplit as (x & y & mid & k1 & k2 & _ & _ & Hdb & _ & Hc & _).
  - reflexivity.
  - split_and!; [done|vm_compute; reflexivity|]. by right.
  - exists x, y. by split.
Defined.
