(* ===== verification/ValidityExternal.v ===== *)
(** * What a coordinator is promised

    One call of [request_external_aggregation], with the task it waits for, on
    any tables and any environment: which range the answer covers, to which
    stored request its proof id belongs, and what a refusal leaves behind. *)

From S2P Require Import Prelude.
From S2P Require Import Interleaving.
From S2P Require Import RequestDb.
From S2P Require Import RequestDbLaws.
From S2P Require Import ValidityTypes.
From S2P Require Import ProofRequester.
From S2P Require Import ValidityProposer.
From S2P Require Import ExternalAggregation.
From S2P Require Import ValidityRely.
From S2P Require Import ExternalRely.
From S2P Require Import ValidityRun.
From S2P Require Import ValidityPlanning.

(** ** Runs of a handler *)

(** Nothing has changed but the faults used up. *)
Record idle (s s' : Shared) : Prop := {
  idle_db : db s' = db s;
  idle_env : env s' = env s;
  idle_tasks : tasks s' = tasks s;
}.

Lemma idle_refl s : idle s s.
Proof. by split. Qed.

Lemma and_then_Ok {A B} (p : Ext A) (f : A -> Ext B) s s' o :
  run (and_then p f) s = (s', Ok o) ->
  (exists s1 a, run p s = (s1, Ok (inl a)) /\ run (f a) s1 = (s', Ok o)) \/
  (exists e, run p s = (s', Ok (inr e)) /\ o = inr e).
Proof.
  intros (s1 & [a|e] & H1 & H)%run_bind_Ok; [left; by exists s1, a|right].
  injection H as <- <-. by exists e.
Qed.

Lemma internal_Ok {A} context (p : Prog A) s s' o :
  run (internal context p) s = (s', Ok o) ->
  (exists a, run p s = (s', Ok a) /\ o = inl a) \/
  (exists e, run p s = (s', Err e) /\ exists m, o = inr (Internal m)).
Proof.
  intros (s1 & r & H1 & H)%run_bind_Ok. rewrite run_catch in H1. unfold attempt in H1.
  destruct (run p s) as [s2 [a|e|]]; [..|done]; injection H1 as <- <-; injection H as <- <-;
    [left; by exists a|right; eauto].
Qed.

Lemma internal_ask {A} context (f : Env -> outcome A) s s' o :
  run (internal context (ask f)) s = (s', Ok o) ->
  s' = s /\ ((exists a, f (env s) = Ok a /\ o = inl a) \/ exists m, o = inr (Internal m)).
Proof.
  intros [(a & H & ->)|(e & H & m & ->)]%internal_Ok; cbn in H; injection H as <- H; eauto 6.
Qed.

Lemma internal_query {A} context (f : Db -> A) s s' o :
  run (internal context (query f)) s = (s', Ok o) ->
  idle s s' /\ (o = inl (f (db s)) \/ exists m, o = inr (Internal m)).
Proof.
  intros [(a & H & ->)|(e & H & m & ->)]%internal_Ok; unfold query, statement in H;
    rewrite run_act in H; apply run_statement_cases in H as (Ht & He & _ & _ & H).
  - destruct H as [[= Hd <-]|[? _]]; [|done]. by split; [split|left].
  - split; [|eauto]. split; [|done..]. by destruct H as [[=]|[_ [?|?]]].
Qed.

(** ** The call up to its task *)

Section external.
Context {HO : HashOrder} (config : Config).
Notation l1 := (cfg_l1_chain_id config).
Notation l2 := (cfg_l2_chain_id config).
Notation commitment := (commitments config).

Definition nonempty_ranges (d : Db) : Prop :=
  forall i (r : OPSuccinctRequest), rows d !! i = Some r -> req_type r = Range ->
    start_block r < end_block r.

(** The aggregation request of an accepted call: the checkpoint is the
    canonical block of its number, the range is a chain of the valid completed
    ranges within the bounds. *)
Definition covers (request : ExternalAggregationRequest) (s : Shared) (r : OPSuccinctRequest) : Prop :=
  exists hd safe_head now,
    get_l1_header (env s) (L1Number (ea_l1_block_number request)) = Ok hd /\
    ea_l1_block_hash request = hash_slow hd /\
    get_l2_safe_head_from_l1_block_number (env s) (Z.max 0 (ea_l1_block_number request - 20)) = Ok safe_head /\
    let bound := Z.min (requested_end_block request) safe_head in
    let proofs := get_consecutive_complete_range_proofs commitment l1 l2
                    (last_proven_block request) bound (db s) in
    proofs <> [] /\ chain (last_proven_block request) (blocks_of <$> proofs) (end_block r) /\
    end_block r <= bound /\
    r = new_agg_request now (request_mode config) (last_proven_block request) (end_block r)
          (c_range_vkey_commitment commitment) (c_agg_vkey_hash commitment)
          (c_rollup_config_hash commitment) l1 l2 (ea_l1_block_number request)
          (ea_l1_block_hash request) (signer_address (env s)).

Lemma checked_Ok v field s s' o :
  run (checked_external_block_number v field) s = (s', Ok o) ->
  s' = s /\ (o = inl v \/ exists m, o = inr (InvalidArgument m)).
Proof. unfold checked_external_block_number. destruct (v <=? i64_max); intros [= <- <-]; eauto. Qed.

Lemma spawn_Ok context (req : OPSuccinctRequest) s s' o :
  run (internal context (insert_and_spawn req)) s = (s', Ok o) ->
  (o = inl (with_id (next_id (db s)) req) /\
     db s' = (insert_request req (db s)).1 /\ env s' = env s /\
     tasks s' = <[next_id (db s) := {| t_request := with_id (next_id (db s)) req; t_result := None |}]> (tasks s)) \/
  exists m, o = inr (Internal m) /\ tasks s' = tasks s /\ env s' = env s /\
    (db s' = db s \/ db s' = (insert_request req (db s)).1).
Proof.
  intros H. unfold insert_and_spawn in H. apply internal_Ok in H as [(a & H & ->)|(e & H & m & ->)];
    rewrite run_act in H; destruct (run_statement _ s) as [s1 [i|e1|]] eqn:E; try done;
    apply run_statement_cases in E as (Ht & He & _ & _ & Hd); cbn in Hd.
  - left. destruct Hd as [Hd|[? _]]; [|done]. injection Hd as Hd <-. injection H as <- <-.
    split_and!; [done|exact (eq_sym Hd)|done|cbn; by rewrite Ht].
  - right. injection H as <- <-. exists m. split_and!; [done..|]. destruct Hd as [Hd|[_ Hd]]; [done|].
    by destruct Hd; auto.
Qed.

(** The ranges the call finds. *)
Lemma found_ranges a b d proofs :
  wf_db d -> nonempty_ranges d -> proofs = get_consecutive_complete_range_proofs commitment l1 l2 a b d ->
  Forall (fun r : OPSuccinctRequest => start_block r < end_block r /\ end_block r <= b) proofs.
Proof.
  intros Hwf Hne ->. apply Forall_forall. intros r [Hr Hw]%select_ordered_at_key; [|done].
  unfold consecutive_complete_range, has_type in Hw.
  rewrite !andb_true_iff, bool_decide_eq_true, Z.leb_le in Hw.
  destruct Hw as [[[[[_ Hty] _] _] Hb] _]. split; [|lia]. by apply (Hne _ _ Hr).
Qed.

(** The two ways past a step of the handler; [Hr] closes the refusal. *)
Ltac checked_step H Hr :=
  apply and_then_Ok in H as [(? & ? & ?H1 & H)|(? & ?H1 & ->)];
  match goal with H1 : run (checked_external_block_number _ _) _ = _ |- _ =>
    apply checked_Ok in H1 as [-> [H1|[? H1]]]; try done; injection H1 as -> end; [|by apply Hr].
Ltac ask_step H a Ha Hr :=
  apply and_then_Ok in H as [(? & ? & ?H1 & H)|(? & ?H1 & ->)];
  match goal with H1 : run (internal _ (ask _)) _ = _ |- _ =>
    apply internal_ask in H1 as [-> [(a & Ha & H1)|[? H1]]]; try done; injection H1 as -> end; [|by apply Hr].

(** An accepted call has its row and its task in place. *)
Definition accepted (request : ExternalAggregationRequest) (s s' : Shared)
    (o : OPSuccinctRequest + ExternalAggregationError) : Prop :=
  exists r, covers request s r /\ o = inl (with_id (next_id (db s)) r) /\
    db s' = (insert_request r (db s)).1 /\
    tasks s' = <[next_id (db s) := {| t_request := with_id (next_id (db s)) r; t_result := None |}]> (tasks s).

(** A refused call has no task, and has left the tables alone unless the
    acknowledgement of its insertion was lost. *)
Definition refused (request : ExternalAggregationRequest) (s s' : Shared)
    (o : OPSuccinctRequest + ExternalAggregationError) : Prop :=
  exists e, o = inr e /\ (forall m, e <> ResourceExhausted m) /\ tasks s' = tasks s /\
    (db s' = db s \/ exists r, covers request s r /\ db s' = (insert_request r (db s)).1).

Lemma accept_cases request s s' o :
  wf_db (db s) -> nonempty_ranges (db s) ->
  run (accept_external_aggregation config request) s = (s', Ok o) ->
  env s' = env s /\ (accepted request s s' o \/ refused request s s' o).
Proof.
  intros Hwf Hne H. unfold accept_external_aggregation in H.
  assert (Hrefuse : forall s1 e, idle s s1 -> (forall m, e <> ResourceExhausted m) ->
    env s1 = env s /\ (accepted request s s1 (inr e) \/ refused request s s1 (inr e))).
  { intros s1 e [Hd He Ht] Hn. split; [done|]. right. exists e. auto. }
  checked_step H Hrefuse.
  checked_step H Hrefuse.
  checked_step H Hrefuse.
  ask_step H header_ Hheader Hrefuse.
  apply and_then_Ok in H as [(s1 & u & Hk & H)|(e & Hk & ->)]; unfold validate_checkpoint_hash in Hk;
    destruct (Z.eqb_spec (ea_l1_block_hash request) (hash_slow header_)) as [Hhash|]; cbn in Hk; try done;
    injection Hk as <- Hk; [|by subst; apply Hrefuse].
  ask_step H sh Hsh Hrefuse.
  checked_step H Hrefuse.
  set (bound := Z.min (requested_end_block request) sh) in *.
  destruct (bound <=? last_proven_block request); [injection H as <- <-; by apply Hrefuse|].
  apply and_then_Ok in H as [(s1 & proofs & Hp0 & H)|(e & Hp0 & ->)];
    apply internal_query in Hp0 as [Hidle [Hp0|[m Hp0]]]; try done; injection Hp0 as Hp0;
    [|subst e; by apply Hrefuse].
  destruct (last proofs) as [last_|] eqn:El; [|injection H as <- <-; by apply Hrefuse].
  apply run_bind_Ok in H as (s2 & prover & H2 & H). apply run_ask_Ok in H2 as [-> [= Hp]].
  apply run_bind_Ok in H as (s3 & now & H3 & H). apply run_ask_Ok in H3 as [-> _].
  pose proof (found_ranges _ _ _ _ Hwf Hne Hp0) as HF.
  set (req := new_agg_request _ _ _ _ _ _ _ _ _ _ _ _) in *.
  destruct (validate_aggregation_request proofs req) eqn:Hval; cbn [negb] in H;
    [|injection H as <- <-; by apply Hrefuse].
  apply validate_aggregation_chain in Hval as [Hnil Hch];
    [|eapply Forall_impl; [exact HF|]; by intros r [? _]].
  assert (Hcov : covers request s req).
  { exists header_, sh, now. unfold saturating_sub in Hsh. cbv zeta. fold bound. rewrite <- Hp0, <- (idle_env _ _ Hidle), Hp.
    split_and!; [by rewrite (idle_env _ _ Hidle)|done|by rewrite (idle_env _ _ Hidle)|done|done| |done].
    cbn. apply last_Some_elem_of in El. by apply (proj1 (Forall_forall _ _) HF). }
  destruct Hidle as [Hd He Ht]. apply spawn_Ok in H as [(-> & Hdb & Henv & Htasks)|(m & -> & Htasks & Henv & Hdb)];
    rewrite ?Hd, ?Ht in *.
  - split; [congruence|]. left. exists req. by split_and!.
  - split; [congruence|]. right. exists (Internal m). split_and!; [done..|]. destruct Hdb; eauto.
Qed.
(** ** The task, and its response *)

(** The proof task of row [i] keeps the task map and the fixed columns. *)
Lemma run_proof_task i (request : OPSuccinctRequest) s s' o :
  id request = i -> db_inv (db s) -> running i s ->
  run (catch (make_proof_request config request (max_concurrent_witness_gen config)
                (max_concurrent_proof_requests config))) s = (s', o) ->
  db_inv (db s') /\ tasks s' = tasks s /\
  forall r : OPSuccinctRequest, rows (db s) !! i = Some r ->
    exists r' : OPSuccinctRequest, rows (db s') !! i = Some r' /\ fixed r' = fixed r.
Proof.
  intros Hi Hd Hrun H. rewrite run_catch in H. unfold attempt in H.
  pose proof (wp_make_proof_request config request i request s Hi Hd Hrun) as Hwp.
  apply wp_run in Hwp as [Hsteps _]; [|apply _].
  set (p := make_proof_request _ _ _ _) in *.
  assert (Hs' : s' = (run p s).1) by (by destruct (run p s) as [? []]; injection H).
  rewrite <- Hs' in Hsteps. clear H Hs' o. clearbody p. clear Hrun p.
  induction Hsteps as [s|s1 s2 s3 H12 _ IH]; [split_and!; [done|done|]; intros r Hr; by exists r|].
  destruct (H12 Hd) as ([He _] & Ht & _). destruct (IH (effects_inv _ _ _ _ He Hd)) as (H3 & Ht3 & Hk).
  split_and!; [done|congruence|]. intros r Hr.
  destruct (eff_keep _ _ _ _ _ He i r Hr) as (r2 & Hr2 & Hf2 & _).
  destruct (Hk r2 Hr2) as (r3 & Hr3 & Hf3). exists r3. split; [done|congruence].
Qed.

Lemma run_query_one_cases {A} (f : Db -> outcome A) s s' o :
  run (query_one f) s = (s', o) -> idle s s' /\ forall a, o = Ok a -> f (db s) = Ok a.
Proof.
  unfold query_one, statement. rewrite run_act. intros (Ht & He & _ & _ & H)%run_statement_cases.
  destruct H as [H|[-> H]].
  - injection H as Hd <-. by split; [split|].
  - split; [|done]. split; [|done..]. by destruct H as [|].
Qed.

(** Reading the proof id leaves the task map alone, however it ends. *)
Definition same_tasks (s s' : Shared) : Prop := tasks s' = tasks s.
#[local] Instance same_tasks_preorder : PreOrder same_tasks.
Proof. split; [done|]. intros s1 s2 s3 H1 H2. exact (eq_trans H2 H1). Qed.
#[local] Instance same_tasks_local : Local same_tasks.
Proof. by intros s s' _ Ht. Qed.

Lemma proof_id_tasks i (mock_mode : bool) s :
  tasks (run (external_proof_request_id i mock_mode) s).1 = tasks s.
Proof.
  apply (guar_run same_tasks). unfold external_proof_request_id.
  apply guar_and_then; [apply guar_internal, guar_query_one; apply _|]. intros stored.
  destruct (bool_decide _); [|by destruct (_ && _); [|destruct (proof_request_id stored)]].
  apply guar_and_then; [|done]. apply guar_internal, guar_execute; [apply _|]. by intros s1 s2 Ht _.
Qed.

(** What a response says of the stored row. *)
Definition answered (i : Z) (s' : Shared) (f : Request) (response : Z + ExternalAggregationError) : Prop :=
  match response with
  | inl proof_id => exists stored : OPSuccinctRequest,
      rows (db s') !! i = Some stored /\ fixed stored = f /\ status stored <> Unrequested /\
      (proof_request_id stored = Some proof_id \/
       mock config = true /\ status stored = Complete /\ proof_id = as_u64 i)
  | inr (ResourceExhausted _) => exists stored : OPSuccinctRequest,
      rows (db s') !! i = Some stored /\ fixed stored = f /\ status stored = Cancelled
  | inr _ => True
  end.

Lemma proof_id_answers i (r : OPSuccinctRequest) s s' o :
  db_inv (db s) -> rows (db s) !! i = Some r ->
  run (external_proof_request_id i (mock config)) s = (s', Ok o) ->
  tasks s' = tasks s /\ answered i s' (fixed r) o.
Proof.
  intros Hd Hr H. unfold external_proof_request_id in H.
  apply and_then_Ok in H as [(s1 & stored & H1 & H)|(e & H1 & ->)];
    apply internal_Ok in H1 as [(a & H1 & E)|(e' & H1 & m & E)]; try done; injection E as ->;
    apply run_query_one_cases in H1 as [Hidle Hq]; [|by split; [apply Hidle|]].
  specialize (Hq a eq_refl). apply fetch_request_Ok in Hq; [|apply Hd]. rewrite Hr in Hq. injection Hq as <-.
  destruct Hidle as [Hdb He Ht]. rewrite <- Hdb in Hr.
  destruct (bool_decide_reflect (status r = Unrequested)) as [Hst|Hst].
  - apply and_then_Ok in H as [(s2 & u & H2 & H)|(e & H2 & ->)];
      apply internal_Ok in H2 as [(n & H2 & E)|(e' & H2 & m & E)]; try done; injection E as ->;
      unfold execute, statement in H2; rewrite run_act in H2;
      apply run_statement_cases in H2 as (Ht2 & _ & _ & _ & H2); [|by split; [congruence|]].
    injection H as <- <-. split; [congruence|]. destruct H2 as [H2|[? _]]; [|done].
    cbn in H2. exists (mk_request (fixed r) (set_status (NOW (env s1)) (progress r) Cancelled)).
    assert (Hdb2 : db s2 = (update_row i always (fun p => set_status (NOW (env s1)) p Cancelled) (db s1)).1).
    { by injection H2 as <- _. }
    rewrite Hdb2, (update_row_lookup _ _ _ _ _ r); [|rewrite Hdb; apply Hd|done]. by rewrite Z.eqb_refl.
  - destruct (mock config && bool_decide (status r = Complete)) eqn:Hm.
    + injection H as <- <-. split; [done|]. apply andb_true_iff in Hm as [Hm Hc%bool_decide_eq_true].
      exists r. split_and!; auto.
    + destruct (proof_request_id r) as [p|] eqn:Hp; injection H as <- <-; split; try done.
      exists r. split_and!; auto.
Qed.

(** C16: One call with its task, nothing else running. If it is answered with a
    proof id, the requested range was cut at the safe head of the L1 block
    twenty blocks before the checkpoint, the checkpoint hash is that of the
    canonical block, the answered range is a chain of all the valid completed
    ranges within it, and the id belongs to the aggregation request stored for
    exactly this range: the network's id, or the row in mock mode. A request
    without capacity is answered [ResourceExhausted] and its row cancelled; an
    accepted request stays in the task map whatever the answer, and a refused
    one never had a task. *)
Theorem external_aggregation_answers request s s' o :
  db_inv (db s) -> nonempty_ranges (db s) ->
  request_external_aggregation config request s = (s', Ok o) ->
  let n := next_id (db s) in
  (exists r, covers request s r /\
     tasks s' !! n = Some {| t_request := with_id n r; t_result := None |} /\
     answered n s' (fixed (with_id n r))
       (match o with inl result => inl (er_proof_request_id result) | inr e => inr e end) /\
     forall result, o = inl result ->
       er_last_proven_block result = last_proven_block request /\
       er_end_block result = as_u64 (end_block r)) \/
  exists e, o = inr e /\ refused request s s' (inr e).
Proof.
  intros Hd Hne H n. unfold request_external_aggregation in H.
  destruct (run (accept_external_aggregation config request) s) as [s1 [oa|e|]] eqn:Ha; [|done..].
  destruct (accept_cases _ _ _ _ (inv_wf _ Hd) Hne Ha) as [_ [(r & Hcov & -> & Hdb & Ht)|Href]].
  2: { right. pose proof Href as (e & -> & _). injection H as <- <-. by exists e. }
  left. exists r. split; [done|]. fold n in Hdb, Ht, H.
  destruct (run (external_task_response config (with_id n r)) s1) as [s2 o2] eqn:E. injection H as -> <-.
  assert (Hst : status r = Unrequested) by (destruct Hcov as (? & ? & ? & _ & _ & _ & _ & _ & _ & ->); done).
  assert (Hd1 : db_inv (db s1)).
  { rewrite Hdb. apply (evolves_sealed (fun _ r r' => r' = r) (db s)); [by intros ? ? ? ->| |done].
    apply insert_evolves; [apply Hd|done]. }
  assert (Hrun1 : running n s1) by (eexists; rewrite Ht; split; [apply lookup_insert_eq|done]).
  assert (Hrow : rows (db s1) !! n = Some (inserted n r)) by (rewrite Hdb; apply lookup_insert_eq).
  assert (Hrun : forall s3 o3, run (catch (make_proof_request config (with_id n r) (max_concurrent_witness_gen config)
      (max_concurrent_proof_requests config))) s1 = (s3, o3) ->
    db_inv (db s3) /\ tasks s3 !! n = Some {| t_request := with_id n r; t_result := None |} /\
    exists r3 : OPSuccinctRequest, rows (db s3) !! n = Some r3 /\ fixed r3 = fixed (with_id n r)).
  { intros s3 o3 (Hd3 & Ht3 & Hk)%(run_proof_task n); try done. destruct (Hk _ Hrow) as (r3 & Hr3 & Hf3).
    split_and!; [done|rewrite Ht3, Ht; apply lookup_insert_eq|by exists r3]. }
  unfold external_task_response in E. apply run_bind_cases in E as [(s3 & result & E1 & E)|(o3 & E1 & _ & Ho)].
  2: { destruct (Hrun _ _ E1) as (_ & Htn & _). split; [done|].
       by destruct o2 as [x|e|]; [destruct (Ho x)| |]. }
  destruct (Hrun _ _ E1) as (Hd3 & Htn & r3 & Hr3 & Hf3).
  rewrite <- Hf3. apply run_bind_cases in E as [(s4 & response & E2 & E)|(o3 & E2 & _ & Ho)].
  - injection E as <- <-. destruct result as [u|error].
    + apply (proof_id_answers n r3) in E2 as [Ht4 Hans]; [|done..]. rewrite Ht4. split; [done|].
      destruct response as [p|e]; cbn; (split; [done|]); [|done]. by intros result [= <-].
    + injection E2 as <- <-. by split_and!.
  - split; [|by destruct o2 as [x|e|]; [destruct (Ho x)| |]].
    destruct result; [|by injection E2 as <- _]. rewrite <- Htn.
    pose proof (proof_id_tasks (id (with_id n r)) (mock config) s3) as Hp. rewrite E2 in Hp. cbn in Hp. by rewrite Hp.
Qed.
End external.

(** ** Sample calls *)

Definition agglayer_config : Config :=
  let c := sample_config in {|
  cfg_l1_chain_id := cfg_l1_chain_id c; cfg_l2_chain_id := cfg_l2_chain_id c;
  l2oo_address := l2oo_address c; dgf_address := dgf_address c; evm_gas_limit := evm_gas_limit c;
  range_proof_interval := range_proof_interval c; submission_interval := submission_interval c;
  max_concurrent_witness_gen := max_concurrent_witness_gen c;
  max_concurrent_proof_requests := max_concurrent_proof_requests c;
  op_succinct_config_name_hash := op_succinct_config_name_hash c; mock := mock c;
  cluster := cluster c; has_network_prover := has_network_prover c;
  has_cluster_config := has_cluster_config c; range_strategy := range_strategy c;
  agg_strategy := agg_strategy c; agg_mode := agg_mode c; max_price_per_pgu := max_price_per_pgu c;
  range_cycle_limit := range_cycle_limit c; range_gas_limit := range_gas_limit c;
  agg_cycle_limit := agg_cycle_limit c; agg_gas_limit := agg_gas_limit c; whitelist := whitelist c;
  min_auction_period := min_auction_period c; private_stdin := private_stdin c;
  safe_db_fallback := safe_db_fallback c; proving_timeout := proving_timeout c;
  auction_timeout := auction_timeout c; loop_interval := loop_interval c;
  agglayer := true; commitments := commitments c |}.

Definition sample_complete (i start end_ : Z) : OPSuccinctRequest :=
  sample_range i start end_ Complete (Some (65, 1065)) None.
Definition sample_call (requested_end l1_hash : Z) : ExternalAggregationRequest :=
  {| last_proven_block := 100; requested_end_block := requested_end;
     ea_l1_block_number := 70; ea_l1_block_hash := l1_hash |}.
Definition sample_answer (l : list OPSuccinctRequest) (call : ExternalAggregationRequest) :=
  request_external_aggregation agglayer_config call (sample_shared l (sample_env 100 140 3)).

(** A completed range beyond a gap fails the call, although a shorter chain
    would answer it; without it the same call is answered. *)
Example answer_cut : exists s', sample_answer [sample_complete 1 100 105] (sample_call 130 1070) =
  (s', Ok (inl {| er_last_proven_block := 100; er_end_block := 105; er_proof_request_id := 500 |})).
Proof. by eexists; vm_compute. Qed.

Example answer_gap : exists s',
  sample_answer [sample_complete 1 100 105; sample_complete 2 106 110] (sample_call 130 1070) =
  (s', Ok (inr (InvalidArgument "Aggregation request validation failed"))).
Proof. by eexists; vm_compute. Qed.

Example answer_full : exists s',
  sample_answer [sample_complete 1 100 110; sample_agg 4 100 110 Prove None; sample_agg 5 100 110 Prove None]
    (sample_call 130 1070) =
  (s', Ok (inr (ResourceExhausted "Proof capacity is full; retry after an active request completes"))).
Proof. by eexists; vm_compute. Qed.

Lemma external_aggregation_answers_witness :
  let s' := (sample_answer [sample_complete 1 100 110] (sample_call 130 1070)).1 in
  exists r, covers agglayer_config (sample_call 130 1070)
      (sample_shared [sample_complete 1 100 110] (sample_env 100 140 3)) r /\
    answered agglayer_config 2 s' (fixed (with_id 2 r)) (inl 500).
Proof.
  intros s'.
  assert (Hne : nonempty_ranges (sample_db [sample_complete 1 100 110])).
  { intros i r Hr _. change (rows _) with (<[1 := sample_complete 1 100 110]> (∅ : gmap Z OPSuccinctRequest)) in Hr.
    apply lookup_insert_Some in Hr as [[_ <-]|[_ Hr]]; [reflexivity|]. by rewrite lookup_empty in Hr. }
  destruct (external_aggregation_answers agglayer_config (sample_call 130 1070)
    (sample_shared [sample_complete 1 100 110] (sample_env 100 140 3)) s'
    (inl {| er_last_proven_block := 100; er_end_block := 110; er_proof_request_id := 500 |}))
    as [(r & Hc & _ & Ha & _)|(e & [=] & _)].
  - apply db_check_inv. reflexivity.
  - exact Hne.
  - vm_compute. reflexivity.
  - exists r. by split.
Defined.
