(* ===== verification/GameMonitor.v ===== *)
(** * The game monitor

    [scripts/utils/bin/game_monitor.rs], the daemon that runs a cost estimator
    for every dispute game, with bounded primary retries and long-tail
    background retries, and [utils/common/src/sequence_tracker.rs], the record
    of the games it has dealt with.

    The daemon is one thread: [poll] is one turn of its loop, on answers of the
    outside world ([Env]): clocks, child processes, files, the factory and the
    L2. Durations and times are in nanoseconds. Floating point is left
    uninterpreted ([F64]). *)

From S2P Require Import Prelude.

(** ** [SequenceTracker] *)

Record SequenceTracker := {
  end_ : Z;
  st_pending : gset Z;
}.

Definition tracker_new (e : Z) : SequenceTracker := {| end_ := e; st_pending := ∅ |}.

(** The [while] loop; every turn takes one index out of [pending]. *)
Fixpoint advance (fuel : nat) (check_from : Z) (t : SequenceTracker) : SequenceTracker :=
  match fuel with
  | O => t
  | S fuel =>
      if bool_decide (check_from ∈ st_pending t) then
        advance fuel (wrap64 (check_from + 1))
          {| end_ := check_from; st_pending := st_pending t ∖ {[check_from]} |}
      else t
  end.

Definition add (index : Z) (t : SequenceTracker) : SequenceTracker :=
  if index <=? end_ t then t
  else
    let t := {| end_ := end_ t; st_pending := {[index]} ∪ st_pending t |} in
    advance (S (size (st_pending t))) (wrap64 (end_ t + 1)) t.

(** ** Durations *)

Definition SECOND : Z := 10 ^ 9.
Definition DURATION_MAX : Z := 2 ^ 64 * SECOND - 1.
(** The last [Instant] or [SystemTime] of a 64-bit Unix. *)
Definition TIME_MAX : Z := 2 ^ 63 * SECOND - 1.
Definition from_secs (s : Z) : Z := s * SECOND.

Definition duration_checked_mul (d k : Z) : option Z :=
  if d * k <=? DURATION_MAX then Some (d * k) else None.
(** [d * k] and [t + d] panic on overflow. *)
Definition duration_mul (d k : Z) : outcome Z :=
  match duration_checked_mul d k with Some x => Ok x | None => Panic end.
Definition time_add (t d : Z) : outcome Z := if t + d <=? TIME_MAX then Ok (t + d) else Panic.

Definition GAME_TYPE : Z := 42.
Definition LOG_VOLUME_KILL_MULTIPLIER : Z := 10.
Definition MEDIAN_THRESHOLD : nat := 3.
Definition RUNTIME_KILL_MULTIPLIER : Z := 5.
Definition BACKGROUND_BACKOFF_MULTIPLIER : Z := 4.

(** ** State *)

Inductive AttemptKind :=
| Primary (retries : Z)
| Background (attempts : Z).

Record RunningEstimator := {
  started_at : Z;
  process : nat;          (** the child, numbered in the order of spawning *)
  block_range : Z;
  kind : AttemptKind;
  est_created_at : Z;
}.

Record PendingGame := {
  executable_at : Z;
  p_game_index : Z;
  p_kind : AttemptKind;
}.

Record GameData := {
  gd_game_index : Z;
  game_address : Z;
  start_block : Z;
  end_block : Z;
  l1_head : Z;
  created_at : Z;
}.

Definition game_block_range (g : GameData) : Z := saturating_sub (end_block g) (start_block g).

Inductive ProcessAction :=
| Success (duration block_range : Z)
| Kill (reason : string)
| Retry (reason : string).

Inductive SpawnOutcome := Spawned | WrongGameType | FetchFailed | L2Behind.

Record CompletionRecord := { c_duration : Z; log_size : Z; c_block_range : Z }.

Record BackgroundRetry := {
  game_index : Z;
  game_created_at : Z;
  next_attempt_at : Z;
  last_wait : Z;
  attempts : Z;
}.

Record ProgressState := {
  last_contiguous : Z;
  saved_retries : list BackgroundRetry;
}.

Record MonitorConfig := {
  initial_game_delay : Z;
  max_process_duration_secs : Z;
  max_history_length : nat;
  max_retries : Z;
  background_retry_max_age : Z;
  max_concurrent : nat;
  batch_size : Z;
}.

(** [MonitorState], with the number of children spawned and the content of the
    progress file. *)
Record MonitorState := {
  running_processes : gmap Z RunningEstimator;
  pending_games : list PendingGame;
  background_retries : list BackgroundRetry;
  next_game_index : Z;
  completion_history : list CompletionRecord;
  sequence_tracker : SequenceTracker;
  children : nat;
  progress_file : option ProgressState;
}.

Definition with_running (r : gmap Z RunningEstimator) (s : MonitorState) : MonitorState :=
  {| running_processes := r; pending_games := pending_games s; background_retries := background_retries s;
     next_game_index := next_game_index s; completion_history := completion_history s;
     sequence_tracker := sequence_tracker s; children := children s; progress_file := progress_file s |}.
Definition with_pending (p : list PendingGame) (s : MonitorState) : MonitorState :=
  {| running_processes := running_processes s; pending_games := p; background_retries := background_retries s;
     next_game_index := next_game_index s; completion_history := completion_history s;
     sequence_tracker := sequence_tracker s; children := children s; progress_file := progress_file s |}.
Definition with_background (b : list BackgroundRetry) (s : MonitorState) : MonitorState :=
  {| running_processes := running_processes s; pending_games := pending_games s; background_retries := b;
     next_game_index := next_game_index s; completion_history := completion_history s;
     sequence_tracker := sequence_tracker s; children := children s; progress_file := progress_file s |}.
Definition with_next (n : Z) (s : MonitorState) : MonitorState :=
  {| running_processes := running_processes s; pending_games := pending_games s;
     background_retries := background_retries s; next_game_index := n;
     completion_history := completion_history s; sequence_tracker := sequence_tracker s;
     children := children s; progress_file := progress_file s |}.
Definition with_history (h : list CompletionRecord) (s : MonitorState) : MonitorState :=
  {| running_processes := running_processes s; pending_games := pending_games s;
     background_retries := background_retries s; next_game_index := next_game_index s;
     completion_history := h; sequence_tracker := sequence_tracker s; children := children s;
     progress_file := progress_file s |}.
Definition with_tracker (t : SequenceTracker) (s : MonitorState) : MonitorState :=
  {| running_processes := running_processes s; pending_games := pending_games s;
     background_retries := background_retries s; next_game_index := next_game_index s;
     completion_history := completion_history s; sequence_tracker := t; children := children s;
     progress_file := progress_file s |}.
Definition with_child (s : MonitorState) : MonitorState :=
  {| running_processes := running_processes s; pending_games := pending_games s;
     background_retries := background_retries s; next_game_index := next_game_index s;
     completion_history := completion_history s; sequence_tracker := sequence_tracker s;
     children := S (children s); progress_file := progress_file s |}.
Definition with_file (f : option ProgressState) (s : MonitorState) : MonitorState :=
  {| running_processes := running_processes s; pending_games := pending_games s;
     background_retries := background_retries s; next_game_index := next_game_index s;
     completion_history := completion_history s; sequence_tracker := sequence_tracker s;
     children := children s; progress_file := f |}.

(** ** The outside world *)

(** [f64] and the operations the source uses. *)
Class F64 := {
  f64 : Type;
  f_of_Z : Z -> f64;
  f_secs : Z -> f64;  (** [Duration::as_secs_f64] *)
  f_div : f64 -> f64 -> f64;
  f_mul : f64 -> f64 -> f64;
  f_add : f64 -> f64 -> f64;
  f_gt : f64 -> f64 -> bool;
}.

(** What [gameAtIndex] answers. *)
Record GameInfo := { gi_gameType : Z; gi_timestamp : Z; gi_proxy : Z }.

(** The arguments of the child that depend on the game. *)
Record Command := { cmd_start : Z; cmd_end : Z; cmd_batch_size : Z; cmd_l1_head : Z }.

(** What one turn of the loop meets. Clocks and the L2 are read again for every
    game; contracts are named by their address. *)
Record Env := {
  elapsed : Z -> Z;                       (** [started_at.elapsed()] *)
  try_wait : nat -> outcome (option bool);  (** the exit status of a child: success *)
  log_len : Z -> Z;                       (** the length of a game's log *)
  instant_now : Z -> Z;
  system_now : Z -> Z;
  gameAtIndex : Z -> outcome GameInfo;
  l2BlockNumber : Z -> outcome Z;
  startingBlockNumber : Z -> outcome Z;
  l1Head : Z -> outcome Z;
  l2_finalized : Z -> outcome (option Z);
  spawn_command : Command -> outcome unit;  (** the log file is created and the child started *)
  gameCount : outcome Z;
  write_progress : bool;                  (** whether the file can be written *)
}.

Section monitor.
Context {HO : HashOrder} `{F64} (config : MonitorConfig) (e : Env).

(** ** Anomalies *)

(** [partial_cmp(..).unwrap_or(Equal)] never says [Greater] of unordered values. *)
Definition f_le (a b : f64) : Prop := f_gt a b = false.
#[global] Instance f_le_dec a b : Decision (f_le a b).
Proof. unfold f_le. apply _. Defined.

Definition median (values : list f64) (threshold : nat) : option f64 :=
  if (length values <? threshold)%nat then None
  else
    let sorted := merge_sort f_le values in
    let mid := Nat.div2 (length sorted) in
    if Nat.even (length sorted) then
      a ← sorted !! (mid - 1)%nat; b ← sorted !! mid; Some (f_div (f_add a b) (f_of_Z 2))
    else sorted !! mid.

Definition median_log_per_block (history : list CompletionRecord) : option f64 :=
  median ((fun r => f_div (f_of_Z (log_size r)) (f_of_Z (c_block_range r))) <$> history) MEDIAN_THRESHOLD.
Definition median_time_per_block (history : list CompletionRecord) : option f64 :=
  median ((fun r => f_div (f_secs (c_duration r)) (f_of_Z (c_block_range r))) <$> history) MEDIAN_THRESHOLD.

(** Why a running estimator is killed, if it is. *)
Definition kill_reason (median_tpb median_lpb : option f64) (id : Z) (estimator : RunningEstimator)
    : option string :=
  if max_process_duration_secs config <? elapsed e id / SECOND
  then Some "exceeded maximum duration"
  else if 0 <? block_range estimator then
    if match median_tpb with
       | Some med_tpb =>
           f_gt (f_div (f_secs (elapsed e id)) (f_of_Z (block_range estimator)))
             (f_mul (f_of_Z RUNTIME_KILL_MULTIPLIER) med_tpb)
       | None => false
       end then Some "time per block exceeds median"
    else if match median_lpb with
            | Some med_lpb =>
                f_gt (f_div (f_of_Z (log_len e id)) (f_of_Z (block_range estimator)))
                  (f_mul (f_of_Z LOG_VOLUME_KILL_MULTIPLIER) med_lpb)
            | None => false
            end then Some "log size exceeds median"
    else None
  else None.

(** ** Progress *)

Definition save_progress (s : MonitorState) : MonitorState :=
  if write_progress e then
    with_file (Some {| last_contiguous := end_ (sequence_tracker s);
                       saved_retries := background_retries s |}) s
  else s.

Definition mark_game_completed (index : Z) (s : MonitorState) : MonitorState :=
  let old_end := end_ (sequence_tracker s) in
  let s := with_tracker (add index (sequence_tracker s)) s in
  if negb (end_ (sequence_tracker s) =? old_end) then save_progress s else s.

Definition push_completion (record : CompletionRecord) (s : MonitorState) : MonitorState :=
  if (max_history_length config =? 0)%nat then s
  else
    let h := completion_history s in
    let h := if (max_history_length config <=? length h)%nat then drop 1 h else h in
    with_history (h ++ [record]) s.

(** ** Retries *)

Definition next_background_wait (current max : Z) : Z :=
  Z.min (default max (duration_checked_mul current BACKGROUND_BACKOFF_MULTIPLIER)) max.

Definition saturating_mul32 (a b : Z) : Z := Z.min (a * b) u32_max.

Definition is_retry_of (i : Z) (bg : BackgroundRetry) : bool := game_index bg =? i.

(** The first entry of a game, changed. *)
Fixpoint update_first (i : Z) (f : BackgroundRetry -> BackgroundRetry) (l : list BackgroundRetry)
    : list BackgroundRetry :=
  match l with
  | [] => []
  | bg :: rest => if is_retry_of i bg then f bg :: rest else bg :: update_first i f rest
  end.

Definition maybe_requeue (i : Z) (k : AttemptKind) (created : Z) : M MonitorState unit := fun s =>
  match k with
  | Primary retries =>
      if retries <? max_retries config then
        let new_retries := retries + 1 in
        match twice ← duration_mul (initial_game_delay config) 2;
              delay ← duration_mul twice new_retries;
              time_add (instant_now e i) delay with
        | Ok at_ =>
            (with_pending ({| executable_at := at_; p_game_index := i; p_kind := Primary new_retries |}
                             :: pending_games s) s, Ok tt)
        | Err er => (s, Err er)
        | Panic => (s, Panic)
        end
      else if existsb (is_retry_of i) (background_retries s) then
        (mark_game_completed i s, Ok tt)
      else
        let primary_final_wait :=
          default (background_retry_max_age config)
            (duration_checked_mul (initial_game_delay config)
               (saturating_mul32 2 (Z.max 1 (max_retries config)))) in
        let wait := next_background_wait primary_final_wait (background_retry_max_age config) in
        match time_add (system_now e i) wait with
        | Ok at_ =>
            let s := with_background (background_retries s ++
                       [{| game_index := i; game_created_at := created; next_attempt_at := at_;
                           last_wait := wait; attempts := 0 |}]) s in
            (save_progress (mark_game_completed i s), Ok tt)
        | Err er => (s, Err er)
        | Panic => (s, Panic)
        end
  | Background n =>
      match find (is_retry_of i) (background_retries s) with
      | None => (s, Ok tt)
      | Some entry =>
          let wait := next_background_wait (last_wait entry) (background_retry_max_age config) in
          match time_add (system_now e i) wait with
          | Ok at_ =>
              let s := with_background (update_first i (fun bg =>
                {| game_index := game_index bg; game_created_at := game_created_at bg;
                   next_attempt_at := at_; last_wait := wait; attempts := n |}) (background_retries s)) s in
              (save_progress s, Ok tt)
          | Err er => (s, Err er)
          | Panic => (s, Panic)
          end
      end
  end.

(** ** Finished processes *)

(** The scan of the running processes. *)
Definition scan_process (median_tpb median_lpb : option f64) (p : Z * RunningEstimator)
    : option (Z * ProcessAction) :=
  let '(id, estimator) := p in
  match try_wait e (process estimator) with
  | Ok (Some success) =>
      Some (id, if success : bool then Success (elapsed e id) (block_range estimator)
                else Retry "exit status")
  | Ok None => reason ← kill_reason median_tpb median_lpb id estimator; Some (id, Kill reason)
  | _ => None
  end.

Definition not_game (i : Z) (bg : BackgroundRetry) : bool := negb (is_retry_of i bg).

Definition apply_action (id : Z) (action : ProcessAction) : M MonitorState unit := fun s =>
  match running_processes s !! id with
  | None => (s, Ok tt)
  | Some est =>
      let s := with_running (delete id (running_processes s)) s in
      match action with
      | Success duration range =>
          match kind est with
          | Primary _ =>
              let s := if 0 <? range
                       then push_completion {| c_duration := duration; log_size := log_len e id;
                                               c_block_range := range |} s
                       else s in
              (mark_game_completed id s, Ok tt)
          | Background _ =>
              (save_progress (with_background (List.filter (not_game id) (background_retries s)) s), Ok tt)
          end
      | Kill reason | Retry reason => maybe_requeue id (kind est) (est_created_at est) s
      end
  end.

Fixpoint apply_actions (actions : list (Z * ProcessAction)) : M MonitorState unit :=
  match actions with
  | [] => mret tt
  | (id, action) :: rest => _ ← apply_action id action; apply_actions rest
  end.

Definition cleanup_finished_processes : M MonitorState unit := fun s =>
  let tpb := median_time_per_block (completion_history s) in
  let lpb := median_log_per_block (completion_history s) in
  apply_actions (omap (scan_process tpb lpb) (iter_map (running_processes s))) s.

Definition aged (now : Z) (s : MonitorState) (bg : BackgroundRetry) : bool :=
  negb (bool_decide (is_Some (running_processes s !! game_index bg))) &&
  (background_retry_max_age config <? saturating_sub now (game_created_at bg)).

(** [now] is read once. *)
Definition evict_aged_background_retries (now : Z) (s : MonitorState) : MonitorState :=
  let kept := List.filter (fun bg => negb (aged now s bg)) (background_retries s) in
  let evicted := (length (background_retries s) - length kept)%nat in
  let s := with_background kept s in
  if (0 <? evicted)%nat then save_progress s else s.

(** ** Spawning *)

Definition can_spawn_new (s : MonitorState) : bool :=
  (size (running_processes s) <? max_concurrent config)%nat.

Definition not_pending (i : Z) (p : PendingGame) : bool := negb (p_game_index p =? i).

Definition handle_wrong_game_type (i : Z) (k : AttemptKind) (s : MonitorState) : MonitorState :=
  match k with
  | Primary _ => mark_game_completed i (with_pending (List.filter (not_pending i) (pending_games s)) s)
  | Background _ => save_progress (with_background (List.filter (not_game i) (background_retries s)) s)
  end.

(** [FetchGameError]: [None] is [WrongGameType], an [Err] [Other]. *)
Definition fetch_game_data (i : Z) : outcome (option GameData) :=
  game_info ← gameAtIndex e i;
  if negb (gi_gameType game_info =? GAME_TYPE) then Ok None
  else
    let address := gi_proxy game_info in
    created ← time_add 0 (from_secs (gi_timestamp game_info));
    end_block ← l2BlockNumber e address ≫= to_u64;
    start_block ← startingBlockNumber e address ≫= to_u64;
    l1_head ← l1Head e address;
    Ok (Some {| gd_game_index := i; game_address := address; start_block := start_block; end_block := end_block;
                l1_head := l1_head; created_at := created |}).

Definition spawn_cost_estimator (game_data : GameData) : outcome unit :=
  spawn_command e
    {| cmd_start := start_block game_data; cmd_end := end_block game_data;
       cmd_batch_size := Z.min (batch_size config) (game_block_range game_data);
       cmd_l1_head := l1_head game_data |}.

Definition spawn_game (i : Z) (k : AttemptKind) : M MonitorState SpawnOutcome := fun s =>
  match fetch_game_data i with
  | Ok None => (handle_wrong_game_type i k s, Ok WrongGameType)
  | Err _ => (s, Ok FetchFailed)
  | Panic => (s, Panic)
  | Ok (Some game_data) =>
      match l2_finalized e i with
      | Ok None | Err _ => (s, Ok FetchFailed)
      | Panic => (s, Panic)
      | Ok (Some l2_finalized_block) =>
          if l2_finalized_block <? end_block game_data then (s, Ok L2Behind)
          else
            match spawn_cost_estimator game_data with
            | Ok _ =>
                let est := {| started_at := instant_now e i; process := children s;
                              block_range := game_block_range game_data; kind := k;
                              est_created_at := created_at game_data |} in
                let s := with_child (with_running (<[i := est]> (running_processes s)) s) in
                let s := match k with
                         | Primary _ => with_pending (List.filter (not_pending i) (pending_games s)) s
                         | Background _ => s
                         end in
                (s, Ok Spawned)
            | Err er => (s, Err er)
            | Panic => (s, Panic)
            end
      end
  end.

(** The candidates in turn; [false] is [continue 'outer]. *)
Fixpoint spawn_all (candidates : list (Z * AttemptKind)) : M MonitorState bool := fun s =>
  match candidates with
  | [] => (s, Ok true)
  | (i, k) :: rest =>
      if negb (can_spawn_new s) then (s, Ok true)
      else
        match spawn_game i k s with
        | (s, Ok FetchFailed) => (s, Ok false)
        | (s, Ok _) => spawn_all rest s
        | (s, Err er) => (s, Err er)
        | (s, Panic) => (s, Panic)
        end
  end.

Definition primary_candidates (current_time : Z) (s : MonitorState) : list (Z * AttemptKind) :=
  (fun p => (p_game_index p, p_kind p)) <$>
    List.filter (fun p => executable_at p <=? current_time) (pending_games s).

Definition background_candidates (now : Z) (s : MonitorState) : list (Z * AttemptKind) :=
  (fun bg => (game_index bg, Background (attempts bg + 1))) <$>
    List.filter (fun bg => (next_attempt_at bg <=? now) &&
                           negb (bool_decide (is_Some (running_processes s !! game_index bg))))
      (background_retries s).

(** ** Discovery *)

Fixpoint discover (n : nat) : M MonitorState unit := fun s =>
  match n with
  | O => (s, Ok tt)
  | S n =>
      let i := next_game_index s in
      let s := with_next (wrap64 (i + 1)) s in
      match time_add (instant_now e i) (initial_game_delay config) with
      | Ok at_ =>
          discover n (with_pending ({| executable_at := at_; p_game_index := i; p_kind := Primary 0 |}
                                      :: pending_games s) s)
      | Err er => (s, Err er)
      | Panic => (s, Panic)
      end
  end.

(** [while state.next_game_index < current_game_count] *)
Definition discover_games : M MonitorState unit := fun s =>
  match gameCount e with
  | Ok count =>
      (current_game_count ← lift (to_u64 count);
       discover (Z.to_nat (current_game_count - next_game_index s))) s
  | Err _ => (s, Ok tt)
  | Panic => (s, Panic)
  end.

(** One turn of the poll loop; [evict_now], [current_time] and [now_sys] are the
    clocks of the phases. *)
Definition poll (evict_now current_time now_sys : Z) : M MonitorState unit :=
  _ ← cleanup_finished_processes;
  _ ← modify (evict_aged_background_retries evict_now);
  go_on ← (fun s => spawn_all (primary_candidates current_time s) s);
  if go_on : bool then
    go_on ← (fun s => spawn_all (background_candidates now_sys s) s);
    if go_on : bool then discover_games else mret tt
  else mret tt.

(** The children killed at the end, in the order of the map. *)
Definition shutdown (s : MonitorState) : list nat * MonitorState :=
  ((fun p => process p.2) <$> iter_map (running_processes s), with_running ∅ s).
End monitor.

(** ** Start *)

Fixpoint dedup_from (seen : gset Z) (entries : list BackgroundRetry) : list BackgroundRetry :=
  match entries with
  | [] => []
  | bg :: rest =>
      if bool_decide (game_index bg ∈ seen) then dedup_from seen rest
      else bg :: dedup_from ({[game_index bg]} ∪ seen) rest
  end.

Definition dedup_background_retries (entries : list BackgroundRetry) : list BackgroundRetry * nat :=
  let deduped := dedup_from ∅ entries in (deduped, (length entries - length deduped)%nat).

(** The explicit flag, the persisted progress, or the latest game on chain. *)
Definition first_game (start_index : option Z) (persisted : option ProgressState) (count : outcome Z) : outcome Z :=
  match start_index, persisted with
  | Some index, _ => Ok index
  | None, Some progress => Ok (wrap64 (last_contiguous progress + 1))
  | None, None => n ← count ≫= to_u64; Ok (if n =? 0 then 0 else n - 1)
  end.

Definition monitor_new (next : Z) (history : list CompletionRecord) (retries : list BackgroundRetry)
    (file : option ProgressState) : MonitorState :=
  {| running_processes := ∅; pending_games := []; background_retries := retries; next_game_index := next;
     completion_history := history; sequence_tracker := tracker_new next; children := 0;
     progress_file := file |}.

(** [load_history] *)
Definition load_history (max_length : nat) (records : list CompletionRecord) : list CompletionRecord :=
  drop (length records - max_length) records.

(** [run] up to its loop: [file] is the progress file, if it is there and can be
    parsed, [records] the history. *)
Definition startup (config : MonitorConfig) (e : Env) (now : Z) (start_index : option Z)
    (file : option ProgressState) (records : list CompletionRecord) : outcome MonitorState :=
  next ← first_game start_index file (gameCount e);
  let retries := (dedup_background_retries (default [] (saved_retries <$> file))).1 in
  Ok (evict_aged_background_retries config e now
        (monitor_new next (load_history (max_history_length config) records) retries file)).

(** ** [gen-background-retry] *)

Definition make_background_retry (e : Env) (i last_wait : Z) : outcome BackgroundRetry :=
  game ← fetch_game_data e i;
  match game with
  | None => Err "failed to fetch game data"
  | Some game =>
      Ok {| game_index := i; game_created_at := created_at game; next_attempt_at := 0;
            last_wait := last_wait; attempts := 0 |}
  end.

Fixpoint append_retries (e : Env) (last_wait : Z) (indexes : list Z) (existing : gset Z)
    (entries : list BackgroundRetry) : outcome (list BackgroundRetry) :=
  match indexes with
  | [] => Ok entries
  | i :: rest =>
      if bool_decide (i ∈ existing) then append_retries e last_wait rest existing entries
      else
        entry ← make_background_retry e i last_wait;
        append_retries e last_wait rest ({[i]} ∪ existing) (entries ++ [entry])
  end.

(** The state that is printed. *)
Definition gen_background_retry (e : Env) (last_wait_secs : Z) (indexes : list Z) (state : ProgressState)
    : outcome ProgressState :=
  retries ← append_retries e (from_secs last_wait_secs) indexes
              (list_to_set (game_index <$> saved_retries state)) (saved_retries state);
  Ok {| last_contiguous := last_contiguous state; saved_retries := retries |}.

(** ** Logs *)

(** [mb * 1024 * 1024] wraps. *)
Definition max_size_bytes (max_logs_size_mb : Z) : Z := wrap64 (wrap64 (max_logs_size_mb * 1024) * 1024).

(** A log file: a number for its path, its size and the game in its name. *)
Record Log := { path : Z; log_bytes : Z; log_game : Z }.

Definition by_game (a b : Log) : Prop := log_game a <= log_game b.
#[global] Instance by_game_dec a b : Decision (by_game a b).
Proof. unfold by_game. apply _. Defined.

(** The files that are removed; [removable] says whether a removal succeeds. *)
Fixpoint remove_logs (removable : Z -> bool) (max_size : Z) (running : gmap Z RunningEstimator)
    (total_size : Z) (log_files : list Log) : list Log * Z :=
  match log_files with
  | [] => ([], total_size)
  | l :: rest =>
      if total_size <=? max_size then ([], total_size)
      else if bool_decide (is_Some (running !! log_game l)) then
        remove_logs removable max_size running total_size rest
      else if removable (path l) then
        let '(removed, remaining) := remove_logs removable max_size running (wrap64 (total_size - log_bytes l)) rest in
        (l :: removed, remaining)
      else remove_logs removable max_size running total_size rest
  end.

Definition total_bytes (logs : list Log) : Z := foldr (fun l n => wrap64 (log_bytes l + n)) 0 logs.

Definition enforce_log_space_limit (removable : Z -> bool) (max_size : Z) (running : gmap Z RunningEstimator)
    (log_files : list Log) : list Log * Z :=
  let total_size := total_bytes log_files in
  if total_size <=? max_size then ([], total_size)
  else remove_logs removable max_size running total_size (merge_sort by_game log_files).

Inductive FailureType :=
| NoHealthyBackend | NoStateAvailable | ExceedsProofWindow | MissingTrieNode | DnsLookupFailure
| BeaconClientFailure | GenericRequestFailure | Unknown.

Definition FAILURE_PATTERNS : list (list string * FailureType) :=
  [ (["no backend is currently healthy to serve traffic"], NoHealthyBackend);
    (["No state available for block"], NoStateAvailable);
    (["distance to target block exceeds maximum proof window"], ExceedsProofWindow);
    (["missing trie node"], MissingTrieNode);
    (["MissingTrieNodeException"], MissingTrieNode);
    (["state"; "is not available"], NoStateAvailable);
    (["is pruned"], NoStateAvailable);
    (["no state found for block"], NoStateAvailable);
    (["Failed to fetch safe head"; "dns error"], DnsLookupFailure);
    (["Temporary failure in name resolution"], DnsLookupFailure);
    (["Failed to load genesis time from beacon client"; "HTTP request failed: error decoding response body"],
      BeaconClientFailure);
    (["error sending request for url"], GenericRequestFailure) ]%string.

Definition classify_line (line : string) : option FailureType :=
  snd <$> find (fun p => forallb (str_contains line) p.1) FAILURE_PATTERNS.

(** [detect_failure_type], on the lines of the tail that was read, if it was. *)
Definition detect_failure_type (lines : option (list string)) : FailureType :=
  match lines with
  | None => Unknown
  | Some lines => default Unknown (head (omap classify_line lines))
  end.
