(* ===== verification/GameMonitorLaws.v ===== *)
(** * Laws of the game monitor

    The tracker holds the contiguous prefix of the indices it was given; no game
    discovered after the first is lost, however polls, failures and retries go;
    and what a restart does lose. *)

From S2P Require Import Prelude.
From S2P Require Import GameMonitor.

(** ** The tracker *)

Definition counted (t : SequenceTracker) (i : Z) : Prop := i <= end_ t \/ i ∈ st_pending t.

Record tracker_inv (t : SequenceTracker) : Prop := {
  ti_end : is_u64 (end_ t);
  ti_pending : forall i, i ∈ st_pending t -> end_ t < i <= u64_max;
}.

(** The index after the end is missing. *)
Definition tight (t : SequenceTracker) : Prop := ~ counted t (end_ t + 1).

Lemma advance_spec fuel t :
  tracker_inv t -> (size (st_pending t) < fuel)%nat ->
  let t' := advance fuel (wrap64 (end_ t + 1)) t in
  tracker_inv t' /\ tight t' /\ end_ t <= end_ t' /\ forall i, counted t' i <-> counted t i.
Proof.
  revert t. induction fuel as [|fuel IH]; intros t Hi Hf; cbn; [lia|].
  pose proof (ti_end _ Hi) as He. unfold is_u64 in He.
  case_bool_decide as Hin.
  - pose proof (ti_pending _ Hi _ Hin) as Hb.
    assert (Hw : wrap64 (end_ t + 1) = end_ t + 1).
    { destruct (decide (end_ t = u64_max)) as [E|]; [lia|]. apply wrap64_small. unfold is_u64. lia. }
    rewrite Hw in *. set (t1 := {| end_ := end_ t + 1; st_pending := st_pending t ∖ {[end_ t + 1]} |}).
    assert (Hi1 : tracker_inv t1).
    { split; cbn; [unfold is_u64; lia|]. intros i [Hp Hne]%elem_of_difference.
      rewrite elem_of_singleton in Hne. pose proof (ti_pending _ Hi _ Hp). lia. }
    assert (Hs : (size (st_pending t1) < fuel)%nat).
    { cbn. rewrite size_difference, size_singleton by set_solver.
      assert (size (st_pending t) <> 0%nat) by (apply size_non_empty_iff; set_solver). lia. }
    change (end_ t + 1 + 1) with (end_ t1 + 1).
    destruct (IH t1 Hi1 Hs) as (H1 & H2 & H3 & H4). change (end_ t1) with (end_ t + 1) in H3 at 1. split_and!; [done|done|lia|].
    intros i. rewrite H4. unfold counted. cbn. rewrite elem_of_difference, elem_of_singleton.
    destruct (decide (i = end_ t + 1)) as [->|]; [split; intros _; [by right|left; lia]|].
    split; intros [?|?]; [left; lia|right; tauto|left; lia|right; tauto].
  - split_and!; [done| |lia|done]. intros [?|Hp]; [lia|]. apply Hin.
    rewrite wrap64_small; [done|]. pose proof (ti_pending _ Hi _ Hp). unfold is_u64. lia.
Qed.

Lemma add_spec i t :
  tracker_inv t -> tight t -> is_u64 i ->
  tracker_inv (add i t) /\ tight (add i t) /\ end_ t <= end_ (add i t) /\
  forall j, counted (add i t) j <-> counted t j \/ j = i.
Proof.
  intros Hi Ht Hu. unfold add. destruct (Z.leb_spec i (end_ t)) as [Hle|Hgt].
  - split_and!; [done|done|lia|]. intros j. unfold counted. split; [tauto|]. intros [?| ->]; [done|by left].
  - set (t1 := {| end_ := end_ t; st_pending := {[i]} ∪ st_pending t |}).
    assert (Hi1 : tracker_inv t1).
    { split; cbn; [apply Hi|]. intros j [->%elem_of_singleton|Hp]%elem_of_union; [unfold is_u64 in Hu; lia|].
      by apply Hi. }
    destruct (advance_spec (S (size (st_pending t1))) t1 Hi1) as (H1 & H2 & H3 & H4); [lia|].
    split_and!; [done..|]. intros j. rewrite H4. unfold counted. cbn. rewrite elem_of_union, elem_of_singleton. tauto.
Qed.

Lemma tracker_new_inv e : is_u64 e -> tracker_inv (tracker_new e) /\ tight (tracker_new e).
Proof. intros He. split; [by split|]. intros [?|?]; cbn in *; [lia|set_solver]. Qed.

(** Indices added in turn to a tracker that satisfies the invariant. *)
Lemma adds_spec t l :
  tracker_inv t -> tight t -> Forall is_u64 l ->
  let t' := foldl (fun t i => add i t) t l in
  tracker_inv t' /\ tight t' /\ end_ t <= end_ t' /\ forall j, counted t' j <-> counted t j \/ j ∈ l.
Proof.
  intros Hi Ht Hl. revert t Hi Ht. induction Hl as [|i l Hu Hl IH]; intros t Hi Ht; cbn.
  - split_and!; [done|done|lia|]. intros j. split; [auto|]. intros [?|?%not_elem_of_nil]; done.
  - destruct (add_spec i t Hi Ht Hu) as (H1 & H2 & H3 & H4). destruct (IH _ H1 H2) as (H5 & H6 & H7 & H8).
    split_and!; [done|done|lia|]. intros j. rewrite H8, H4, elem_of_cons. tauto.
Qed.

(** Indices may be added in any order and more than once: the end of the
    sequence is the largest index up to which, from the start, every index was
    added, and the indices beyond it wait. *)
Theorem tracker_prefix start l :
  is_u64 start -> Forall is_u64 l ->
  let t := foldl (fun t i => add i t) (tracker_new start) l in
  start <= end_ t /\ (forall i, start < i <= end_ t -> i ∈ l) /\ end_ t + 1 ∉ l /\
  forall i, i ∈ st_pending t <-> i ∈ l /\ end_ t < i.
Proof.
  intros Hs Hl.
  destruct (tracker_new_inv start Hs) as [Hi Ht]. destruct (adds_spec _ l Hi Ht Hl) as (H1 & H2 & H3 & H4).
  assert (Hc : forall i, counted (tracker_new start) i <-> i <= start).
  { intros i. unfold counted. cbn. set_solver. }
  split_and!; [done| | |].
  - intros i Hb. assert (Hci : counted (foldl (fun t i => add i t) (tracker_new start) l) i) by (left; lia).
    apply H4 in Hci as [Hci%Hc|?]; [lia|done].
  - intros Hin. apply H2, H4. by right.
  - intros i. split.
    + intros Hp. split; [|by apply H1]. assert (Hci : counted (foldl (fun t i => add i t) (tracker_new start) l) i) by (by right).
      apply H4 in Hci as [Hci%Hc|?]; [|done]. pose proof (ti_pending _ H1 _ Hp). cbn in H3. lia.
    + intros [Hin Hlt]. assert (Hci : counted (foldl (fun t i => add i t) (tracker_new start) l) i)
        by (apply H4; by right). destruct Hci; [lia|done].
Qed.

Lemma tracker_prefix_witness :
  let t := foldl (fun t i => add i t) (tracker_new 5) [7; 6; 9; 7] in
  end_ t = 7 /\ end_ t + 1 ∉ [7; 6; 9; 7] /\ 9 ∈ st_pending t.
Proof.
  intros t. destruct (tracker_prefix 5 [7; 6; 9; 7]) as (_ & _ & Hn & Hp); [by split|
    repeat (apply Forall_cons; split; [by split|]); by apply Forall_nil|].
  split_and!; [by vm_compute|exact Hn|]. apply Hp. split; [|by vm_compute]. do 2 right. left.
Defined.

(** ** Where a game is *)

Inductive Place := Waiting | Active | Done | Hole.

Definition waiting (pend : list PendingGame) (i : Z) : Prop := i ∈ p_game_index <$> pend.
(** A primary attempt is running. *)
Definition active (run : gmap Z RunningEstimator) (i : Z) : Prop :=
  exists est r, run !! i = Some est /\ kind est = Primary r.

(** The game [i], of those from [start] on; [h] is a game that is being moved.
    The tracker starts at [start], so it says nothing of this one. *)
Definition at_place (start : Z) (h : option Z) (s : MonitorState) (i : Z) (x : Place) : Prop :=
  match x with
  | Waiting => waiting (pending_games s) i
  | Active => active (running_processes s) i
  | Done => start < i /\ counted (sequence_tracker s) i
  | Hole => h = Some i
  end.

Record games_inv (start : Z) (h : option Z) (s : MonitorState) : Prop := {
  g_start : is_u64 start /\ start <= next_game_index s <= u64_max;
  g_tracker : tracker_inv (sequence_tracker s) /\ tight (sequence_tracker s) /\
    start <= end_ (sequence_tracker s);
  g_nodup : NoDup (p_game_index <$> pending_games s);
  g_primary : forall p, p ∈ pending_games s -> exists r, p_kind p = Primary r;
  g_range : forall i x, at_place start h s i x -> start <= i < next_game_index s;
  g_once : forall i x y, at_place start h s i x -> at_place start h s i y -> x = y;
  g_all : forall i, start < i < next_game_index s -> exists x, at_place start h s i x;
}.

(** One game has moved. *)
Lemma games_move start h s h' s' i0 :
  games_inv start h s -> next_game_index s' = next_game_index s -> start <= i0 < next_game_index s ->
  tracker_inv (sequence_tracker s') /\ tight (sequence_tracker s') /\ start <= end_ (sequence_tracker s') ->
  NoDup (p_game_index <$> pending_games s') ->
  (forall p, p ∈ pending_games s' -> exists r, p_kind p = Primary r) ->
  (forall i x, i <> i0 -> at_place start h' s' i x <-> at_place start h s i x) ->
  (forall x y, at_place start h' s' i0 x -> at_place start h' s' i0 y -> x = y) ->
  (start < i0 -> exists x, at_place start h' s' i0 x) ->
  games_inv start h' s'.
Proof.
  intros Hg Hn Hi Ht Hnd Hp Heq Honce Hsome. split; rewrite ?Hn; [apply Hg|done|done|done|..].
  - intros i x Hx. destruct (decide (i = i0)) as [->|Hne]; [done|]. apply (g_range _ _ _ Hg i x). by apply Heq.
  - intros i x y Hx Hy. destruct (decide (i = i0)) as [->|Hne]; [by apply Honce|].
    apply (g_once _ _ _ Hg i); by apply Heq.
  - intros i Hb. destruct (decide (i = i0)) as [->|Hne]; [apply Hsome; lia|].
    destruct (g_all _ _ _ Hg i Hb) as [x Hx]. exists x. by apply Heq.
Qed.

(** Nothing of this has changed. *)
Lemma games_same start h s s' :
  games_inv start h s -> next_game_index s' = next_game_index s ->
  sequence_tracker s' = sequence_tracker s -> pending_games s' = pending_games s ->
  (forall i, active (running_processes s') i <-> active (running_processes s) i) ->
  games_inv start h s'.
Proof.
  intros Hg Hn Ht Hp Ha.
  assert (Heq : forall i x, at_place start h s' i x <-> at_place start h s i x).
  { intros i x. destruct x; cbn; rewrite ?Hp, ?Ht; [done|apply Ha|done|done]. }
  split; rewrite ?Hn, ?Ht, ?Hp; [apply Hg..| | |].
  - intros i x Hx%Heq. by apply (g_range _ _ _ Hg i x).
  - intros i x y Hx%Heq Hy%Heq. by apply (g_once _ _ _ Hg i).
  - intros i Hb. destruct (g_all _ _ _ Hg i Hb) as [x Hx]. exists x. by apply Heq.
Qed.

Lemma hole_free start i s x : games_inv start (Some i) s -> at_place start (Some i) s i x -> x = Hole.
Proof. intros Hg Hx. by apply (g_once _ _ _ Hg i). Qed.

(** The game in the hole is counted. *)
Lemma count_hole start i s s' :
  games_inv start (Some i) s ->
  sequence_tracker s' = add i (sequence_tracker s) -> next_game_index s' = next_game_index s ->
  pending_games s' = pending_games s -> running_processes s' = running_processes s ->
  games_inv start None s'.
Proof.
  intros Hg Ht Hn Hp Hr. pose proof (g_range _ _ _ Hg i Hole eq_refl) as Hb.
  pose proof (g_start _ _ _ Hg) as [Hu Hnx]. destruct (g_tracker _ _ _ Hg) as (Hi & Hti & Hs).
  destruct (add_spec i _ Hi Hti) as (H1 & H2 & H3 & H4); [unfold is_u64 in *; lia|].
  assert (Hfree : forall x, x <> Hole -> ~ at_place start (Some i) s i x).
  { intros x Hx Ha. by apply Hx, (hole_free start i s). }
  assert (Hi0 : forall x, at_place start None s' i x -> x = Done).
  { intros x Hx. destruct x; [| |done|done]; exfalso;
      [apply (Hfree Waiting)|apply (Hfree Active)]; try done; cbn in *; congruence. }
  eapply (games_move start (Some i) s None s' i); rewrite ?Ht, ?Hp; try done; try apply Hg.
  - split_and!; [done..|lia].
  - intros j x Hne. destruct x; cbn; rewrite ?Hp, ?Hr, ?Ht, ?H4; [done|done|naive_solver|naive_solver].
  - intros x y ->%Hi0 ->%Hi0. done.
  - intros Hlt. exists Done. cbn. rewrite Ht, H4. auto.
Qed.

(** The game in the hole is queued again. *)
Lemma queue_hole start i s s' at_ r :
  games_inv start (Some i) s ->
  pending_games s' = {| executable_at := at_; p_game_index := i; p_kind := Primary r |} :: pending_games s ->
  sequence_tracker s' = sequence_tracker s -> next_game_index s' = next_game_index s ->
  running_processes s' = running_processes s -> games_inv start None s'.
Proof.
  intros Hg Hp Ht Hn Hr. pose proof (g_range _ _ _ Hg i Hole eq_refl) as Hb.
  assert (Hfree : forall x, x <> Hole -> ~ at_place start (Some i) s i x).
  { intros x Hx Ha. by apply Hx, (hole_free start i s). }
  assert (Hi0 : forall x, at_place start None s' i x -> x = Waiting).
  { intros x Hx. destruct x; [done| | |done]; exfalso;
      [apply (Hfree Active)|apply (Hfree Done)]; try done; cbn in *; congruence. }
  eapply (games_move start (Some i) s None s' i); rewrite ?Ht, ?Hp; try done; try apply Hg.
  - cbn. constructor; [|apply Hg]. by apply (Hfree Waiting).
  - intros p [->|Hin]%elem_of_cons; [by exists r|by apply Hg].
  - intros j x Hne. destruct x; cbn; rewrite ?Ht, ?Hr; [|done|done|naive_solver].
    unfold waiting. rewrite Hp. cbn. rewrite elem_of_cons. naive_solver.
  - intros x y ->%Hi0 ->%Hi0. done.
  - intros _. exists Waiting. cbn. unfold waiting. rewrite Hp. cbn. by left.
Qed.

(** A running primary attempt ends. *)
Lemma take_active start i s :
  games_inv start None s -> active (running_processes s) i ->
  games_inv start (Some i) (with_running (delete i (running_processes s)) s).
Proof.
  intros Hg Ha. pose proof (g_range _ _ _ Hg i Active Ha) as Hb.
  assert (Hact : forall j, active (delete i (running_processes s)) j <-> j <> i /\ active (running_processes s) j).
  { intros j. unfold active. destruct (decide (j = i)) as [->|Hne].
    - rewrite lookup_delete_eq. naive_solver.
    - rewrite lookup_delete_ne by done. naive_solver. }
  assert (Hi0 : forall x, at_place start (Some i) (with_running (delete i (running_processes s)) s) i x -> x = Hole).
  { intros x Hx. destruct x; [| | |done]; cbn in Hx.
    - by pose proof (g_once _ _ _ Hg i Waiting Active Hx Ha).
    - by apply Hact in Hx as [? _].
    - by pose proof (g_once _ _ _ Hg i Done Active Hx Ha). }
  eapply (games_move start None s (Some i) _ i); try done; try apply Hg.
  - intros j x Hne. destruct x; cbn; [done|rewrite Hact; naive_solver|done|naive_solver].
  - intros x y ->%Hi0 ->%Hi0. done.
  - intros _. by exists Hole.
Qed.

Lemma delete_background start h i est n s :
  games_inv start h s -> running_processes s !! i = Some est -> kind est = Background n ->
  games_inv start h (with_running (delete i (running_processes s)) s).
Proof.
  intros Hg Hi Hk. eapply games_same; [exact Hg|done..|]. intros j. cbn. unfold active.
  destruct (decide (j = i)) as [->|Hne]; [|by rewrite lookup_delete_ne].
  rewrite lookup_delete_eq, Hi. naive_solver congruence.
Qed.

Lemma elem_of_List_filter {A} (f : A -> bool) (l : list A) x : x ∈ List.filter f l <-> x ∈ l /\ f x = true.
Proof. by rewrite !list_elem_of_In, filter_In. Qed.

Lemma waiting_filter l i j :
  waiting (List.filter (not_pending i) l) j <-> j <> i /\ waiting l j.
Proof.
  unfold waiting. rewrite !list_elem_of_fmap. split.
  - intros (p & -> & [Hp Hn]%elem_of_List_filter).
    unfold not_pending in Hn. rewrite negb_true_iff, Z.eqb_neq in Hn. split; [done|]. by exists p.
  - intros (Hne & p & -> & Hp). exists p. split; [done|]. apply elem_of_List_filter. split; [done|].
    unfold not_pending. by rewrite negb_true_iff, Z.eqb_neq.
Qed.

Lemma pending_filter start h i s :
  games_inv start h s ->
  NoDup (p_game_index <$> List.filter (not_pending i) (pending_games s)) /\
  forall p, p ∈ List.filter (not_pending i) (pending_games s) -> exists r, p_kind p = Primary r.
Proof.
  intros Hg. split.
  - pose proof (g_nodup _ _ _ Hg) as Hnd. revert Hnd. generalize (pending_games s). intros l Hnd.
    induction l as [|p l IH]; cbn; [done|]. apply NoDup_cons in Hnd as [Hni Hnd].
    destruct (not_pending i p); [|by apply IH]. cbn. constructor; [|by apply IH].
    intros Hin. apply Hni. by apply (waiting_filter l i) in Hin as [_ Hin].
  - intros p [Hp _]%elem_of_List_filter. by apply (g_primary _ _ _ Hg).
Qed.

(** A waiting game is taken off the queue, or started. *)
Lemma take_waiting start i s :
  games_inv start None s -> waiting (pending_games s) i ->
  games_inv start (Some i) (GameMonitor.with_pending (List.filter (not_pending i) (pending_games s)) s).
Proof.
  intros Hg Hw. pose proof (g_range _ _ _ Hg i Waiting Hw) as Hb.
  destruct (pending_filter start None i s Hg) as [Hnd Hpr].
  set (s' := GameMonitor.with_pending _ s).
  assert (Hi0 : forall x, at_place start (Some i) s' i x -> x = Hole).
  { intros x Hx. destruct x; [| | |done]; cbn in Hx.
    - by apply waiting_filter in Hx as [? _].
    - by pose proof (g_once _ _ _ Hg i Waiting Active Hw Hx).
    - by pose proof (g_once _ _ _ Hg i Waiting Done Hw Hx). }
  eapply (games_move start None s (Some i) s' i); try done; try apply Hg.
  - intros j x Hne. destruct x; cbn; [rewrite waiting_filter; naive_solver|done|done|naive_solver].
  - intros x y ->%Hi0 ->%Hi0. done.
  - intros _. by exists Hole.
Qed.

Lemma start_primary start i est r s :
  games_inv start None s -> waiting (pending_games s) i -> kind est = Primary r ->
  games_inv start None (GameMonitor.with_pending (List.filter (not_pending i) (pending_games s))
    (with_child (with_running (<[i := est]> (running_processes s)) s))).
Proof.
  intros Hg Hw Hk. pose proof (g_range _ _ _ Hg i Waiting Hw) as Hb.
  destruct (pending_filter start None i s Hg) as [Hnd Hpr].
  set (s' := GameMonitor.with_pending _ _).
  assert (Hact : forall j, active (<[i := est]> (running_processes s)) j <-> j = i \/ active (running_processes s) j).
  { intros j. unfold active. destruct (decide (j = i)) as [->|Hne].
    - rewrite lookup_insert_eq. naive_solver.
    - rewrite lookup_insert_ne by done. naive_solver. }
  assert (Hi0 : forall x, at_place start None s' i x -> x = Active).
  { intros x Hx. destruct x; [|done| |done]; cbn in Hx.
    - by apply waiting_filter in Hx as [? _].
    - by pose proof (g_once _ _ _ Hg i Waiting Done Hw Hx). }
  eapply (games_move start None s None s' i); try done; try apply Hg.
  - intros j x Hne. destruct x; cbn; [rewrite waiting_filter|rewrite Hact|..]; naive_solver.
  - intros x y ->%Hi0 ->%Hi0. done.
  - intros _. exists Active. cbn. apply Hact. by left.
Qed.

Lemma start_background start h i est n s :
  games_inv start h s -> running_processes s !! i = None -> kind est = Background n ->
  games_inv start h (with_child (with_running (<[i := est]> (running_processes s)) s)).
Proof.
  intros Hg Hi Hk. eapply games_same; [exact Hg|done..|]. intros j. cbn. unfold active.
  destruct (decide (j = i)) as [->|Hne]; [|by rewrite lookup_insert_ne].
  rewrite lookup_insert_eq, Hi. naive_solver congruence.
Qed.

(** The next game is discovered. *)
Lemma discover_one start s at_ :
  games_inv start None s -> next_game_index s < u64_max ->
  games_inv start None (GameMonitor.with_pending
    ({| executable_at := at_; p_game_index := next_game_index s; p_kind := Primary 0 |} :: pending_games s)
    (with_next (wrap64 (next_game_index s + 1)) s)).
Proof.
  intros Hg Hn. pose proof (g_start _ _ _ Hg) as [Hu [Hs1 Hs2]]. set (n := next_game_index s) in *.
  assert (Hw : wrap64 (n + 1) = n + 1) by (apply wrap64_small; unfold is_u64 in *; lia).
  rewrite Hw. set (s' := GameMonitor.with_pending _ _).
  assert (Hout : forall x, ~ at_place start None s n x).
  { intros x Hx. apply (g_range _ _ _ Hg) in Hx. unfold n in Hx. lia. }
  assert (Hat : forall i x, at_place start None s' i x <-> at_place start None s i x \/ i = n /\ x = Waiting).
  { intros i x. destruct x; cbn; [|naive_solver..]. unfold waiting. cbn. rewrite elem_of_cons. naive_solver. }
  split; try apply Hg.
  - cbn. split; [done|lia].
  - cbn. constructor; [exact (Hout Waiting)|apply Hg].
  - intros p [->|Hp]%elem_of_cons; [by exists 0|by apply (g_primary _ _ _ Hg)].
  - intros i x [Hx|[-> _]]%Hat; cbn; [|lia]. apply (g_range _ _ _ Hg) in Hx. unfold n. lia.
  - intros i x y [Hx|[-> ->]]%Hat [Hy|[Hi ->]]%Hat; [by apply (g_once _ _ _ Hg i)| | |done].
    + subst i. by destruct (Hout x).
    + by destruct (Hout y).
  - cbn. intros i Hb. destruct (decide (i = n)) as [->|Hne]; [exists Waiting; apply Hat; auto|].
    destruct (g_all _ _ _ Hg i) as [x Hx]; [unfold n in *; lia|]. exists x. apply Hat. auto.
Qed.

(** ** The invariant of the daemon *)

(** The file is as it was at the start of the process, or says no more than the
    tracker does. *)
Definition saved (start : Z) (file : option ProgressState) (s : MonitorState) : Prop :=
  progress_file s = file \/
  exists p, progress_file s = Some p /\ start <= last_contiguous p <= end_ (sequence_tracker s).

Record monitor_inv (config : MonitorConfig) (start : Z) (file : option ProgressState) (h : option Z)
    (s : MonitorState) : Prop := {
  m_games : games_inv start h s;
  m_background : NoDup (game_index <$> background_retries s);
  m_size : (size (running_processes s) <= max_concurrent config)%nat;
  m_saved : saved start file s;
}.

Section operations.
Context {HO : HashOrder} `{F64} (config : MonitorConfig) (e : Env) (start : Z) (file : option ProgressState).
Notation inv := (monitor_inv config start file).

Lemma filter_fmap_nodup {A} (key : A -> Z) f l :
  NoDup (key <$> l) -> NoDup (key <$> List.filter f l).
Proof.
  intros Hnd. induction l as [|bg l IH]; cbn; [done|]. apply NoDup_cons in Hnd as [Hni Hnd].
  destruct (f bg); [|by apply IH]. cbn. constructor; [|by apply IH]. intros Hin. apply Hni.
  apply list_elem_of_fmap in Hin as (b & Hb & Hin). rewrite Hb. apply list_elem_of_fmap. exists b. split; [done|].
  by apply elem_of_List_filter in Hin as [? _].
Qed.

Lemma update_first_indices i f l :
  (forall bg, game_index (f bg) = game_index bg) -> game_index <$> update_first i f l = game_index <$> l.
Proof. intros Hf. induction l as [|bg l IH]; cbn; [done|]. destruct (is_retry_of i bg); cbn; congruence. Qed.

Lemma with_background_inv h b s : inv h s -> NoDup (game_index <$> b) -> inv h (with_background b s).
Proof. intros [Hg _ Hsz Hsv] Hb. split; [|done..]. by eapply games_same. Qed.

Lemma save_inv h s : inv h s -> inv h (save_progress e s).
Proof.
  intros Hi. unfold save_progress. destruct (write_progress e); [|done]. destruct Hi as [Hg Hb Hsz _].
  split; [by eapply games_same|done..|]. right. eexists. split; [done|]. cbn.
  pose proof (g_tracker _ _ _ Hg) as (_ & _ & Hs). lia.
Qed.

Lemma mark_inv i s : inv (Some i) s -> inv None (mark_game_completed e i s).
Proof.
  intros [Hg Hb Hsz Hsv].
  assert (Hi : inv None (with_tracker (add i (sequence_tracker s)) s)).
  { split; [by eapply count_hole|done..|]. destruct Hsv as [Hf|(p & Hf & Hp)]; [by left|right].
    exists p. split; [done|]. cbn. pose proof (g_start _ _ _ Hg) as [Hu Hnx].
    pose proof (g_range _ _ _ Hg i Hole eq_refl) as Hr. destruct (g_tracker _ _ _ Hg) as (Ht1 & Ht2 & _).
    destruct (add_spec i _ Ht1 Ht2) as (_ & _ & Hle & _); [unfold is_u64 in *; lia|]. lia. }
  unfold mark_game_completed. destruct (negb _); [by apply save_inv|done].
Qed.

Lemma mark_same i s :
  pending_games (mark_game_completed e i s) = pending_games s /\
  running_processes (mark_game_completed e i s) = running_processes s.
Proof. unfold mark_game_completed, save_progress. by destruct (negb _), (write_progress e). Qed.

Lemma save_same s :
  pending_games (save_progress e s) = pending_games s /\
  running_processes (save_progress e s) = running_processes s.
Proof. unfold save_progress. by destruct (write_progress e). Qed.

Lemma existsb_retry i l : existsb (is_retry_of i) l = false -> i ∉ game_index <$> l.
Proof.
  intros Hx (bg & -> & Hin)%list_elem_of_fmap. apply not_true_iff_false in Hx. apply Hx, existsb_exists.
  exists bg. rewrite <- list_elem_of_In. split; [done|]. apply Z.eqb_refl.
Qed.

Lemma maybe_requeue_inv i k created s s' :
  inv (match k with Primary _ => Some i | Background _ => None end) s ->
  maybe_requeue config e i k created s = (s', Ok tt) -> inv None s'.
Proof.
  intros Hi Hr. unfold maybe_requeue in Hr. destruct k as [retries|n].
  - destruct (retries <? max_retries config).
    + destruct (mbind _ _) as [at_|er|]; [|done..]. injection Hr as <-.
      destruct Hi as [Hg Hb Hsz Hsv]. split; [by eapply queue_hole|done..].
    + destruct (existsb _ _) eqn:Hx.
      * injection Hr as <-. by apply mark_inv.
      * destruct (time_add _ _) as [at_|er|]; [|done..]. injection Hr as <-.
        apply save_inv, mark_inv, with_background_inv; [done|]. rewrite fmap_app. cbn.
        apply NoDup_app. split_and!; [apply Hi| |apply NoDup_singleton].
        intros j Hj ->%list_elem_of_singleton. by apply existsb_retry in Hx.
  - destruct (find _ _) as [entry|]; [|by injection Hr as <-].
    destruct (time_add _ _) as [at_|er|]; [|done..]. injection Hr as <-.
    apply save_inv, with_background_inv; [done|]. rewrite update_first_indices by done. apply Hi.
Qed.

Lemma push_completion_inv h r s : inv h s -> inv h (push_completion config r s).
Proof.
  intros [Hg Hb Hsz Hsv]. unfold push_completion. destruct (_ =? 0)%nat; [done|].
  split; [by eapply games_same|done..].
Qed.

Lemma remove_inv i est s :
  inv None s -> running_processes s !! i = Some est ->
  inv (match kind est with Primary _ => Some i | Background _ => None end)
    (with_running (delete i (running_processes s)) s).
Proof.
  intros [Hg Hb Hsz Hsv] He. split; [|done| |done].
  - destruct (kind est) as [r|n] eqn:Hk; [|by eapply delete_background].
    apply take_active; [done|]. by exists est, r.
  - cbn. rewrite map_size_delete, He. cbn. lia.
Qed.

Lemma apply_action_inv id a s s' : inv None s -> apply_action config e id a s = (s', Ok tt) -> inv None s'.
Proof.
  intros Hi Hr. unfold apply_action in Hr. destruct (running_processes s !! id) as [est|] eqn:He;
    [|by injection Hr as <-].
  pose proof (remove_inv id est s Hi He) as Hd. destruct a as [dur range|reason|reason].
  - destruct (kind est) as [r|n].
    + injection Hr as <-. apply mark_inv. destruct (0 <? range); [by apply push_completion_inv|done].
    + injection Hr as <-. apply save_inv, with_background_inv; [done|]. apply (filter_fmap_nodup game_index), Hi.
  - by eapply maybe_requeue_inv.
  - by eapply maybe_requeue_inv.
Qed.

Lemma cleanup_inv s s' : inv None s -> cleanup_finished_processes config e s = (s', Ok tt) -> inv None s'.
Proof.
  unfold cleanup_finished_processes. generalize (omap (scan_process config e
    (median_time_per_block (completion_history s)) (median_log_per_block (completion_history s)))
    (iter_map (running_processes s))). intros l.
  revert s. induction l as [|[id a] l IH]; intros s Hi; cbn; [by intros [= <-]|].
  intros (s1 & [] & Ha & Hr)%M_bind_Ok. eapply IH; [|exact Hr]. by eapply apply_action_inv.
Qed.

Lemma evict_inv h now s : inv h s -> inv h (evict_aged_background_retries config e now s).
Proof.
  intros Hi. unfold evict_aged_background_retries.
  assert (Hb : inv h (with_background (List.filter (fun bg => negb (aged config now s bg)) (background_retries s)) s))
    by (apply with_background_inv; [done|]; apply (filter_fmap_nodup game_index), Hi).
  destruct (0 <? _)%nat; [by apply save_inv|done].
Qed.
(** A candidate of a spawning phase, at its turn. *)
Definition ready (s : MonitorState) (c : Z * AttemptKind) : Prop :=
  match c.2 with
  | Primary _ => waiting (pending_games s) c.1
  | Background _ => running_processes s !! c.1 = None
  end.

Lemma spawn_game_inv i k s s' o :
  inv None s -> ready s (i, k) -> can_spawn_new config s = true ->
  spawn_game config e i k s = (s', Ok o) ->
  inv None s' /\ forall c, c.1 <> i -> ready s c -> ready s' c.
Proof.
  intros Hi Hready Hroom Hr. unfold spawn_game in Hr.
  destruct (fetch_game_data e i) as [[g|]|er|]; [| |by injection Hr as <- <-|done].
  - destruct (l2_finalized e i) as [[b|]|er|]; [|by injection Hr as <- <-..|done].
    destruct (b <? end_block g); [by injection Hr as <- <-|].
    destruct (spawn_cost_estimator config e g) as [u|er|]; [|done..]. injection Hr as <- <-.
    set (est := {| started_at := _ |}).
    assert (Hsz : (size (<[i := est]> (running_processes s)) <= max_concurrent config)%nat).
    { unfold can_spawn_new in Hroom. apply Nat.ltb_lt in Hroom.
      rewrite map_size_insert. destruct (running_processes s !! i); unfold id; lia. }
    destruct Hi as [Hg Hb _ Hsv]. destruct k as [r|n]; cbn in Hready.
    + split; [split; [by eapply start_primary|done..]|].
      intros [j []] Hne Hj; cbn in *; [by apply waiting_filter|by rewrite lookup_insert_ne].
    + split; [split; [by eapply start_background|done..]|].
      intros [j []] Hne Hj; cbn in *; [done|by rewrite lookup_insert_ne].
  - injection Hr as <- <-. destruct k as [r|n]; cbn in Hready |- *.
    + split.
      * apply mark_inv. destruct Hi as [Hg Hb Hsz Hsv]. split; [by apply take_waiting|done..].
      * intros [j k] Hne Hj. unfold ready in *. rewrite (proj1 (mark_same _ _)), (proj2 (mark_same _ _)).
        destruct k; cbn in *; [by apply waiting_filter|done].
    + split; [|by intros [j k] Hne Hj; unfold ready in *;
        rewrite (proj1 (save_same _)), (proj2 (save_same _))].
      apply save_inv, with_background_inv; [done|]. apply (filter_fmap_nodup game_index), Hi.
Qed.

Lemma spawn_all_inv cs s s' o :
  inv None s -> NoDup cs.*1 -> Forall (ready s) cs ->
  spawn_all config e cs s = (s', Ok o) -> inv None s'.
Proof.
  revert s. induction cs as [|[i k] cs IH]; intros s Hi Hnd Hready Hr; cbn [spawn_all] in Hr; [by injection Hr as <- <-|].
  apply NoDup_cons in Hnd as [Hni Hnd]. apply Forall_cons in Hready as [Hik Hready].
  destruct (can_spawn_new config s) eqn:Hroom; cbn [negb] in Hr; [|by injection Hr as <- <-].
  destruct (spawn_game config e i k s) as [s1 [out|er|]] eqn:E; [|done..].
  destruct (spawn_game_inv i k s s1 out Hi Hik Hroom E) as [Hi1 Hkeep].
  assert (Hrest : spawn_all config e cs s1 = (s', Ok o) -> inv None s').
  { apply IH; [done..|]. apply Forall_forall. intros c Hc.
    apply Hkeep; [|by apply (proj1 (Forall_forall _ _) Hready)].
    intros Hci. apply Hni. apply list_elem_of_fmap. by exists c. }
  destruct out; try by apply Hrest. by injection Hr as <- <-.
Qed.

Lemma primary_ready t s : inv None s ->
  NoDup (primary_candidates t s).*1 /\ Forall (ready s) (primary_candidates t s).
Proof.
  intros [Hg _ _ _]. unfold primary_candidates. rewrite <- list_fmap_compose. split.
  - apply (filter_fmap_nodup p_game_index), Hg.
  - apply Forall_fmap, Forall_forall. intros p [Hp _]%elem_of_List_filter.
    unfold ready, compose. cbn. destruct (g_primary _ _ _ Hg p Hp) as [r ->].
    apply list_elem_of_fmap. by exists p.
Qed.

Lemma background_ready t s : inv None s ->
  NoDup (background_candidates t s).*1 /\ Forall (ready s) (background_candidates t s).
Proof.
  intros [_ Hb _ _]. unfold background_candidates. rewrite <- list_fmap_compose. split.
  - apply (filter_fmap_nodup game_index), Hb.
  - apply Forall_fmap, Forall_forall. intros bg [_ Hn]%elem_of_List_filter.
    rewrite andb_true_iff, negb_true_iff, bool_decide_eq_false in Hn. destruct Hn as [_ Hn].
    unfold ready, compose. cbn. by apply eq_None_not_Some.
Qed.

Lemma discover_inv n s s' :
  inv None s -> next_game_index s + Z.of_nat n <= u64_max ->
  discover config e n s = (s', Ok tt) -> inv None s'.
Proof.
  revert s. induction n as [|n IH]; intros s Hi Hn Hr; cbn in Hr; [by injection Hr as <-|].
  destruct (time_add _ _) as [at_|er|]; [|done..].
  destruct Hi as [Hg Hb Hsz Hsv]. eapply IH; [|..|exact Hr].
  - split; [apply discover_one; [done|lia]|done..].
  - cbn. rewrite wrap64_small; [lia|]. destruct (g_start _ _ _ Hg) as [Hu Hnx]. unfold is_u64 in *. lia.
Qed.

Lemma discover_games_inv s s' : inv None s -> discover_games config e s = (s', Ok tt) -> inv None s'.
Proof.
  intros Hi. unfold discover_games. destruct (gameCount e) as [c|er|]; [|by intros [= <-]|done].
  intros (s1 & n & [[Hn ->]%to_u64_Ok ->]%M_lift_Ok & Hr)%M_bind_Ok.
  destruct (g_start _ _ _ (m_games _ _ _ _ _ Hi)) as [Hu Hnx].
  apply discover_inv in Hr; [done..|lia].
Qed.

Lemma poll_inv t1 t2 t3 s s' : inv None s -> poll config e t1 t2 t3 s = (s', Ok tt) -> inv None s'.
Proof.
  intros Hi. unfold poll.
  intros (s1 & [] & H1%cleanup_inv & (s2 & [] & [= <-] & (s3 & go & H3 & Hr)%M_bind_Ok)%M_bind_Ok)%M_bind_Ok; [|done].
  pose proof (evict_inv None t1 s1 H1) as H2. destruct (primary_ready t2 _ H2) as [Hnd Hrd].
  apply spawn_all_inv in H3; [|done..]. destruct go; [|by injection Hr as <-].
  apply M_bind_Ok in Hr as (s4 & go & H4 & Hr). destruct (background_ready t3 _ H3) as [Hnd' Hrd'].
  apply spawn_all_inv in H4; [|done..]. destruct go; [|by injection Hr as <-].
  by apply discover_games_inv in Hr.
Qed.
End operations.

(** ** The life of a daemon *)

Section life.
Context {HO : HashOrder} `{F64} (config : MonitorConfig).

(** Turns of the loop, each in a world of its own. *)
Inductive polls (s : MonitorState) : MonitorState -> Prop :=
| polls_refl : polls s s
| polls_step e t1 t2 t3 s1 s2 :
    polls s s1 -> poll config e t1 t2 t3 s1 = (s2, Ok tt) -> polls s s2.

Lemma polls_inv start file s s' :
  polls s s' -> monitor_inv config start file None s -> monitor_inv config start file None s'.
Proof. intros Hp Hi. induction Hp; [done|]. by eapply poll_inv. Qed.

Lemma dedup_from_spec seen l :
  NoDup (game_index <$> dedup_from seen l) /\
  (forall i, i ∈ game_index <$> dedup_from seen l <-> i ∈ game_index <$> l /\ i ∉ seen).
Proof.
  revert seen. induction l as [|bg l IH]; intros seen; cbn.
  { split; [constructor|]. intros i. split; [by intros ?%not_elem_of_nil|intros [?%not_elem_of_nil _]; done]. }
  case_bool_decide as Hin.
  - destruct (IH seen) as [Hnd He]. split; [done|]. intros i. rewrite He, elem_of_cons. naive_solver.
  - destruct (IH ({[game_index bg]} ∪ seen)) as [Hnd He]. split.
    + cbn. constructor; [|done]. intros [_ []%not_elem_of_union]%He. set_solver.
    + intros i. cbn. rewrite !elem_of_cons, He, not_elem_of_union, not_elem_of_singleton.
      destruct (decide (i = game_index bg)) as [->|]; tauto.
Qed.

Lemma monitor_new_inv next history retries file :
  is_u64 next -> NoDup (game_index <$> retries) ->
  monitor_inv config next file None (monitor_new next history retries file).
Proof.
  intros Hu Hnd. destruct (tracker_new_inv next Hu) as [Hi Ht].
  assert (Hno : forall i x, ~ at_place next None (monitor_new next history retries file) i x).
  { intros i x. destruct x; cbn.
    - apply not_elem_of_nil.
    - intros (est & r & He & _). by rewrite lookup_empty in He.
    - intros [Hlt [Hle|Hp]]; cbn in *; [lia|set_solver].
    - done. }
  split; [|done|cbn; rewrite map_size_empty; lia|by left].
  split; cbn; [unfold is_u64 in Hu; split; [done|lia]|done|constructor|by intros p ?%not_elem_of_nil|..].
  - intros i x Hx. by destruct (Hno i x).
  - intros i x y Hx. by destruct (Hno i x).
  - lia.
Qed.

Lemma evict_same e now s :
  next_game_index (evict_aged_background_retries config e now s) = next_game_index s /\
  sequence_tracker (evict_aged_background_retries config e now s) = sequence_tracker s /\
  pending_games (evict_aged_background_retries config e now s) = pending_games s /\
  running_processes (evict_aged_background_retries config e now s) = running_processes s.
Proof.
  unfold evict_aged_background_retries, save_progress. destruct (0 <? _)%nat; [|done].
  by destruct (write_progress e).
Qed.

Lemma startup_inv e now start_index file records s :
  startup config e now start_index file records = Ok s -> is_u64 (next_game_index s) ->
  monitor_inv config (next_game_index s) file None s.
Proof.
  unfold startup. intros (next & _ & Hs)%outcome_bind_Ok.
  assert (Hn : next_game_index s = next) by (injection Hs as <-; apply evict_same).
  rewrite Hn. injection Hs as <-. intros Hu. apply evict_inv, monitor_new_inv; [done|]. apply dedup_from_spec.
Qed.

(** C29: However its polls, failures, kills and retries go, a monitor deals with every
    game it has discovered after the first: the game waits for an attempt, or has
    a primary attempt running, or is counted as done, and no two of these at once.
    The map of running attempts, primary and background ones, has never more
    entries than the limit allows; and a progress file written in this life claims
    no game, apart from the first, that waits or has a primary attempt running.
    A game counted as done may still have a background attempt in the queue or
    running. An attempt that is replaced in the map is no longer counted against
    the limit, though its process may live on. *)
Theorem no_game_forgotten e now start_index file records s0 s :
  startup config e now start_index file records = Ok s0 -> is_u64 (next_game_index s0) -> polls s0 s ->
  let start := next_game_index s0 in
  (forall i, start < i < next_game_index s ->
     (waiting (pending_games s) i \/ active (running_processes s) i \/ counted (sequence_tracker s) i) /\
     ~ (waiting (pending_games s) i /\ active (running_processes s) i) /\
     ~ (waiting (pending_games s) i /\ counted (sequence_tracker s) i) /\
     ~ (active (running_processes s) i /\ counted (sequence_tracker s) i)) /\
  (size (running_processes s) <= max_concurrent config)%nat /\
  (progress_file s = file \/
   exists p, progress_file s = Some p /\ forall i, start < i <= last_contiguous p ->
     i < next_game_index s /\ ~ waiting (pending_games s) i /\ ~ active (running_processes s) i).
Proof.
  intros Hs Hu Hp start. pose proof (polls_inv _ _ _ _ Hp (startup_inv _ _ _ _ _ _ Hs Hu)) as [Hg _ Hsz Hsv].
  fold start in Hg, Hsv. pose proof (g_once _ _ _ Hg) as Hone. split_and!; [|done|].
  - intros i Hi. pose proof (fun y => Hone i Waiting y) as Hw. pose proof (Hone i Active Done) as Had. cbn in Had.
    split_and!.
    + destruct (g_all _ _ _ Hg i Hi) as [[] Hx]; cbn in Hx; naive_solver.
    + intros [Hx Hy]. by specialize (Hw Active Hx Hy).
    + intros [Hx Hy]. by specialize (Hw Done Hx (conj (proj1 Hi) Hy)).
    + intros [Hx Hy]. by specialize (Had Hx (conj (proj1 Hi) Hy)).
  - destruct Hsv as [Hf|(p & Hf & Hb)]; [by left|right]. exists p. split; [done|]. intros i Hi.
    assert (Hd : at_place start None s i Done) by (split; [lia|left; lia]).
    pose proof (g_range _ _ _ Hg i Done Hd). split_and!; [lia|..]; intros Hx.
    + by specialize (Hone i Waiting Done Hx Hd).
    + by specialize (Hone i Active Done Hx Hd).
Qed.
End life.

(** ** What a restart loses *)

Lemma startup_resumes {F : F64} config e now p records s :
  startup config e now None (Some p) records = Ok s -> is_u64 (last_contiguous p + 1) ->
  next_game_index s = last_contiguous p + 1 /\ pending_games s = [] /\ running_processes s = ∅ /\
  s = evict_aged_background_retries config e now
        (monitor_new (last_contiguous p + 1) (load_history (max_history_length config) records)
           (dedup_background_retries (saved_retries p)).1 (Some p)).
Proof.
  unfold startup. cbn [first_game]. intros (next & [= <-] & Hs)%outcome_bind_Ok Hu.
  rewrite (wrap64_small (last_contiguous p + 1)) in Hs by done. injection Hs as <-. cbn [default fmap option_fmap option_map from_option id].
  split_and!; [apply (evict_same config e now (monitor_new _ _ _ _))..|done].
Qed.

Lemma filter_drops {A} (f : A -> bool) l x :
  x ∈ l -> f x = false -> (length (List.filter f l) < length l)%nat.
Proof.
  intros Hx Hf. induction l as [|y l IH]; [by apply not_elem_of_nil in Hx|].
  apply elem_of_cons in Hx as [<-|Hx]; cbn.
  - rewrite Hf. pose proof (List.filter_length_le f l). lia.
  - specialize (IH Hx). destruct (f y); cbn; lia.
Qed.

Lemma evict_saves {F : F64} config e now s bg :
  bg ∈ background_retries s -> aged config now s bg = true -> write_progress e = true ->
  last_contiguous <$> progress_file (evict_aged_background_retries config e now s) =
    Some (end_ (sequence_tracker s)).
Proof.
  intros Hbg Ha Hw. unfold evict_aged_background_retries.
  pose proof (filter_drops (fun bg => negb (aged config now s bg)) _ bg Hbg) as Hlen. cbn in Hlen.
  rewrite Ha in Hlen. specialize (Hlen eq_refl).
  destruct (Nat.ltb_spec 0 (length (background_retries s) -
    length (List.filter (fun bg => negb (aged config now s bg)) (background_retries s)))); [|lia].
  unfold save_progress. by rewrite Hw.
Qed.

(** A monitor that resumes after [last_contiguous] starts its tracker at the game
    it is about to run, as if this were done. When it saves its progress before
    it has run this game, here because a background retry has aged out while it
    was down, the file claims the game; the next start resumes after it, and
    never makes a primary attempt at the game. *)
Theorem restart_skips_a_game {HO : HashOrder} {F : F64} config e now p records s bg :
  startup config e now None (Some p) records = Ok s ->
  is_u64 (last_contiguous p) -> last_contiguous p + 2 <= u64_max -> write_progress e = true ->
  bg ∈ (dedup_background_retries (saved_retries p)).1 ->
  background_retry_max_age config < saturating_sub now (game_created_at bg) ->
  let i := last_contiguous p + 1 in
  pending_games s = [] /\ running_processes s = ∅ /\
  last_contiguous <$> progress_file s = Some i /\
  forall config' e' now' records' s' s'',
    startup config' e' now' None (progress_file s) records' = Ok s' -> polls config' s' s'' ->
    next_game_index s' = i + 1 /\ ~ waiting (pending_games s'') i /\ ~ active (running_processes s'') i.
Proof.
  intros Hs Hu Hmax Hw Hbg Hage i. unfold is_u64 in Hu.
  destruct (startup_resumes config e now p records s Hs) as (_ & Hp & Hr & Hev); [unfold is_u64; lia|].
  assert (Hfile : last_contiguous <$> progress_file s = Some i).
  { rewrite Hev. apply (evict_saves config e now (monitor_new _ _ _ _) bg Hbg); [|done].
    unfold aged. cbn [running_processes monitor_new]. rewrite lookup_empty.
    rewrite bool_decide_false by (by intros [? ?]). by apply Z.ltb_lt. }
  split_and!; [done..|]. intros config' e' now' records' s' s'' Hs' Hpolls.
  apply fmap_Some in Hfile as (p' & Hf & Hl).
  rewrite Hf in Hs'.
  destruct (startup_resumes config' e' now' p' records' s' Hs') as (Hn & _); [unfold is_u64; lia|].
  rewrite <- Hl in Hn. split; [done|].
  assert (Hu' : is_u64 (next_game_index s')) by (rewrite Hn; unfold is_u64; lia).
  pose proof (polls_inv _ _ _ _ _ Hpolls (startup_inv _ _ _ _ _ _ _ Hs' Hu')) as [Hg _ _ _].
  split; intros Hx; [pose proof (g_range _ _ _ Hg i Waiting Hx)|pose proof (g_range _ _ _ Hg i Active Hx)]; lia.
Qed.

(** ** Background retries and logs *)

(** [gen-background-retry] keeps what the file says and appends one entry, due at
    once, for every game that had none. *)
Lemma gen_background_retry_spec e secs indexes p p' :
  gen_background_retry e secs indexes p = Ok p' ->
  last_contiguous p' = last_contiguous p /\
  exists new, saved_retries p' = saved_retries p ++ new /\
    Forall (fun bg => next_attempt_at bg = 0 /\ last_wait bg = from_secs secs /\ attempts bg = 0) new /\
    NoDup (game_index <$> new) /\
    forall i, i ∈ game_index <$> new <-> i ∈ indexes /\ i ∉ game_index <$> saved_retries p.
Proof.
  unfold gen_background_retry. intros (l & Hl & [= <-])%outcome_bind_Ok. split; [done|]. cbn.
  assert (Hgen : forall indexes existing entries l,
    append_retries e (from_secs secs) indexes existing entries = Ok l ->
    exists new, l = entries ++ new /\
      Forall (fun bg => next_attempt_at bg = 0 /\ last_wait bg = from_secs secs /\ attempts bg = 0) new /\
      NoDup (game_index <$> new) /\
      forall i, i ∈ game_index <$> new <-> i ∈ indexes /\ i ∉ existing).
  { clear. induction indexes as [|i rest IH]; intros existing entries l; cbn.
    - intros [= <-]. exists []. rewrite app_nil_r. split_and!; [done|constructor|constructor|].
      intros i. split; [by intros ?%not_elem_of_nil|by intros [?%not_elem_of_nil _]].
    - case_bool_decide as Hin.
      + intros (new & -> & Hf & Hnd & He)%IH. exists new. split_and!; [done..|]. intros j.
        rewrite He, elem_of_cons. naive_solver.
      + intros (entry & Hm & (new & -> & Hf & Hnd & He)%IH)%outcome_bind_Ok.
        unfold make_background_retry in Hm. apply outcome_bind_Ok in Hm as (g & _ & Hm).
        destruct g as [g|]; [|done]. injection Hm as <-.
        eexists. rewrite <- app_assoc. split; [reflexivity|]. cbn. split_and!.
        * by constructor.
        * constructor; [|done]. intros [_ Hn]%He. apply Hn. set_solver.
        * intros j. rewrite !elem_of_cons, He, not_elem_of_union, not_elem_of_singleton.
          destruct (decide (j = i)) as [->|]; tauto. }
  destruct (Hgen _ _ _ _ Hl) as (new & -> & Hf & Hnd & He). exists new. split_and!; [done..|].
  intros i. rewrite He, not_elem_of_list_to_set. done.
Qed.

(** The clean-up never removes the log of a running game. *)
Lemma removed_logs_not_running removable max_size running logs l :
  l ∈ (enforce_log_space_limit removable max_size running logs).1 ->
  l ∈ logs /\ running !! log_game l = None.
Proof.
  unfold enforce_log_space_limit. destruct (_ <=? _); [by intros ?%not_elem_of_nil|].
  assert (Hperm : forall x, x ∈ merge_sort by_game logs <-> x ∈ logs)
    by (intros x; by rewrite (merge_sort_Permutation by_game logs)).
  intros Hl. rewrite <- Hperm. revert Hl. generalize (total_bytes logs). generalize (merge_sort by_game logs).
  clear. intros logs total. revert total.
  induction logs as [|x logs IH]; intros total; cbn; [by intros ?%not_elem_of_nil|].
  destruct (total <=? max_size); [by intros ?%not_elem_of_nil|]. rewrite elem_of_cons.
  case_bool_decide as Hr; [intros ?%IH; naive_solver|]. apply eq_None_not_Some in Hr.
  destruct (removable (path x)); [|intros ?%IH; naive_solver].
  specialize (IH (wrap64 (total - log_bytes x))).
  destruct (remove_logs _ _ _ _ _) as [removed rest]. cbn in *. intros [->|?]%elem_of_cons; naive_solver.
Qed.

(** ** Examples *)

Section examples.
(** Whole numbers for floating point. *)
Definition whole : F64 :=
  {| f64 := Z; f_of_Z := id; f_secs := fun d => d / SECOND; f_div := Z.div; f_mul := Z.mul; f_add := Z.add;
     f_gt := fun a b => b <? a |}.
#[local] Existing Instance whole.

Definition sample_config : MonitorConfig :=
  {| initial_game_delay := from_secs 600; max_process_duration_secs := 10800; max_history_length := 50;
     max_retries := 1; background_retry_max_age := from_secs 302400; max_concurrent := 5; batch_size := 200 |}.

(** [count] games, all of the monitored type but game 3; [now] seconds have gone
    by; [status] of the children. *)
Definition sample_env (count now : Z) (status : nat -> option bool) : Env :=
  {| elapsed := fun _ => from_secs 60; try_wait := fun c => Ok (status c); log_len := fun _ => 1000;
     instant_now := fun _ => from_secs now; system_now := fun _ => from_secs now;
     gameAtIndex := fun i => Ok {| gi_gameType := if i =? 3 then 0 else GAME_TYPE; gi_timestamp := 0;
                                   gi_proxy := i |};
     l2BlockNumber := fun a => Ok (100 * (a + 1)); startingBlockNumber := fun a => Ok (100 * a);
     l1Head := fun a => Ok a; l2_finalized := fun _ => Ok (Some 550);
     spawn_command := fun _ => Ok tt; gameCount := Ok count; write_progress := true |}.

Definition turn (count now : Z) (status : nat -> option bool) : M MonitorState unit :=
  poll sample_config (sample_env count now status) (from_secs now) (from_secs now) (from_secs now).

Definition first_state : MonitorState := monitor_new 2 [] [] None.
(** Games 2 to 5 are discovered. *)
Definition discovered_state : MonitorState := (turn 6 0 (fun _ => None) first_state).1.
(** Game 5 waits for the L2, game 3 is of another type, 4 and 2 are started. *)
Definition started_state : MonitorState := (turn 6 600 (fun _ => None) discovered_state).1.
(** Game 2 has succeeded, and 4 has failed and waits again. *)
Definition later_state : MonitorState :=
  (turn 6 660 (fun c => match c with 0%nat => Some false | _ => Some true end) started_state).1.

Lemma no_game_forgotten_witness :
  startup sample_config (sample_env 3 0 (fun _ => None)) 0 None None [] = Ok first_state /\
  is_u64 (next_game_index first_state) /\ polls sample_config first_state later_state /\
  counted (sequence_tracker later_state) 3 /\
  (waiting (pending_games later_state) 4 \/ active (running_processes later_state) 4 \/
   counted (sequence_tracker later_state) 4) /\
  (size (running_processes later_state) <= 5)%nat.
Proof.
  assert (Hs : startup sample_config (sample_env 3 0 (fun _ => None)) 0 None None [] = Ok first_state)
    by reflexivity.
  assert (Hu : is_u64 (next_game_index first_state)) by (by split).
  assert (Hp : polls sample_config first_state later_state).
  { apply polls_step with (sample_env 6 660 (fun c => match c with 0%nat => Some false | _ => Some true end))
      (from_secs 660) (from_secs 660) (from_secs 660) started_state; [|by vm_compute].
    apply polls_step with (sample_env 6 600 (fun _ => None)) (from_secs 600) (from_secs 600) (from_secs 600)
      discovered_state; [|by vm_compute].
    apply polls_step with (sample_env 6 0 (fun _ => None)) (from_secs 0) (from_secs 0) (from_secs 0)
      first_state; [apply polls_refl|by vm_compute]. }
  destruct (no_game_forgotten sample_config _ _ _ _ _ _ _ Hs Hu Hp) as (Hi & Hsz & _).
  split_and!; [done..| |apply Hi|done].
  - left. by vm_compute.
  - by vm_compute.
Defined.

(** The tests of the source. *)
Example wait_grows : next_background_wait (from_secs 4800) (from_secs 302400) = from_secs 19200.
Proof. reflexivity. Qed.
Example wait_saturates :
  next_background_wait (from_secs (4800 * 4 ^ 25)) (from_secs 302400) = from_secs 302400.
Proof. reflexivity. Qed.
Example needles_on_one_line :
  classify_line "Failed to fetch safe head: dns error: x" = Some DnsLookupFailure /\
  detect_failure_type (Some ["Failed to fetch safe head"; "dns error"]%string) = Unknown.
Proof. split; reflexivity. Qed.

Definition sample_retry (i : Z) : BackgroundRetry :=
  {| game_index := i; game_created_at := 0; next_attempt_at := 0; last_wait := from_secs 4800; attempts := 0 |}.

(** The monitor was stopped after game 9; while it was down, the retry of game 2
    has aged. *)
Definition stopped : ProgressState := {| last_contiguous := 9; saved_retries := [sample_retry 2] |}.
Definition resumed_state : MonitorState :=
  {| running_processes := ∅; pending_games := []; background_retries := []; next_game_index := 10;
     completion_history := []; sequence_tracker := tracker_new 10; children := 0;
     progress_file := Some {| last_contiguous := 10; saved_retries := [] |} |}.

Lemma restart_skips_a_game_witness :
  startup sample_config (sample_env 20 0 (fun _ => None)) (from_secs 302401) None (Some stopped) [] =
    Ok resumed_state /\
  forall e' now' s' s'',
    startup sample_config e' now' None (progress_file resumed_state) [] = Ok s' ->
    polls sample_config s' s'' ->
    next_game_index s' = 11 /\ ~ waiting (pending_games s'') 10 /\ ~ active (running_processes s'') 10.
Proof.
  assert (Hs : startup sample_config (sample_env 20 0 (fun _ => None)) (from_secs 302401) None (Some stopped) []
    = Ok resumed_state) by (by vm_compute).
  split; [done|]. intros e' now' s' s'' Hs' Hp.
  destruct (restart_skips_a_game sample_config _ _ _ _ _ (sample_retry 2) Hs) as (_ & _ & _ & Hskip).
  - by split.
  - by vm_compute.
  - done.
  - cbn. left.
  - by vm_compute.
  - by apply (Hskip _ _ _ _ _ _ Hs' Hp).
Defined.

(** Started again at a game that has a background retry, the monitor runs the
    retry, then the game; the second child takes the place of the first, which
    still runs and is never waited for nor killed. *)
Definition rediscovered : MonitorState :=
  ((_ ← turn 6 0 (fun _ => None); turn 6 600 (fun _ => None))
     (monitor_new 4 [] [sample_retry 4] None)).1.
Example retry_child_is_orphaned :
  (process <$> (turn 6 0 (fun _ => None) (monitor_new 4 [] [sample_retry 4] None)).1.(running_processes) !! 4
     = Some 0%nat) /\
  children rediscovered = 2%nat /\ (shutdown rediscovered).1 = [1%nat].
Proof. split_and!; by vm_compute. Qed.
End examples.
