(* ===== verification/EndToEnd.v ===== *)
(** * Proving a range of blocks, from end to end

    The host derives each range and records a witness
    ([utils/host/src/witness_generation]), the range program proves it
    ([programs/range]), the fetcher collects the L1 headers
    ([utils/host/src/fetcher.rs]) and the aggregation program joins the proofs
    ([programs/aggregation]). What SP1 promises of its proofs is a hypothesis:
    a proof that verifies under the key of the range program commits what some
    run of it commits, and such a run has one. *)

From S2P Require Import Prelude.
From S2P Require Import Interleaving.
From S2P Require Import AggregationProgram.
From S2P Require Import Oracle.
From S2P Require Import WitnessStore.
From S2P Require Import WitnessLaws.
From S2P Require Import RangeProgram.
From S2P Require Import Fetcher.
From S2P Require Import FetcherLaws.

Section end_to_end.
Context {HO : HashOrder} `{WitnessCrypto, !Kona, !WitnessExecutor, HeaderHash, Zkvm}.
Context (from_bytes : bytes -> outcome DefaultWitnessData).

(** [vkey] is the key of the range program. *)
Definition sound_key (vkey : list Z) : Prop := forall b,
  verify_sp1_proof vkey (pv_digest b) = true -> exists input, range_main from_bytes input = Ok b.
Definition complete_key (vkey : list Z) : Prop := forall b input,
  range_main from_bytes input = Ok b -> verify_sp1_proof vkey (pv_digest b) = true.

(** ** Soundness *)

(** Derivations from root to root, each over a witness that is accepted for it, at
    L1 heads out of [heads] and under one configuration; the last one ends at a
    block. *)
Inductive derives (heads : list Z) (config root : Z) : Z -> Z -> Prop :=
| derives_first w b :
    derivation_of w b -> l1Head b ∈ heads -> rollupConfigHash b = config -> l2PreRoot b = root ->
    derives heads config root (l2PostRoot b) (l2BlockNumber b)
| derives_next w b n :
    derives heads config root (l2PreRoot b) n ->
    derivation_of w b -> l1Head b ∈ heads -> rollupConfigHash b = config ->
    derives heads config root (l2PostRoot b) (l2BlockNumber b).

Lemma sequential_app bs b b' :
  sequential ((bs ++ [b]) ++ [b']) -> sequential (bs ++ [b]) /\ l2PostRoot b = l2PreRoot b'.
Proof.
  intros Hs. split.
  - intros i x y Hx Hy. apply (Hs i); by apply lookup_app_l_Some.
  - apply (Hs (length bs)).
    + apply lookup_app_l_Some, list_lookup_middle. done.
    + rewrite lookup_app_r by (rewrite length_app; cbn; lia). rewrite length_app. cbn.
      by replace (S (length bs) - (length bs + 1))%nat with 0%nat by lia.
Qed.

Lemma derives_sequential heads config first rest last_ :
  last (first :: rest) = Some last_ -> sequential (first :: rest) ->
  Forall (fun b => (exists w, derivation_of w b) /\ l1Head b ∈ heads /\ rollupConfigHash b = config)
    (first :: rest) ->
  derives heads config (l2PreRoot first) (l2PostRoot last_) (l2BlockNumber last_).
Proof.
  revert last_. induction rest as [|b rest IH] using rev_ind; intros last_ Hl Hs Hf.
  - injection Hl as <-. apply Forall_cons in Hf as [([w Hw] & Hh & Hc) _]. by apply (derives_first _ _ _ w).
  - rewrite app_comm_cons, last_snoc in Hl. injection Hl as <-.
    rewrite app_comm_cons in Hs, Hf. apply Forall_app in Hf as [Hf Hb].
    apply Forall_cons in Hb as [([w Hw] & Hh & Hc) _].
    destruct (exists_last (l := first :: rest)) as (init & prev & E); [done|].
    rewrite E in Hs. apply sequential_app in Hs as [Hs Hroot]. rewrite <- E in Hs.
    apply (derives_next _ _ _ w b (l2BlockNumber prev)); [|done..]. rewrite <- Hroot.
    apply IH; [|done..]. by rewrite E, last_snoc.
Qed.

(** C7: The claim of the aggregation program, relayed to L1, is a derivation of the
    whole range: from its first output root to its last, and its block, through
    ranges that were each derived over checked preimages and blobs, under the
    configuration it names, at L1 heads that are ancestors of the checkpoint. *)
Theorem aggregate_claim_is_derived agg_inputs headers_bytes out :
  sound_key (multi_block_vkey agg_inputs) -> main agg_inputs headers_bytes = Ok out ->
  exists headers, linked headers (o_l1Head out) /\
    derives (hash_slow <$> headers) (o_rollupConfigHash out) (o_l2PreRoot out) (o_l2PostRoot out)
      (o_l2BlockNumber out).
Proof.
  intros Hsound Hm. destruct (main_claims _ _ _ Hm) as (headers & first & rest & last_ & _ & Hb & Hl & (Hs & Hv & Hlink & Hh) & ->).
  exists headers. split; [done|]. rewrite Hb in *. apply (derives_sequential _ _ first rest last_); [done..|].
  apply Forall_forall. intros b Hin. rewrite Forall_forall in Hv, Hh. split_and!.
  - destruct (Hsound b (Hv b Hin)) as (input & (w & _ & Hd)%range_main_derives). by exists w.
  - by apply Hh.
  - by apply (sequential_config first rest).
Qed.

(** ** Completeness *)

Context `{!Online, !Faithful} (to_bytes : DefaultWitnessData -> bytes) (rpc : Rpc).

(** The host has derived this range, with no call of its connection refused. *)
Definition host_derived (n : Net) (b : BootInfoStruct) : Prop := exists s boot,
  heard host_handler flawless derive_range (host_start n) /\
  perform host_handler derive_range (host_start n) = (s, Ok boot) /\ boot_info_struct boot = Ok b.

(** C8: When the host has derived consecutive ranges at L1 heads of the served chain,
    everything after it works: each witness it generated is proved to the claim
    it was derived for, the headers for the aggregation are found, and on these
    the aggregation program claims the whole range. *)
Theorem derived_ranges_are_proved chain_ tip c nets agg_inputs first rest last_ :
  (forall w, from_bytes (to_bytes w) = Ok w) -> complete_key (multi_block_vkey agg_inputs) ->
  serves rpc chain_ tip -> 0 <= c <= tip -> tip < u64_max ->
  boot_infos agg_inputs = first :: rest -> last (first :: rest) = Some last_ ->
  Forall2 host_derived nets (first :: rest) -> sequential (first :: rest) ->
  heads_upto chain_ c (first :: rest) -> latest_l1_checkpoint_head agg_inputs = hash_slow (chain_ c) ->
  Forall2 (fun n b => exists w, generate_witness n = Ok w /\ range_main from_bytes (to_bytes w) = Ok b)
    nets (first :: rest) /\
  exists headers,
    run (get_header_preimages (first :: rest) (hash_slow (chain_ c))) rpc = (rpc, Ok headers) /\
    forall headers_bytes, cbor_from_slice headers_bytes = Some headers ->
      exists out, main agg_inputs headers_bytes = Ok out /\ o_l1Head out = hash_slow (chain_ c) /\
        o_l2PreRoot out = l2PreRoot first /\ o_l2PostRoot out = l2PostRoot last_ /\
        o_l2BlockNumber out = l2BlockNumber last_.
Proof.
  intros Hserde Hkey Hserves Hc Htip Hb Hl Hd Hs Hh Hck.
  assert (Hproved : Forall2 (fun n b => exists w,
    generate_witness n = Ok w /\ range_main from_bytes (to_bytes w) = Ok b) nets (first :: rest)).
  { eapply Forall2_impl; [exact Hd|]. intros n b (s & boot & Hheard & Hrun & Hboot). exists (witness_of s).
    by apply (generated_witness_proves from_bytes to_bytes n s boot b). }
  split; [done|]. apply (fetched_headers_accepted rpc chain_ tip Hserves agg_inputs first rest last_ c Hb Hl Hs); [|done..].
  apply Forall_forall. intros b (i & Hi)%list_elem_of_lookup.
  destruct (Forall2_lookup_r _ _ _ _ _ Hproved Hi) as (n & _ & w & _ & Hw). by apply (Hkey b (to_bytes w)).
Qed.
End end_to_end.

(** ** A sample

    The connection of range [n] answers every local key with [n]. Its boot
    information claims block and root [n] from root [n - 10], of which 128
    bytes are known that spell [n - 10]; block [n] is derived from the blob under
    the versioned hash [n + 40], which is [n - 61]. *)

#[local] Existing Instances sample_crypto sample_hash.

#[local] Instance range_online : Online := {|
  Net := Z;
  net_get key n := (n, Ok [n]);
  net_get_exact key len n :=
    (n, if (len =? 128)%nat then Ok (replicate 127 0 ++ [key / 8]) else Err "no such preimage");
  net_write _ _ n := (n, Ok tt);
  net_flush n := n;
  net_blobs _ hashes n := (n, Ok ((fun h => h - 101) <$> hashes));
|}.

#[local] Instance range_faithful : Faithful.
Proof.
  split.
  - apply (@from_slice_id _ _ sample_faithful).
  - apply (@batch_verifies _ _ sample_faithful).
  - intros key len n n' buf. cbn. destruct (Nat.eqb_spec len 128) as [->|]; [|done]. by intros [= _ <-].
  - intros r hashes n n' bs [= _ <-]. apply Forall2_fmap_r, Forall_Forall2_diag, Forall_true.
    intros hash. exists (hash - 101 + 1). cbn. split; [done|lia].
Qed.

#[local] Instance range_kona : Kona := {|
  L1Provider := Z; L2Provider := Z; Cursor := Z; Pipeline := Z;
  load_boot := v ← trigger (Get (key_new 110 Local));
               let n := from_be v in
               mret {| op_boot_info := {| RangeProgram.l1_head := 1005; RangeProgram.agreed_l2_output_root := n - 10;
                         RangeProgram.claimed_l2_output_root := n; RangeProgram.claimed_l2_block_number := n;
                         rollup_config := 13; l1_config := 1 |}; espresso := 0 |};
  StartingL2Output := "starting-l2-output";
  oracle_l1_provider head := head;
  oracle_l2_provider hash _ := hash;
  header_by_hash _ hash := mret {| number := hash; timestamp := 0; parent_hash := 0; state_root := 0;
                                   withdrawals_root := None; other_fields := 0 |};
  new_oracle_pipeline_cursor _ header _ _ _ _ := mret (number header);
  set_cursor _ l2 := l2;
  to_oracle_l2_chain_provider l2 := l2;
  oracle_pipeline _ _ _ _ _ _ := mret 0;
  advance_to_target _ _ _ _ target :=
    let n := default 0 target in
    bs ← trigger (Blobs 0 [n + 40]);
    mret (n, foldr Z.add 61 bs);
  alt_da_config _ := None;
  rollup_config_json config := Ok [config];
|}.
#[local] Instance range_executor : WitnessExecutor :=
  fun _ _ _ _ _ => mret 0.

Definition range_net (n : Z) : @Net range_online := n.
Definition range_claim (n : Z) : BootInfoStruct :=
  {| l1Head := 1005; l2PreRoot := n - 10; l2PostRoot := n; l2BlockNumber := n; rollupConfigHash := 13 |}.
Definition range_witness (n : Z) : DefaultWitnessData :=
  match generate_witness (range_net n) with Ok w => w | _ => from_parts ∅ {| blobs := []; commitments := []; proofs := [] |} end.

(** A digest is an injective code; the proofs that verify are those whose digest
    is in [ok]. *)
Definition digest (b : BootInfoStruct) : Z :=
  Z.pos (encode (l1Head b, l2PreRoot b, l2PostRoot b, l2BlockNumber b, rollupConfigHash b)).
Definition range_zkvm (ok : Z -> bool) : Zkvm := {|
  pv_digest := digest; verify_sp1_proof _ := ok;
  cbor_from_slice bytes := Some (sample_header <$> bytes);
  words_to_bytes_be := foldl (fun acc w => acc * 2 ^ 32 + w) 0 |}.

Definition two_ranges : AggregationInputs :=
  {| boot_infos := [range_claim 110; range_claim 120]; latest_l1_checkpoint_head := 1006;
     multi_block_vkey := [1; 2]; prover_address := 77 |}.

Lemma digest_inj b b' : digest b = digest b' -> b = b'.
Proof. destruct b, b'. unfold digest. cbn. by intros [= -> -> -> -> ->]%Pos2Z.inj%encode_inj. Qed.

Lemma aggregate_claim_is_derived_witness :
  let zkvm := range_zkvm (fun d => (d =? digest (range_claim 110)) || (d =? digest (range_claim 120))) in
  exists out headers, main two_ranges [5; 6] = Ok out /\ linked headers 1006 /\
    derives (hash_slow <$> headers) 13 100 120 120.
Proof.
  intros zkvm.
  assert (Hmain : main two_ranges [5; 6] = Ok {| o_l1Head := 1006; o_l2PreRoot := 100; o_l2PostRoot := 120;
    o_l2BlockNumber := 120; o_rollupConfigHash := 13; o_multiBlockVKey := 2 ^ 32 + 2; o_proverAddress := 77 |})
    by (vm_compute; reflexivity).
  assert (Hkey : sound_key sample_from_bytes (multi_block_vkey two_ranges)).
  { intros b Hv. apply orb_true_iff in Hv as [->%Z.eqb_eq%digest_inj| ->%Z.eqb_eq%digest_inj].
    - exists (sample_to_bytes (range_witness 110)). unfold range_main. rewrite sample_serde. vm_compute. reflexivity.
    - exists (sample_to_bytes (range_witness 120)). unfold range_main. rewrite sample_serde. vm_compute. reflexivity. }
  destruct (aggregate_claim_is_derived sample_from_bytes two_ranges [5; 6] _ Hkey Hmain) as (headers & Hl & Hd).
  eexists. exists headers. split; [exact Hmain|]. split; [exact Hl|exact Hd].
Defined.

Lemma host_derives n : n = 110 \/ n = 120 -> host_derived (range_net n) (range_claim n).
Proof.
  intros Hn. exists (perform host_handler derive_range (host_start (range_net n))).1.
  exists {| RangeProgram.l1_head := 1005; RangeProgram.agreed_l2_output_root := n - 10; RangeProgram.claimed_l2_output_root := n;
            RangeProgram.claimed_l2_block_number := n; rollup_config := 13; l1_config := 1 |}.
  destruct Hn as [-> | ->]; (split; [|split; vm_compute; reflexivity]);
    (split_and!; try (intros e; vm_compute; discriminate); done).
Qed.

Lemma derived_ranges_are_proved_witness :
  let zkvm := range_zkvm (fun _ => true) in
  exists headers, run (get_header_preimages (boot_infos two_ranges) 1006) sample_rpc = (sample_rpc, Ok headers) /\
    forall headers_bytes, cbor_from_slice headers_bytes = Some headers ->
      exists out, main two_ranges headers_bytes = Ok out /\ o_l1Head out = 1006 /\
        o_l2PreRoot out = 100 /\ o_l2PostRoot out = 120 /\ o_l2BlockNumber out = 120.
Proof.
  intros zkvm.
  refine (proj2 (derived_ranges_are_proved sample_from_bytes sample_to_bytes sample_rpc sample_header 100 6 [range_net 110; range_net 120]
    two_ranges (range_claim 110) [range_claim 120] (range_claim 120) _ _ _ _ _ _ _ _ _ _ _)).
  - exact sample_serde.
  - by intros b input _.
  - exact sample_serves.
  - lia.
  - reflexivity.
  - reflexivity.
  - reflexivity.
  - repeat constructor; apply host_derives; auto.
  - apply check_sequential_Ok. vm_compute. reflexivity.
  - repeat (apply Forall_cons; split); [exists 5|exists 5|by apply Forall_nil]; (split; [lia|reflexivity]).
  - reflexivity.
Defined.
