(* ===== verification/Signer.v ===== *)
(** * The signer

    [utils/signer/src/lib.rs]: the three kinds of signer, the choice between
    them, how each sends a transaction, and [SignerLock], which the tasks of a
    service share.

    A send is a [prog] over the state of L1 ([Chain]); alloy's fillers, wallets
    and watcher are programs of actions that are not read here ([Alloy]). *)

From S2P Require Import Prelude.
From S2P Require Import Interleaving.

Definition NUM_CONFIRMATIONS : Z := 3.
Definition TIMEOUT_SECONDS : Z := 60.

(** Keys, addresses and URLs are opaque numbers. *)
Inductive Signer :=
| Web3Signer (url address : Z)
| LocalSigner (key : Z)
| CloudHsmSigner (key : Z).

Inductive TxKind := Create | ToCall (address : Z).
Record TransactionRequest := { from : option Z; to : option TxKind; other_request_fields : Z }.

Definition set_from (address : Z) (r : TransactionRequest) : TransactionRequest :=
  {| from := Some address; to := to r; other_request_fields := other_request_fields r |}.
(** [if transaction_request.to.is_none() { .. = Some(TxKind::Create) }] *)
Definition or_create (r : TransactionRequest) : TransactionRequest :=
  {| from := from r; to := Some (default Create (to r)); other_request_fields := other_request_fields r |}.

Class Alloy := {
  Chain : Type;
  Filled : Type;
  Transaction : Type;
  TxEnvelope : Type;
  TransactionReceipt : Type;
  local_address : Z -> Z;
  hsm_address : Z -> Z;
  fill : TransactionRequest -> prog Chain Filled;
  as_builder : Filled -> option Transaction;
  normalize_data : Transaction -> Transaction;
  eth_signTransaction : Z -> Transaction -> prog Chain (list Z);
  decode_2718 : list Z -> option TxEnvelope;
  send_tx_envelope : TxEnvelope -> prog Chain Z;
  (** of a provider with the wallet of a signer *)
  send_transaction : Signer -> TransactionRequest -> prog Chain Z;
  (** with the required confirmations and a timeout in seconds *)
  get_receipt : Z -> Z -> Z -> prog Chain TransactionReceipt;
}.

Section signer.
Context `{Alloy}.

Definition signer_address (s : Signer) : Z :=
  match s with
  | Web3Signer _ address => address
  | LocalSigner key => local_address key
  | CloudHsmSigner key => hsm_address key
  end.

(** [.context(..)] of a call. *)
Definition context {W A} (msg : string) (p : prog W A) : prog W A :=
  r ← catch p;
  match r with inl a => mret a | inr _ => done (Err msg) end.

Definition send_transaction_request_with_timeout (s : Signer) (r : TransactionRequest) (timeout_secs : Z)
    : prog Chain TransactionReceipt :=
  match s with
  | Web3Signer signer_url address =>
      filled_tx ← fill (set_from address r);
      tx ← done (unwrap (as_builder filled_tx));
      raw ← eth_signTransaction signer_url (normalize_data tx);
      tx_envelope ← done (unwrap (decode_2718 raw));
      pending ← context "Failed to send transaction" (send_tx_envelope tx_envelope);
      get_receipt pending NUM_CONFIRMATIONS timeout_secs
  | LocalSigner key =>
      pending ← context "Failed to send transaction"
                  (send_transaction s (or_create (set_from (local_address key) r)));
      get_receipt pending NUM_CONFIRMATIONS timeout_secs
  | CloudHsmSigner key =>
      pending ← context "Failed to send KMS-signed transaction"
                  (send_transaction s (or_create (set_from (hsm_address key) r)));
      get_receipt pending NUM_CONFIRMATIONS timeout_secs
  end.
Definition send_transaction_request (s : Signer) (r : TransactionRequest) : prog Chain TransactionReceipt :=
  send_transaction_request_with_timeout s r TIMEOUT_SECONDS.

(** ** [SignerLock]

    The tasks of a service call the methods of one lock; a call waits for the
    mutex, sends while it holds it, and gives it back when the send returns,
    panics, or the task is dropped. *)

(** A call: the request and the timeout. *)
Record Call := { c_request : TransactionRequest; c_timeout : Z }.

(** [None]: the call was dropped. *)
Notation Outcome := (option (outcome TransactionReceipt)).

Record SignerLock := {
  inner : Signer;
  cached_address : Z;
  chain : Chain;
  holder : option (nat * Call * prog Chain TransactionReceipt);
  waiting : gmap nat Call;
  answered : list (nat * Call * Outcome);  (** in the order of the answers *)
  calls : nat;
}.

Definition lock_new (s : Signer) (c : Chain) : SignerLock :=
  {| inner := s; cached_address := signer_address s; chain := c; holder := None; waiting := ∅;
     answered := []; calls := 0 |}.

Definition with_lock (c : Chain) (h : option (nat * Call * prog Chain TransactionReceipt))
    (w : gmap nat Call) (a : list (nat * Call * Outcome)) (s : SignerLock) : SignerLock :=
  {| inner := inner s; cached_address := cached_address s; chain := c; holder := h; waiting := w;
     answered := a; calls := calls s |}.

(** A call with the caller's timeout; the other method takes the default. *)
Definition call_lock (c : Call) (s : SignerLock) : SignerLock :=
  {| inner := inner s; cached_address := cached_address s; chain := chain s; holder := holder s;
     waiting := <[calls s := c]> (waiting s); answered := answered s; calls := S (calls s) |}.
Definition default_call (r : TransactionRequest) : Call :=
  {| c_request := r; c_timeout := TIMEOUT_SECONDS |}.

Definition sends (s : Signer) (c : Call) : prog Chain TransactionReceipt :=
  send_transaction_request_with_timeout s (c_request c) (c_timeout c).

(** What the rest of the world does to L1. *)
Context (ext : relation Chain).

Inductive step (s : SignerLock) : SignerLock -> Prop :=
| step_call c : step s (call_lock c s)
| step_lock i c :
    holder s = None -> waiting s !! i = Some c ->
    step s (with_lock (chain s) (Some (i, c, sends (inner s) c)) (delete i (waiting s)) (answered s) s)
| step_act i c X q k :
    holder s = Some (i, c, Act X q k) ->
    step s (with_lock (q (chain s)).1 (Some (i, c, k (q (chain s)).2)) (waiting s) (answered s) s)
| step_unlock i c o :
    holder s = Some (i, c, Ret o) ->
    step s (with_lock (chain s) None (waiting s) (answered s ++ [(i, c, Some o)]) s)
| step_drop_holder i c p :
    holder s = Some (i, c, p) ->
    step s (with_lock (chain s) None (waiting s) (answered s ++ [(i, c, None)]) s)
| step_drop_waiting i c :
    waiting s !! i = Some c ->
    step s (with_lock (chain s) (holder s) (delete i (waiting s)) (answered s) s)
| step_ext c : ext (chain s) c -> step s (with_lock c (holder s) (waiting s) (answered s) s).

(** ** One send at a time *)

(** A program runs while only the rest of the world moves L1; what is left of it. *)
Inductive alone {A} (p : prog Chain A) (c : Chain) : prog Chain A -> Chain -> Prop :=
| alone_start : alone p c p c
| alone_act X q k c1 : alone p c (Act X q k) c1 -> alone p c (k (q c1).2) (q c1).1
| alone_ext p1 c1 c2 : alone p c p1 c1 -> ext c1 c2 -> alone p c p1 c2.

(** Whole sends, one after the other, a dropped one up to where it was. *)
Inductive serial (s : Signer) (c0 : Chain) : list (Call * Outcome) -> Chain -> Prop :=
| serial_start : serial s c0 [] c0
| serial_ext l c c' : serial s c0 l c -> ext c c' -> serial s c0 l c'
| serial_send l c call o c' :
    serial s c0 l c -> alone (sends s call) c (Ret o) c' -> serial s c0 (l ++ [(call, Some o)]) c'
| serial_dropped l c call p c' :
    serial s c0 l c -> alone (sends s call) c p c' -> serial s c0 (l ++ [(call, None)]) c'.

Definition calls_of (l : list (nat * Call * Outcome)) : list (Call * Outcome) :=
  (fun a => (a.1.2, a.2)) <$> l.

(** The call of the holder runs alone since all answered ones have run. *)
Definition serial_so_far (s : Signer) (c0 : Chain) (x : SignerLock) : Prop :=
  match holder x with
  | None => serial s c0 (calls_of (answered x)) (chain x)
  | Some (_, call, p) => exists c, serial s c0 (calls_of (answered x)) c /\ alone (sends s call) c p (chain x)
  end.

Lemma calls_of_snoc l i c o : calls_of (l ++ [(i, c, o)]) = calls_of l ++ [(c, o)].
Proof. unfold calls_of. by rewrite fmap_app. Qed.

Lemma serial_step s c0 x y :
  inner x = s -> serial_so_far s c0 x -> step x y -> inner y = s /\ serial_so_far s c0 y.
Proof.
  unfold serial_so_far. intros Hs Hx Hst.
  destruct Hst as [c|i c Hh Hw|i c X q k Hh|i c o Hh|i c p Hh|i c Hw|c He]; (split; [done|]); cbn.
  - done.
  - rewrite Hh in Hx. exists (chain x). rewrite Hs. split; [done|constructor].
  - rewrite Hh in Hx. destruct Hx as (c1 & Hx & Ha). exists c1. split; [done|]. by apply alone_act.
  - rewrite Hh in Hx. destruct Hx as (c1 & Hx & Ha). rewrite calls_of_snoc. by eapply serial_send.
  - rewrite Hh in Hx. destruct Hx as (c1 & Hx & Ha). rewrite calls_of_snoc. by eapply serial_dropped.
  - done.
  - destruct (holder x) as [[[i call] p]|].
    + destruct Hx as (c1 & Hx & Ha). exists c1. split; [done|]. by eapply alone_ext.
    + by eapply serial_ext.
Qed.

Lemma lock_serial s c0 x :
  rtc step (lock_new s c0) x ->
  cached_address x = signer_address s /\ inner x = s /\ serial_so_far s c0 x.
Proof.
  assert (H0 : cached_address (lock_new s c0) = signer_address s /\ inner (lock_new s c0) = s /\
    serial_so_far s c0 (lock_new s c0)) by (split_and!; [done..|constructor]).
  revert H0. generalize (lock_new s c0). intros y Hy Hx.
  induction Hx as [|y z x Hst _ IH]; [done|]. apply IH. destruct Hy as (Hc & Hs & Hy).
  split; [by destruct Hst|]. by eapply serial_step.
Qed.

(** C22: However the calls of the tasks interleave, with each other, with tasks that
    are dropped and with the rest of the world, the sends of one lock happen one
    after the other in the order of their answers, each as if it ran alone. *)
Theorem sends_are_serial s c0 x :
  rtc step (lock_new s c0) x ->
  cached_address x = signer_address s /\ inner x = s /\
  match holder x with
  | None => serial s c0 (calls_of (answered x)) (chain x)
  | Some (_, call, p) => exists c, serial s c0 (calls_of (answered x)) c /\ alone (sends s call) c p (chain x)
  end.
Proof. apply lock_serial. Qed.

(** ** Nonces *)

(** The nonces of the transactions that L1 has accepted from the signer. *)
Context (nonces : Chain -> list Z).

(** Only the lock sends from this address. *)
Definition own_address : Prop := forall c c', ext c c' -> nonces c' = nonces c.
(** A send that runs alone has at most one transaction accepted, under the next
    nonce: the fillers count the accepted ones. *)
Definition counts_nonces (s : Signer) : Prop := forall call c p c',
  alone (sends s call) c p c' ->
  nonces c' = nonces c \/ nonces c' = nonces c ++ [Z.of_nat (length (nonces c))].

Lemma serial_nonces s c0 l c :
  own_address -> counts_nonces s -> serial s c0 l c -> nonces c0 = [] ->
  nonces c = Z.of_nat <$> seq 0 (length (nonces c)).
Proof.
  intros Hown Hcount Hser H0.
  assert (Hsend : forall call c p c', alone (sends s call) c p c' ->
    nonces c = Z.of_nat <$> seq 0 (length (nonces c)) -> nonces c' = Z.of_nat <$> seq 0 (length (nonces c'))).
  { intros call c1 p c2 [-> | ->]%Hcount Hn; [done|]. rewrite Hn at 1. rewrite length_app. cbn.
    by rewrite Nat.add_1_r, seq_S, fmap_app. }
  induction Hser as [|l c c' _ IH He|l c call o c' _ IH Ha|l c call p c' _ IH Ha].
  - by rewrite H0.
  - by rewrite (Hown _ _ He).
  - by eapply Hsend.
  - by eapply Hsend.
Qed.

(** No two accepted transactions of the service have the same nonce, whatever the
    interleaving of its tasks. *)
Lemma nonces_never_clash s c0 x :
  own_address -> counts_nonces s -> nonces c0 = [] -> rtc step (lock_new s c0) x -> NoDup (nonces (chain x)).
Proof.
  intros Hown Hcount H0 (_ & _ & Hx)%lock_serial. unfold serial_so_far in Hx.
  assert (Hn : nonces (chain x) = Z.of_nat <$> seq 0 (length (nonces (chain x)))).
  { destruct (holder x) as [[[i call] p]|]; [|by eapply serial_nonces].
    destruct Hx as (c & Hser & [Hp|Hp]%Hcount); rewrite Hp.
    - by eapply serial_nonces.
    - rewrite (serial_nonces _ _ _ _ Hown Hcount Hser H0) at 1.
      rewrite length_app. cbn. by rewrite Nat.add_1_r, seq_S, fmap_app. }
  rewrite Hn. apply NoDup_fmap_2; [apply _|apply NoDup_seq].
Qed.
End signer.

(** ** A sample

    L1 is the list of the nonces it has accepted; a wallet counts them, and sends
    in a second action. Nothing else moves L1. *)

Section sample.
#[local] Instance sample_alloy : Alloy := {|
  Chain := list Z; Filled := Z; Transaction := Z; TxEnvelope := Z; TransactionReceipt := Z;
  local_address key := key; hsm_address key := key;
  fill _ := act (fun c => (c, Ok (Z.of_nat (length c))));
  as_builder n := Some n; normalize_data n := n;
  eth_signTransaction _ n := mret [n];
  decode_2718 bytes := head bytes;
  send_tx_envelope n := act (fun c => (c ++ [n], Ok n));
  send_transaction _ _ :=
    n ← act (fun c => (c, Ok (Z.of_nat (length c)))); act (fun c => (c ++ [n], Ok n));
  get_receipt n _ _ := mret n;
|}.

Definition still : relation Chain := fun c c' => c' = c.
Definition receipt (n : Z) : TransactionReceipt := n.
Definition l1 (nonces : list Z) : Chain := nonces.
Definition a_call : Call :=
  default_call {| from := None; to := Some (ToCall 7); other_request_fields := 0 |}.

(** One action of a program. *)
Definition next {A} (p : prog Chain A) (c : Chain) : option (prog Chain A * Chain) :=
  match p with Ret _ => None | Act X q k => Some (k (q c).2, (q c).1) end.

Lemma next_act {A} X q k (p : prog Chain A) c : Act X q k = p -> Some (k (q c).2, (q c).1) = next p c.
Proof. by intros <-. Qed.

(** Without the lock, a send that starts between the two actions of another uses
    the same nonce. *)
Example unlocked_sends_clash :
  match next (sends (LocalSigner 1) a_call) (l1 []) with
  | Some (p, c) => (run p (run (sends (LocalSigner 1) a_call) c).1).1
  | None => l1 []
  end = l1 [0; 0].
Proof. reflexivity. Qed.

(** A local send counts the nonces, then sends. *)
Lemma local_counts : counts_nonces still id (LocalSigner 1).
Proof.
  intros call c p c' Ha.
  assert (Hp : (p = sends (LocalSigner 1) call /\ c' = c) \/
    (next p c' = Some (Ret (Ok (Z.of_nat (length c))), c ++ [Z.of_nat (length c)]) /\ c' = c) \/
    (p = Ret (Ok (Z.of_nat (length c))) /\ c' = c ++ [Z.of_nat (length c)])).
  { induction Ha as [|X q k c1 _ IH|p1 c1 c2 _ IH ->]; [by left| |done]. right.
    destruct IH as [[Hp ->]|[[Hp ->]|[Hp _]]]; [| |done].
    - pose proof (next_act X q k _ c Hp) as Hn. injection Hn as Hk Hq. left.
      split; [|exact Hq]. etrans; [exact (f_equal2 next Hk Hq)|reflexivity].
    - injection Hp as Hk Hq. right. split; [exact Hk|exact Hq]. }
  destruct Hp as [[_ ->]|[[_ ->]|[_ ->]]]; auto.
Qed.

(** The holder acts. *)
Definition act_once (x : SignerLock) : SignerLock :=
  match holder x with
  | Some (i, c, Act X q k) =>
      with_lock (q (chain x)).1 (Some (i, c, k (q (chain x)).2)) (waiting x) (answered x) x
  | _ => x
  end.

Lemma step_act_once x : rtc (step still) x (act_once x).
Proof.
  unfold act_once. destruct (holder x) as [[[i c] [o|X q k]]|] eqn:Hh; [reflexivity| |reflexivity].
  apply rtc_once. by eapply step_act.
Qed.

(** Two tasks call at once; the first has sent, and the second has counted. *)
Definition two_calls : SignerLock :=
  call_lock a_call (call_lock a_call (lock_new (LocalSigner 1) (l1 []))).

Lemma sends_are_serial_witness :
  exists x, rtc (step still) (lock_new (LocalSigner 1) (l1 [])) x /\ size (waiting x) = 1%nat /\
    chain x = l1 [0] /\ calls_of (answered x) = [(a_call, Some (Ok (receipt 0)))] /\
    serial still (LocalSigner 1) (l1 []) [(a_call, Some (Ok (receipt 0)))] (l1 [0]).
Proof.
  set (s0 := lock_new (LocalSigner 1) (l1 [])).
  set (x1 := with_lock (chain two_calls) (Some (0%nat, a_call, sends (LocalSigner 1) a_call))
               (delete 0%nat (waiting two_calls)) [] two_calls).
  set (x3 := act_once (act_once x1)).
  set (x4 := with_lock (l1 [0]) None (waiting x1) [(0%nat, a_call, Some (Ok (receipt 0)))] x1).
  assert (Hx : rtc (step still) s0 x4).
  { eapply rtc_l; [apply (step_call still _ a_call)|]. eapply rtc_l; [apply (step_call still _ a_call)|].
    eapply rtc_l; [apply (step_lock still two_calls 0%nat a_call); reflexivity|].
    etrans; [apply (step_act_once x1)|]. etrans; [apply (step_act_once (act_once x1))|].
    apply rtc_once. apply (step_unlock still x3 0%nat a_call (Ok (receipt 0))). reflexivity. }
  exists x4. split; [exact Hx|]. destruct (sends_are_serial still (LocalSigner 1) (l1 []) x4 Hx) as (_ & _ & Hs).
  split_and!; [reflexivity..|exact Hs].
Defined.
End sample.
