(* ===== verification/Settings.v ===== *)
(** * Settings of the services

    What the services read from the environment: [fault-proof/src/config.rs],
    [validity/src/env.rs] and the checks of [validity/bin/validity.rs],
    [parse_fulfillment_strategy] of [utils/host/src/network.rs],
    [ProvingConfig] of [utils/host/src/proof.rs] and [Signer::from_env].

    Values are lists of code points ([Fetcher.EnvVar]). URLs, addresses, keys
    and fractions are read by other libraries ([Parsers]); an error message that
    names the offending value is cut before it. *)

From S2P Require Import Prelude.
From S2P Require Import RangeSplit.
From S2P Require Import ValidityRanges.
From S2P Require Import RequestDb.
From S2P Require Import ValidityTypes.
From S2P Require Import ProofWait.
From S2P Require Import Fetcher.
From S2P Require Import Signer.
From S2P Require ProposerService Challenger.

(** ** Values *)

Definition u16_max : Z := 2 ^ 16 - 1.

(** [str::parse] of an unsigned integer. *)
Definition parse_uint (max : Z) (s : list Z) : option Z :=
  n ← parse_u64 s; if n <=? max then Some n else None.
(** [NonZeroUsize] *)
Definition parse_nonzero (s : list Z) : option Z :=
  n ← parse_u64 s; if n =? 0 then None else Some n.
Definition parse_bool (s : list Z) : option bool :=
  if decide (s = codes "true") then Some true
  else if decide (s = codes "false") then Some false else None.

(** [str::to_lowercase], for a comparison with ASCII words: beyond ASCII only
    the Kelvin sign has an ASCII letter for its whole lower case. *)
Definition to_lowercase (s : list Z) : list Z :=
  (fun c => if c =? 8490 then 107 else to_ascii_lowercase c) <$> s.

Class Parsers := {
  parse_url : list Z -> option Z;
  parse_address : list Z -> option Z;
  parse_f64 : list Z -> option Z;
  parse_socket_addr : list Z -> option Z;
  parse_duration : list Z -> option Z;  (** of humantime *)
  parse_private_key : list Z -> option Z;
  keccak256_str : list Z -> Z;
}.

(** [RangeSplitCount::from_str] *)
Definition range_split_from_str (s : list Z) : outcome RangeSplitCount.RangeSplitCount :=
  value ← with_context "ParseIntError" (parse_u64 s); RangeSplitCount.try_from value.

Definition parse_fulfillment_strategy (value : list Z) : outcome FulfillmentStrategy :=
  let s := to_ascii_lowercase <$> value in
  if decide (s = codes "reserved") then Ok Reserved
  else if decide (s = codes "hosted") then Ok Hosted
  else if decide (s = codes "auction") then Ok Auction
  else Err "Invalid fulfillment strategy".

(** [str::split] at a character. *)
Fixpoint split_at (sep : Z) (s : list Z) : list (list Z) :=
  match s with
  | [] => [[]]
  | c :: s' =>
      if c =? sep then [] :: split_at sep s'
      else match split_at sep s' with
           | w :: ws => (c :: w) :: ws
           | [] => [[c]]
           end
  end.

(** [trim_start_matches("0x")] *)
Fixpoint strip_0x (s : list Z) : list Z :=
  match s with
  | 48 :: ((120 :: s') as r) => strip_0x s'
  | _ => s
  end.

Section settings.
Context `{Parsers} (var : string -> EnvVar).

(** [env::var(key).ok()] *)
Definition get (key : string) : option (list Z) :=
  match var key with Present s => Some s | _ => None end.
(** [env::var(key).unwrap_or(default)] *)
Definition get_or (key default_ : string) : list Z := default (codes default_) (get key).
(** [env::var(key)?] *)
Definition required (key : string) : outcome (list Z) := with_context "environment variable" (get key).

Definition parse_whitelist (whitelist_str : list Z) : outcome (option (list Z)) :=
  if decide (whitelist_str = []) then Ok None
  else
    addresses ← mapM (fun addr_str =>
      with_context "Failed to parse address"
        (parse_address (codes "0x" ++ strip_0x (trim addr_str)))) (split_at 44 whitelist_str);
    Ok (if decide (addresses = []) then None else Some addresses).

(** ** [fault-proof/src/config.rs] *)

Definition number_or (max : Z) (key default_ : string) : outcome Z :=
  with_context "ParseIntError" (parse_uint max (get_or key default_)).
Definition u64_or : string -> string -> outcome Z := number_or u64_max.
Definition bool_or (key default_ : string) : outcome bool :=
  with_context "ParseBoolError" (parse_bool (get_or key default_)).
(** [env::var(key)?.parse().expect(..)] *)
Definition required_parsed {A} (parse : list Z -> option A) (key : string) : outcome A :=
  s ← required key; unwrap (parse s).

Definition proof_provider_from_env : outcome ProofProviderConfig :=
  timeout ← u64_or "TIMEOUT" "14400";
  network_calls_timeout ← u64_or "NETWORK_CALLS_TIMEOUT" "15";
  auction_timeout ← u64_or "AUCTION_TIMEOUT" "60";
  range_proof_strategy ← parse_fulfillment_strategy (get_or "RANGE_PROOF_STRATEGY" "reserved");
  agg_proof_strategy ← parse_fulfillment_strategy (get_or "AGG_PROOF_STRATEGY" "reserved");
  let agg_proof_mode :=
    if decide (to_lowercase (get_or "AGG_PROOF_MODE" "plonk") = codes "groth16")
    then Groth16Mode else PlonkMode in
  range_cycle_limit ← u64_or "RANGE_CYCLE_LIMIT" "1000000000000";
  range_gas_limit ← u64_or "RANGE_GAS_LIMIT" "1000000000000";
  agg_cycle_limit ← u64_or "AGG_CYCLE_LIMIT" "1000000000000";
  agg_gas_limit ← u64_or "AGG_GAS_LIMIT" "1000000000000";
  max_price_per_pgu ← u64_or "MAX_PRICE_PER_PGU" "300000000";
  min_auction_period ← u64_or "MIN_AUCTION_PERIOD" "1";
  whitelist ← parse_whitelist (get_or "WHITELIST" "");
  private_stdin ← bool_or "PRIVATE_STDIN" "false";
  Ok {| ProofWait.timeout := timeout; ProofWait.network_calls_timeout := network_calls_timeout;
        ProofWait.auction_timeout := auction_timeout;
        ProofWait.range_proof_strategy := range_proof_strategy;
        ProofWait.agg_proof_strategy := agg_proof_strategy; ProofWait.agg_proof_mode := agg_proof_mode;
        ProofWait.range_cycle_limit := range_cycle_limit; ProofWait.range_gas_limit := range_gas_limit;
        ProofWait.agg_cycle_limit := agg_cycle_limit; ProofWait.agg_gas_limit := agg_gas_limit;
        ProofWait.max_price_per_pgu := max_price_per_pgu;
        ProofWait.min_auction_period := min_auction_period; ProofWait.whitelist := whitelist;
        ProofWait.private_stdin := private_stdin |}.

(** [ProposerConfig]: what the model of the proposer reads of it, and the rest. *)
Record ProposerSettings := {
  proposer_config : ProposerService.ProposerConfig;
  l1_rpc : Z;
  l2_rpc : Z;
  factory_address : Z;
  fetch_interval : Z;
  safe_db_fallback_ : bool;
  metrics_port : Z;
  use_kms_requester : bool;
  proof_provider : ProofProviderConfig;
  tx_confirmation_timeout : Z;
}.

Definition proposer_from_env : outcome ProposerSettings :=
  l1_rpc ← required_parsed parse_url "L1_RPC";
  l2_rpc ← required_parsed parse_url "L2_RPC";
  anchor_state_registry_address ← required_parsed parse_address "ANCHOR_STATE_REGISTRY_ADDRESS";
  factory_address ← required_parsed parse_address "FACTORY_ADDRESS";
  mock_mode ← bool_or "MOCK_MODE" "false";
  fast_finality_mode ← bool_or "FAST_FINALITY_MODE" "false";
  proposal_interval_in_blocks ← u64_or "PROPOSAL_INTERVAL_IN_BLOCKS" "1800";
  fetch_interval ← u64_or "FETCH_INTERVAL" "30";
  game_type ← unwrap (get "GAME_TYPE");
  game_type ← with_context "ParseIntError" (parse_uint u32_max game_type);
  max_concurrent_defense_tasks ← u64_or "MAX_CONCURRENT_DEFENSE_TASKS" "8";
  safe_db_fallback ← bool_or "SAFE_DB_FALLBACK" "false";
  metrics_port ← number_or u16_max "PROPOSER_METRICS_PORT" "9000";
  fast_finality_proving_limit ← u64_or "FAST_FINALITY_PROVING_LIMIT" "1";
  use_kms_requester ← bool_or "USE_KMS_REQUESTER" "false";
  range_split_count ← range_split_from_str (get_or "RANGE_SPLIT_COUNT" "1");
  max_concurrent_range_proofs ←
    with_context "ParseIntError" (parse_nonzero (get_or "MAX_CONCURRENT_RANGE_PROOFS" "1"));
  proof_provider ← proof_provider_from_env;
  let backup_path := bool_decide (is_Some (get "BACKUP_PATH")) in
  sync_l1_confirmations ← u64_or "SYNC_L1_CONFIRMATIONS" "0";
  tx_confirmation_timeout ← u64_or "TX_CONFIRMATION_TIMEOUT" "60";
  Ok {| proposer_config :=
          {| ProposerService.anchor_state_registry_address := anchor_state_registry_address;
             ProposerService.mock_mode := mock_mode;
             ProposerService.fast_finality_mode := fast_finality_mode;
             ProposerService.proposal_interval_in_blocks := proposal_interval_in_blocks;
             ProposerService.cfg_game_type := game_type;
             ProposerService.max_concurrent_defense_tasks := max_concurrent_defense_tasks;
             ProposerService.fast_finality_proving_limit := fast_finality_proving_limit;
             ProposerService.range_split_count := range_split_count;
             ProposerService.max_concurrent_range_proofs := max_concurrent_range_proofs;
             ProposerService.backup_path := backup_path;
             ProposerService.sync_l1_confirmations := sync_l1_confirmations |};
        l1_rpc := l1_rpc; l2_rpc := l2_rpc; factory_address := factory_address;
        fetch_interval := fetch_interval; safe_db_fallback_ := safe_db_fallback;
        metrics_port := metrics_port; use_kms_requester := use_kms_requester;
        proof_provider := proof_provider; tx_confirmation_timeout := tx_confirmation_timeout |}.

(** [ChallengerConfig]: likewise. *)
Record ChallengerSettings := {
  challenger_config : Challenger.ChallengerConfig;
  c_l1_rpc : Z;
  c_factory_address : Z;
  c_fetch_interval : Z;
  c_metrics_port : Z;
  malicious_challenge_percentage : Z;
  c_tx_confirmation_timeout : Z;
}.

Definition challenger_from_env : outcome ChallengerSettings :=
  l1_rpc ← required_parsed parse_url "L1_RPC";
  anchor_state_registry_address ← required_parsed parse_address "ANCHOR_STATE_REGISTRY_ADDRESS";
  factory_address ← required_parsed parse_address "FACTORY_ADDRESS";
  game_type ← unwrap (get "GAME_TYPE");
  game_type ← with_context "ParseIntError" (parse_uint u32_max game_type);
  fetch_interval ← u64_or "FETCH_INTERVAL" "30";
  metrics_port ← number_or u16_max "CHALLENGER_METRICS_PORT" "9001";
  malicious_challenge_percentage ←
    with_context "ParseFloatError" (parse_f64 (get_or "MALICIOUS_CHALLENGE_PERCENTAGE" "0.0"));
  sync_l1_confirmations ← u64_or "SYNC_L1_CONFIRMATIONS" "0";
  tx_confirmation_timeout ← u64_or "TX_CONFIRMATION_TIMEOUT" "60";
  disable_monitor_only ← bool_or "DISABLE_MONITOR_ONLY" "false";
  Ok {| challenger_config :=
          {| Challenger.c_anchor_state_registry_address := anchor_state_registry_address;
             Challenger.c_game_type := game_type;
             Challenger.disable_monitor_only := disable_monitor_only;
             Challenger.c_sync_l1_confirmations := sync_l1_confirmations |};
        c_l1_rpc := l1_rpc; c_factory_address := factory_address; c_fetch_interval := fetch_interval;
        c_metrics_port := metrics_port; malicious_challenge_percentage := malicious_challenge_percentage;
        c_tx_confirmation_timeout := tx_confirmation_timeout |}.

(** [OPStackGameValidatorConfig]: the L2 and the op-node URL. *)
Definition validator_from_env : outcome (Z * Z) :=
  l2_rpc ← required_parsed parse_url "L2_RPC";
  l2_node_rpc ← required_parsed parse_url "L2_NODE_RPC";
  Ok (l2_rpc, l2_node_rpc).

(** ** [Signer::from_env] *)

Class Kms := gcp_signer : list Z -> list Z -> list Z -> list Z -> Z -> outcome Z.

Definition signer_from_env `{Kms} : outcome Signer :=
  match get "GOOGLE_PROJECT_ID", get "GOOGLE_LOCATION", get "GOOGLE_KEYRING" with
  | Some project_id, Some location, Some keyring_name =>
      key_name ← unwrap (get "HSM_KEY_NAME");
      key_version ← u64_or "HSM_KEY_VERSION" "1";
      key ← gcp_signer project_id location keyring_name key_name key_version;
      Ok (CloudHsmSigner key)
  | _, _, _ =>
      match get "SIGNER_URL", get "SIGNER_ADDRESS" with
      | Some signer_url_str, Some signer_address_str =>
          signer_url ← with_context "Failed to parse SIGNER_URL" (parse_url signer_url_str);
          signer_address ← with_context "Failed to parse SIGNER_ADDRESS" (parse_address signer_address_str);
          Ok (Web3Signer signer_url signer_address)
      | _, _ =>
          match get "PRIVATE_KEY" with
          | Some private_key_str =>
              private_key ← with_context "Failed to parse private key" (parse_private_key private_key_str);
              Ok (LocalSigner private_key)
          | None => Err "None of the required signer configurations are set in environment"
          end
      end
  end.

(** ** [validity/src/env.rs] *)

Definition get_env_var {A} (parse : list Z -> option A) (key : string) (default_ : option A) : outcome A :=
  match get key with
  | Some value => with_context ("Failed to parse " +:+ key) (parse value)
  | None => with_context (key +:+ " is not set") default_
  end.

Definition parse_agg_proof_mode (value : list Z) (allow_compressed : bool) : outcome SP1ProofMode :=
  let s := to_lowercase value in
  if decide (s = codes "plonk") then Ok PlonkMode
  else if decide (s = codes "groth16") then Ok Groth16Mode
  else if decide (s = codes "compressed") then
    if allow_compressed then Ok CompressedMode
    else Err "AGG_PROOF_MODE=compressed requires a build with the agglayer feature"
  else Err "Invalid AGG_PROOF_MODE".

Definition parse_grpc_addr (value : option (list Z)) : outcome Z :=
  s ← with_context "GRPC_ADDRESS is required in builds with the agglayer feature" value;
  with_context "Failed to parse GRPC_ADDRESS" (parse_socket_addr s).

Definition DEFAULT_LOOP_INTERVAL : Z := 60.

Record EnvironmentConfig := {
  env_db_url : list Z;
  env_metrics_port : Z;
  env_l1_rpc : Z;
  env_signer : Signer;
  env_loop_interval : Z;
  env_range_proof_strategy : FulfillmentStrategy;
  env_agg_proof_strategy : FulfillmentStrategy;
  env_agg_proof_mode : SP1ProofMode;
  env_l2oo_address : Z;
  env_dgf_address : Z;
  env_evm_gas_limit : Z;
  env_range_proof_interval : Z;
  env_max_concurrent_witness_gen : Z;
  env_max_concurrent_proof_requests : Z;
  env_submission_interval : Z;
  env_mock : bool;
  env_safe_db_fallback : bool;
  env_op_succinct_config_name : list Z;
  env_grpc_addr : option Z;
  env_use_kms_requester : bool;
  env_max_price_per_pgu : Z;
  env_proving_timeout : Z;
  env_network_calls_timeout : Z;
  env_range_cycle_limit : Z;
  env_range_gas_limit : Z;
  env_agg_cycle_limit : Z;
  env_agg_gas_limit : Z;
  env_whitelist : option (list Z);
  env_private_stdin : bool;
  env_min_auction_period : Z;
  env_auction_timeout : Z;
  env_tx_confirmation_timeout : Z;
}.

Definition u64_var (key : string) (default_ : Z) : outcome Z := get_env_var parse_u64 key (Some default_).
Definition bool_var (key : string) (default_ : bool) : outcome bool := get_env_var parse_bool key (Some default_).
Definition str_var (key default_ : string) : outcome (list Z) := get_env_var Some key (Some (codes default_)).

Definition ADDRESS_ZERO : Z := 0.

(** [with_agglayer] is the build feature. *)
Definition read_proposer_env `{Kms} (with_agglayer : bool) : outcome EnvironmentConfig :=
  signer ← signer_from_env;
  range_proof_strategy ← str_var "RANGE_PROOF_STRATEGY" "reserved" ≫= parse_fulfillment_strategy;
  agg_proof_strategy ← str_var "AGG_PROOF_STRATEGY" "reserved" ≫= parse_fulfillment_strategy;
  agg_proof_mode ← (mode ← str_var "AGG_PROOF_MODE" "plonk"; parse_agg_proof_mode mode with_agglayer);
  loop_interval ← u64_var "LOOP_INTERVAL" DEFAULT_LOOP_INTERVAL;
  metrics_port ← get_env_var (parse_uint u16_max) "METRICS_PORT" (Some 8080);
  l1_rpc ← get_env_var parse_url "L1_RPC" None;
  db_url ← get_env_var Some "DATABASE_URL" None;
  l2oo_address ← get_env_var parse_address "L2OO_ADDRESS" (Some ADDRESS_ZERO);
  dgf_address ← get_env_var parse_address "DGF_ADDRESS" (Some ADDRESS_ZERO);
  evm_gas_limit ← u64_var "RANGE_PROOF_EVM_GAS_LIMIT" 0;
  range_proof_interval ← u64_var "RANGE_PROOF_INTERVAL" 1800;
  max_concurrent_witness_gen ← u64_var "MAX_CONCURRENT_WITNESS_GEN" 1;
  max_concurrent_proof_requests ← u64_var "MAX_CONCURRENT_PROOF_REQUESTS" 1;
  submission_interval ← u64_var "SUBMISSION_INTERVAL" 1800;
  mock ← bool_var "OP_SUCCINCT_MOCK" false;
  safe_db_fallback ← bool_var "SAFE_DB_FALLBACK" false;
  op_succinct_config_name ← str_var "OP_SUCCINCT_CONFIG_NAME" "opsuccinct_genesis";
  grpc_addr ← (if with_agglayer : bool then Some <$> parse_grpc_addr (get "GRPC_ADDRESS") else Ok None);
  use_kms_requester ← bool_var "USE_KMS_REQUESTER" false;
  max_price_per_pgu ← u64_var "MAX_PRICE_PER_PGU" 300000000;
  proving_timeout ← u64_var "PROVING_TIMEOUT" 14400;
  network_calls_timeout ← u64_var "NETWORK_CALLS_TIMEOUT" 15;
  range_cycle_limit ← u64_var "RANGE_CYCLE_LIMIT" 1000000000000;
  range_gas_limit ← u64_var "RANGE_GAS_LIMIT" 1000000000000;
  agg_cycle_limit ← u64_var "AGG_CYCLE_LIMIT" 1000000000000;
  agg_gas_limit ← u64_var "AGG_GAS_LIMIT" 1000000000000;
  whitelist ← str_var "WHITELIST" "" ≫= parse_whitelist;
  private_stdin ← bool_var "PRIVATE_STDIN" false;
  min_auction_period ← u64_var "MIN_AUCTION_PERIOD" 1;
  auction_timeout ← u64_var "AUCTION_TIMEOUT" 60;
  tx_confirmation_timeout ← u64_var "TX_CONFIRMATION_TIMEOUT" 60;
  Ok {| env_db_url := db_url; env_metrics_port := metrics_port; env_l1_rpc := l1_rpc; env_signer := signer;
        env_loop_interval := loop_interval; env_range_proof_strategy := range_proof_strategy;
        env_agg_proof_strategy := agg_proof_strategy; env_agg_proof_mode := agg_proof_mode;
        env_l2oo_address := l2oo_address; env_dgf_address := dgf_address;
        env_evm_gas_limit := evm_gas_limit; env_range_proof_interval := range_proof_interval;
        env_max_concurrent_witness_gen := max_concurrent_witness_gen;
        env_max_concurrent_proof_requests := max_concurrent_proof_requests;
        env_submission_interval := submission_interval; env_mock := mock;
        env_safe_db_fallback := safe_db_fallback; env_op_succinct_config_name := op_succinct_config_name;
        env_grpc_addr := grpc_addr; env_use_kms_requester := use_kms_requester;
        env_max_price_per_pgu := max_price_per_pgu; env_proving_timeout := proving_timeout;
        env_network_calls_timeout := network_calls_timeout; env_range_cycle_limit := range_cycle_limit;
        env_range_gas_limit := range_gas_limit; env_agg_cycle_limit := agg_cycle_limit;
        env_agg_gas_limit := agg_gas_limit; env_whitelist := whitelist; env_private_stdin := private_stdin;
        env_min_auction_period := min_auction_period; env_auction_timeout := auction_timeout;
        env_tx_confirmation_timeout := tx_confirmation_timeout |}.

(** ** [validity/bin/validity.rs] *)

Definition is_cluster_mode : bool := bool_decide (get_or "SP1_PROVER" "" = codes "cluster").

(** [main], up to [Proposer::new]: the node's chain ids and the commitments to the
    programs are arguments. *)
Definition validity_settings `{Kms} (with_agglayer : bool) (l1_get_chain_id l2_get_chain_id : outcome Z)
    (programs : CommitmentConfig) : outcome (L1BlockSelectionConfig * Config) :=
  l1_selection ← from_env (var "L1_BLOCK_TAG") (var "L1_CONFIRMATIONS");
  env_config ← read_proposer_env with_agglayer;
  let op_succinct_config_name_hash := keccak256_str (env_op_succinct_config_name env_config) in
  if (env_evm_gas_limit env_config =? 0) && (env_range_proof_interval env_config =? 0) then
    Err "At least one of GAS_LIMIT or RANGE_PROOF_INTERVAL must be non-zero"
  else
    l1_chain_id ← l1_get_chain_id;
    l2_chain_id ← l2_get_chain_id;
    Ok (l1_selection,
        {| cfg_l1_chain_id := as_i64 l1_chain_id; cfg_l2_chain_id := as_i64 l2_chain_id;
           l2oo_address := env_l2oo_address env_config; dgf_address := env_dgf_address env_config;
           evm_gas_limit := env_evm_gas_limit env_config;
           range_proof_interval := env_range_proof_interval env_config;
           submission_interval := env_submission_interval env_config;
           max_concurrent_witness_gen := env_max_concurrent_witness_gen env_config;
           max_concurrent_proof_requests := env_max_concurrent_proof_requests env_config;
           op_succinct_config_name_hash := op_succinct_config_name_hash;
           mock := env_mock env_config; cluster := is_cluster_mode;
           has_network_prover := negb is_cluster_mode; has_cluster_config := is_cluster_mode;
           range_strategy := env_range_proof_strategy env_config;
           agg_strategy := env_agg_proof_strategy env_config; agg_mode := env_agg_proof_mode env_config;
           ValidityTypes.max_price_per_pgu := env_max_price_per_pgu env_config;
           ValidityTypes.range_cycle_limit := env_range_cycle_limit env_config;
           ValidityTypes.range_gas_limit := env_range_gas_limit env_config;
           ValidityTypes.agg_cycle_limit := env_agg_cycle_limit env_config;
           ValidityTypes.agg_gas_limit := env_agg_gas_limit env_config;
           ValidityTypes.whitelist := env_whitelist env_config;
           ValidityTypes.min_auction_period := env_min_auction_period env_config;
           ValidityTypes.private_stdin := env_private_stdin env_config;
           safe_db_fallback := env_safe_db_fallback env_config;
           proving_timeout := env_proving_timeout env_config;
           ValidityTypes.auction_timeout := env_auction_timeout env_config;
           loop_interval := env_loop_interval env_config; agglayer := with_agglayer;
           commitments := programs |}).

(** ** [ProvingConfig] *)

Record ProvingConfig := {
  strategy : option FulfillmentStrategy;
  pc_mode : option SP1ProofMode;
  cycle_limit : option Z;
  gas_limit : option Z;
  pc_max_price_per_pgu : option Z;
  skip_simulation : bool;
  pc_proving_timeout : option Z;
  pc_min_auction_period : option Z;
  pc_auction_timeout : option Z;
  pc_whitelist : option (list Z);
  auctioneer : option Z;
  executor : option Z;
  verifier : option Z;
}.

(** Never an error: what cannot be read is [None]. *)
Definition from_env_with_prefix (prefix : string) : ProvingConfig :=
  let get suffix := get (prefix +:+ "_" +:+ suffix) in
  let parse_u64_ suffix := get suffix ≫= parse_u64 in
  {| strategy := s ← get "PROOF_STRATEGY";
                 let s := to_lowercase s in
                 if decide (s = codes "reserved") then Some Reserved
                 else if decide (s = codes "hosted") then Some Hosted
                 else if decide (s = codes "auction") then Some Auction else None;
     pc_mode := s ← get "PROOF_MODE";
                let s := to_lowercase s in
                if decide (s = codes "core") then Some CoreMode
                else if decide (s = codes "compressed") then Some CompressedMode
                else if decide (s = codes "plonk") then Some PlonkMode
                else if decide (s = codes "groth16") then Some Groth16Mode else None;
     cycle_limit := parse_u64_ "CYCLE_LIMIT";
     gas_limit := parse_u64_ "GAS_LIMIT";
     pc_max_price_per_pgu := parse_u64_ "MAX_PRICE_PER_PGU";
     skip_simulation := default false (get "SKIP_SIMULATION" ≫= parse_bool);
     pc_proving_timeout := get "PROVING_TIMEOUT" ≫= parse_duration;
     pc_min_auction_period := parse_u64_ "MIN_AUCTION_PERIOD";
     pc_auction_timeout := get "AUCTION_TIMEOUT" ≫= parse_duration;
     pc_whitelist := s ← get "WHITELIST";
                     Some (omap (fun addr => parse_address (trim addr))
                             (List.filter (fun s => bool_decide (trim s <> [])) (split_at 44 s)));
     auctioneer := get "AUCTIONEER" ≫= parse_address;
     executor := get "EXECUTOR" ≫= parse_address;
     verifier := get "VERIFIER" ≫= parse_address |}.
Definition range_from_env : ProvingConfig := from_env_with_prefix "RANGE".
Definition agg_from_env : ProvingConfig := from_env_with_prefix "AGG".
End settings.

(** ** Numbers *)

Lemma parse_digits_range acc s n : 0 <= acc <= u64_max -> parse_digits acc s = Some n -> 0 <= n <= u64_max.
Proof.
  revert acc. induction s as [|c s IH]; intros acc Hacc; cbn; [by intros [= <-]|].
  destruct (Z.leb_spec 48 c), (Z.leb_spec c 57); try done. cbn [andb].
  destruct (Z.ltb_spec u64_max (10 * acc + (c - 48))); [done|]. apply IH. lia.
Qed.

Lemma parse_u64_range s n : parse_u64 s = Some n -> is_u64 n.
Proof.
  unfold parse_u64. intros Hp.
  destruct (match s with 43 :: s' => s' | _ => s end) as [|c r]; [done|].
  apply (parse_digits_range 0) in Hp; [done|]. unfold u64_max. lia.
Qed.

Lemma parse_uint_range max s n : parse_uint max s = Some n -> 0 <= n <= max.
Proof.
  unfold parse_uint. intros (m & Hm%parse_u64_range & Hn)%bind_Some. unfold is_u64 in Hm.
  destruct (Z.leb_spec m max); [|done]. injection Hn as <-. lia.
Qed.

(** [u64::to_string] *)
Fixpoint decimal_ (fuel : nat) (n : Z) (after : list Z) : list Z :=
  match fuel with
  | O => after
  | S fuel => if n <? 10 then 48 + n :: after else decimal_ fuel (n / 10) (48 + n mod 10 :: after)
  end.
Definition decimal (n : Z) : list Z := decimal_ 20 n [].

Lemma parse_decimal fuel n after :
  is_u64 n -> n < 10 ^ Z.of_nat fuel -> (0 < fuel)%nat ->
  parse_digits 0 (decimal_ fuel n after) = parse_digits n after /\
  exists c r, decimal_ fuel n after = c :: r /\ 48 <= c <= 57.
Proof.
  unfold is_u64. revert n after. induction fuel as [|fuel IH]; intros n after Hn Hf Hpos; [lia|]. cbn [decimal_].
  destruct (Z.ltb_spec n 10) as [Hlt|Hge].
  - split; [|eexists _, _; split; [done|lia]]. cbn [parse_digits].
    rewrite (proj2 (Z.leb_le 48 (48 + n))), (proj2 (Z.leb_le (48 + n) 57)) by lia. cbn [andb].
    replace (10 * 0 + (48 + n - 48)) with n by lia.
    by rewrite (proj2 (Z.ltb_ge u64_max n)) by lia.
  - pose proof (Z.div_mod n 10 ltac:(lia)) as Hdiv. pose proof (Z.mod_pos_bound n 10 ltac:(lia)) as Hmod.
    assert (Hfuel : (0 < fuel)%nat) by (destruct fuel; [cbn in Hf; lia|lia]).
    destruct (IH (n / 10) (48 + n mod 10 :: after)) as [Hp Hc]; [lia| |done|].
    { rewrite Nat2Z.inj_succ, Z.pow_succ_r in Hf by lia. lia. }
    split; [|done]. rewrite Hp. cbn [parse_digits].
    rewrite (proj2 (Z.leb_le 48 (48 + n mod 10))), (proj2 (Z.leb_le (48 + n mod 10) 57)) by lia. cbn [andb].
    replace (10 * (n / 10) + (48 + n mod 10 - 48)) with n by lia.
    by rewrite (proj2 (Z.ltb_ge u64_max n)) by lia.
Qed.

(** A number that is written out is read back. *)
Lemma parse_u64_decimal n : is_u64 n -> parse_u64 (decimal n) = Some n.
Proof.
  intros Hn. destruct (parse_decimal 20 n [] Hn) as (Hp & c & r & Hd & Hc); [|lia|].
  { unfold is_u64, u64_max in Hn. lia. }
  unfold parse_u64, decimal. rewrite Hd in *.
  assert (H43 : c <> 43) by lia. destruct c as [|p|p]; [exact Hp| |exact Hp]. repeat case_match; try done; (rewrite <- H; exact Hp).
Qed.

(** ** What settings the services start with *)

Section loaded.
Context `{Parsers} (var : string -> EnvVar).

Lemma number_or_range max key d n : number_or var max key d = Ok n -> 0 <= n <= max.
Proof. unfold number_or. intros Hn%with_context_Ok. by apply parse_uint_range in Hn. Qed.

Lemma strategy_specified s st : parse_fulfillment_strategy s = Ok st -> st <> UnspecifiedFulfillmentStrategy.
Proof. unfold parse_fulfillment_strategy. repeat case_decide; naive_solver. Qed.

Lemma split_valid s n : range_split_from_str s = Ok n -> RangeSplitCount.valid n.
Proof.
  unfold range_split_from_str, RangeSplitCount.try_from, RangeSplitCount.new, RangeSplitCount.valid.
  intros (v & Hv%with_context_Ok%parse_u64_range & Hn)%outcome_bind_Ok. unfold is_u64 in Hv.
  destruct (u8_max <? v); [done|]. destruct (Z.eqb_spec v 0), (Z.ltb_spec RangeSplitCount.MAX v); try done.
  injection Hn as <-. cbn. lia.
Qed.

(** Network, timeouts and limits are within their widths, and the strategies are
    ones the network has. *)
Record provider_ok (c : ProofProviderConfig) : Prop := {
  po_numbers : Forall is_u64 [ProofWait.timeout c; ProofWait.network_calls_timeout c;
    ProofWait.auction_timeout c; ProofWait.range_cycle_limit c; ProofWait.range_gas_limit c;
    ProofWait.agg_cycle_limit c; ProofWait.agg_gas_limit c; ProofWait.max_price_per_pgu c;
    ProofWait.min_auction_period c];
  po_strategies : ProofWait.range_proof_strategy c <> UnspecifiedFulfillmentStrategy /\
    ProofWait.agg_proof_strategy c <> UnspecifiedFulfillmentStrategy;
  po_mode : ProofWait.agg_proof_mode c = Groth16Mode \/ ProofWait.agg_proof_mode c = PlonkMode;
}.

Lemma provider_settings c : proof_provider_from_env var = Ok c -> provider_ok c.
Proof.
  unfold proof_provider_from_env, u64_or. intros Hc. ok_inv. subst c.
  repeat match goal with Hn : number_or _ _ _ _ = Ok _ |- _ => apply number_or_range in Hn end.
  repeat match goal with Hs : parse_fulfillment_strategy _ = Ok _ |- _ => apply strategy_specified in Hs end.
  split; cbn.
  - by repeat (apply Forall_cons; split).
  - done.
  - case_decide; auto.
Qed.

(** C33: Whatever the environment holds, a proposer that starts has settings its code
    can rely on: one to sixteen splits, at least one range proof at a time,
    numbers within their widths, strategies that exist and an aggregation mode
    for L1. *)
Theorem proposer_settings_well_typed s :
  proposer_from_env var = Ok s ->
  let c := proposer_config s in
  RangeSplitCount.valid (ProposerService.range_split_count c) /\
  1 <= ProposerService.max_concurrent_range_proofs c <= u64_max /\
  Forall is_u64 [ProposerService.proposal_interval_in_blocks c;
    ProposerService.max_concurrent_defense_tasks c; ProposerService.fast_finality_proving_limit c;
    ProposerService.sync_l1_confirmations c; fetch_interval s; tx_confirmation_timeout s] /\
  is_u32 (ProposerService.cfg_game_type c) /\ 0 <= metrics_port s <= u16_max /\ provider_ok (proof_provider s).
Proof.
  unfold proposer_from_env, u64_or. intros Hs. ok_inv. subst s. cbn.
  repeat match goal with Hn : number_or _ _ _ _ = Ok _ |- _ => apply number_or_range in Hn end.
  repeat match goal with Hn : range_split_from_str _ = Ok _ |- _ => apply split_valid in Hn end.
  repeat match goal with Hn : parse_uint _ _ = Some _ |- _ => apply parse_uint_range in Hn end.
  repeat match goal with Hn : proof_provider_from_env _ = Ok _ |- _ => apply provider_settings in Hn end.
  match goal with Hn : parse_nonzero _ = Some _ |- _ => rename Hn into Hz end.
  unfold parse_nonzero in Hz. apply bind_Some in Hz as (n & Hn%parse_u64_range & Hz).
  destruct (Z.eqb_spec n 0); [done|]. injection Hz as <-. unfold is_u64 in Hn.
  split_and!; try done; try lia. by repeat (apply Forall_cons; split).
Qed.
End loaded.

(** ** The validity proposer's planner ends *)

(** More fuel does not change where a range is cut. *)
Lemma blocks_loop_fuel f f' x y m p :
  blocks_loop f x y m = Some p -> (f <= f')%nat -> blocks_loop f' x y m = Some p.
Proof.
  revert f' x p. induction f as [|f IH]; intros f' x p; destruct f'; cbn [blocks_loop];
    destruct (x <? y); try done; try lia.
  intros (q & Hq & Hp)%bind_Some Hf. by rewrite (IH f' _ q Hq) by lia.
Qed.

Section plans.
Context `{Parsers, Kms} (var : string -> EnvVar).

Lemma u64_var_range key d n : is_u64 d -> u64_var var key d = Ok n -> is_u64 n.
Proof.
  unfold u64_var, get_env_var. intros Hd. destruct (get var key) as [s|].
  - by intros Hn%with_context_Ok%parse_u64_range.
  - by intros [= <-].
Qed.

Lemma validity_intervals b l1 l2 programs sel config :
  validity_settings var b l1 l2 programs = Ok (sel, config) ->
  is_u64 (evm_gas_limit config) /\ is_u64 (range_proof_interval config) /\
  (evm_gas_limit config <> 0 \/ range_proof_interval config <> 0).
Proof.
  unfold validity_settings. intros (sel' & _ & (env_config & Henv & Hc)%outcome_bind_Ok)%outcome_bind_Ok.
  assert (Hr : is_u64 (env_evm_gas_limit env_config) /\ is_u64 (env_range_proof_interval env_config)).
  { unfold read_proposer_env in Henv. ok_inv. subst env_config. cbn [env_evm_gas_limit env_range_proof_interval].
    split; (eapply u64_var_range; [|eassumption]); by split. }
  destruct (Z.eqb_spec (env_evm_gas_limit env_config) 0) as [Hg|Hg],
    (Z.eqb_spec (env_range_proof_interval env_config) 0) as [Hi|Hi]; cbn [andb] in Hc; [done|..];
    ok_inv; simplify_eq; cbn; tauto.
Qed.

(** The binary refuses settings with neither a gas limit nor an interval. With
    the others, up to an interval beyond [i64] and on gaps an interval below
    [i64::MAX], planning by blocks ends: with enough fuel for the blocks of the
    longest gap there is a plan. *)
Theorem accepted_settings_plan b l1 l2 programs sel config disjoint_ranges :
  validity_settings var b l1 l2 programs = Ok (sel, config) ->
  evm_gas_limit config = 0 -> range_proof_interval config <= i64_max ->
  Forall (plannable (range_proof_interval config)) disjoint_ranges ->
  exists fuel ranges, forall fuel', (fuel <= fuel')%nat ->
    get_ranges_to_prove_by_blocks fuel' disjoint_ranges (as_i64 (range_proof_interval config)) = Some ranges.
Proof.
  intros (_ & Hu & Hne)%validity_intervals Hgas Hi Hfit. unfold is_u64 in Hu.
  assert (Hm : as_i64 (range_proof_interval config) = range_proof_interval config)
    by (apply as_i64_small; lia).
  rewrite Hm. set (m := range_proof_interval config) in *. assert (Hpos : 0 < m) by (destruct Hne; lia).
  set (fuel := foldr (fun r n => Nat.max (Z.to_nat (r.2 - r.1)) n) 0%nat disjoint_ranges).
  assert (Hplan : exists ps, forall fuel', (fuel <= fuel')%nat ->
    mapM (fun r => blocks_loop fuel' r.1 r.2 m) disjoint_ranges = Some ps).
  { subst fuel. induction Hfit as [|[x y] rs Hxy _ (ps & IH)]; cbn -[mapM]; [by exists []|].
    destruct (blocks_loop_piece (Z.to_nat (y - x)) x y m Hpos Hxy) as (p & Hp & _); [lia|].
    exists (p :: ps). intros fuel' Hf. cbn.
    rewrite (blocks_loop_fuel _ fuel' x y m p Hp) by lia. cbn. rewrite IH by lia. done. }
  destruct Hplan as (ps & Hps). exists fuel, (drop_short_last m (concat ps)). intros fuel' Hf.
  unfold get_ranges_to_prove_by_blocks. by rewrite (Hps fuel' Hf).
Qed.
End plans.

(** ** Environments *)

(** Libraries that read a nonempty value as its first code. *)
Definition sample_parser (s : list Z) : option Z := head s.
Definition sample_parsers : Parsers :=
  Build_Parsers sample_parser sample_parser sample_parser sample_parser sample_parser sample_parser
    (fun s => Z.of_nat (length s)).
Definition sample_kms : Kms := fun _ _ _ _ version => Ok version.

(** An environment that sets the given variables. *)
Definition sample_env (vars : list (string * string)) (key : string) : EnvVar :=
  match List.find (fun kv => String.eqb kv.1 key) vars with
  | Some kv => Present (codes kv.2)
  | None => NotPresent
  end.

Definition proposer_vars : list (string * string) :=
  [("L1_RPC", "http://l1"); ("L2_RPC", "http://l2"); ("ANCHOR_STATE_REGISTRY_ADDRESS", "0xA1");
   ("FACTORY_ADDRESS", "0xF1"); ("GAME_TYPE", "42"); ("RANGE_SPLIT_COUNT", "16")]%string.
Definition validity_vars : list (string * string) :=
  [("PRIVATE_KEY", "0x1"); ("L1_RPC", "http://l1"); ("DATABASE_URL", "postgres://db");
   ("RANGE_PROOF_INTERVAL", "30")]%string.

Definition proposer_from (vars : list (string * string)) : outcome ProposerSettings :=
  proposer_from_env (H := sample_parsers) (sample_env (vars ++ proposer_vars)).
Definition validity_from (vars : list (string * string)) : outcome (L1BlockSelectionConfig * Config) :=
  validity_settings (H := sample_parsers) (H0 := sample_kms) (sample_env (vars ++ validity_vars)) false
    (Ok 1) (Ok 42220) sample_commitment.

Lemma proposer_settings_well_typed_witness :
  exists s, proposer_from [] = Ok s /\
    RangeSplitCount.get (ProposerService.range_split_count (proposer_config s)) = 16 /\
    RangeSplitCount.valid (ProposerService.range_split_count (proposer_config s)) /\ provider_ok (proof_provider s).
Proof.
  destruct (proposer_from []) as [s|e|] eqn:Hs; [|by vm_compute in Hs..].
  exists s. split; [done|]. split; [vm_compute in Hs; by injection Hs as <-|].
  destruct (proposer_settings_well_typed (H := sample_parsers) _ s Hs) as (Hr & _ & _ & _ & _ & Hp).
  by split.
Defined.

Lemma accepted_settings_plan_witness :
  exists sel config ranges, validity_from [] = Ok (sel, config) /\ range_proof_interval config = 30 /\
    get_ranges_to_prove_by_blocks 100 [(0, 65); (65, 100)] (as_i64 (range_proof_interval config)) = Some ranges /\
    exists fuel ranges', forall fuel', (fuel <= fuel')%nat ->
      get_ranges_to_prove_by_blocks fuel' [(0, 65); (65, 100)] (as_i64 (range_proof_interval config)) = Some ranges'.
Proof.
  destruct (validity_from []) as [[sel config]|e|] eqn:Hs; [|by vm_compute in Hs..].
  assert (Hg : evm_gas_limit config = 0) by (vm_compute in Hs; by injection Hs as _ <-).
  assert (Hi : range_proof_interval config = 30) by (vm_compute in Hs; by injection Hs as _ <-).
  exists sel, config, [(0, 30); (30, 60); (60, 65); (65, 95)]. split_and!; [done|done|by rewrite Hi|].
  apply (accepted_settings_plan (H := sample_parsers) (H0 := sample_kms) _ _ _ _ _ sel config _ Hs Hg); rewrite Hi;
    [done|repeat constructor; cbn; unfold i64_max; lia].
Defined.

(** With the required variables alone the proposer runs with the book's defaults. *)
Example documented_defaults :
  (fun s => let c := proposer_config s in
     (fetch_interval s, ProposerService.max_concurrent_defense_tasks c, metrics_port s,
      ProposerService.fast_finality_proving_limit c, ProposerService.max_concurrent_range_proofs c,
      ProofWait.timeout (proof_provider s), ProofWait.agg_proof_mode (proof_provider s)))
    <$> proposer_from [] = Ok (30, 8, 9000, 1, 1, 14400, PlonkMode).
Proof. vm_compute. reflexivity. Qed.

(** A mode the validity proposer refuses is a Plonk proof for the fault-proof one. *)
Example unknown_mode :
  (fun s => ProofWait.agg_proof_mode (proof_provider s)) <$> proposer_from [("AGG_PROOF_MODE", "groth-16")]%string =
    Ok PlonkMode /\
  validity_from [("AGG_PROOF_MODE", "groth-16")]%string = Err "Invalid AGG_PROOF_MODE" /\
  validity_from [("AGG_PROOF_MODE", "compressed")]%string =
    Err "AGG_PROOF_MODE=compressed requires a build with the agglayer feature".
Proof. vm_compute. done. Qed.

(** Zero range proofs at a time, seventeen splits, no interval and no gas limit. *)
Example refused_settings :
  proposer_from [("MAX_CONCURRENT_RANGE_PROOFS", "0")]%string = Err "ParseIntError" /\
  (forall s, proposer_from [("RANGE_SPLIT_COUNT", "17")]%string <> Ok s) /\
  validity_from [("RANGE_PROOF_INTERVAL", "0")]%string =
    Err "At least one of GAS_LIMIT or RANGE_PROOF_INTERVAL must be non-zero".
Proof. split_and!; [by vm_compute|by intros s Hs; vm_compute in Hs|by vm_compute]. Qed.

(** A key management service comes before a signing service, and that before a key. *)
Example signer_precedence :
  let from vars := signer_from_env (H := sample_parsers) (H0 := sample_kms) (sample_env vars) in
  let key := [("PRIVATE_KEY", "k")]%string in
  let web3 := [("SIGNER_URL", "u"); ("SIGNER_ADDRESS", "a")]%string ++ key in
  let gcp := [("GOOGLE_PROJECT_ID", "p"); ("GOOGLE_LOCATION", "l"); ("GOOGLE_KEYRING", "r")]%string ++ web3 in
  from key = Ok (LocalSigner 107) /\ from web3 = Ok (Web3Signer 117 97) /\
  from (("HSM_KEY_NAME", "n")%string :: gcp) = Ok (CloudHsmSigner 1) /\ from gcp = Panic /\
  from [("SIGNER_URL", "u")]%string = Err "None of the required signer configurations are set in environment".
Proof. vm_compute. done. Qed.
