(* ===== verification/ChainLock.v ===== *)
(** * The chain lock

    One proposer per chain: [Proposer::new] (validity/src/proposer.rs) refuses to
    start while [chain_locks] says that another is running, and every turn of the
    loop refreshes the lock as its last step.

    [start_exclusive] is what the lock does, [turn_refreshes] who moves
    it. The lock is only as old as the last completed turn: after the sleep
    between two turns it has lapsed ([lock_lapses_every_turn]), and two proposers
    that start together both pass the check ([both_start]). *)

From S2P Require Import Prelude.
From S2P Require Import Interleaving.
From S2P Require Import RequestDb.
From S2P Require Import ValidityTypes.
From S2P Require Import ProofRequester.
From S2P Require Import ValidityProposer.
From S2P Require Import ValidityRun.

(** ** Who moves the lock *)

Definition keeps_locks (s s' : Shared) : Prop := chain_locks (db s') = chain_locks (db s).

#[export] Instance keeps_locks_preorder : PreOrder keeps_locks.
Proof. split; unfold keeps_locks; [done|congruence]. Qed.
#[export] Instance keeps_locks_local : Local keeps_locks.
Proof. intros s s' Hd _. unfold keeps_locks. by rewrite Hd. Qed.

Lemma locks_inserts reqs d : chain_locks (insert_requests reqs d).1 = chain_locks d.
Proof. revert d. induction reqs as [|r reqs IH]; intros d; [done|]. exact (IH (insert_request r d).1). Qed.

Lemma locks_execute {A} (f : Z -> Db -> Db * A) :
  (forall now d, chain_locks (f now d).1 = chain_locks d) -> guar keeps_locks (execute f).
Proof. intros Hf. apply guar_execute; [apply _|]. intros s s' _ Hd. unfold keeps_locks. by rewrite Hd, Hf. Qed.

Lemma locks_invalidate ids c l1 l2 now d :
  chain_locks (invalidate_noncanonical_ranges now ids c l1 l2 d).1 = chain_locks d.
Proof. by destruct ids. Qed.

Ltac same_locks :=
  apply locks_execute; intros ? ?; first [reflexivity | apply locks_inserts | apply locks_invalidate
    | repeat (unfold mbind, M_bind; cbn; case_match); reflexivity].
#[local] Hint Extern 1 (guar keeps_locks (execute _)) => same_locks : guar.
#[local] Hint Extern 1 (Local _) => typeclasses eauto : guar.

Section proposer.
Context {HO : HashOrder} (config : Config).
Notation key := (cfg_l1_chain_id config, cfg_l2_chain_id config).

Lemma locks_failed (request : OPSuccinctRequest) st :
  guar keeps_locks (handle_failed_request config request st).
Proof. unfold handle_failed_request, split_request, create_range_request. guar_tac. Qed.
#[local] Hint Resolve locks_failed : guar.

Lemma locks_take i : guar keeps_locks (take_task i).
Proof. by apply guar_act. Qed.
Lemma locks_spawn request : guar keeps_locks (spawn_task request).
Proof. apply guar_act. intros s. by destruct (tasks s !! id request). Qed.
Lemma locks_count i : guar keeps_locks (count_poll_failure i).
Proof. apply guar_act. intros s. by destruct (cluster_handles s !! i). Qed.
#[local] Hint Resolve locks_take locks_spawn locks_count : guar.

Lemma locks_polling : guar keeps_locks (handle_proving_requests config).
Proof.
  unfold handle_proving_requests, process_cluster_proof_status, wall_clock_exceeded, find_handle,
    drop_or_fail, fail_cluster_request, process_proof_request_status, cancel_invalidated,
    store_fulfilled, check_auction, handle_terminal_proof_failure_before_request_details,
    fetch_details, complete_request, stored_bytes, handle_cancelled_request.
  guar_tac.
Qed.

Lemma locks_new_ranges fuel : guar keeps_locks (add_new_ranges config fuel).
Proof.
  unfold add_new_ranges, plan_ranges, fetch_block_infos, new_range, create_range_request. guar_tac.
Qed.

Lemma locks_create_aggregation : guar keeps_locks (create_aggregation_proofs config).
Proof. unfold create_aggregation_proofs, reusable_checkpoint, new_checkpoint. guar_tac. Qed.

Lemma locks_tasks : guar keeps_locks (handle_ongoing_tasks config).
Proof. unfold handle_ongoing_tasks, retry_task. guar_tac. Qed.

Lemma locks_orphans : guar keeps_locks (set_orphaned_tasks_to_failed config).
Proof. unfold set_orphaned_tasks_to_failed, fail_orphan. guar_tac. Qed.

Lemma locks_reconcile : guar keeps_locks (reconcile_completed_range_canonicality config).
Proof. unfold reconcile_completed_range_canonicality, hydrate_range, fetch_canonical_hash. guar_tac. Qed.

Lemma locks_queued : guar keeps_locks (request_queued_proofs config).
Proof. unfold request_queued_proofs, get_next_unrequested_proof. guar_tac. Qed.

Lemma locks_submit : guar keeps_locks (submit_agg_proofs config).
Proof. unfold submit_agg_proofs, relay_aggregation_proof, propose_output. guar_tac. Qed.

Lemma locks_checks : guar keeps_locks (validate_contract_config config) /\
  guar keeps_locks (log_proposer_metrics config).
Proof. unfold validate_contract_config, log_proposer_metrics. split; guar_tac. Qed.
#[local] Hint Resolve locks_polling locks_new_ranges locks_create_aggregation locks_tasks locks_orphans
  locks_reconcile locks_queued locks_submit : guar.

(** A sequence fails in a first part that leaves the locks, or goes on. *)
Lemma locks_then {A B} (p : Prog A) (f : A -> Prog B) s s' o :
  guar keeps_locks p -> run (p ≫= f) s = (s', o) ->
  (keeps_locks s s' /\ forall b, o <> Ok b) \/
  (exists s1 a, keeps_locks s s1 /\ run (f a) s1 = (s', o)).
Proof.
  intros Hp [(s1 & a & H1 & H2)|(o1 & H1 & _ & Ho)]%run_bind_cases;
    pose proof (guar_run keeps_locks p s Hp) as Hk; rewrite H1 in Hk; eauto.
Qed.

Lemma turn_refreshes fuel s s' o :
  run (run_loop_iteration config fuel) s = (s', o) ->
  let refreshed := alter (fun _ => NOW (env s')) key (chain_locks (db s)) in
  (o = Ok tt -> chain_locks (db s') = refreshed) /\
  (o <> Ok tt -> chain_locks (db s') = chain_locks (db s) \/
     (o = Err "database error" /\ chain_locks (db s') = refreshed)).
Proof.
  intros Hrun refreshed. unfold run_loop_iteration in Hrun. destruct (locks_checks) as [Hc Hm].
  assert (Hend : (keeps_locks s s' /\ forall b, o <> Ok b) \/
    exists s1, keeps_locks s s1 /\
      run (execute (fun now => update_chain_lock now (cfg_l1_chain_id config) (cfg_l2_chain_id config))) s1 = (s', o)).
  { repeat (apply locks_then in Hrun; [|solve [auto | guar_tac]];
      destruct Hrun as [[Hk Ho]|(? & ? & ? & Hrun)];
      [left; split; [by repeat (etrans; [eassumption|])|done]|]).
    right. eexists. split; [|exact Hrun]. by repeat (etrans; [eassumption|]). }
  destruct Hend as [[Hk Ho]|(s1 & Hk & Hlast)]; [split; [by intros []%Ho|by left]|].
  unfold execute, statement in Hlast. rewrite run_act in Hlast.
  apply run_statement_cases in Hlast as (_ & He & _ & _ & Hd). unfold keeps_locks in Hk.
  unfold refreshed. rewrite He, <- Hk.
  destruct Hd as [Hd|[-> Hd]]; cbn in Hd.
  - injection Hd as <- <-. by split.
  - split; [done|]. destruct Hd as [->| ->]; auto.
Qed.
(** ** Starting *)

(** Somebody took or refreshed the lock less than [loop_interval] seconds ago. *)
Definition lock_held (s : Shared) : Prop :=
  exists locked_at, chain_locks (db s) !! key = Some locked_at /\
    NOW (env s) < locked_at + loop_interval config.

Lemma is_chain_locked_iff s :
  is_chain_locked (NOW (env s)) (cfg_l1_chain_id config) (cfg_l2_chain_id config) (loop_interval config) (db s) = true
  <-> lock_held s.
Proof.
  unfold is_chain_locked, lock_held. destruct (chain_locks (db s) !! key) as [t|].
  - rewrite Z.ltb_lt. split; [intros Ht; exists t; split; [done|lia]|intros (? & [= <-] & Ht); lia].
  - split; [done|by intros (? & ? & _)].
Qed.

Definition locked_error : string := "There is another proposer for the same chain connected to the database.".

(** What [new] still checks once it has the lock. *)
Definition set_up : outcome unit :=
  _ ← (if cluster config then Ok tt
       else _ ← determine_network_mode (range_strategy config) (agg_strategy config); Ok tt);
  new_requester config.

Definition locked (s : Shared) : Shared :=
  with_db (add_chain_lock (NOW (env s)) (cfg_l1_chain_id config) (cfg_l2_chain_id config) (db s)).1 s.

(** What a start does with the lock. *)
Lemma start_steps s :
  check_modes config = Ok tt -> faults s = [] ->
  (lock_held s -> run (new config) s = (s, Err locked_error)) /\
  (~ lock_held s -> run (new config) s = (locked s, set_up)).
Proof.
  intros Hm Hf. unfold new. rewrite Hm.
  destruct (is_chain_locked (NOW (env s)) (cfg_l1_chain_id config) (cfg_l2_chain_id config)
    (loop_interval config) (db s)) eqn:Hl.
  - split; [intros _|intros Hn; by apply is_chain_locked_iff in Hl].
    unfold statement, done, act. cbn. unfold run_statement. rewrite Hf, Hl. by destruct s.
  - split; [intros Hh%is_chain_locked_iff; congruence|intros _].
    unfold statement, execute, done, act. cbn -[determine_network_mode new_requester].
    unfold run_statement at 1. rewrite Hf, Hl. cbn -[determine_network_mode new_requester].
    unfold run_statement. rewrite Hf. cbn -[determine_network_mode new_requester].
    replace (with_db (db s) s) with s by (by destruct s).
    unfold set_up. destruct (cluster config); cbn -[determine_network_mode new_requester].
    + by destruct (new_requester config).
    + by destruct (determine_network_mode _ _); cbn -[new_requester].
Qed.
(** C32: A start is refused while the lock is held, and then changes nothing;
    otherwise it takes the lock, and for [loop_interval] seconds every further
    start on the database is refused. *)
Theorem start_exclusive s :
  check_modes config = Ok tt -> faults s = [] ->
  (lock_held s -> run (new config) s = (s, Err locked_error)) /\
  (~ lock_held s -> run (new config) s = (locked s, set_up) /\
     forall e, NOW e < NOW (env s) + loop_interval config ->
       run (new config) (with_env e (locked s)) = (with_env e (locked s), Err locked_error)).
Proof.
  intros Hm Hf. split; [by apply start_steps|]. intros Hn. split; [by apply start_steps|].
  intros e He. apply start_steps; [done..|]. exists (NOW (env s)). split; [|done]. apply lookup_insert_eq.
Qed.

(** The lock is as old as the last turn: once the proposer has slept its
    [loop_interval], another one starts, although the first goes on with its next
    turn. *)
Theorem lock_lapses_every_turn fuel s s' e :
  run (run_loop_iteration config fuel) s = (s', Ok tt) ->
  check_modes config = Ok tt -> faults s' = [] -> NOW (env s') + loop_interval config <= NOW e ->
  run (new config) (with_env e s') = (locked (with_env e s'), set_up).
Proof.
  intros Hrun Hm Hf He. apply start_steps; [done..|]. intros (t & Ht & Hlt).
  destruct (turn_refreshes fuel s s' _ Hrun) as [Hr _]. cbn in Ht, Hlt. rewrite Hr in Ht by done.
  rewrite lookup_alter_eq in Ht. destruct (chain_locks (db s) !! key); [|done].
  injection Ht as <-. lia.
Qed.
End proposer.

(** ** Two proposers *)

(** The check and the lock are two statements: both pass the check, both start. *)
Example both_start :
  (interleave [0; 1; 0; 1]%nat [new sample_config; new sample_config] sample_start).2 =
    [Ret (Ok tt); Ret (Ok tt)].
Proof. vm_compute. reflexivity. Qed.

(** The same world at another time of the database. *)
Definition at_time (t : Z) (e : Env) : Env :=
  match e with
  | Build_Env _ x1 x2 x3 x4 x5 x6 x7 x8 x9 x10 x11 x12 x13 x14 x15 x16 x17 x18 x19 x20 x21 x22
      x23 x24 x25 x26 x27 x28 x29 x30 x31 x32 x33 x34 x35 x36 =>
      Build_Env t x1 x2 x3 x4 x5 x6 x7 x8 x9 x10 x11 x12 x13 x14 x15 x16 x17 x18 x19 x20 x21 x22
      x23 x24 x25 x26 x27 x28 x29 x30 x31 x32 x33 x34 x35 x36
  end.

Definition started : Shared := (run (new sample_config) sample_start).1.

Lemma start_exclusive_witness :
  ~ lock_held sample_config sample_start /\
  run (new sample_config) (with_env (at_time 5059 (env sample_start)) started) =
    (with_env (at_time 5059 (env sample_start)) started, Err locked_error).
Proof.
  assert (Hn : ~ lock_held sample_config sample_start) by (by intros (t & Ht & _)).
  split; [exact Hn|].
  destruct (start_exclusive sample_config sample_start eq_refl eq_refl) as [_ Hstart].
  destruct (Hstart Hn) as [Hrun Hlater]. unfold started. rewrite Hrun. apply Hlater. vm_compute. reflexivity.
Defined.

(** One turn later, and sixty seconds after its end. *)
Lemma lock_lapses_every_turn_witness :
  let s' := (run (run_loop_iteration sample_config 100) started).1 in
  let e := at_time 5060 (env s') in
  run (run_loop_iteration sample_config 100) started = (s', Ok tt) /\
  run (new sample_config) (with_env e s') = (locked sample_config (with_env e s'), set_up sample_config) /\
  set_up sample_config = Ok tt.
Proof.
  intros s' e.
  assert (Hrun : run (run_loop_iteration sample_config 100) started = (s', Ok tt))
    by (vm_compute; reflexivity).
  assert (Hf : faults s' = []) by (vm_compute; reflexivity).
  assert (He : NOW (env s') + loop_interval sample_config <= NOW e) by (vm_compute; congruence).
  split; [exact Hrun|]. split; [|reflexivity].
  generalize dependent e. clearbody s'. intros e He.
  exact (lock_lapses_every_turn sample_config 100 started s' e Hrun eq_refl Hf He).
Defined.
