(* ===== verification/Estimator.v ===== *)
(** * The cost estimator

    [scripts/utils/bin/cost_estimator.rs]: split a range of blocks, generate or
    load the input of every part, execute the range program on each in parallel,
    check what it committed, and add the statistics up. With it
    [utils/host/src/stats.rs], [witness_cache.rs], the safe-head splitter of
    [block_range.rs], [validate_range_execution] of
    [utils/proof/src/execution.rs], [HostExecutorArgs] of
    [scripts/utils/src/lib.rs] and [execute_multi] of [scripts/prove/src/lib.rs].

    A zkVM execution is a function of its input. The executions run in parallel
    and append their statistics to one report file; [interleave] runs their
    actions in any order. *)

From S2P Require Import Prelude.
From S2P Require Import AggregationProgram.
From S2P Require Import RangeSplit.
From S2P Require Import ValidityRanges.
From S2P Require Import Interleaving.
From S2P Require Import ValidityTypes.
From S2P Require Import Fetcher.

(** ** Statistics *)

Module Stats.
Record ExecutionStats := {
  l1_head : Z;
  batch_start : Z;
  batch_end : Z;
  witness_generation_time_sec : Z;
  total_execution_time_sec : Z;
  total_instruction_count : Z;
  oracle_verify_instruction_count : Z;
  derivation_instruction_count : Z;
  block_execution_instruction_count : Z;
  blob_verification_instruction_count : Z;
  total_sp1_gas : Z;
  nb_blocks : Z;
  nb_transactions : Z;
  eth_gas_used : Z;
  l1_fees : Z;
  total_tx_fees : Z;
  cycles_per_block : Z;
  cycles_per_transaction : Z;
  transactions_per_block : Z;
  gas_used_per_block : Z;
  gas_used_per_transaction : Z;
  bn_pair_cycles : Z;
  bn_add_cycles : Z;
  bn_mul_cycles : Z;
  kzg_eval_cycles : Z;
  ec_recover_cycles : Z;
  p256_verify_cycles : Z;
}.

Definition default_stats : ExecutionStats :=
  Build_ExecutionStats 0 0 0 0 0 0 0 0 0 0 0 0 0 0 0 0 0 0 0 0 0 0 0 0 0 0 0.

(** [a.checked_div(b).unwrap_or(0)] *)
Definition safe_div (a b : Z) : Z := if b =? 0 then 0 else a / b.
(** [iter().sum()] of [u64]s *)
Definition sum_u64 (l : list Z) : Z := foldl (fun acc x => wrap64 (acc + x)) 0 l.

(** [sort_by_key(|b| b.block_number)] *)
Definition by_number (a b : BlockInfo) : Prop := block_number a <= block_number b.
#[global] Instance by_number_dec a b : Decision (by_number a b).
Proof. unfold by_number. apply _. Defined.

Definition new (l1_head : Z) (block_data : list BlockInfo) (report : ExecutionReport)
    (witness_generation_time_sec total_execution_time_sec : Z) : ExecutionStats :=
  match merge_sort by_number block_data with
  | [] => default_stats
  | (first :: _) as block_data =>
      let get_cycles key := default 0 (cycle_tracker report key) in
      let nb_blocks := Z.of_nat (length block_data) in
      let nb_transactions := sum_u64 (transaction_count <$> block_data) in
      let total_gas_used := sum_u64 (gas_used <$> block_data) in
      let total_instructions := ValidityTypes.total_instruction_count report in
      {| l1_head := l1_head;
         batch_start := wrap64 (block_number first - 1);
         batch_end := block_number (List.last block_data first);
         total_instruction_count := total_instructions;
         total_sp1_gas := default 0 (gas report);
         block_execution_instruction_count := get_cycles "block-execution"%string;
         oracle_verify_instruction_count := get_cycles "oracle-verify"%string;
         derivation_instruction_count := get_cycles "payload-derivation"%string;
         blob_verification_instruction_count := get_cycles "blob-verification"%string;
         bn_add_cycles := get_cycles "precompile-bn-add"%string;
         bn_mul_cycles := get_cycles "precompile-bn-mul"%string;
         bn_pair_cycles := get_cycles "precompile-bn-pair"%string;
         kzg_eval_cycles := get_cycles "precompile-kzg-eval"%string;
         ec_recover_cycles := get_cycles "precompile-ec-recover"%string;
         p256_verify_cycles := get_cycles "precompile-p256-verify"%string;
         nb_transactions := nb_transactions;
         eth_gas_used := total_gas_used;
         l1_fees := sum_u128 (ValidityRanges.total_l1_fees <$> block_data);
         total_tx_fees := sum_u128 (ValidityRanges.total_tx_fees <$> block_data);
         nb_blocks := nb_blocks;
         cycles_per_block := safe_div total_instructions nb_blocks;
         cycles_per_transaction := safe_div total_instructions nb_transactions;
         transactions_per_block := safe_div nb_transactions nb_blocks;
         gas_used_per_block := safe_div total_gas_used nb_blocks;
         gas_used_per_transaction := safe_div total_gas_used nb_transactions;
         witness_generation_time_sec := witness_generation_time_sec;
         total_execution_time_sec := total_execution_time_sec |}
  end.

(** One turn of the loop of [aggregate_execution_stats], on its three variables. *)
Definition accumulate (a : ExecutionStats * Z * Z) (stats : ExecutionStats) : ExecutionStats * Z * Z :=
  let '(s, from, to) := a in
  let add f := wrap64 (f s + f stats) in
  ({| l1_head := l1_head s; batch_start := batch_start s; batch_end := batch_end s;
      witness_generation_time_sec := witness_generation_time_sec s;
      total_execution_time_sec := total_execution_time_sec s;
      total_instruction_count := add total_instruction_count;
      oracle_verify_instruction_count := add oracle_verify_instruction_count;
      derivation_instruction_count := add derivation_instruction_count;
      block_execution_instruction_count := add block_execution_instruction_count;
      blob_verification_instruction_count := add blob_verification_instruction_count;
      total_sp1_gas := add total_sp1_gas;
      nb_blocks := add nb_blocks;
      nb_transactions := add nb_transactions;
      eth_gas_used := add eth_gas_used;
      l1_fees := l1_fees s; total_tx_fees := total_tx_fees s;
      cycles_per_block := cycles_per_block s; cycles_per_transaction := cycles_per_transaction s;
      transactions_per_block := transactions_per_block s; gas_used_per_block := gas_used_per_block s;
      gas_used_per_transaction := gas_used_per_transaction s;
      bn_pair_cycles := add bn_pair_cycles;
      bn_add_cycles := add bn_add_cycles;
      bn_mul_cycles := add bn_mul_cycles;
      kzg_eval_cycles := add kzg_eval_cycles;
      ec_recover_cycles := add ec_recover_cycles;
      p256_verify_cycles := add p256_verify_cycles |},
   Z.min from (batch_start stats), Z.max to (batch_end stats)).

Definition aggregate_execution_stats (execution_stats : list ExecutionStats)
    (total_execution_time_sec witness_generation_time_sec : Z) : ExecutionStats :=
  let '(s, from, to) := foldl accumulate (default_stats, u64_max, 0) execution_stats in
  {| l1_head := l1_head s; batch_start := from; batch_end := to;
     witness_generation_time_sec := witness_generation_time_sec;
     total_execution_time_sec := total_execution_time_sec;
     total_instruction_count := total_instruction_count s;
     oracle_verify_instruction_count := oracle_verify_instruction_count s;
     derivation_instruction_count := derivation_instruction_count s;
     block_execution_instruction_count := block_execution_instruction_count s;
     blob_verification_instruction_count := blob_verification_instruction_count s;
     total_sp1_gas := total_sp1_gas s; nb_blocks := nb_blocks s; nb_transactions := nb_transactions s;
     eth_gas_used := eth_gas_used s; l1_fees := l1_fees s; total_tx_fees := total_tx_fees s;
     cycles_per_block := safe_div (total_instruction_count s) (nb_blocks s);
     cycles_per_transaction := safe_div (total_instruction_count s) (nb_transactions s);
     transactions_per_block := safe_div (nb_transactions s) (nb_blocks s);
     gas_used_per_block := safe_div (eth_gas_used s) (nb_blocks s);
     gas_used_per_transaction := safe_div (eth_gas_used s) (nb_transactions s);
     bn_pair_cycles := bn_pair_cycles s; bn_add_cycles := bn_add_cycles s; bn_mul_cycles := bn_mul_cycles s;
     kzg_eval_cycles := kzg_eval_cycles s; ec_recover_cycles := ec_recover_cycles s;
     p256_verify_cycles := p256_verify_cycles s |}.

(** ** The order of the rows does not matter *)

Lemma wrap64_add_swap a x y : wrap64 (wrap64 (a + x) + y) = wrap64 (wrap64 (a + y) + x).
Proof. unfold wrap64. rewrite !Z.add_mod_idemp_l by done. f_equal. lia. Qed.

Lemma accumulate_swap a x y : accumulate (accumulate a x) y = accumulate (accumulate a y) x.
Proof.
  destruct a as [[s from] to]. unfold accumulate. cbn.
  f_equal; [f_equal; [|lia]|lia]. f_equal; apply wrap64_add_swap.
Qed.

Lemma accumulate_perm l l' a : l ≡ₚ l' -> foldl accumulate a l = foldl accumulate a l'.
Proof.
  intros Hl. revert a. induction Hl as [|x l l' _ IH|x y l|l l' l'' _ IH _ IH']; intros a; cbn; [done|apply IH| |].
  - by rewrite accumulate_swap.
  - by rewrite IH.
Qed.

Lemma aggregate_perm l l' t w : l ≡ₚ l' -> aggregate_execution_stats l t w = aggregate_execution_stats l' t w.
Proof. intros Hl. unfold aggregate_execution_stats. by rewrite (accumulate_perm l l'). Qed.
End Stats.

(** ** The report file *)

(** A line of the CSV file: its column names, or the statistics of a range. *)
Inductive Line := HeaderLine | Row (stats : Stats.ExecutionStats).

Fixpoint deserialize_rows (lines : list Line) : outcome (list Stats.ExecutionStats) :=
  match lines with
  | [] => Ok []
  | Row stats :: lines => rest ← deserialize_rows lines; Ok (stats :: rest)
  | HeaderLine :: _ => Err "CSV deserialize error"
  end.

(** [csv::Reader] takes the first line for the names of the columns. *)
Definition read_report (lines : list Line) : outcome (list Stats.ExecutionStats) :=
  match lines with
  | [] | [Row _] => Ok []
  | HeaderLine :: lines => deserialize_rows lines
  | Row _ :: _ => Err "CSV deserialize error"
  end.

(** Opens the file, looks whether it is empty, and appends. *)
Definition append_stats (stats : Stats.ExecutionStats) : prog (list Line) unit :=
  needs_header ← act (fun file => (file, Ok (match file with [] => true | _ => false end)));
  act (fun file => (file ++ (if needs_header : bool then [HeaderLine] else []) ++ [Row stats], Ok tt)).

(** Whatever is left of some programs, one after the other. *)
Fixpoint finish {W A} (threads : list (prog W A)) (s : W) : W * list (outcome A) :=
  match threads with
  | [] => (s, [])
  | p :: threads =>
      let '(s1, o) := run p s in
      let '(s2, os) := finish threads s1 in (s2, o :: os)
  end.

(** [try_for_each] in [spawn_blocking]: a panic is an error of the join. *)
Fixpoint join (results : list (outcome unit)) : outcome unit :=
  match results with
  | [] => Ok tt
  | Ok _ :: results => join results
  | Err e :: _ => Err e
  | Panic :: _ => Err "task panicked"
  end.

(** ** Inputs and executions *)

Record Execution := { public_values : Z; exit_code : Z; report : ExecutionReport }.

(** The witness generator, bincode and the zkVM. *)
Class Machine := {
  host_run : SingleChainHost -> outcome Z;
  get_sp1_stdin : Z -> outcome Z;
  zkvm_execute : Z -> outcome Execution;  (** the range program *)
  deserialize_boot : Z -> option BootInfoStruct;  (** rejecting trailing bytes *)
}.

(** The nodes and the files of the working directory. *)
Record World := {
  rpc : Rpc;
  cache : gmap (Z * Z * Z) (option Z);  (** [None]: a file that is no input *)
  writable : bool;
  report_file : list Line;
}.
Definition with_rpc (n : Rpc) (w : World) : World :=
  {| rpc := n; cache := cache w; writable := writable w; report_file := report_file w |}.
Definition with_report (file : list Line) (w : World) : World :=
  {| rpc := rpc w; cache := cache w; writable := writable w; report_file := file |}.

Notation lift := (within rpc with_rpc).

(** [stream::iter(l).map(f).buffered(..).try_collect()] *)
Definition try_each {W A B} (l : list A) (f : A -> prog W B) : prog W (list B) :=
  fold l [] (fun acc x => y ← f x; mret (acc ++ [y])).

(** [.expect(..)] of a call. *)
Definition expect {W A} (p : prog W A) : prog W A :=
  r ← catch p; match r with inl a => mret a | inr _ => done Panic end.

(** [SpanBatchRange] *)
Notation Range := (Z * Z)%type.

(** [HostExecutorArgs], less what the estimator does not read. *)
Record HostExecutorArgs := {
  start : option Z;
  end_ : option Z;
  batch_size : option Z;
  use_cache : bool;
  rolling : bool;
  default_range : Z;
  safe_db_fallback : bool;
  log_only : bool;
}.

Definition DEFAULT_BATCH_SIZE : Z := 10.

Definition effective_batch_size (args : HostExecutorArgs) : Z :=
  match batch_size args with
  | Some batch_size => batch_size
  | None =>
      match start args, end_ args with
      | Some start, Some end_ => if start <? end_ then end_ - start else DEFAULT_BATCH_SIZE
      | _, _ => DEFAULT_BATCH_SIZE
      end
  end.

Record CostEstimatorArgs := {
  host : HostExecutorArgs;
  no_safe_head_split : bool;
  arg_l1_head : option Z;
}.

Definition cost_estimator_l1_selection (l1_block_tag l1_confirmations : EnvVar) (has_explicit_l1_head : bool)
    : outcome L1BlockSelectionConfig :=
  if has_explicit_l1_head then Ok default_selection else from_env l1_block_tag l1_confirmations.

Section estimator.
Context `{HeaderHash, Hashing, Machine} (rollup_config : option Z).

Definition validate_range_execution (public_values : Z) (exit_code : Z)
    (end_block starting_output_root output_root : Z) : outcome unit :=
  _ ← ensure (exit_code =? 0) "Range program exited with code";
  boot ← with_context "Range program did not commit valid boot info" (deserialize_boot public_values);
  _ ← ensure (l2BlockNumber boot =? end_block) "Range program committed block";
  _ ← ensure (l2PreRoot boot =? starting_output_root) "Range program committed starting output root";
  ensure (l2PostRoot boot =? output_root) "Range program committed output root".

(** [execute_multi], less the durations. *)
Definition execute_multi (l1_selection : L1BlockSelectionConfig) (sp1_stdin l2_start_block l2_end_block : Z)
    : Fetch (list BlockInfo * ExecutionReport) :=
  starting_output_root ← get_l2_output_root l2_start_block;
  output_root ← get_l2_output_root l2_end_block;
  executed ← done (zkvm_execute sp1_stdin);
  _ ← done (validate_range_execution (public_values executed) (exit_code executed) l2_end_block
              starting_output_root output_root);
  block_data ← get_l2_block_data_range l2_start_block l2_end_block;
  mret (block_data, report executed).

(** ** Splitting *)

(** The iterations a splitter needs when its additions do not wrap; more and
    it does not end. *)
Definition split_fuel (l2_start l2_end : Z) : nat := Z.to_nat (l2_end - l2_start).

Definition split_range_based_on_safe_heads (l1_selection : L1BlockSelectionConfig)
    (l2_start l2_end max_range_size : Z) : Fetch (list Range) :=
  start_output ← call (fun n => optimism_outputAtBlock n l2_start);
  let l1_start := l1_origin_number start_output in
  l1_head ← get_safe_l1_block_for_l2_block l1_selection l2_end;
  safe_heads ← try_each (seqZ l1_start (l1_head.2 + 1 - l1_start))
    (fun block => expect (result ← call (fun n => optimism_safeHeadAtL1Block n block);
                          mret (safe_head_number result)));
  let safe_heads := merge_sort Z.le (remove_dups safe_heads) in
  done (unwrap (BlockRange.split_by_safe_heads (split_fuel l2_start l2_end) safe_heads l2_start l2_end
                  max_range_size)).

Definition choose_split (args : CostEstimatorArgs) (l1_selection : L1BlockSelectionConfig)
    (l2_start_block l2_end_block : Z) : Fetch (list Range) :=
  let batch_size := effective_batch_size (host args) in
  let basic := done (unwrap (BlockRange.split_range_basic (split_fuel l2_start_block l2_end_block)
                               l2_start_block l2_end_block batch_size)) in
  if no_safe_head_split args then basic
  else
    activated ← is_safe_db_activated;
    if activated : bool then
      split_range_based_on_safe_heads l1_selection l2_start_block l2_end_block batch_size
    else basic.

(** ** The cache of inputs *)

Definition load_stdin_from_cache (chain_id start_block end_block : Z) (w : World) : outcome (option Z) :=
  match cache w !! (chain_id, start_block, end_block) with
  | None => Ok None
  | Some (Some stdin) => Ok (Some stdin)
  | Some None => Err "bincode"
  end.

Definition save_stdin_to_cache (chain_id start_block end_block stdin : Z) (w : World) : World * outcome unit :=
  if writable w then
    ({| rpc := rpc w; cache := <[(chain_id, start_block, end_block) := Some stdin]> (cache w);
        writable := writable w; report_file := report_file w |}, Ok tt)
  else (w, Err "io").

Definition generate_stdin (l2_chain_id : Z) (cache_enabled : bool) (host_args : SingleChainHost) (range : Range)
    : prog World Z :=
  witness_data ← expect (done (host_run host_args));
  stdin ← expect (done (get_sp1_stdin witness_data));
  _ ← (if cache_enabled then
         _ ← catch (act (save_stdin_to_cache l2_chain_id range.1 range.2 stdin)); mret tt
       else mret tt);
  mret stdin.

Definition stdin_of (l2_chain_id : Z) (cache_enabled : bool) (job : SingleChainHost * Range) : prog World Z :=
  if cache_enabled then
    cached ← catch (act (fun w => (w, load_stdin_from_cache l2_chain_id job.2.1 job.2.2 w)));
    match cached with
    | inl (Some stdin) => mret stdin
    | inl None | inr _ => generate_stdin l2_chain_id cache_enabled job.1 job.2
    end
  else generate_stdin l2_chain_id cache_enabled job.1 job.2.

(** ** Executing *)

(** What a range is checked against: its block data and its two output roots. *)
Record Expected := { e_range : Range; e_block_data : list BlockInfo; e_starting_output_root : Z; e_output_root : Z }.

Definition expected_of (range : Range) : Fetch Expected :=
  block_data ← get_l2_block_data_range range.1 range.2;
  starting_output_root ← get_l2_output_root range.1;
  output_root ← get_l2_output_root range.2;
  mret {| e_range := range; e_block_data := block_data; e_starting_output_root := starting_output_root;
          e_output_root := output_root |}.

Definition execution_stats (input : Z * Expected) : outcome Stats.ExecutionStats :=
  executed ← zkvm_execute input.1;
  _ ← validate_range_execution (public_values executed) (exit_code executed) (e_range input.2).2
        (e_starting_output_root input.2) (e_output_root input.2);
  Ok (Stats.new 0 (e_block_data input.2) (report executed) 0 0).

Definition execute_range (log_only : bool) (input : Z * Expected) : prog (list Line) unit :=
  stats ← done (execution_stats input);
  if log_only then mret tt else append_stats stats.

(** The executions in parallel: some of their actions in the order of the
    schedule, then what is left of them. *)
Definition execute_all (schedule : list nat) (log_only : bool) (inputs : list (Z * Expected)) (file : list Line)
    : list Line * outcome unit :=
  let '(file, threads) := interleave schedule (execute_range log_only <$> inputs) file in
  let '(file, results) := finish threads file in
  (file, join results).

Definition execute_blocks_and_write_stats_csv (l1_block_tag l1_confirmations : EnvVar) (schedule : list nat)
    (host_args : list SingleChainHost) (ranges : list Range) (l2_chain_id : Z) (cache_enabled log_only : bool)
    : prog World unit :=
  _ ← done (from_env_or_default l1_block_tag l1_confirmations);
  block_data ← lift (try_each ranges expected_of);
  _ ← (if log_only then mret tt else act (fun w => (with_report [] w, Ok tt)));
  stdins ← try_each (zip host_args ranges) (stdin_of l2_chain_id cache_enabled);
  act (fun w => let '(file, o) := execute_all schedule log_only (zip stdins block_data) (report_file w) in
                (with_report file w, o)).

(** [main]; its result is what it prints. *)
Definition main (l1_block_tag l1_confirmations : EnvVar) (get_l2_chain_id : outcome Z) (schedule : list nat)
    (args : CostEstimatorArgs) : prog World (option Stats.ExecutionStats) :=
  l1_selection ← done (cost_estimator_l1_selection l1_block_tag l1_confirmations
                         (bool_decide (is_Some (arg_l1_head args))));
  l2_chain_id ← done get_l2_chain_id;
  _ ← lift (validate_l1_selection l1_selection);
  max_provable ← lift (get_max_provable_l2_block_number l1_selection);
  range ← done (if rolling (host args)
                then BlockRange.get_rolling_block_range max_provable (default_range (host args))
                else BlockRange.get_validated_block_range max_provable (start (host args)) (end_ (host args))
                       (default_range (host args)));
  let '(l2_start_block, l2_end_block) := range in
  split_ranges ← lift (choose_split args l1_selection l2_start_block l2_end_block);
  host_args ← lift (try_each split_ranges (fun range =>
    expect (host_fetch rollup_config l1_selection range.1 range.2 (arg_l1_head args)
              (safe_db_fallback (host args)))));
  _ ← execute_blocks_and_write_stats_csv l1_block_tag l1_confirmations schedule host_args split_ranges
        l2_chain_id (use_cache (host args)) (log_only (host args));
  if negb (log_only (host args)) then
    lines ← act (fun w => (w, Ok (report_file w)));
    final_execution_stats ← done (read_report lines);
    let executed_blocks := Stats.sum_u64 (Stats.nb_blocks <$> final_execution_stats) in
    _ ← done (ensure (executed_blocks =? wrap64 (l2_end_block - l2_start_block)) "Executed blocks");
    mret (Some (Stats.aggregate_execution_stats final_execution_stats 0 0))
  else mret None.
End estimator.
