(* ===== verification/EstimatorLaws.v ===== *)
(** * What an estimate says

    The rows of the report are those of the ranges, in whatever order the
    executions end ([execute_all_rows]), and an estimate that is printed covers
    the requested blocks exactly, each range executed to the claim the nodes
    confirm ([estimate_covers_range]). *)

From S2P Require Import Prelude.
From S2P Require Import AggregationProgram.
From S2P Require Import RangeSplit.
From S2P Require Import ValidityRanges.
From S2P Require Import Interleaving.
From S2P Require Import ValidityTypes.
From S2P Require Import Fetcher.
From S2P Require Import FetcherLaws.
From S2P Require Import Estimator.

(** ** The report, whoever writes first *)

(** Where the execution of a range is: nothing written, the file looked at,
    done, or failed. *)
Inductive Stage :=
| Fresh (stats : Stats.ExecutionStats)
| Looked (empty : bool) (stats : Stats.ExecutionStats)
| Written
| Failed (o : outcome unit).

Definition write (empty : bool) (stats : Stats.ExecutionStats) : prog (list Line) unit :=
  act (fun file => (file ++ (if empty then [HeaderLine] else []) ++ [Row stats], Ok tt)).

Definition prog_of (g : Stage) : prog (list Line) unit :=
  match g with
  | Fresh stats => append_stats stats
  | Looked empty stats => write empty stats
  | Written => Ret (Ok tt)
  | Failed o => Ret o
  end.

Definition to_write (g : Stage) : option Stats.ExecutionStats :=
  match g with Fresh stats | Looked _ stats => Some stats | _ => None end.
Definition row (line : Line) : option Stats.ExecutionStats :=
  match line with Row stats => Some stats | HeaderLine => None end.

Definition empty_file (file : list Line) : bool := match file with [] => true | _ => false end.

(** The file holds what the others have not written, its first line is a header,
    and whoever saw it empty while it is says so. *)
Record report_inv (all : list Stats.ExecutionStats) (file : list Line) (stages : list Stage) : Prop := {
  ri_rows : omap row file ++ omap to_write stages ≡ₚ all;
  ri_head : file = [] \/ exists rest, file = HeaderLine :: rest;
  ri_looked : file = [] -> forall empty stats, Looked empty stats ∈ stages -> empty = true;
}.

Definition next (file : list Line) (g : Stage) : list Line * Stage :=
  match g with
  | Fresh stats => (file, Looked (empty_file file) stats)
  | Looked empty stats => (file ++ (if empty then [HeaderLine] else []) ++ [Row stats], Written)
  | g => (file, g)
  end.

Lemma one_action_next file g :
  one_action (prog_of g) file = ((next file g).1, prog_of (next file g).2).
Proof. by destruct g. Qed.

Lemma omap_insert {A B} (f : A -> option B) (l : list A) i x y :
  l !! i = Some x -> omap f (<[i := y]> l) ++ option_list (f x) ≡ₚ omap f l ++ option_list (f y).
Proof.
  revert i. induction l as [|z l IH]; intros [|i]; try done; cbn [lookup list_lookup insert list_insert].
  - intros [= ->]. cbn. destruct (f x), (f y); cbn; rewrite ?app_nil_r; try done;
      try (by rewrite <- Permutation_cons_append); try (by rewrite Permutation_cons_append).
    rewrite <- !Permutation_cons_append. apply Permutation_swap.
  - intros Hx. cbn. specialize (IH i Hx). destruct (f z); cbn; [by f_equiv|done].
Qed.

Lemma inv_next all file stages i g :
  stages !! i = Some g -> report_inv all file stages ->
  report_inv all (next file g).1 (<[i := (next file g).2]> stages).
Proof.
  intros Hi [Hr Hh Hl]. pose proof (omap_insert to_write stages i g (next file g).2 Hi) as Hp.
  assert (Hin : forall b s, Looked b s ∈ <[i := (next file g).2]> stages ->
    Looked b s = (next file g).2 \/ Looked b s ∈ stages).
  { intros b s Hb. apply list_elem_of_lookup in Hb as [j Hj]. destruct (decide (j = i)) as [->|Hne].
    - rewrite list_lookup_insert_eq in Hj by (by eapply lookup_lt_Some). injection Hj as <-. by left.
    - rewrite list_lookup_insert_ne in Hj by done. right. by eapply list_elem_of_lookup_2. }
  destruct g as [s|b s| |o]; cbn [next fst snd to_write option_list] in *.
  - split; [|done|].
    + rewrite <- Hr. f_equiv. by apply (Permutation_app_inv_r [s]).
    + intros -> b s' [[= -> ->]|Hb]%Hin; [done|by eapply Hl].
  - rewrite app_nil_r in Hp. split.
    + rewrite omap_app, omap_app. cbn. rewrite <- Hr, <- Hp.
      replace (omap row (if b then [HeaderLine] else [])) with (@nil Stats.ExecutionStats) by (by destruct b).
      cbn. rewrite <- app_assoc. f_equiv. apply Permutation_cons_append.
    + right. destruct file as [|l file].
      * rewrite (Hl eq_refl b s) by (by eapply list_elem_of_lookup_2). by eexists.
      * destruct Hh as [|[rest [= -> ->]]]; [done|]. by eexists.
    + by destruct file, b.
  - rewrite list_insert_id by done. by split.
  - rewrite list_insert_id by done. by split.
Qed.

Lemma interleave_stages all schedule stages file :
  report_inv all file stages ->
  exists file' stages', interleave schedule (prog_of <$> stages) file = (file', prog_of <$> stages') /\
    report_inv all file' stages' /\ (forall o, Failed o ∈ stages -> Failed o ∈ stages').
Proof.
  revert stages file. induction schedule as [|i schedule IH]; intros stages file Hinv; cbn [interleave].
  { by exists file, stages. }
  rewrite list_lookup_fmap. destruct (stages !! i) as [g|] eqn:Hi; cbn [fmap option_fmap option_map]; [|by apply IH].
  rewrite one_action_next, <- list_fmap_insert.
  destruct (IH _ _ (inv_next _ _ _ _ _ Hi Hinv)) as (file' & stages' & Hrun & Hinv' & Hf).
  exists file', stages'. split_and!; [done|done|]. intros o Ho. apply Hf.
  apply list_elem_of_lookup in Ho as [j Hj]. destruct (decide (j = i)) as [->|Hne].
  - rewrite Hi in Hj. injection Hj as ->. cbn [next snd].
    eapply list_elem_of_lookup_2, list_lookup_insert_eq, lookup_lt_Some, Hi.
  - eapply list_elem_of_lookup_2. by rewrite list_lookup_insert_ne.
Qed.

(** The first of the stages comes to its end. *)
Lemma run_stage all file g stages :
  report_inv all file (g :: stages) ->
  exists file', run (prog_of g) file = (file', match g with Failed o => o | _ => Ok tt end) /\
    report_inv all file' stages.
Proof.
  intros Hinv.
  assert (Htail : forall file g, report_inv all file (g :: stages) -> to_write g = None -> report_inv all file stages).
  { clear. intros file g [Hr Hh Hl] Hg. cbn in Hr. rewrite Hg in Hr. split; [done|done|].
    intros Hf b s Hb. apply (Hl Hf b s). by right. }
  assert (Hnext : forall file g, report_inv all file (g :: stages) ->
    report_inv all (next file g).1 ((next file g).2 :: stages)).
  { intros f g' Hf. by apply (inv_next all f (g' :: stages) 0%nat g'). }
  destruct g as [s|b s| |o].
  - eexists. split; [reflexivity|]. apply Hnext, Hnext in Hinv. cbn [next fst snd] in Hinv.
    by apply Htail in Hinv.
  - eexists. split; [reflexivity|]. apply Hnext in Hinv. by apply Htail in Hinv.
  - exists file. split; [done|]. by apply Htail in Hinv.
  - exists file. split; [done|]. by apply Htail in Hinv.
Qed.

Lemma join_Ok results : join results = Ok tt -> Forall (fun o => o = Ok tt) results.
Proof. induction results as [|[[]|e|] results IH]; cbn; auto; done. Qed.

Lemma finish_stages all stages file :
  report_inv all file stages ->
  exists file' results, finish (prog_of <$> stages) file = (file', results) /\
    report_inv all file' [] /\ (join results = Ok tt -> forall o, Failed o ∈ stages -> o = Ok tt).
Proof.
  revert file. induction stages as [|g stages IH]; intros file Hinv; cbn [finish fmap list_fmap].
  { exists file, []. split_and!; [done|done|]. by intros _ o Ho%elem_of_nil. }
  destruct (run_stage _ _ _ _ Hinv) as (file1 & -> & Hinv1).
  destruct (IH _ Hinv1) as (file2 & results & -> & Hinv2 & Hok). eexists file2, _. split_and!; [done|done|].
  intros Hj o Ho. apply join_Ok in Hj as Hall. apply Forall_cons in Hall as [Hg Hall].
  apply elem_of_cons in Ho as [<-|Ho]; [done|]. apply Hok; [|done].
  clear -Hall. induction Hall as [|o os -> _ IH]; [done|]. exact IH.
Qed.

(** A report that can be read has exactly its rows. *)
Lemma read_rows all file rows : report_inv all file [] -> read_report file = Ok rows -> rows ≡ₚ all.
Proof.
  intros [Hr Hh _] Hread. cbn in Hr. rewrite app_nil_r in Hr.
  assert (Hrows : rows = omap row file); [|by rewrite Hrows].
  destruct Hh as [->|[lines ->]]; cbn in *; [by injection Hread as <-|].
  clear Hr. revert rows Hread. induction lines as [|[|s] lines IH]; intros rows; cbn; [by intros [= <-]|done|].
  intros (rest & Hrest & Hk)%outcome_bind_Ok. injection Hk as <-. f_equal. by apply IH.
Qed.

Section executions.
Context `{HeaderHash, Hashing, Machine}.

(** The stage in which an execution starts. *)
Definition first_stage (log_only : bool) (input : Z * Expected) : Stage :=
  match execution_stats input with
  | Ok stats => if log_only then Written else Fresh stats
  | Err e => Failed (Err e)
  | Panic => Failed Panic
  end.

Lemma first_stage_prog log_only input : execute_range log_only input = prog_of (first_stage log_only input).
Proof.
  unfold execute_range, first_stage. by destruct (execution_stats input) as [s|e|], log_only.
Qed.

(** When every execution succeeds, in whatever order they look and write, a
    report that can be read holds the statistics of every range. *)
Lemma execute_all_rows schedule log_only inputs file' :
  execute_all schedule log_only inputs [] = (file', Ok tt) ->
  exists all, Forall2 (fun input stats => execution_stats input = Ok stats) inputs all /\
    (log_only = false -> forall rows, read_report file' = Ok rows -> rows ≡ₚ all).
Proof.
  unfold execute_all. intros Hrun.
  replace (execute_range log_only <$> inputs) with (prog_of <$> (first_stage log_only <$> inputs)) in Hrun
    by (rewrite <- list_fmap_compose; apply list_fmap_ext; intros i x _; symmetry; apply first_stage_prog).
  set (stages := first_stage log_only <$> inputs) in *.
  assert (Hinv : report_inv (omap to_write stages) [] stages).
  { split; [done|by left|]. intros _ b s Hb. unfold stages in Hb. apply list_elem_of_fmap in Hb as (x & Hx & _).
    unfold first_stage in Hx. by destruct (execution_stats x), log_only. }
  destruct (interleave_stages _ schedule _ _ Hinv) as (f1 & st1 & Hi & Hinv1 & Hf1). rewrite Hi in Hrun.
  destruct (finish_stages _ _ _ Hinv1) as (f2 & results & Hfin & Hinv2 & Hf2). rewrite Hfin in Hrun.
  injection Hrun as <- Hjoin. specialize (Hf2 Hjoin).
  assert (Hall : Forall (fun input => exists stats, execution_stats input = Ok stats) inputs).
  { apply Forall_forall. intros x Hx. destruct (execution_stats x) as [s|e|] eqn:Hs; [by eexists|exfalso..];
      assert (Hfail : exists o, first_stage log_only x = Failed o /\ o <> Ok tt)
        by (unfold first_stage; rewrite Hs; by eexists);
      destruct Hfail as (o & Ho & Hne); apply Hne, Hf2, Hf1; rewrite <- Ho; by apply list_elem_of_fmap_2. }
  apply Forall_exists_Forall2_l in Hall as [all Hall]. exists all. split; [done|].
  intros -> rows Hread. rewrite (read_rows _ _ _ Hinv2 Hread).
  assert (Heq : omap to_write stages = all); [|by rewrite Heq].
  subst stages. clear -Hall. induction Hall as [|x s inputs all Hx _ IH]; [done|]. cbn.
  unfold first_stage at 1. rewrite Hx. cbn. by f_equal.
Qed.
End executions.

(** ** What the nodes say *)

Lemma run_lift {A} (p : Fetch A) w : run (lift p) w = (with_rpc (run p (rpc w)).1 w, (run p (rpc w)).2).
Proof. by apply run_within; [intros []|..]. Qed.

Lemma run_lift_still {A} (p : Fetch A) w : guar still p -> run (lift p) w = (w, (run p (rpc w)).2).
Proof. intros Hp. rewrite run_lift, (run_still p _ Hp). by destruct w. Qed.

Lemma guar_try_each {A B} (l : list A) (f : A -> Fetch B) :
  (forall x, guar still (f x)) -> guar still (try_each l f).
Proof. intros Hf. unfold try_each. apply guar_fold. intros acc x. apply guar_bind; [apply Hf|done]. Qed.

Lemma guar_expect {A} (p : Fetch A) : guar still p -> guar still (expect p).
Proof. intros Hp. unfold expect. apply guar_bind; [by apply guar_catch|]. by intros []. Qed.

(** A successful [try_each] has made every call. *)
Lemma try_each_Ok {W A B} (l : list A) (f : A -> prog W B) (Q : A -> B -> Prop) s s' ys :
  run (try_each l f) s = (s', Ok ys) ->
  (forall x s1 s2 y, x ∈ l -> run (f x) s1 = (s2, Ok y) -> Q x y) -> Forall2 Q l ys.
Proof.
  unfold try_each. intros Hrun HQ.
  assert (Hacc : forall s acc, run (fold l acc (fun acc x => y ← f x; mret (acc ++ [y]))) s = (s', Ok ys) ->
    exists zs, ys = acc ++ zs /\ Forall2 Q l zs).
  { clear Hrun. induction l as [|x l IH]; intros s1 acc; cbn [fold].
    - intros [= _ <-]. exists []. by rewrite app_nil_r.
    - intros (s2 & acc' & (s3 & y & Hy & Hacc')%run_bind_Ok & Hrun)%run_bind_Ok. injection Hacc' as <- <-.
      apply IH in Hrun as (zs & -> & Hzs); [|intros x' s4 s5 y' Hx'; apply HQ; by right].
      exists (y :: zs). rewrite <- app_assoc. split; [done|]. constructor; [|done]. eapply HQ; [by left|done]. }
  apply Hacc in Hrun as (zs & -> & Hzs). done.
Qed.

Lemma try_each_still {A B} (l : list A) (f : A -> Fetch B) n s ys :
  (forall x, guar still (f x)) -> run (try_each l f) n = (s, Ok ys) ->
  Forall2 (fun x y => run (f x) n = (n, Ok y)) l ys.
Proof.
  unfold try_each. intros Hf Hrun.
  assert (Hacc : forall acc, run (fold l acc (fun acc x => y ← f x; mret (acc ++ [y]))) n = (s, Ok ys) ->
    exists zs, ys = acc ++ zs /\ Forall2 (fun x y => run (f x) n = (n, Ok y)) l zs).
  { clear Hrun. induction l as [|x l IH]; intros acc; cbn [fold].
    - intros [= _ <-]. exists []. by rewrite app_nil_r.
    - intros (s2 & acc' & (s3 & y & Hy & Hacc')%run_bind_Ok & Hrun)%run_bind_Ok. injection Hacc' as <- <-.
      pose proof (run_still _ n (Hf x)) as Hs. rewrite Hy in Hs. cbn in Hs. subst s3.
      apply IH in Hrun as (zs & -> & Hzs).
      exists (y :: zs). rewrite <- app_assoc. split; [done|]. by constructor. }
  apply Hacc in Hrun as (zs & -> & Hzs). done.
Qed.

Section nodes.
Context `{HeaderHash, Hashing}.
#[local] Hint Resolve guar_call guar_header : guar.

Lemma guar_output_root b : guar still (get_l2_output_root b).
Proof.
  unfold get_l2_output_root, get_l2_execution_output, l2_to_l1_message_passer_storage_root. guar_tac.
Qed.

Lemma guar_data_range a b : guar still (get_l2_block_data_range a b).
Proof. unfold get_l2_block_data_range, buffered, block_data. guar_tac. Qed.

Lemma guar_expected r : guar still (expected_of r).
Proof.
  unfold expected_of. apply guar_bind; [apply guar_data_range|]. intros ?.
  apply guar_bind; [apply guar_output_root|]. intros ?. apply guar_bind; [apply guar_output_root|done].
Qed.

(** The blocks of a range, each with its number, in order. *)
Lemma collected_Ok {B} (l : list (B + string)) bs : collect l = Ok bs -> l = inl <$> bs.
Proof.
  revert bs. induction l as [|[b|e] l IH]; intros bs; cbn; [by intros [= <-]| |done].
  intros (bs' & Hbs & Hk)%outcome_bind_Ok. injection Hk as <-. cbn. f_equal. by apply IH.
Qed.

Lemma data_range_numbers a b n s bs :
  run (get_l2_block_data_range a b) n = (s, Ok bs) ->
  block_number <$> bs = seqZ (wrap64 (a + 1)) (b + 1 - wrap64 (a + 1)).
Proof.
  unfold get_l2_block_data_range. intros (s1 & rs & Hbuf & Hk)%run_bind_Ok. injection Hk as <- Hk.
  apply collected_Ok in Hk as ->. revert Hbuf. generalize (seqZ (wrap64 (a + 1)) (b + 1 - wrap64 (a + 1))).
  intros l Hbuf. unfold buffered in Hbuf.
  assert (Hacc : forall s acc rs, run (fold l acc (fun acc x => r ← catch (block_data x); mret (acc ++ [r]))) s = (s1, Ok rs) ->
    exists zs, rs = acc ++ zs /\ Forall2 (fun x z => forall y, z = inl y -> block_number y = x) l zs).
  { clear Hbuf. induction l as [|x l IH]; intros s2 acc rs0; cbn [fold].
    - intros [= _ <-]. exists []. by rewrite app_nil_r.
    - intros (s3 & acc' & (s4 & z & Hz & Hacc')%run_bind_Ok & Hrun)%run_bind_Ok. injection Hacc' as <- <-.
      apply IH in Hrun as (zs & -> & Hzs). exists (z :: zs). rewrite <- app_assoc. split; [done|].
      constructor; [|done]. intros y ->. rewrite run_catch in Hz. unfold attempt in Hz.
      destruct (run (block_data x) s2) as [s5 [b0|e|]] eqn:Hb; try done. injection Hz as <- <-.
      unfold block_data in Hb. run_inv. done. }
  apply Hacc in Hbuf as (zs & Hzs & Hall). cbn in Hzs. subst zs. clear Hacc.
  revert bs Hall. induction l as [|x l IH]; intros [|y bs] Hall; inversion Hall; subst; [done|]. cbn.
  f_equal; [auto|]. by apply IH.
Qed.
End nodes.

(** ** The statistics of a range, and of a chain of ranges *)

Lemma List_last_fmap {A B} (f : A -> B) l d : List.last (f <$> l) (f d) = f (List.last l d).
Proof. induction l as [|x [|y l] IH]; [done..|]. exact IH. Qed.

Lemma seqZ_last a k d : 0 < k -> List.last (seqZ a k) d = a + k - 1.
Proof.
  intros Hk. replace k with ((k - 1) + 1) at 1 by lia. rewrite seqZ_app by lia.
  rewrite (seqZ_cons (a + (k - 1))), (seqZ_nil (Z.succ _)), List.last_last by lia. lia.
Qed.

Lemma seqZ_sorted a k : Sorted Z.le (seqZ a k).
Proof.
  destruct (decide (0 <= k)) as [Hk|Hk]; [|rewrite seqZ_nil by lia; constructor].
  revert a. pattern k. apply natlike_ind; [| |done]; clear k Hk.
  - intros a. rewrite seqZ_nil by done. constructor.
  - intros k Hk IH a. rewrite seqZ_cons by lia. replace (Z.pred (Z.succ k)) with k by lia.
    constructor; [apply IH|]. destruct (decide (k = 0)) as [->|Hne]; [by rewrite seqZ_nil|].
    rewrite seqZ_cons by lia. constructor. lia.
Qed.

Lemma sorted_numbers bs a k :
  block_number <$> bs = seqZ a k -> block_number <$> merge_sort Stats.by_number bs = seqZ a k.
Proof.
  intros Hbs. apply (Sorted_unique Z.le); [|apply seqZ_sorted|].
  - assert (Hs : Sorted Stats.by_number (merge_sort Stats.by_number bs)).
    { apply Sorted_merge_sort. intros x y. unfold Stats.by_number. lia. }
    induction Hs as [|x l Hl IH Hhd]; [constructor|]. cbn. constructor; [done|].
    destruct Hhd; constructor. done.
  - by rewrite merge_sort_Permutation, Hbs.
Qed.

(** The statistics of the blocks after [a] up to [b]. *)
Definition spans (r : Z * Z) (s : Stats.ExecutionStats) : Prop :=
  Stats.nb_blocks s = r.2 - r.1 /\ Stats.batch_start s = r.1 /\ Stats.batch_end s = r.2.

Lemma new_spans bs report a b :
  0 <= a -> a < b <= u64_max -> block_number <$> bs = seqZ (wrap64 (a + 1)) (b + 1 - wrap64 (a + 1)) ->
  spans (a, b) (Stats.new 0 bs report 0 0).
Proof.
  intros Ha Hb Hbs. rewrite wrap64_small in Hbs by (unfold is_u64; lia).
  replace (b + 1 - (a + 1)) with (b - a) in Hbs by lia.
  pose proof (sorted_numbers _ _ _ Hbs) as Hs. apply (f_equal length) in Hbs as Hlen.
  rewrite length_fmap, length_seqZ in Hlen.
  unfold spans, Stats.new. pose proof (Permutation_length (merge_sort_Permutation Stats.by_number bs)) as Hp.
  destruct (merge_sort Stats.by_number bs) as [|first rest] eqn:Hm; [cbn in Hp; lia|]. cbn [fst snd].
  cbn -[Z.of_nat List.last length seqZ].
  split; [|split].
  - rewrite Hp, Hlen, Z2Nat.id by lia. done.
  - rewrite seqZ_cons in Hs by lia. injection Hs as Hf _. rewrite Hf. rewrite wrap64_small by (unfold is_u64; lia). lia.
  - rewrite <- List_last_fmap, Hs, seqZ_last by lia. lia.
Qed.

(** ** What the statistics are, written out *)

Definition zsum (l : list Z) : Z := foldr Z.add 0 l.

(** A quotient that is zero without a count. *)
Definition average (total count q : Z) : Prop := (count = 0 -> q = 0) /\ (count <> 0 -> q = total / count).

Definition averages (s : Stats.ExecutionStats) : Prop :=
  average (Stats.total_instruction_count s) (Stats.nb_blocks s) (Stats.cycles_per_block s) /\
  average (Stats.total_instruction_count s) (Stats.nb_transactions s) (Stats.cycles_per_transaction s) /\
  average (Stats.nb_transactions s) (Stats.nb_blocks s) (Stats.transactions_per_block s) /\
  average (Stats.eth_gas_used s) (Stats.nb_blocks s) (Stats.gas_used_per_block s) /\
  average (Stats.eth_gas_used s) (Stats.nb_transactions s) (Stats.gas_used_per_transaction s).

(** The counters of the report, by the names they are tracked under. *)
Definition tracked : list ((Stats.ExecutionStats -> Z) * string) :=
  [(Stats.oracle_verify_instruction_count, "oracle-verify"); (Stats.derivation_instruction_count, "payload-derivation");
   (Stats.block_execution_instruction_count, "block-execution");
   (Stats.blob_verification_instruction_count, "blob-verification");
   (Stats.bn_pair_cycles, "precompile-bn-pair"); (Stats.bn_add_cycles, "precompile-bn-add");
   (Stats.bn_mul_cycles, "precompile-bn-mul"); (Stats.kzg_eval_cycles, "precompile-kzg-eval");
   (Stats.ec_recover_cycles, "precompile-ec-recover"); (Stats.p256_verify_cycles, "precompile-p256-verify")]%string.

(** The statistics of one execution over some blocks. *)
Definition states_of (blocks : list BlockInfo) (report : ExecutionReport) (s : Stats.ExecutionStats) : Prop :=
  Stats.nb_blocks s = Z.of_nat (length blocks) /\
  Stats.nb_transactions s = wrap64 (zsum (transaction_count <$> blocks)) /\
  Stats.eth_gas_used s = wrap64 (zsum (gas_used <$> blocks)) /\
  Stats.l1_fees s = zsum (total_l1_fees <$> blocks) mod 2 ^ 128 /\
  Stats.total_tx_fees s = zsum (total_tx_fees <$> blocks) mod 2 ^ 128 /\
  Stats.total_instruction_count s = ValidityTypes.total_instruction_count report /\
  Stats.total_sp1_gas s = default 0 (gas report) /\
  Forall (fun '(f, key) => f s = default 0 (cycle_tracker report key)) tracked /\ averages s.

(** The sums over several executions, field by field. *)
Definition summed : list (Stats.ExecutionStats -> Z) :=
  [Stats.total_instruction_count; Stats.total_sp1_gas; Stats.nb_blocks; Stats.nb_transactions; Stats.eth_gas_used] ++
  tracked.*1.
Definition totals_of (sts : list Stats.ExecutionStats) (s : Stats.ExecutionStats) : Prop :=
  Forall (fun f => f s = wrap64 (zsum (f <$> sts))) summed /\ averages s /\
  Stats.l1_fees s = 0 /\ Stats.total_tx_fees s = 0.

Lemma zsum_perm l l' : l ≡ₚ l' -> zsum l = zsum l'.
Proof. unfold zsum. induction 1; cbn; congruence || lia. Qed.

Lemma foldl_mod m l a : 0 < m -> foldl (fun acc x => (acc + x) mod m) (a mod m) l = (a + zsum l) mod m.
Proof.
  intros Hm. revert a. induction l as [|x l IH]; intros a; cbn [foldl]; [unfold zsum; cbn; by rewrite Z.add_0_r|].
  rewrite Z.add_mod_idemp_l by lia. rewrite IH. change (zsum (x :: l)) with (x + zsum l). f_equal. lia.
Qed.

Lemma sum_u64_zsum l : Stats.sum_u64 l = wrap64 (zsum l).
Proof. exact (foldl_mod (2 ^ 64) l 0 ltac:(lia)). Qed.
Lemma sum_u128_zsum l : sum_u128 l = zsum l mod 2 ^ 128.
Proof. exact (foldl_mod (2 ^ 128) l 0 ltac:(lia)). Qed.

Lemma safe_div_average a b : average a b (Stats.safe_div a b).
Proof. unfold average, Stats.safe_div. by destruct (Z.eqb_spec b 0). Qed.

Lemma new_states blocks report : blocks <> [] -> states_of blocks report (Stats.new 0 blocks report 0 0).
Proof.
  intros Hne. unfold Stats.new. pose proof (merge_sort_Permutation Stats.by_number blocks) as Hp.
  destruct (merge_sort Stats.by_number blocks) as [|first rest] eqn:Hm.
  { by apply Permutation_nil_l in Hp. }
  remember (first :: rest) as sorted eqn:Hsorted. clear Hsorted Hm.
  unfold states_of, averages. cbn -[Stats.sum_u64 sum_u128].
  assert (Hz : forall f, zsum (f <$> sorted) = zsum (f <$> blocks)) by (intros f; apply zsum_perm; by rewrite Hp).
  rewrite !sum_u64_zsum, !sum_u128_zsum, (Permutation_length Hp), !Hz.
  split_and!; try done; try apply safe_div_average. by repeat constructor.
Qed.

(** A field that is added up ends as the sum. *)
Lemma fold_field (f : Stats.ExecutionStats -> Z) sts a :
  (forall a st, f (Stats.accumulate a st).1.1 = wrap64 (f a.1.1 + f st)) -> is_u64 (f a.1.1) ->
  f (foldl Stats.accumulate a sts).1.1 = wrap64 (f a.1.1 + zsum (f <$> sts)).
Proof.
  intros Hf. revert a. induction sts as [|st sts IH]; intros a Ha; cbn [foldl fmap list_fmap].
  { unfold zsum. cbn. by rewrite Z.add_0_r, wrap64_small. }
  rewrite IH, Hf by (rewrite Hf; unfold wrap64, is_u64, u64_max;
    pose proof (Z.mod_pos_bound (f a.1.1 + f st) (2 ^ 64) ltac:(lia)); lia).
  change (zsum (f st :: (f <$> sts))) with (f st + zsum (f <$> sts)).
  unfold wrap64. rewrite Z.add_mod_idemp_l by done. f_equal. lia.
Qed.

Lemma fold_fees sts a :
  Stats.l1_fees (foldl Stats.accumulate a sts).1.1 = Stats.l1_fees a.1.1 /\
  Stats.total_tx_fees (foldl Stats.accumulate a sts).1.1 = Stats.total_tx_fees a.1.1.
Proof.
  revert a. induction sts as [|st sts IH]; intros a; cbn [foldl]; [done|].
  destruct (IH (Stats.accumulate a st)) as [-> ->]. by destruct a as [[s from] to].
Qed.

Lemma aggregate_totals sts : totals_of sts (Stats.aggregate_execution_stats sts 0 0).
Proof.
  assert (Hfield : Forall (fun f => f (foldl Stats.accumulate (Stats.default_stats, u64_max, 0) sts).1.1 =
    wrap64 (zsum (f <$> sts))) summed).
  { repeat first [constructor; [rewrite fold_field; [done|by intros [[s from] to] st|by split]|] | by constructor]. }
  destruct (fold_fees sts (Stats.default_stats, u64_max, 0)) as [Hl1 Htx].
  unfold totals_of, averages, Stats.aggregate_execution_stats.
  destruct (foldl Stats.accumulate _ sts) as [[s from] to]. cbn [fst snd] in *.
  split; [|split_and!; try done; apply safe_div_average].
  repeat (apply Forall_cons in Hfield as [? Hfield]; constructor; [done|]). done.
Qed.

Lemma fold_nb_blocks sts s from to :
  Stats.nb_blocks (foldl Stats.accumulate (s, from, to) sts).1.1 =
  foldl (fun acc x => wrap64 (acc + x)) (Stats.nb_blocks s) (Stats.nb_blocks <$> sts).
Proof. revert s from to. induction sts as [|x sts IH]; intros s from to; [done|]. apply IH. Qed.

(** Along a chain the block counts add up, and the bounds are its ends. *)
Lemma fold_chain ranges sts a b s from to :
  Forall2 spans ranges sts -> chain a ranges b -> 0 <= Stats.nb_blocks s ->
  0 <= a -> Stats.nb_blocks s + (b - a) <= u64_max ->
  exists s', foldl Stats.accumulate (s, from, to) sts =
      (s', if decide (ranges = []) then from else Z.min from a, if decide (ranges = []) then to else Z.max to b) /\
    Stats.nb_blocks s' = Stats.nb_blocks s + (b - a).
Proof.
  intros Hf. revert a s from to. induction Hf as [|[x y] st ranges sts (Hn & Hs & He) _ IH]; intros a s from to Hc Hs0 Ha Hb.
  { cbn in Hc. subst b. exists s. split; [by case_decide|]. lia. }
  cbn in Hc, Hn, Hs, He. destruct Hc as (-> & Hxy & Hc). pose proof (chain_le _ _ _ Hc) as Hle. cbn [foldl].
  destruct (Stats.accumulate (s, from, to) st) as [[s1 f1] t1] eqn:Hacc. unfold Stats.accumulate in Hacc.
  injection Hacc as Hs1 <- <-.
  assert (Hn1 : Stats.nb_blocks s1 = Stats.nb_blocks s + (y - a)).
  { rewrite <- Hs1. cbn. rewrite Hn. apply wrap64_small. unfold is_u64. lia. }
  destruct (IH y s1 (Z.min from (Stats.batch_start st)) (Z.max to (Stats.batch_end st))) as (s' & -> & Hn'); [done|lia..|].
  exists s'. split; [|lia]. rewrite Hs, He. destruct (decide (_ :: _ = [])) as [[=]|_].
  case_decide as Hr; [subst ranges; cbn in Hc; by rewrite Hc|].
  destruct ranges as [|[u v] ranges]; [done|]. cbn in Hc. destruct Hc as (-> & Huv & Hc).
  pose proof (chain_le _ _ _ Hc). f_equal; [f_equal|]; lia.
Qed.

(** ** Splitting *)

(** Whatever the safe heads are, the pieces follow each other from the start. *)
Lemma safe_heads_prefix fuel heads a b m l :
  0 < m -> 0 <= a -> b + m <= u64_max -> b - a <= Z.of_nat fuel ->
  BlockRange.split_by_safe_heads fuel heads a b m = Some l -> exists x, chain a l x /\ (x = a \/ x <= b).
Proof.
  intros Hm. revert a l. induction heads as [|h heads IH]; intros a l Ha Hb Hf; cbn.
  { intros [= <-]. exists a. cbn. auto. }
  destruct (Z.ltb_spec a h), (Z.ltb_spec a b); cbn [andb]; try by apply IH.
  intros (here & Hh & (later & Hl & Hk)%bind_Some)%bind_Some. injection Hk as <-.
  destruct (BlockRange.split_upto_chain fuel a (Z.min b h) m) as (here' & Hh' & Hc & _); [lia..|].
  rewrite Hh' in Hh. injection Hh as <-.
  destruct (decide (b <= h)).
  - rewrite BlockRange.split_done in Hl by done. injection Hl as <-. rewrite app_nil_r.
    exists (Z.min b h). split; [done|]. lia.
  - apply IH in Hl as (x & Hx & Hle); [|lia..]. exists x. rewrite chain_app. split; [|lia].
    exists (Z.min b h). split; [done|]. by replace (Z.min b h) with h by lia.
Qed.

(** ** The estimate *)

Lemma Forall2_zip {A B C} (P : A * B -> C -> Prop) xs ys zs :
  length xs = length ys -> Forall2 P (zip xs ys) zs -> Forall2 (fun y z => exists x, P (x, y) z) ys zs.
Proof.
  revert ys zs. induction xs as [|x xs IH]; intros [|y ys] zs Hl Hf; try done; inversion Hf; subst; constructor; eauto.
Qed.

Section estimate.
Context `{HeaderHash, Hashing, Machine} (rollup_config : option Z).
#[local] Hint Resolve guar_call guar_header guar_resolve guar_output_root : guar.

Lemma guar_safe_db : guar still is_safe_db_activated.
Proof. unfold is_safe_db_activated. guar_tac. Qed.

Lemma guar_search_safe_head fuel e low high fv : guar still (search_safe_head fuel e low high fv).
Proof.
  revert low high fv. induction fuel as [|fuel IH]; intros low high fv; cbn [search_safe_head]; destruct (_ <=? _); try done.
  apply guar_bind; [auto with guar|]. intros r. destruct (_ <=? _); apply IH.
Qed.
#[local] Hint Resolve guar_safe_db guar_search_safe_head : guar.

Lemma guar_safe_l1_block sel e : guar still (get_safe_l1_block_for_l2_block sel e).
Proof. unfold get_safe_l1_block_for_l2_block. guar_tac. Qed.
#[local] Hint Resolve guar_safe_l1_block : guar.

Lemma guar_choose_split args sel a b : guar still (choose_split args sel a b).
Proof.
  unfold choose_split, split_range_based_on_safe_heads. guar_tac.
  apply guar_try_each. intros x. apply guar_expect. guar_tac.
Qed.

Lemma guar_validate sel : guar still (validate_l1_selection sel).
Proof. unfold validate_l1_selection. guar_tac. Qed.

Lemma guar_l2_header b : guar still (get_l2_header b).
Proof. unfold get_l2_header. guar_tac. Qed.
#[local] Hint Resolve guar_l2_header : guar.

Lemma guar_max_provable sel : guar still (get_max_provable_l2_block_number sel).
Proof. unfold get_max_provable_l2_block_number, get_l2_safe_head_from_l1_block_number. guar_tac. Qed.

Lemma guar_search_timestamp (get : Z -> Fetch (option Block)) fuel t low high :
  (forall i, guar still (get i)) -> guar still (search_timestamp get fuel t low high).
Proof.
  intros Hg. revert low high. induction fuel as [|fuel IH]; intros low high; cbn [search_timestamp];
    destruct (_ <=? _); try done; (apply guar_bind; [apply Hg|]); intros [b|]; try done.
  destruct (_ ?= _); [done|apply IH..].
Qed.

Lemma guar_host_fetch sel a b h fallback : guar still (host_fetch rollup_config sel a b h fallback).
Proof.
  unfold host_fetch, calculate_safe_l1_head, get_l1_head, get_host_args, get_l2_execution_output,
    l2_to_l1_message_passer_storage_root, find_l1_block_by_timestamp, find_block_by_timestamp.
  guar_tac. apply guar_search_timestamp. intros i. apply guar_call.
Qed.

(** A split that is found follows the range from its start. *)
Lemma split_prefix args sel n a b s l :
  0 < effective_batch_size (host args) -> 0 <= a -> b + effective_batch_size (host args) <= u64_max ->
  run (choose_split args sel a b) n = (s, Ok l) -> exists x, chain a l x /\ (x = a \/ x <= b).
Proof.
  set (m := effective_batch_size (host args)). intros Hm Ha Hb.
  assert (Hbasic : forall n s : Rpc, run (done (unwrap (BlockRange.split_range_basic (split_fuel a b) a b m))) n = (s, Ok l) ->
    exists x, chain a l x /\ (x = a \/ x <= b)).
  { intros n1 s1 Hrun. injection Hrun as _ Hl.
    destruct (decide (a <= b)) as [Hle|Hgt].
    - destruct (BlockRange.split_range_basic_chain (split_fuel a b) a b m) as (l' & Hl' & Hc & _);
        [done|lia|done|unfold split_fuel; lia|]. rewrite Hl' in Hl. injection Hl as <-. exists b. split; [done|lia].
    - unfold split_fuel in Hl. replace (Z.to_nat (b - a)) with 0%nat in Hl by lia. cbn in Hl.
      rewrite (proj2 (Z.ltb_ge a b)) in Hl by lia. injection Hl as <-. exists a. cbn. auto. }
  unfold choose_split. fold m. destruct (no_safe_head_split args); [apply Hbasic|].
  intros (s1 & [|] & _ & Hrun)%run_bind_Ok; [|by eapply Hbasic].
  unfold split_range_based_on_safe_heads in Hrun.
  apply run_bind_Ok in Hrun as (s2 & out & _ & Hrun). apply run_bind_Ok in Hrun as (s3 & hd & _ & Hrun).
  apply run_bind_Ok in Hrun as (s4 & heads & _ & Hrun). injection Hrun as _ Hl.
  destruct (BlockRange.split_by_safe_heads _ _ a b m) as [l'|] eqn:Hs; [|done]. injection Hl as <-.
  eapply safe_heads_prefix; [exact Hm|done|done| |exact Hs]. unfold split_fuel. lia.
Qed.

(** The inputs do not touch the report. *)
Lemma guar_stdin chain_id cache_enabled job :
  guar (fun w w' => report_file w' = report_file w) (stdin_of chain_id cache_enabled job).
Proof.
  unfold stdin_of, generate_stdin, expect.
  assert (Hsave : forall a b s, guar (fun w w' => report_file w' = report_file w)
    (act (save_stdin_to_cache chain_id a b s))).
  { intros a b s. apply guar_act. intros w. unfold save_stdin_to_cache. by destruct (writable w). }
  assert (Hload : guar (fun w w' => report_file w' = report_file w)
    (act (fun w => (w, load_stdin_from_cache chain_id job.2.1 job.2.2 w)))) by (by apply guar_act).
  guar_tac; auto.
Qed.
(** A range executed to the claim that the nodes confirm, and its statistics: as
    the code makes them, and as they are. *)
Definition confirmed (n : Rpc) (r : Range) (stats : Stats.ExecutionStats) : Prop :=
  exists stdin x boot blocks, zkvm_execute stdin = Ok x /\ exit_code x = 0 /\
    deserialize_boot (public_values x) = Some boot /\ l2BlockNumber boot = r.2 /\
    run (get_l2_output_root r.1) n = (n, Ok (l2PreRoot boot)) /\
    run (get_l2_output_root r.2) n = (n, Ok (l2PostRoot boot)) /\
    run (get_l2_block_data_range r.1 r.2) n = (n, Ok blocks) /\
    stats = Stats.new 0 blocks (report x) 0 0.

Definition stated (n : Rpc) (r : Range) (stats : Stats.ExecutionStats) : Prop :=
  exists stdin x boot blocks, zkvm_execute stdin = Ok x /\ exit_code x = 0 /\
    deserialize_boot (public_values x) = Some boot /\ l2BlockNumber boot = r.2 /\
    run (get_l2_output_root r.1) n = (n, Ok (l2PreRoot boot)) /\
    run (get_l2_output_root r.2) n = (n, Ok (l2PostRoot boot)) /\
    run (get_l2_block_data_range r.1 r.2) n = (n, Ok blocks) /\
    states_of blocks (report x) stats /\ spans r stats.

Lemma execution_confirmed n r e stdin stats :
  run (expected_of r) n = (n, Ok e) -> execution_stats (stdin, e) = Ok stats -> confirmed n r stats.
Proof.
  unfold expected_of. intros (n1 & blocks & Hb & (n2 & root1 & H1' & (n3 & root2 & H2' & He)%run_bind_Ok)%run_bind_Ok)%run_bind_Ok.
  injection He as _ <-.
  pose proof (run_still _ n (guar_data_range r.1 r.2)) as Hs1. rewrite Hb in Hs1. cbn in Hs1. subst n1.
  pose proof (run_still _ n (guar_output_root r.1)) as Hs2. rewrite H1' in Hs2. cbn in Hs2. subst n2.
  pose proof (run_still _ n (guar_output_root r.2)) as Hs3. rewrite H2' in Hs3. cbn in Hs3. subst n3.
  unfold execution_stats. cbn [fst snd e_range e_starting_output_root e_output_root e_block_data].
  intros (x & Hx & ([] & Hv & Hk)%outcome_bind_Ok)%outcome_bind_Ok. injection Hk as <-.
  unfold validate_range_execution in Hv.
  destruct (Z.eqb_spec (exit_code x) 0) as [Hexit|]; [|done].
  destruct (deserialize_boot (public_values x)) as [boot|] eqn:Hboot; [|done].
  cbn in Hv. unfold ensure in Hv.
  destruct (Z.eqb_spec (l2BlockNumber boot) r.2); [|done].
  destruct (Z.eqb_spec (l2PreRoot boot) root1) as [<-|]; [|done].
  destruct (Z.eqb_spec (l2PostRoot boot) root2) as [<-|]; [|done].
  by exists stdin, x, boot, blocks.
Qed.

(** What the parallel part leaves: a claim for every range, and a report that
    holds the statistics of each, if it can be read. *)
Lemma execution_rows tag conf schedule host_args ranges chain_id cache_enabled w w' :
  length host_args = length ranges ->
  run (execute_blocks_and_write_stats_csv tag conf schedule host_args ranges chain_id cache_enabled false) w =
    (w', Ok tt) ->
  exists all, Forall2 (confirmed (rpc w)) ranges all /\
    forall rows, read_report (report_file w') = Ok rows -> rows ≡ₚ all.
Proof.
  intros Hlen Hrun. unfold execute_blocks_and_write_stats_csv in Hrun.
  apply run_bind_Ok in Hrun as (w1 & sel0 & Hk & Hrun). injection Hk as <- _.
  apply run_bind_Ok in Hrun as (w2 & expected & He & Hrun).
  rewrite run_lift_still in He by (apply guar_try_each; intros ?; apply guar_expected).
  injection He as <- He.
  assert (Hexp : Forall2 (fun r e => run (expected_of r) (rpc w) = (rpc w, Ok e)) ranges expected).
  { eapply (try_each_still _ _ _ (rpc w)); [apply guar_expected|].
    rewrite (surjective_pairing (run _ _)), He. f_equal.
    apply run_still, guar_try_each. intros; apply guar_expected. }
  apply run_bind_Ok in Hrun as (w3 & [] & Hcreate & Hrun). injection Hcreate as <-.
  apply run_bind_Ok in Hrun as (w4 & stdins & Hstd & Hrun).
  assert (Hfile : report_file w4 = []).
  { assert (Hg : guar (fun w w' => report_file w' = report_file w)
      (try_each (zip host_args ranges) (stdin_of chain_id cache_enabled))).
    { unfold try_each. apply guar_fold. intros acc job. apply guar_bind; [apply guar_stdin|done]. }
    assert (HP : PreOrder (fun w w' : World => report_file w' = report_file w))
      by (split; [done|intros u1 u2 u3 Hu1 Hu2; congruence]).
    pose proof (guar_run _ _ (with_report [] w) Hg) as Hf. rewrite Hstd in Hf. exact Hf. }
  assert (Hstdins : length stdins = length expected).
  { apply (try_each_Ok _ _ (fun _ _ => True)) in Hstd; [|done].
    apply Forall2_length in Hstd. rewrite length_zip_with, Hlen, Nat.min_id in Hstd.
    apply Forall2_length in Hexp. congruence. }
  rewrite run_act, Hfile in Hrun.
  destruct (execute_all schedule false (zip stdins expected) []) as [file o] eqn:Hall. injection Hrun as <- ->.
  apply execute_all_rows in Hall as (all & Hall & Hrows). exists all. split; [|by apply Hrows].
  apply Forall2_zip in Hall; [|done]. clear -Hexp Hall.
  revert all Hall. induction Hexp as [|r e ranges expected Hr _ IH]; intros all Hall.
  - apply Forall2_nil_inv_l in Hall as ->. constructor.
  - apply Forall2_cons_inv_l in Hall as (stats & all' & [stdin Hst] & Hrest & ->).
    constructor; [by eapply execution_confirmed|by apply IH].
Qed.

Lemma confirmed_spans n ranges sts a b :
  Forall2 (confirmed n) ranges sts -> chain a ranges b -> 0 <= a -> b <= u64_max -> Forall2 spans ranges sts.
Proof.
  intros Hf. revert a. induction Hf as [|[x y] st ranges sts Hc _ IH]; intros a Hch Ha Hb; [constructor|].
  cbn in Hch. destruct Hch as (-> & Hxy & Hch). pose proof (chain_le _ _ _ Hch). constructor; [|eapply IH; [done|lia..]].
  destruct Hc as (stdin & e & boot & blocks & _ & _ & _ & _ & _ & _ & Hblocks & ->).
  apply new_spans; [done|lia|]. by eapply data_range_numbers.
Qed.

Lemma confirmed_stated n ranges sts a b :
  Forall2 (confirmed n) ranges sts -> chain a ranges b -> 0 <= a -> b <= u64_max -> Forall2 (stated n) ranges sts.
Proof.
  intros Hf Hch Ha Hb. pose proof (confirmed_spans _ _ _ _ _ Hf Hch Ha Hb) as Hs.
  revert Hs. clear Ha Hb. revert a Hch. induction Hf as [|[x y] st ranges sts Hc _ IH]; intros a Hch Hs; [constructor|].
  apply Forall2_cons in Hs as [Hsp Hs]. cbn in Hch. destruct Hch as (-> & Hxy & Hch). constructor; [|by eapply IH].
  destruct Hc as (stdin & e & boot & blocks & Hx & He & Hboot & Hn & Hpre & Hpost & Hblocks & ->).
  exists stdin, e, boot, blocks. split_and!; try done; try apply Hsp. apply new_states. intros ->.
  destruct Hsp as [Hnb _]. cbn in Hnb. lia.
Qed.

(** The range the arguments ask for. *)
Definition asked_range (args : HostExecutorArgs) (a b : Z) : Prop :=
  (rolling args = false -> (forall x, start args = Some x -> a = x) /\ (forall x, end_ args = Some x -> b = x)) /\
  (rolling args = true -> b - a = default_range args).

Lemma range_asked args max a b :
  0 <= default_range args -> (forall x, start args = Some x -> 0 <= x) ->
  (if rolling args then BlockRange.get_rolling_block_range max (default_range args)
   else BlockRange.get_validated_block_range max (start args) (end_ args) (default_range args)) = Ok (a, b) ->
  asked_range args a b /\ 0 <= a <= b /\ b <= max.
Proof.
  intros Hd Hs. unfold asked_range. destruct (rolling args).
  - unfold BlockRange.get_rolling_block_range. intros (x & Hx%with_context_Ok & Hk)%outcome_bind_Ok.
    apply checked_sub_Some in Hx. injection Hk as <- <-. split_and!; [done| |lia..]. intros _. lia.
  - unfold BlockRange.get_validated_block_range. intros (e & He & Hk)%outcome_bind_Ok.
    set (f := match start args with Some s => s | None => _ end) in Hk.
    destruct (Z.leb_spec e f) as [|Hlt]; [done|]. injection Hk as <- <-.
    assert (Hf : 0 <= f) by (unfold f; destruct (start args); [by apply Hs|lia]).
    assert (He' : e <= max /\ forall x, end_ args = Some x -> e = x).
    { destruct (end_ args) as [x|]; [|injection He as <-; split; [lia|done]].
      destruct (Z.ltb_spec max x); [done|]. injection He as <-. split; [lia|]. by intros ? [= <-]. }
    split_and!; [|done|lia|lia|tauto]. intros _. split; [|tauto]. unfold f. intros x ->. done.
Qed.

(** Rows in any order make one estimate, of all the blocks of the chain. *)
Lemma rows_estimate ranges sts rows a x :
  rows ≡ₚ sts -> Forall2 spans ranges sts -> chain a ranges x -> 0 <= a -> x <= u64_max ->
  let stats := Stats.aggregate_execution_stats rows 0 0 in
  stats = Stats.aggregate_execution_stats sts 0 0 /\
  Stats.sum_u64 (Stats.nb_blocks <$> rows) = x - a /\ Stats.nb_blocks stats = x - a /\
  (a < x -> Stats.batch_start stats = a /\ Stats.batch_end stats = x).
Proof.
  intros Hperm Hsp Hch Ha Hx stats. subst stats. rewrite (Stats.aggregate_perm rows sts) by done. split; [done|].
  pose proof (fold_nb_blocks rows Stats.default_stats u64_max 0) as Hn. cbn [Stats.nb_blocks Stats.default_stats] in Hn.
  rewrite (Stats.accumulate_perm rows sts) in Hn by done.
  pose proof (chain_le _ _ _ Hch) as Hle.
  destruct (fold_chain ranges sts a x Stats.default_stats u64_max 0 Hsp Hch) as (s' & Hfold & Hs');
    [cbn; lia..|]. cbn in Hs'. unfold Stats.aggregate_execution_stats. rewrite Hfold in Hn |- *. cbn.
  unfold Stats.sum_u64. rewrite <- Hn. cbn. split_and!; [lia|lia|]. intros Hlt.
  case_decide as Hr; [subst ranges; cbn in Hch; lia|]. lia.
Qed.

(** C24: An estimate that is printed covers the blocks asked for. Whatever order the
    executions end in, the ranges follow each other from the first block to the
    last, each was executed by the range program to the output roots the nodes
    have for its ends, with the statistics its report and its blocks give, and
    every counter of the estimate is the [u64] sum of those of the ranges, every
    average the quotient of its sums; the fees are left at zero. *)
Theorem estimate_covers_range tag conf chain_id schedule args w w' stats :
  0 < effective_batch_size (host args) -> 0 <= default_range (host args) ->
  (forall x, start (host args) = Some x -> 0 <= x) ->
  (forall sel s k, run (get_max_provable_l2_block_number sel) (rpc w) = (s, Ok k) ->
     k + effective_batch_size (host args) <= u64_max) ->
  run (main rollup_config tag conf chain_id schedule args) w = (w', Ok (Some stats)) ->
  exists l2_start l2_end ranges sts, asked_range (host args) l2_start l2_end /\
    chain l2_start ranges l2_end /\ Forall2 (stated (rpc w)) ranges sts /\ totals_of sts stats /\
    Stats.nb_blocks stats = l2_end - l2_start /\
    (l2_start < l2_end -> Stats.batch_start stats = l2_start /\ Stats.batch_end stats = l2_end).
Proof.
  intros Hm Hd Hst Hmax Hrun. unfold main in Hrun.
  apply run_bind_Ok in Hrun as (w1 & sel & Hk & Hrun). injection Hk as <- _.
  apply run_bind_Ok in Hrun as (w2 & cid & Hk & Hrun). injection Hk as <- _.
  apply run_bind_Ok in Hrun as (w3 & [] & Hk & Hrun). rewrite run_lift_still in Hk by apply guar_validate.
  injection Hk as <- _.
  apply run_bind_Ok in Hrun as (w4 & max & Hk & Hrun). rewrite run_lift_still in Hk by apply guar_max_provable.
  injection Hk as <- Hk. specialize (Hmax sel (run (get_max_provable_l2_block_number sel) (rpc w)).1 max).
  rewrite <- Hk, <- surjective_pairing in Hmax. specialize (Hmax eq_refl). clear Hk.
  apply run_bind_Ok in Hrun as (w5 & [a b] & Hk & Hrun). injection Hk as <- Hr.
  apply range_asked in Hr as (Hask & Hab & Hb); [|done..].
  apply run_bind_Ok in Hrun as (w6 & ranges & Hk & Hrun). rewrite run_lift_still in Hk by apply guar_choose_split.
  injection Hk as <- Hsplit.
  destruct (split_prefix args sel (rpc w) a b (run (choose_split args sel a b) (rpc w)).1 ranges) as (x & Hch & Hx);
    [done|lia|lia|by rewrite (surjective_pairing (run _ _)), Hsplit|].
  apply run_bind_Ok in Hrun as (w7 & hargs & Hk & Hrun).
  rewrite run_lift_still in Hk by (apply guar_try_each; intros ?; apply guar_expect, guar_host_fetch).
  injection Hk as <- Hargs.
  assert (Hlen : length hargs = length ranges).
  { symmetry. eapply Forall2_length, (try_each_Ok _ _ (fun _ _ => True) (rpc w)); [|done].
    rewrite (surjective_pairing (run _ _)), Hargs. done. }
  apply run_bind_Ok in Hrun as (w8 & [] & Hexec & Hrun).
  destruct (log_only (host args)); cbn [negb] in Hrun; [by injection Hrun|].
  apply execution_rows in Hexec as (all & Hall & Hrows); [|done].
  apply run_bind_Ok in Hrun as (w9 & lines & Hk & Hrun). injection Hk as <- <-.
  apply run_bind_Ok in Hrun as (w10 & rows & Hk & Hrun). injection Hk as <- Hread.
  apply run_bind_Ok in Hrun as (w11 & [] & Hk & Hrun). injection Hk as <- Hens. injection Hrun as _ <-.
  assert (Hxu : x <= u64_max) by lia. pose proof (confirmed_spans _ _ _ _ _ Hall Hch ltac:(lia) Hxu) as Hsp.
  destruct (rows_estimate _ _ _ _ _ (Hrows _ Hread) Hsp Hch ltac:(lia) Hxu) as (Heq & Hsum & Hnb & Hbounds).
  unfold ensure in Hens. rewrite Hsum, wrap64_small in Hens by (unfold is_u64; lia).
  destruct (Z.eqb_spec (x - a) (b - a)); [|done]. assert (x = b) as -> by lia.
  exists a, b, ranges, all. split_and!; [done|done| | |done|exact Hbounds].
  - apply (confirmed_stated _ _ _ _ _ Hall Hch); lia.
  - rewrite Heq. apply aggregate_totals.
Qed.
End estimate.

(** ** Samples *)

(** The input of a range names its ends, and its execution commits them. *)
#[local] Instance sample_estimator_hash : HeaderHash := sample_hash.
#[local] Instance sample_roots : Hashing := {| EMPTY_ROOT_HASH := 0; keccak_output _ _ block_hash := block_hash |}.
#[local] Instance sample_machine : Machine := {|
  host_run args := Ok (1000 * claimed_l2_block_number args + (agreed_l2_head_hash args - 1000));
  get_sp1_stdin witness := Ok witness;
  zkvm_execute stdin := Ok {| public_values := stdin; exit_code := 0;
    report := {| ValidityTypes.total_instruction_count := 500; gas := Some 7; cycle_tracker _ := None |} |};
  deserialize_boot pv := Some {| l1Head := 0; l2PreRoot := 1000 + pv mod 1000; l2PostRoot := 1000 + pv / 1000;
    l2BlockNumber := pv / 1000; rollupConfigHash := 13 |} |}.

Definition sample_world : World := {| rpc := sample_rpc; cache := ∅; writable := true; report_file := [] |}.
Definition sample_args : CostEstimatorArgs := {|
  host := {| start := Some 100; end_ := Some 130; batch_size := Some 12; use_cache := true; rolling := false;
             default_range := 5; safe_db_fallback := false; log_only := false |};
  no_safe_head_split := true; arg_l1_head := Some 1060 |}.

Notation sample_estimate schedule :=
  (run (main (Some 42220) NotPresent NotPresent (Ok 42220) schedule sample_args) sample_world).

(** Every block of the sample has a number up to 180. *)
Lemma sample_provable sel s k : run (get_max_provable_l2_block_number sel) sample_rpc = (s, Ok k) -> k <= 200.
Proof.
  assert (Hl1 : forall b s h, run (get_l1_header b) sample_rpc = (s, Ok h) -> AggregationProgram.number h <= 100).
  { intros b s1 h Hh. cbn in Hh.
    set (i := match b with Finalized => 90 | Safe => 95 | Latest => 100 | Number i => i | Hash h => h - 1000 end) in Hh.
    destruct (0 <=? i); cbn [andb] in Hh; [|by injection Hh]. destruct (Z.leb_spec i 100); [|by injection Hh].
    cbn in Hh. injection Hh as _ <-. done. }
  unfold get_max_provable_l2_block_number. destruct (is_default sel); [cbn; intros [= _ <-]; lia|].
  intros (s1 & h & Hh & Hk)%run_bind_Ok.
  pose proof (run_still _ sample_rpc (guar_resolve sel)) as Hs1. rewrite Hh in Hs1. cbn in Hs1. subst s1.
  injection Hk as _ <-.
  enough (AggregationProgram.number h <= 100) by lia. unfold resolve_selected_l1_header in Hh.
  apply run_bind_Ok in Hh as (s2 & base & Hbase & Hh).
  pose proof (run_still _ sample_rpc (guar_header (to_block_id (tag sel)))) as Hst. rewrite Hbase in Hst. cbn in Hst. subst s2.
  apply Hl1 in Hbase. destruct (confirmations sel =? 0); [by injection Hh as <-|].
  destruct (_ =? AggregationProgram.number base); [by injection Hh as <-|]. by apply Hl1 in Hh.
Qed.

(** Three ranges, the last one ends first. *)
Lemma sample_estimated : exists w' stats, sample_estimate [2; 2; 0; 0]%nat = (w', Ok (Some stats)).
Proof. eexists _, _. vm_compute. reflexivity. Qed.

Lemma estimate_covers_range_witness :
  exists w' stats, sample_estimate [2; 2; 0; 0]%nat = (w', Ok (Some stats)) /\
    Stats.nb_blocks stats = 30 /\ Stats.batch_start stats = 100 /\ Stats.batch_end stats = 130.
Proof.
  destruct sample_estimated as (w' & stats & Hrun). exists w', stats. split; [exact Hrun|].
  destruct (estimate_covers_range (Some 42220) NotPresent NotPresent (Ok 42220) [2; 2; 0; 0]%nat sample_args sample_world
    w' stats) as (a & b & ranges & sts & [Hask _] & _ & _ & _ & Hn & Hb); [| | | |exact Hrun|].
  - cbn. lia.
  - cbn. lia.
  - intros x [= <-]. lia.
  - intros sel s k Hk%sample_provable. cbn. unfold u64_max. lia.
  - destruct (Hask eq_refl) as [Ha He]. rewrite (Ha 100 eq_refl) in *. rewrite (He 130 eq_refl) in *.
    split; [exact Hn|]. apply Hb. lia.
Defined.

(** Two executions that look at the empty file together both write the column
    names, and the report cannot be read. *)
Example two_headers : (sample_estimate [0; 1; 0; 1]%nat).2 = Err "CSV deserialize error".
Proof. vm_compute. reflexivity. Qed.

(** In the order of the ranges, and with the inputs found in the cache. *)
Example cached_estimate :
  (sample_estimate []).2 = (sample_estimate [2; 2; 0; 0]%nat).2 /\
  (run (main (Some 42220) NotPresent NotPresent (Ok 42220) [] sample_args)
     (with_rpc sample_rpc (sample_estimate []).1)).2 = (sample_estimate []).2.
Proof. vm_compute. done. Qed.
