(* ===== verification/Precompiles.v ===== *)
(** * The precompiles of the range program

    [utils/client/src/precompiles]: the provider that looks precompiles up and
    runs them, with lines printed around the accelerated ones that the zkVM
    counts cycles between, and the verification of KZG openings. revm's table
    of precompiles, SP1's report and kzg-rs are parameters. *)

From S2P Require Import Prelude.
From S2P Require Import ValidityRanges.
From S2P Require Import RequestDb.
From S2P Require Import ValidityTypes.
From S2P Require Import ProofRequester.
From S2P Require Import Estimator.
From S2P Require Import EstimatorLaws.

(** ** Names *)

Module cycle_tracker.
Definition PREFIX : string := "precompile-".
Module names.
Definition BN_ADD : string := "bn-add".
Definition BN_MUL : string := "bn-mul".
Definition BN_PAIR : string := "bn-pair".
Definition EC_RECOVER : string := "ec-recover".
Definition P256_VERIFY : string := "p256-verify".
Definition KZG_EVAL : string := "kzg-eval".
End names.
Module keys.
Definition BN_ADD : string := "precompile-bn-add".
Definition BN_MUL : string := "precompile-bn-mul".
Definition BN_PAIR : string := "precompile-bn-pair".
Definition EC_RECOVER : string := "precompile-ec-recover".
Definition P256_VERIFY : string := "precompile-p256-verify".
Definition KZG_EVAL : string := "precompile-kzg-eval".
End keys.
End cycle_tracker.

Inductive PrecompileId :=
| Bn254Add | Bn254Mul | Bn254Pairing | EcRec | P256Verify | KzgPointEvaluation
| OtherId (n : Z).
#[global] Instance PrecompileId_eq_dec : EqDecision PrecompileId.
Proof. solve_decision. Defined.

Definition get_precompile_tracker_name (id : PrecompileId) : option string :=
  match id with
  | Bn254Add => Some cycle_tracker.names.BN_ADD
  | Bn254Mul => Some cycle_tracker.names.BN_MUL
  | Bn254Pairing => Some cycle_tracker.names.BN_PAIR
  | EcRec => Some cycle_tracker.names.EC_RECOVER
  | P256Verify => Some cycle_tracker.names.P256_VERIFY
  | KzgPointEvaluation => Some cycle_tracker.names.KZG_EVAL
  | OtherId _ => None
  end.

(** ** revm *)

Record PrecompileHalt := { is_oog : bool; halt_to_string : string }.
Record PrecompileOutput := { halt_reason : option PrecompileHalt; other_output : Z }.

(** [execute] gives its result, or a fatal error, and the cycles the zkVM counts
    for it. *)
Record Precompile := {
  id : PrecompileId;
  execute : list Z -> Z -> Z -> (PrecompileOutput + string) * Z;
}.

Class Revm := {
  op_precompiles : Z -> gmap Z Precompile;  (** of a hard fork *)
  precompile_output_to_interpreter_result : PrecompileOutput -> Z -> Z;
}.

Inductive CallInput := SharedBuffer (range : Z * Z) | Bytes (bytes : list Z).
Record CallInputs := {
  input : CallInput;
  gas_limit : Z;
  reservoir : Z;
  bytecode_address : Z;
  target_address : Z;
}.

(** What a call reads and writes of the EVM's context. *)
Record Local := {
  shared_memory_buffer_slice : Z * Z -> option (list Z);
  depth : Z;
  precompile_error_context : option string;
}.
Definition set_precompile_error_context (msg : string) (l : Local) : Local :=
  {| shared_memory_buffer_slice := shared_memory_buffer_slice l; depth := depth l;
     precompile_error_context := Some msg |}.

(** The context, with the lines printed so far, each with the cycle it was
    printed at. *)
Record Context := { local : Local; clock : Z; stdout : list (string * Z) }.
Definition println (line : string) (c : Context) : Context :=
  {| local := local c; clock := clock c; stdout := stdout c ++ [(line, clock c)] |}.
Definition pass (cycles : Z) (c : Context) : Context :=
  {| local := local c; clock := clock c + cycles; stdout := stdout c |}.

(** ** The provider *)

Record OpZkvmPrecompiles := { inner : gmap Z Precompile; spec : Z }.

Section provider.
Context `{Revm}.

Definition new_with_spec (spec : Z) : OpZkvmPrecompiles :=
  {| inner := op_precompiles spec; spec := spec |}.

Definition set_spec (new_spec : Z) (p : OpZkvmPrecompiles) : OpZkvmPrecompiles * bool :=
  if new_spec =? spec p then (p, false) else (new_with_spec new_spec, true).

Definition start_line (key : string) : string := "cycle-tracker-report-start: " ++ key.
Definition end_line (key : string) : string := "cycle-tracker-report-end: " ++ key.

Definition print_tracked (line : string -> string) (tracker_name : option string) : M Context unit :=
  match tracker_name with
  | Some name => modify (println (line (cycle_tracker.PREFIX ++ name)%string))
  | None => mret tt
  end.

Definition input_bytes (i : CallInput) (c : Context) : list Z :=
  match i with
  | SharedBuffer range => default [] (shared_memory_buffer_slice (local c) range)
  | Bytes bytes => bytes
  end.

(** [zkvm]: compiled for the zkVM ([target_os]). *)
Definition run (zkvm : bool) (p : OpZkvmPrecompiles) (inputs : CallInputs) : M Context (option Z) :=
  match inner p !! bytecode_address inputs with
  | None => mret None
  | Some precompile =>
      let tracker_name := if zkvm then get_precompile_tracker_name (id precompile) else None in
      bytes ← gets (input_bytes (input inputs));
      _ ← print_tracked start_line tracker_name;
      let '(exec_result, cycles) := execute precompile bytes (gas_limit inputs) (reservoir inputs) in
      _ ← modify (pass cycles);
      _ ← print_tracked end_line tracker_name;
      output ← Prelude.lift (match exec_result with inl output => Ok output | inr e => Err e end);
      depth ← gets (fun c => depth (local c));
      _ ← match halt_reason output with
          | Some reason =>
              if negb (is_oog reason) && (depth =? 1) then
                modify (fun c => {| local := set_precompile_error_context (halt_to_string reason) (local c);
                                    clock := clock c; stdout := stdout c |})
              else mret tt
          | None => mret tt
          end;
      mret (Some (precompile_output_to_interpreter_result output (gas_limit inputs)))
  end.
End provider.

(** ** KZG openings *)

Class KzgRs := {
  kzg_g2_points : list Z;
  bytes32_from_slice : list Z -> option (list Z);
  bytes48_from_slice : list Z -> option (list Z);
  (** over roots of unity, G1 points and G2 points *)
  kzg_verify : list Z -> list Z -> list Z -> list Z -> list Z * list Z * list Z -> outcome bool;
}.

Inductive KzgHalt := BlobVerifyKzgProofFailed.

Section kzg.
Context `{KzgRs}.

(** Roots of unity, G1 points, G2 points. *)
Definition point_evaluation_settings : list Z * list Z * list Z := ([], [], kzg_g2_points).

(** [None]: a panic of kzg-rs. *)
Definition verify_kzg_proof (z y commitment proof : list Z) : option (unit + KzgHalt) :=
  match bytes32_from_slice z, bytes32_from_slice y, bytes48_from_slice commitment, bytes48_from_slice proof with
  | Some z, Some y, Some commitment, Some proof =>
      match kzg_verify commitment z y proof point_evaluation_settings with
      | Ok true => Some (inl tt)
      | Ok false | Err _ => Some (inr BlobVerifyKzgProofFailed)
      | Panic => None
      end
  | _, _, _, _ => Some (inr BlobVerifyKzgProofFailed)
  end.

(** An opening passes only when kzg-rs says that it is valid. *)
Lemma only_valid_openings_pass z y commitment proof :
  verify_kzg_proof z y commitment proof = Some (inl tt) <->
  exists z' y' c' p', bytes32_from_slice z = Some z' /\ bytes32_from_slice y = Some y' /\
    bytes48_from_slice commitment = Some c' /\ bytes48_from_slice proof = Some p' /\
    kzg_verify c' z' y' p' point_evaluation_settings = Ok true.
Proof.
  unfold verify_kzg_proof. split.
  - destruct (bytes32_from_slice z) as [z'|], (bytes32_from_slice y) as [y'|],
      (bytes48_from_slice commitment) as [c'|], (bytes48_from_slice proof) as [p'|]; try done.
    intros Hv. exists z', y', c', p'. by destruct (kzg_verify _ _ _ _ _) as [[]| |].
  - by intros (z' & y' & c' & p' & -> & -> & -> & -> & ->).
Qed.
End kzg.

(** ** A session

    The EVM calls precompiles, moves to another hard fork, and does what it
    does between the two: it changes the context, prints lines and takes
    cycles. *)

Inductive command :=
| Call (inputs : CallInputs)
| SetSpec (spec : Z)
| Evm (change : Local -> Local) (lines : list string) (cycles : Z).

Inductive answer := Ran (result : outcome (option Z)) | Changed (changed : bool).

Section session.
Context `{Revm}.

Notation State := (OpZkvmPrecompiles * Context)%type.

Definition evm (change : Local -> Local) (lines : list string) (cycles : Z) (c : Context) : Context :=
  pass cycles {| local := change (local c); clock := clock c;
                 stdout := stdout c ++ ((fun line => (line, clock c)) <$> lines) |}.

Definition perform (zkvm : bool) (st : State) (cmd : command) : State * list answer :=
  let '(p, c) := st in
  match cmd with
  | Call inputs => let '(c, o) := run zkvm p inputs c in ((p, c), [Ran o])
  | SetSpec spec => let '(p, changed) := set_spec spec p in ((p, c), [Changed changed])
  | Evm change lines cycles => ((p, evm change lines cycles c), [])
  end.

Fixpoint session (zkvm : bool) (cmds : list command) (st : State) : State * list answer :=
  match cmds with
  | [] => (st, [])
  | cmd :: cmds =>
      let '(st, a) := perform zkvm st cmd in
      let '(st, answers) := session zkvm cmds st in (st, a ++ answers)
  end.

Definition cycles_of (i : PrecompileId) (costs : list (PrecompileId * Z)) : list Z :=
  (filter (fun x => x.1 = i) costs).*2.
Arguments cycles_of : simpl never.

(** ** What a precompile call is

    Independently of the provider: the hard fork in force says which addresses
    are precompiles. A call to one of them runs that precompile on the call's
    input; any other call is left to the EVM. *)

(** What a call leaves in the context, and what it returns. *)
Definition after (result : PrecompileOutput + string) (l : Local) : Local :=
  match result with
  | inl {| halt_reason := Some reason |} =>
      if negb (is_oog reason) && (depth l =? 1)
      then set_precompile_error_context (halt_to_string reason) l else l
  | _ => l
  end.
Definition returned (result : PrecompileOutput + string) (gas_limit : Z) : outcome (option Z) :=
  match result with
  | inl output => Ok (Some (precompile_output_to_interpreter_result output gas_limit))
  | inr e => Err e
  end.
Definition bytes_of (i : CallInput) (l : Local) : list Z :=
  match i with SharedBuffer range => default [] (shared_memory_buffer_slice l range) | Bytes bytes => bytes end.

Record expectation := {
  in_force : Z;                       (** the hard fork at the end *)
  left : Local;
  answered : list answer;
  costs : list (PrecompileId * Z);    (** the precompiles that were run, and their cycles *)
}.

Fixpoint expected (fork : Z) (l : Local) (cmds : list command) : expectation :=
  match cmds with
  | [] => {| in_force := fork; left := l; answered := []; costs := [] |}
  | Call inputs :: cmds =>
      match op_precompiles fork !! bytecode_address inputs with
      | Some q =>
          let '(result, cycles) := execute q (bytes_of (input inputs) l) (gas_limit inputs) (reservoir inputs) in
          let e := expected fork (after result l) cmds in
          {| in_force := in_force e; left := left e;
             answered := Ran (returned result (gas_limit inputs)) :: answered e; costs := (id q, cycles) :: costs e |}
      | None =>
          let e := expected fork l cmds in
          {| in_force := in_force e; left := left e; answered := Ran (Ok None) :: answered e; costs := costs e |}
      end
  | SetSpec new_fork :: cmds =>
      let e := expected new_fork l cmds in
      {| in_force := in_force e; left := left e;
         answered := Changed (negb (new_fork =? fork)) :: answered e; costs := costs e |}
  | Evm change _ _ :: cmds => expected fork (change l) cmds
  end.

(** ** What SP1 counts *)

Definition is_line (key : string) (line : string * Z) : Prop := line.1 = start_line key \/ line.1 = end_line key.
#[global] Instance is_line_dec key line : Decision (is_line key line).
Proof. unfold is_line. apply _. Defined.

(** The lines around a call that starts at a cycle and takes some cycles. *)
Definition span_lines (key : string) (span : Z * Z) : list (string * Z) :=
  [(start_line key, span.1); (end_line key, span.1 + span.2)].

(** The report of an execution, from what it printed: under a key, the sum of the
    cycles from each of its start lines to the next end line. *)
Definition counts_spans (report_cycles : list (string * Z) -> string -> option Z) : Prop :=
  forall log key spans, filter (is_line key) log = concat (span_lines key <$> spans) ->
    report_cycles log key = match spans with [] => None | _ => Some (wrap64 (zsum spans.*2)) end.

Definition tracked_key (i : PrecompileId) : option string :=
  (fun name => (cycle_tracker.PREFIX ++ name)%string) <$> get_precompile_tracker_name i.

Definition quiet (cmd : command) : Prop :=
  match cmd with
  | Evm _ lines _ => forall i key line, tracked_key i = Some key -> line ∈ lines ->
      line <> start_line key /\ line <> end_line key
  | _ => True
  end.

Lemma run_reached zkvm p inputs c q result cycles :
  inner p !! bytecode_address inputs = Some q ->
  execute q (input_bytes (input inputs) c) (gas_limit inputs) (reservoir inputs) = (result, cycles) ->
  run zkvm p inputs c =
    ({| local := after result (local c); clock := clock c + cycles;
        stdout := stdout c ++ (match tracked_key (id q) with
                               | Some key => if zkvm then span_lines key (clock c, cycles) else []
                               | None => []
                               end) |}, returned result (gas_limit inputs)).
Proof.
  intros Hq Hr. unfold run. rewrite Hq. unfold mbind, M_bind, gets. rewrite Hr. unfold tracked_key.
  destruct (get_precompile_tracker_name (id q)) as [name|], zkvm; cbn;
    destruct result as [[[reason|] o]|e]; cbn; try destruct (negb (is_oog reason) && (depth (local c) =? 1)); cbn;
    unfold mret, M_ret, println, pass; cbn; rewrite ?app_nil_r, <- ?app_assoc; try done; by destruct c.
Qed.

Lemma no_lines key lines (c : Context) :
  (forall line, line ∈ lines -> line <> start_line key /\ line <> end_line key) ->
  filter (is_line key) ((fun line : string => (line, clock c)) <$> lines) = [].
Proof.
  intros Hq. induction lines as [|line lines IH]; [done|]. rewrite fmap_cons, filter_cons_False.
  - apply IH. intros l Hl. apply Hq. by right.
  - destruct (Hq line ltac:(by left)). by intros [?|?].
Qed.

Lemma span_own key span : filter (is_line key) (span_lines key span) = span_lines key span.
Proof.
  unfold span_lines. rewrite !filter_cons_True; [done|by right|by left].
Qed.

Lemma span_other i j key key' span : i <> j -> tracked_key i = Some key -> tracked_key j = Some key' ->
  filter (is_line key) (span_lines key' span) = [].
Proof.
  intros Hij Hi Hj. unfold span_lines. rewrite !filter_cons_False; [done|..];
    destruct i, j; try done; injection Hi as <-; injection Hj as <-; by intros [?|?].
Qed.

(** One command, in the zkVM or on the host: as is expected. The new lines under a
    key are in the zkVM those of the calls to its precompile. *)
Lemma perform_spec zkvm cmd cmds fork c :
  let '(st, a) := perform zkvm (new_with_spec fork, c) cmd in
  exists fork', st.1 = new_with_spec fork' /\
  let e := expected fork (local c) (cmd :: cmds) in let e' := expected fork' (local st.2) cmds in
  in_force e = in_force e' /\ left e = left e' /\ answered e = a ++ answered e' /\
  exists cost, costs e = cost ++ costs e' /\
  forall i key, zkvm = true -> tracked_key i = Some key -> quiet cmd ->
    exists spans, filter (is_line key) (stdout st.2) = filter (is_line key) (stdout c) ++ concat (span_lines key <$> spans) /\
      spans.*2 = cycles_of i cost.
Proof.
  destruct cmd as [inputs|new_fork|change lines cycles]; cbn -[run].
  - destruct (op_precompiles fork !! bytecode_address inputs) as [q|] eqn:Hp.
    + destruct (execute q (input_bytes (input inputs) c) (gas_limit inputs) (reservoir inputs)) as [result cycles] eqn:Hr.
      rewrite (run_reached zkvm (new_with_spec fork) inputs c q result cycles Hp Hr).
      change (bytes_of (input inputs) (local c)) with (input_bytes (input inputs) c). rewrite Hr. cbn.
      exists fork. split_and!; [done..|]. exists [(id q, cycles)]. split; [done|]. intros i key -> Hk _.
      rewrite filter_app. unfold cycles_of. destruct (decide (id q = i)) as [<-|Hi].
      * exists [(clock c, cycles)]. rewrite Hk, span_own. split; [done|]. by rewrite filter_cons_True.
      * exists []. split; [|by rewrite filter_cons_False]. f_equal.
        destruct (tracked_key (id q)) as [key'|] eqn:Hk'; [|done]. by apply (span_other i (id q)).
    + unfold run. cbn. rewrite Hp. cbn. exists fork. split_and!; [done..|]. exists []. split; [done|].
      intros i key _ _ _. exists []. by rewrite app_nil_r.
  - unfold set_spec. cbn. destruct (Z.eqb_spec new_fork fork) as [->|]; cbn; eexists; (split; [done|]);
      (split_and!; [done..|]); exists []; (split; [done|]); intros i key _ _ _; exists []; by rewrite app_nil_r.
  - exists fork. split_and!; [done..|]. exists []. split; [done|]. intros i key _ Hk Hq. exists []. split; [|done].
    cbn. rewrite filter_app, no_lines; [done|]. intros line Hline. by apply (Hq i key).
Qed.

Lemma cycles_of_app i l l' : cycles_of i (l ++ l') = cycles_of i l ++ cycles_of i l'.
Proof. unfold cycles_of. by rewrite filter_app, fmap_app. Qed.

Lemma session_spec zkvm cmds fork c :
  let '(st, answers) := session zkvm cmds (new_with_spec fork, c) in let e := expected fork (local c) cmds in
  st.1 = new_with_spec (in_force e) /\ local st.2 = left e /\ answers = answered e /\
  forall i key, zkvm = true -> tracked_key i = Some key -> Forall quiet cmds ->
    exists spans, filter (is_line key) (stdout st.2) = filter (is_line key) (stdout c) ++ concat (span_lines key <$> spans) /\
      spans.*2 = cycles_of i (costs e).
Proof.
  revert fork c. induction cmds as [|cmd cmds IH]; intros fork c; cbn -[perform expected].
  { split_and!; [done..|]. intros i key _ _ _. exists []. by rewrite app_nil_r. }
  pose proof (perform_spec zkvm cmd cmds fork c) as Hs.
  destruct (perform zkvm (new_with_spec fork, c) cmd) as [[p1 c1] a1]. cbn -[expected] in Hs.
  destruct Hs as (fork' & -> & -> & -> & -> & cost & -> & Hlines). specialize (IH fork' c1).
  destruct (session zkvm cmds (new_with_spec fork', c1)) as [[p2 c2] a2]. cbn -[expected] in IH |- *.
  destruct IH as (-> & -> & -> & IH). split_and!; [done..|]. intros i key Hz Hk [Hq Hqs]%Forall_cons.
  destruct (Hlines i key Hz Hk Hq) as (spans & Hl & Hs), (IH i key Hz Hk Hqs) as (spans' & Hl' & Hs').
  exists (spans ++ spans'). by rewrite Hl', Hl, !fmap_app, concat_app, app_assoc, cycles_of_app, Hs, Hs'.
Qed.

(** C27: A provider that is made for a hard fork answers any sequence of calls, moves
    to other hard forks and work of the EVM the way precompiles are meant to,
    in the zkVM and on the host alike: a call to an address that is a precompile
    in the hard fork then in force runs this precompile on its input, returns its
    result and leaves the message of a top-level halt; any other call is left to
    the EVM; and each move to another hard fork, no other, is reported and replaces
    the table of precompiles with the new fork's. The statistics that a request
    and an estimate keep of the report of the zkVM hold, for each accelerated
    precompile, the sum of the cycles of the calls that ran it. *)
Theorem precompile_cycles_counted report_cycles cmds fork c c' report blocks :
  counts_spans report_cycles -> Forall quiet cmds -> local c = local c' -> stdout c = [] -> blocks <> [] ->
  let g := session true cmds (new_with_spec fork, c) in let h := session false cmds (new_with_spec fork, c') in
  let e := expected fork (local c) cmds in
  g.1.1 = {| inner := op_precompiles (in_force e); spec := in_force e |} /\ h.1.1 = g.1.1 /\
  local g.1.2 = left e /\ local h.1.2 = left e /\ g.2 = answered e /\ h.2 = answered e /\
  (cycle_tracker report = report_cycles (stdout g.1.2) ->
   Forall (fun '(i, f, f') => f (new_statistics report) = wrap64 (zsum (cycles_of i (costs e))) /\
                              f' (Stats.new 0 blocks report 0 0) = wrap64 (zsum (cycles_of i (costs e))))
     [(Bn254Add, bn_add_cycles, Stats.bn_add_cycles); (Bn254Mul, bn_mul_cycles, Stats.bn_mul_cycles);
      (Bn254Pairing, bn_pair_cycles, Stats.bn_pair_cycles); (KzgPointEvaluation, kzg_eval_cycles, Stats.kzg_eval_cycles);
      (EcRec, ec_recover_cycles, Stats.ec_recover_cycles); (P256Verify, p256_verify_cycles, Stats.p256_verify_cycles)]).
Proof.
  intros Hsp1 Hq Hc Hout Hblocks g h e. subst g h e.
  pose proof (session_spec true cmds fork c) as Hg. pose proof (session_spec false cmds fork c') as Hh. rewrite <- Hc in Hh.
  destruct (session true cmds _) as [[p1 c1] a1], (session false cmds _) as [[p2 c2] a2]. cbn -[expected] in *.
  destruct Hg as (-> & -> & -> & Hlines), Hh as (-> & -> & -> & _). split_and!; [done..|]. intros Hreport.
  assert (Hcount : forall i key, tracked_key i = Some key ->
    default 0 (cycle_tracker report key) = wrap64 (zsum (cycles_of i (costs (expected fork (local c) cmds))))).
  { intros i key Hk. destruct (Hlines i key eq_refl Hk Hq) as (spans & Hl & Hs).
    rewrite Hout in Hl. rewrite Hreport, (Hsp1 _ _ spans Hl), <- Hs. by destruct spans. }
  pose proof (new_states blocks report Hblocks) as (_ & _ & _ & _ & _ & _ & _ & Htracked & _).
  repeat (apply Forall_cons in Htracked as [? Htracked]).
  repeat (apply Forall_cons; split); [..|by apply Forall_nil]; split;
    (etrans; [eassumption || reflexivity|]); by apply Hcount.
Qed.
End session.

(** ** A sample *)

Definition sample_precompile (i : PrecompileId) (cycles : Z) : Precompile := {|
  id := i;
  execute bytes limit _ :=
    (inl {| halt_reason := if limit <? 10 then Some {| is_oog := true; halt_to_string := "out of gas" |}
                           else match bytes with
                                | [] => Some {| is_oog := false; halt_to_string := "empty input" |}
                                | _ => None
                                end;
            other_output := limit - 10 |}, cycles + Z.of_nat (length bytes)) |}.

#[local] Instance sample_revm : Revm := {|
  op_precompiles spec :=
    list_to_map ([(1, sample_precompile EcRec 500); (2, sample_precompile (OtherId 2) 50);
                  (8, sample_precompile Bn254Pairing 9000)] ++
                 if 3 <=? spec then [(256, sample_precompile P256Verify 700)] else []);
  precompile_output_to_interpreter_result output _ := other_output output |}.

Definition sample_call (address : Z) (bytes : list Z) : CallInputs :=
  {| input := Bytes bytes; gas_limit := 100; reservoir := 0; bytecode_address := address; target_address := 0 |}.
Definition sample_context (clock : Z) : Context :=
  {| local := {| shared_memory_buffer_slice _ := None; depth := 1; precompile_error_context := None |};
     clock := clock; stdout := [] |}.
Definition sample_session : list command :=
  [Call (sample_call 8 [1; 2]); Evm (fun l => l) ["block 1"%string] 40; Call (sample_call 2 [1]); Call (sample_call 256 [1]);
   SetSpec 3; Call (sample_call 256 [1; 2; 3]); Call (sample_call 8 []); SetSpec 3; Call (sample_call 77 [1])].

Fixpoint paired (acc : option Z) (lines : list (string * Z)) : option Z :=
  match lines with
  | l1 :: l2 :: lines => paired (Some (wrap64 (default 0 acc + (l2.2 - l1.2)))) lines
  | _ => acc
  end.
Definition sample_report (log : list (string * Z)) (key : string) : option Z :=
  paired None (filter (is_line key) log).

Lemma sample_counts : counts_spans sample_report.
Proof.
  intros log key spans Hl. unfold sample_report. rewrite Hl, <- sum_u64_zsum. destruct spans as [|[a0 n0] spans]; [done|].
  cbn. unfold Stats.sum_u64. cbn. replace (a0 + n0 - a0) with n0 by lia. generalize (wrap64 (0 + n0)). clear.
  induction spans as [|[a n] spans IH]; intros t; [done|]. cbn. replace (a + n - a) with n by lia. apply IH.
Qed.

Example sample_answers :
  (session true sample_session (new_with_spec 1, sample_context 0)).2 =
  [Ran (Ok (Some 90)); Ran (Ok (Some 90)); Ran (Ok None); Changed true; Ran (Ok (Some 90)); Ran (Ok (Some 90));
   Changed false; Ran (Ok None)].
Proof. vm_compute. reflexivity. Qed.

(** The failed call at the top has left its message. *)
Example sample_error_context :
  precompile_error_context (local (session true sample_session (new_with_spec 1, sample_context 0)).1.2) =
  Some "empty input"%string.
Proof. vm_compute. reflexivity. Qed.

Definition sample_block : BlockInfo :=
  {| block_number := 7; transaction_count := 2; gas_used := 21000;
     ValidityRanges.total_l1_fees := 1; ValidityRanges.total_tx_fees := 2 |}.

Lemma precompile_cycles_counted_witness :
  let st := (session true sample_session (new_with_spec 1, sample_context 0)).1 in
  let report := {| total_instruction_count := 20000; gas := None; cycle_tracker := sample_report (stdout st.2) |} in
  spec st.1 = 3 /\
  bn_pair_cycles (new_statistics report) = 18002 /\ p256_verify_cycles (new_statistics report) = 703 /\
  Stats.bn_pair_cycles (Stats.new 0 [sample_block] report 0 0) = 18002 /\
  Stats.ec_recover_cycles (Stats.new 0 [sample_block] report 0 0) = 0 /\
  precompile_error_context (local (session false sample_session (new_with_spec 1, sample_context 7)).1.2) =
    Some "empty input"%string.
Proof.
  assert (Hq : Forall quiet sample_session).
  { repeat (apply Forall_cons; split); try exact I; [|by apply Forall_nil].
    intros i key line Hk Hline. apply list_elem_of_singleton in Hline as ->.
    destruct i; try discriminate Hk; injection Hk as <-; by split. }
  pose proof (precompile_cycles_counted sample_report sample_session 1 (sample_context 0) (sample_context 7)
    {| total_instruction_count := 20000; gas := None;
       cycle_tracker := sample_report (stdout (session true sample_session (new_with_spec 1, sample_context 0)).1.2) |}
    [sample_block] sample_counts Hq eq_refl eq_refl ltac:(discriminate)) as Hw.
  cbn zeta in Hw |- *. destruct Hw as (Hp & _ & _ & Hl & _ & _ & Hs). specialize (Hs eq_refl).
  apply Forall_cons in Hs as [_ Hs]. apply Forall_cons in Hs as [_ Hs]. apply Forall_cons in Hs as [[Hpair Hpair'] Hs].
  apply Forall_cons in Hs as [_ Hs]. apply Forall_cons in Hs as [[_ Hec] Hs]. apply Forall_cons in Hs as [[Hp256 _] _].
  split_and!.
  - rewrite Hp. vm_compute. reflexivity.
  - rewrite Hpair. vm_compute. reflexivity.
  - rewrite Hp256. vm_compute. reflexivity.
  - rewrite Hpair'. vm_compute. reflexivity.
  - rewrite Hec. vm_compute. reflexivity.
  - rewrite Hl. vm_compute. reflexivity.
Defined.
