(* ===== verification/FetcherSetup.v ===== *)
(** * Starting the fetcher

    The constructors of [OPSuccinctDataFetcher] in [utils/host/src/fetcher.rs]:
    the URLs of the nodes, the calls it makes by JSON-RPC, and the
    configurations of the two chains, which it takes from a registry or a node
    and writes to files for the programs it starts.

    JSON, the registry and the accessors of a rollup configuration are
    parameters. A path is a list of code points; directories are not kept, only
    whether one can be made. *)

From S2P Require Import Prelude.
From S2P Require Import AggregationProgram.
From S2P Require Import Interleaving.
From S2P Require Import WitnessStore.
From S2P Require Import RangeProgram.
From S2P Require Import Fetcher.
From S2P Require Import Settings.
From S2P Require FetcherLaws.

(** ** The outside *)

Class Json := {
  Value : Type;
  json_get : string -> Value -> option Value;
  json_index : string -> Value -> Value;  (** [null] without such a field *)
  as_str : Value -> option (list Z);
  as_u64 : Value -> option Z;
  string_from_value : Value -> outcome (list Z);
  rollup_config_from_value : Value -> outcome CeloRollupConfig;
  rollup_config_to_json : CeloRollupConfig -> outcome (list Z);
  l1_config_to_json : Z -> outcome (list Z);
  from_reader : list Z -> outcome Value;
  parse_U64 : list Z -> option Z;
}.

(** celo-registry, and what the source reads of a rollup configuration. *)
Class Registry := {
  ROLLUP_CONFIGS : Z -> option CeloRollupConfig;
  L1_CONFIGS : Z -> option Z;
  l1_chain_id : CeloRollupConfig -> Z;
  l2_chain_id : CeloRollupConfig -> Z;
  chain_to_string : Z -> list Z;  (** [Display] of a [Chain]: its name, or its number without one *)
  block_time : CeloRollupConfig -> Z;
  l1_system_config_address : CeloRollupConfig -> Z;
  fjord_max_sequencer_drift : CeloRollupConfig -> Z;
  set_fjord_max_sequencer_drift : Z -> CeloRollupConfig -> CeloRollupConfig;
  is_holocene_active : CeloRollupConfig -> bool;  (** now *)
}.

(** What comes of writing a file: it is written, it cannot be opened, or it is
    cut short. *)
Inductive WriteResult := Written | NotOpened | Cut (bytes : nat).

(** An HTTP response: whether its status is a success, and its body. *)
Record HttpResponse `{Json} := { status_ok : bool; body : outcome Value }.

Record World `{Json} := {
  rpc : Rpc;
  post : Z -> string -> list (list Z) -> outcome HttpResponse;
  files : gmap (list Z) (option (list Z));  (** [None]: not readable *)
  can_create_dir : list Z -> bool;
  write_result : list Z -> WriteResult;
  warnings : list string;
}.

Section world.
Context `{Json}.

Definition with_rpc (n : Rpc) (w : World) : World :=
  {| rpc := n; post := post w; files := files w; can_create_dir := can_create_dir w;
     write_result := write_result w; warnings := warnings w |}.
Definition with_files (fs : gmap (list Z) (option (list Z))) (w : World) : World :=
  {| rpc := rpc w; post := post w; files := fs; can_create_dir := can_create_dir w;
     write_result := write_result w; warnings := warnings w |}.

Definition asks {A} (f : World -> outcome A) : prog World A := act (fun w => (w, f w)).
Definition warn (msg : string) : prog World unit :=
  act (fun w => ({| rpc := rpc w; post := post w; files := files w; can_create_dir := can_create_dir w;
                    write_result := write_result w; warnings := warnings w ++ [msg] |}, Ok tt)).

(** [Path::join] of a relative name. *)
Definition path_join (dir name : list Z) : list Z :=
  match last dir with
  | None => name
  | Some 47 => dir ++ name
  | Some _ => dir ++ 47 :: name
  end.

Definition create_dir_all (dir : list Z) : prog World unit :=
  asks (fun w => ensure (can_create_dir w dir) "create_dir_all").

(** [fs::write] *)
Definition write (path content : list Z) : prog World unit :=
  act (fun w =>
    match write_result w path with
    | Written => (with_files (<[path := Some content]> (files w)) w, Ok tt)
    | NotOpened => (w, Err "write")
    | Cut n => (with_files (<[path := Some (take n content)]> (files w)) w, Err "write")
    end).
End world.

(** ** Remote procedures *)

Record RPCConfig := { l1_rpc : Z; l1_beacon_rpc : option Z; l2_rpc : Z; l2_node_rpc : Z }.
Inductive RPCMode := RpcL1 | RpcL1Beacon | RpcL2 | RpcL2Node.

Definition get_rpc_url (c : RPCConfig) (rpc_mode : RPCMode) : outcome Z :=
  match rpc_mode with
  | RpcL1 => Ok (l1_rpc c)
  | RpcL2 => Ok (l2_rpc c)
  | RpcL1Beacon => with_context "L1 beacon RPC URL is not set" (l1_beacon_rpc c)
  | RpcL2Node => Ok (l2_node_rpc c)
  end.

Section rpcs.
Context `{Parsers} (var : string -> EnvVar).

(** [env::var(key).expect(..)] *)
Definition expect_var (key : string) : outcome (list Z) := unwrap (get var key).

Definition get_rpcs_from_env : outcome RPCConfig :=
  l1 ← expect_var "L1_RPC";
  l1_beacon ← (match trim <$> get var "L1_BEACON_RPC" with
               | None | Some [] => Ok None
               | Some s => Some <$> unwrap (parse_url s)
               end);
  l2 ← expect_var "L2_RPC";
  l2_node ← expect_var "L2_NODE_RPC";
  l1 ← unwrap (parse_url l1);
  l2 ← unwrap (parse_url l2);
  l2_node ← unwrap (parse_url l2_node);
  Ok {| l1_rpc := l1; l1_beacon_rpc := l1_beacon; l2_rpc := l2; l2_node_rpc := l2_node |}.
End rpcs.

Section calls.
Context `{Json}.

Definition fetch_rpc_data {T} (from_value : Value -> outcome T) (url : Z) (method : string)
    (params : list (list Z)) : prog World T :=
  response ← asks (fun w => post w url method params);
  response ← done (body response);
  match json_get "error" response with
  | Some _ => done (Err "Error calling method")
  | None => done (from_value (json_index "result" response))
  end.

Definition fetch_rpc_data_raw (url : Z) (method : string) (params : list (list Z)) : prog World Value :=
  response ← asks (fun w => post w url method params);
  _ ← done (ensure (status_ok response) "HTTP status");
  done (body response).

Definition fetch_rpc_data_with_mode {T} (from_value : Value -> outcome T) (c : RPCConfig) (rpc_mode : RPCMode)
    (method : string) (params : list (list Z)) : prog World T :=
  url ← done (get_rpc_url c rpc_mode);
  fetch_rpc_data from_value url method params.
End calls.

(** ** The constructors *)

(** [OPSuccinctDataFetcher], less its providers. *)
Record DataFetcher := {
  rpc_config : RPCConfig;
  rollup_config : option CeloRollupConfig;
  rollup_config_path : option (list Z);
  l1_config_path : option (list Z);
  l1_selection : L1BlockSelectionConfig;
}.

Section setup.
Context `{WitnessCrypto, !Kona, Json, Registry, Parsers} (var : string -> EnvVar).

Definition new_with_l1_selection (l1_selection : L1BlockSelectionConfig) : outcome DataFetcher :=
  rpc_config ← get_rpcs_from_env var;
  Ok {| rpc_config := rpc_config; rollup_config := None; rollup_config_path := None; l1_config_path := None;
        l1_selection := l1_selection |}.

Definition selection_from_env : outcome L1BlockSelectionConfig :=
  from_env_or_default (var "L1_BLOCK_TAG") (var "L1_CONFIRMATIONS").

Definition new : outcome DataFetcher := l1_selection ← selection_from_env; new_with_l1_selection l1_selection.

(** The name of a configuration: [format!("{}.json", ..)] of the L2 [Chain], which
    need not be its number, and of the L1 chain's number. *)
Definition config_name (chain : list Z) : list Z := chain ++ codes ".json".

Definition l2_config_dir : list Z := get_or var "L2_CONFIG_DIR" "configs/L2".
Definition l1_config_dir : list Z := get_or var "L1_CONFIG_DIR" "configs/L1".

(** The registry's configuration against the node's, for a warning only. *)
Definition compare_with_node (registry_config : CeloRollupConfig) (node_rpc_config : option CeloRollupConfig)
    : prog World unit :=
  match node_rpc_config with
  | None => mret tt
  | Some node_config =>
      let node_config := set_fjord_max_sequencer_drift (fjord_max_sequencer_drift registry_config) node_config in
      registry_hash ← done (hash_rollup_config registry_config);
      node_rpc_hash ← done (hash_rollup_config node_config);
      if registry_hash =? node_rpc_hash then mret tt else warn "Rollup config hash mismatch"
  end.

Definition find_rollup_config (chain_id : Z) (node_rpc_config : option CeloRollupConfig)
    : prog World CeloRollupConfig :=
  match ROLLUP_CONFIGS chain_id with
  | Some registry_config => _ ← compare_with_node registry_config node_rpc_config; mret registry_config
  | None =>
      _ ← warn "No rollup config found in registry";
      done (with_context "No rollup config available" node_rpc_config)
  end.

Definition fetch_and_save_rollup_config (c : RPCConfig) : prog World (CeloRollupConfig * list Z) :=
  chain_id ← fetch_rpc_data string_from_value (l2_rpc c) "eth_chainId" [];
  chain_id ← done (unwrap (parse_U64 chain_id));
  node_rpc_config ← catch (fetch_rpc_data rollup_config_from_value (l2_node_rpc c) "optimism_rollupConfig" []);
  node_rpc_config ← (match node_rpc_config with
                     | inl config => mret (Some config)
                     | inr _ => _ ← warn "Failed to fetch rollup config from node RPC"; mret None
                     end);
  rollup_config ← find_rollup_config chain_id node_rpc_config;
  _ ← create_dir_all l2_config_dir;
  let rollup_config_path := path_join l2_config_dir (config_name (chain_to_string (l2_chain_id rollup_config))) in
  rollup_config_str ← done (rollup_config_to_json rollup_config);
  _ ← write rollup_config_path rollup_config_str;
  mret (rollup_config, rollup_config_path).

Definition fetch_and_save_l1_config (rollup_config : CeloRollupConfig) : prog World (list Z) :=
  let path := path_join l1_config_dir (config_name (decimal (l1_chain_id rollup_config))) in
  existing ← asks (fun w => Ok (files w !! path));
  match existing with
  | Some content =>
      content ← done (with_context "File::open" content);
      _ ← done (from_reader content);
      mret path
  | None =>
      l1_config ← done (with_context "No built-in L1 config exists" (L1_CONFIGS (l1_chain_id rollup_config)));
      _ ← create_dir_all l1_config_dir;
      l1_config_str ← done (l1_config_to_json l1_config);
      _ ← write path l1_config_str;
      mret path
  end.

Definition new_with_rollup_config_and_l1_selection (l1_selection : L1BlockSelectionConfig) : prog World DataFetcher :=
  rpc_config ← done (get_rpcs_from_env var);
  saved ← fetch_and_save_rollup_config rpc_config;
  let '(rollup_config, rollup_config_path) := saved in
  _ ← (if is_holocene_active rollup_config then mret tt else warn "Chain is not using Holocene hard fork");
  l1_config_path ← fetch_and_save_l1_config rollup_config;
  mret {| rpc_config := rpc_config; rollup_config := Some rollup_config;
          rollup_config_path := Some rollup_config_path; l1_config_path := Some l1_config_path;
          l1_selection := l1_selection |}.

Definition new_with_rollup_config : prog World DataFetcher :=
  l1_selection ← done selection_from_env;
  new_with_rollup_config_and_l1_selection l1_selection.
End setup.

(** ** What a start leaves behind *)

Section laws.
Context `{WitnessCrypto, !Kona, Json, Registry, Parsers} (var : string -> EnvVar).

(** Everything but the files and the warnings. *)
Definition outside (w : World) := (rpc w, post w, can_create_dir w, write_result w).

(** A program that does not read files. *)
Definition blind {A} (p : prog World A) : Prop := forall w w', outside w = outside w' ->
  (run p w).2 = (run p w').2 /\ outside (run p w).1 = outside w.

Lemma blind_done {A} (o : outcome A) : blind (done o).
Proof. done. Qed.
Lemma blind_bind {A B} (p : prog World A) (f : A -> prog World B) :
  blind p -> (forall a, blind (f a)) -> blind (p ≫= f).
Proof.
  intros Hp Hf w w' Hw. rewrite !run_bind. destruct (Hp w w' Hw) as [Ho Hs], (Hp w' w (eq_sym Hw)) as [_ Hs'].
  unfold mbind, M_bind. destruct (run p w) as [w1 o], (run p w') as [w1' o']. cbn in *. subst o'.
  destruct o as [a|e|]; [|done..]. destruct (Hf a w1 w1') as [-> Hr]; [congruence|]. split; [done|congruence].
Qed.
Lemma blind_catch {A} (p : prog World A) : blind p -> blind (catch p).
Proof.
  intros Hp w w' Hw. rewrite !run_catch. destruct (Hp w w' Hw) as [Ho Hs]. unfold attempt.
  destruct (run p w) as [w1 o], (run p w') as [w1' o']. cbn in *. subst o'. by destruct o.
Qed.
Lemma blind_asks {A} (f : World -> outcome A) :
  (forall w w', outside w = outside w' -> f w = f w') -> blind (asks f).
Proof. intros Hf w w' Hw. cbn. split; [by apply Hf|done]. Qed.
Lemma blind_post url method params : blind (asks (fun w => post w url method params)).
Proof. apply blind_asks. by intros w w' [= _ -> _ _]. Qed.
Lemma blind_warn msg : blind (warn msg).
Proof. done. Qed.
Lemma blind_create dir : blind (create_dir_all dir).
Proof. apply blind_asks. by intros w w' [= _ _ -> _]. Qed.
Lemma blind_write path content : blind (write path content).
Proof. intros w w' [= _ _ _ Hw]. cbn. rewrite <- Hw. by destruct (write_result w path). Qed.

Ltac blind_tac :=
  repeat match goal with
  | |- blind (mbind _ _) => apply blind_bind; [|intros ?]
  | |- blind (catch _) => apply blind_catch
  | |- blind (done _) => apply blind_done
  | |- blind (mret _) => apply blind_done
  | |- blind (warn _) => apply blind_warn
  | |- blind (create_dir_all _) => apply blind_create
  | |- blind (write _ _) => apply blind_write
  | |- blind (asks (fun w => post w _ _ _)) => apply blind_post
  | |- blind (match ?x with _ => _ end) => destruct x
  end.

Lemma blind_fetch {T} (from_value : Value -> outcome T) url method params :
  blind (fetch_rpc_data from_value url method params).
Proof. unfold fetch_rpc_data. blind_tac. Qed.

Lemma blind_find chain_id node_config : blind (find_rollup_config chain_id node_config).
Proof. unfold find_rollup_config, compare_with_node. cbn zeta. blind_tac. Qed.

Lemma blind_rollup c : blind (fetch_and_save_rollup_config var c).
Proof.
  unfold fetch_and_save_rollup_config. repeat (apply blind_bind; [try apply blind_fetch|intros ?]); cbn zeta;
    blind_tac; try apply blind_fetch; try apply blind_find; by blind_tac.
Qed.

(** The answer to a call. *)
Definition answer {T} (from_value : Value -> outcome T) (w : World) (url : Z) (method : string) : outcome T :=
  (run (fetch_rpc_data from_value url method []) w).2.

Lemma fetch_keeps {T} (from_value : Value -> outcome T) url method params w :
  (run (fetch_rpc_data from_value url method params) w).1 = w.
Proof.
  unfold fetch_rpc_data. rewrite run_bind. unfold mbind, M_bind. cbn.
  destruct (post w url method params) as [response|e|]; [|done..].
  cbn. destruct (body response) as [v|e|]; [|done..]. cbn. by destruct (json_get "error" v).
Qed.

Lemma run_fetch {T} (from_value : Value -> outcome T) url method w :
  run (fetch_rpc_data from_value url method []) w = (w, answer from_value w url method).
Proof.
  unfold answer. apply injective_projections; [apply fetch_keeps|done].
Qed.

(** The configuration of the L2 chain: the registry's, or without one the node's. *)
Definition chain_config (c : RPCConfig) (w : World) (config : CeloRollupConfig) : Prop :=
  exists s chain_id, answer string_from_value w (l2_rpc c) "eth_chainId" = Ok s /\ parse_U64 s = Some chain_id /\
    match ROLLUP_CONFIGS chain_id with
    | Some registry_config => config = registry_config
    | None => answer rollup_config_from_value w (l2_node_rpc c) "optimism_rollupConfig" = Ok config
    end.

Lemma run_write path content w w' u : run (write path content) w = (w', Ok u) ->
  files w' = <[path := Some content]> (files w) /\ write_result w path = Written.
Proof.
  unfold write. rewrite run_act. destruct (write_result w path) eqn:E; try done. intros [= <- _]. by split.
Qed.

Lemma run_warned {A} (p : prog World A) w w' a :
  guar (fun w w' => files w' = files w) p -> run p w = (w', Ok a) -> files w' = files w.
Proof.
  intros Hg Hr. assert (Hpre : PreOrder (fun w w' : World => files w' = files w)).
  { split; [done|]. by intros ? ? ? <-. }
  pose proof (guar_run (fun w w' => files w' = files w) p w Hg) as Hf. by rewrite Hr in Hf.
Qed.

Lemma guar_find chain_id node_config :
  guar (fun w w' => files w' = files w) (find_rollup_config chain_id node_config).
Proof.
  unfold find_rollup_config, compare_with_node, warn. cbn zeta. guar_tac; by apply guar_act.
Qed.

Lemma find_config chain_id node_config w w' config :
  run (find_rollup_config chain_id node_config) w = (w', Ok config) ->
  match ROLLUP_CONFIGS chain_id with
  | Some registry_config => config = registry_config
  | None => node_config = Some config
  end.
Proof.
  unfold find_rollup_config. destruct (ROLLUP_CONFIGS chain_id) as [r|]; intros Hr; run_inv; [done|].
  by apply with_context_Ok in Hr.
Qed.

Definition rollup_path (config : CeloRollupConfig) : list Z :=
  path_join (l2_config_dir var) (config_name (chain_to_string (l2_chain_id config))).
Definition l1_path (config : CeloRollupConfig) : list Z :=
  path_join (l1_config_dir var) (config_name (decimal (l1_chain_id config))).

Lemma rollup_saved c w w' config path :
  run (fetch_and_save_rollup_config var c) w = (w', Ok (config, path)) ->
  chain_config c w config /\ path = rollup_path config /\
  exists json, rollup_config_to_json config = Ok json /\ files w' = <[path := Some json]> (files w).
Proof.
  unfold fetch_and_save_rollup_config. intros Hr.
  apply run_bind_Ok in Hr as (w1 & s & Hs & Hr). rewrite run_fetch in Hs. injection Hs as <- Hs.
  apply run_bind_Ok in Hr as (w2 & chain_id & Hc & Hr). injection Hc as <- Hc.
  destruct (parse_U64 s) as [chain_id'|] eqn:Hparse; [|done]. injection Hc as ->.
  apply run_bind_Ok in Hr as (w3 & node & Hn & Hr). rewrite run_catch in Hn. unfold attempt in Hn. rewrite run_fetch in Hn.
  apply run_bind_Ok in Hr as (w4 & node' & Hn' & Hr). apply run_bind_Ok in Hr as (w5 & config' & Hf & Hr).
  apply run_bind_Ok in Hr as (w6 & [] & Hd & Hr). cbn zeta in Hr.
  apply run_bind_Ok in Hr as (w7 & json & Hj & Hr). apply run_bind_Ok in Hr as (w8 & [] & Hw & Hr).
  injection Hr as <- <- <-. injection Hj as -> Hj. apply run_write in Hw as [Hw _].
  unfold create_dir_all, asks in Hd. rewrite run_act in Hd. injection Hd as <- _.
  assert (Hfiles : files w5 = files w).
  { rewrite (run_warned _ _ _ _ (guar_find _ _) Hf). destruct node as [config0|e]; run_inv.
    - by destruct (answer rollup_config_from_value w _ _); simplify_eq.
    - unfold warn in *. rewrite run_act in *. by destruct (answer rollup_config_from_value w _ _); simplify_eq. }
  split_and!; [|done|by exists json; rewrite Hw, Hfiles].
  exists s, chain_id. split_and!; [done..|]. apply find_config in Hf.
  destruct (ROLLUP_CONFIGS chain_id) as [r|]; [done|]. subst node'.
  destruct (answer rollup_config_from_value w _ _) as [config0|e|]; simplify_eq; run_inv; simplify_eq. done.
Qed.

Lemma l1_saved config w w' path :
  run (fetch_and_save_l1_config var config) w = (w', Ok path) ->
  path = l1_path config /\ outside w' = outside w /\
  match files w !! path with
  | Some content => w' = w /\ exists text v, content = Some text /\ from_reader text = Ok v
  | None => exists l1_config json, L1_CONFIGS (l1_chain_id config) = Some l1_config /\
      l1_config_to_json l1_config = Ok json /\ files w' = <[path := Some json]> (files w)
  end.
Proof.
  unfold fetch_and_save_l1_config. cbn zeta. fold (l1_path config). unfold asks. intros Hr.
  apply run_bind_Ok in Hr as (w1 & existing & He & Hr). rewrite run_act in He. injection He as <- <-.
  destruct (files w !! l1_path config) as [content|] eqn:Hp.
  - apply run_bind_Ok in Hr as (w1 & text & Ht & Hr). injection Ht as <- Ht. apply with_context_Ok in Ht.
    apply run_bind_Ok in Hr as (w1 & v & Hv & Hr). injection Hv as <- Hv. injection Hr as <- <-. rewrite Hp.
    split_and!; [done..|]. by exists text, v.
  - apply run_bind_Ok in Hr as (w1 & l1_config & Hc & Hr). injection Hc as <- Hc. apply with_context_Ok in Hc.
    apply run_bind_Ok in Hr as (w1 & [] & Hd & Hr). unfold create_dir_all, asks in Hd. rewrite run_act in Hd. injection Hd as <- _.
    apply run_bind_Ok in Hr as (w1 & json & Hj & Hr). injection Hj as <- Hj.
    apply run_bind_Ok in Hr as (w1 & [] & Hw & Hr). injection Hr as <- <-. rewrite Hp.
    split_and!; [done| |].
    + pose proof (blind_write (l1_path config) json w w eq_refl) as [_ Ho]. by rewrite Hw in Ho.
    + apply run_write in Hw as [Hw _]. by exists l1_config, json.
Qed.

(** What is written for L1 parses again. *)
Definition l1_json_parses : Prop := forall l1_config json,
  l1_config_to_json l1_config = Ok json -> exists v, from_reader json = Ok v.

Lemma l1_again config w path :
  path = l1_path config -> (exists text v, files w !! path = Some (Some text) /\ from_reader text = Ok v) ->
  run (fetch_and_save_l1_config var config) w = (w, Ok path).
Proof.
  intros -> (text & v & Hp & Hv). unfold fetch_and_save_l1_config, asks. cbn zeta. fold (l1_path config).
  rewrite run_bind. unfold mbind, M_bind. rewrite run_act, Hp. cbn. by rewrite Hv.
Qed.

(** The files of the two chains after a start. *)
Definition settled (w w' : World) (config : CeloRollupConfig) : Prop :=
  (exists json, rollup_config_to_json config = Ok json /\ files w' !! rollup_path config = Some (Some json)) /\
  match files w !! l1_path config with
  | Some content => files w' !! l1_path config = Some content
  | None => exists l1_config json, L1_CONFIGS (l1_chain_id config) = Some l1_config /\
      l1_config_to_json l1_config = Ok json /\ files w' !! l1_path config = Some (Some json)
  end /\
  forall path, path <> rollup_path config -> path <> l1_path config -> files w' !! path = files w !! path.

Lemma run_holocene (config : CeloRollupConfig) w w' u :
  run (if is_holocene_active config then mret tt else warn "Chain is not using Holocene hard fork") w = (w', Ok u) ->
  files w' = files w /\ outside w' = outside w.
Proof. destruct (is_holocene_active config); intros Hr; [by injection Hr as <- _|]. unfold warn in Hr. rewrite run_act in Hr. by injection Hr as <- _. Qed.

(** The parts of a start. *)
Lemma start_parts sel w w' fetcher :
  run (new_with_rollup_config_and_l1_selection var sel) w = (w', Ok fetcher) ->
  exists c config w1 w2, get_rpcs_from_env var = Ok c /\
    run (fetch_and_save_rollup_config var c) w = (w1, Ok (config, rollup_path config)) /\
    files w2 = files w1 /\ outside w2 = outside w1 /\
    run (fetch_and_save_l1_config var config) w2 = (w', Ok (l1_path config)) /\
    fetcher = {| rpc_config := c; rollup_config := Some config; rollup_config_path := Some (rollup_path config);
                 l1_config_path := Some (l1_path config); l1_selection := sel |}.
Proof.
  unfold new_with_rollup_config_and_l1_selection. intros Hr.
  apply run_bind_Ok in Hr as (w0 & c & Hc & Hr). injection Hc as <- Hc.
  apply run_bind_Ok in Hr as (w1 & [config path] & Hs & Hr). cbn beta iota zeta in Hr.
  apply run_bind_Ok in Hr as (w2 & u & Hh & Hr). apply run_bind_Ok in Hr as (w3 & path1 & Hl & Hr).
  injection Hr as <- <-. apply run_holocene in Hh as [Hf Ho].
  pose proof (rollup_saved _ _ _ _ _ Hs) as (_ & -> & _).
  pose proof (l1_saved _ _ _ _ Hl) as (-> & _ & _). by exists c, config, w1, w2.
Qed.

(** A start over files that are already there. *)
Lemma start_again sel c config json w :
  get_rpcs_from_env var = Ok c -> Ok (config, rollup_path config) = (run (fetch_and_save_rollup_config var c) w).2 ->
  rollup_config_to_json config = Ok json -> files w !! rollup_path config = Some (Some json) ->
  (exists text v, files w !! l1_path config = Some (Some text) /\ from_reader text = Ok v) ->
  exists w2, run (new_with_rollup_config_and_l1_selection var sel) w =
    (w2, Ok {| rpc_config := c; rollup_config := Some config; rollup_config_path := Some (rollup_path config);
               l1_config_path := Some (l1_path config); l1_selection := sel |}) /\ files w2 = files w.
Proof.
  intros Hc Hs Hj Hr Hl. destruct (run (fetch_and_save_rollup_config var c) w) as [w1 o] eqn:Hrun. cbn in Hs. subst o.
  pose proof (rollup_saved _ _ _ _ _ Hrun) as (_ & _ & json' & Hj' & Hw1).
  assert (Hf1 : files w1 = files w) by (rewrite Hw1; apply insert_id; congruence).
  destruct (run (if is_holocene_active config then mret tt else warn "Chain is not using Holocene hard fork") w1)
    as [w2 o] eqn:Hh.
  assert (Ho : o = Ok tt).
  { destruct (is_holocene_active config); [by injection Hh as _ <-|]. unfold warn in Hh. rewrite run_act in Hh. by injection Hh as _ <-. }
  subst o. pose proof (run_holocene _ _ _ _ Hh) as [Hf2 _]. exists w2. split; [|congruence].
  unfold new_with_rollup_config_and_l1_selection. apply run_bind_Ok. exists w, c. split; [by rewrite Hc|].
  apply run_bind_Ok. exists w1, (config, rollup_path config). split; [done|].
  apply run_bind_Ok. exists w2, tt. split; [done|]. apply run_bind_Ok. exists w2, (l1_path config). split; [|done].
  apply l1_again; [done|]. by rewrite Hf2, Hf1.
Qed.

(** The two files, in terms of what each part of a start wrote. *)
Lemma settled_files w w' w2 config json :
  l1_json_parses -> rollup_config_to_json config = Ok json -> rollup_path config <> l1_path config ->
  files w2 = <[rollup_path config := Some json]> (files w) ->
  match files w !! l1_path config with
  | Some content => w' = w2 /\ exists text v, content = Some text /\ from_reader text = Ok v
  | None => exists l1_config text, L1_CONFIGS (l1_chain_id config) = Some l1_config /\
      l1_config_to_json l1_config = Ok text /\
      files w' = <[l1_path config := Some text]> (<[rollup_path config := Some json]> (files w))
  end ->
  (exists text v, files w' !! l1_path config = Some (Some text) /\ from_reader text = Ok v) /\
  files w' !! rollup_path config = Some (Some json) /\ settled w w' config.
Proof.
  unfold settled. generalize (rollup_path config) as r. generalize (l1_path config) as l.
  intros l r Hparses Hj Hne Hw2 Hcase. destruct (files w !! l) as [content|] eqn:Hp.
  - destruct Hcase as (-> & text & v & -> & Hv). rewrite Hw2, lookup_insert_eq, lookup_insert_ne by done.
    split_and!; [by exists text, v|done|by exists json|done|]. intros path Hr _. by rewrite lookup_insert_ne.
  - destruct Hcase as (l1_config & text & Hc & Ht & ->).
    rewrite lookup_insert_eq, lookup_insert_ne, lookup_insert_eq by done. destruct (Hparses _ _ Ht) as (v & Hv).
    split_and!; [by exists text, v|done|by exists json|by exists l1_config, text|].
    intros path Hr Hl. by rewrite !lookup_insert_ne.
Qed.

Lemma start_outside sel w w' fetcher :
  run (new_with_rollup_config_and_l1_selection var sel) w = (w', Ok fetcher) -> outside w' = outside w.
Proof.
  intros Hstart. apply start_parts in Hstart as (c & config & w1 & w2 & _ & Hs & _ & Ho & Hl & _).
  pose proof (l1_saved _ _ _ _ Hl) as (_ & Ho' & _). pose proof (blind_rollup c w w eq_refl) as [_ Hw].
  rewrite Hs in Hw. cbn in Hw. congruence.
Qed.

(** C28: A start of the fetcher that succeeds has taken the rollup configuration from
    the registry, or from the node when the registry has none, and its file
    holds that configuration, whatever the file held before: unlike what the book
    says, a file of an earlier start is overwritten, not used. The file of the L1
    configuration is the one that was there, or the registry's; no other file has
    changed. Started again, while the nodes answer the same, it comes up the same
    and leaves the files as they are. *)
Theorem fetcher_start_settles sel w w' fetcher :
  run (new_with_rollup_config_and_l1_selection var sel) w = (w', Ok fetcher) -> l1_json_parses ->
  exists config, rollup_config fetcher = Some config /\ chain_config (rpc_config fetcher) w config /\
    rollup_config_path fetcher = Some (rollup_path config) /\ l1_config_path fetcher = Some (l1_path config) /\
    (rollup_path config <> l1_path config -> settled w w' config /\
     exists w2, run (new_with_rollup_config_and_l1_selection var sel) w' = (w2, Ok fetcher) /\ files w2 = files w').
Proof.
  intros Hstart Hparses. apply start_parts in Hstart as (c & config & w1 & w2 & Hc & Hs & Hf & Ho & Hl & ->).
  pose proof (rollup_saved _ _ _ _ _ Hs) as (Hconfig & _ & json & Hjson & Hw1).
  exists config. split_and!; [done..|]. intros Hne.
  pose proof (l1_saved _ _ _ _ Hl) as (_ & Ho' & Hcase). rewrite Hf, Hw1, lookup_insert_ne in Hcase by done.
  destruct (settled_files w w' w2 config json Hparses Hjson Hne) as (Hl1 & Hr' & Hsettled);
    [by rewrite Hf, Hw1|exact Hcase|]. split; [exact Hsettled|].
  assert (Hw : outside w1 = outside w) by (pose proof (blind_rollup c w w eq_refl) as [_ Hw]; by rewrite Hs in Hw).
    apply (start_again sel c config json w' Hc); [|done..].
    pose proof (blind_rollup c w w' ltac:(congruence)) as [Heq _]. by rewrite Hs in Heq.
Qed.
End laws.

(** ** A sample

    A chain of the registry whose node gives another configuration; the file of
    an earlier start has a third one, which is overwritten, and no file of the L1
    configuration is there yet. *)

Definition sample_config (n : Z) : CeloRollupConfig := {| op_rollup_config := n; cfg_espresso := None |}.

#[local] Instance sample_json : Json := {|
  Value := list Z;
  json_get _ v := match v with 0 :: r => Some r | _ => None end;
  json_index _ v := v;
  as_str := Some;
  as_u64 := head;
  string_from_value := Ok;
  rollup_config_from_value v := sample_config <$> with_context "missing field" (head v);
  rollup_config_to_json c := Ok [op_rollup_config c];
  l1_config_to_json c := Ok [c];
  from_reader := Ok;
  parse_U64 := head;
|}.

#[local] Instance sample_registry : Registry := {|
  ROLLUP_CONFIGS chain_id := if chain_id =? 42220 then Some (sample_config 13) else None;
  L1_CONFIGS chain_id := if chain_id =? 1 then Some 71 else None;
  FetcherSetup.l1_chain_id _ := 1;
  FetcherSetup.l2_chain_id _ := 42220;
  chain_to_string chain := if chain =? 42220 then codes "celo" else decimal chain;
  block_time _ := 1;
  l1_system_config_address _ := 77;
  fjord_max_sequencer_drift _ := 2892;
  set_fjord_max_sequencer_drift _ c := c;
  is_holocene_active _ := true;
|}.

#[local] Existing Instances sample_crypto sample_kona sample_parsers.

Definition setup_vars : string -> EnvVar :=
  sample_env [("L1_RPC", "http://l1"); ("L2_RPC", "http://l2"); ("L2_NODE_RPC", "http://node")]%string.

Definition sample_nodes (url : Z) (method : string) (params : list (list Z)) : outcome HttpResponse :=
  Ok {| status_ok := true;
        body := Ok (if String.eqb method "eth_chainId" then [42220]
                    else if String.eqb method "optimism_rollupConfig" then [14] else [0]) |}.

Definition sample_world (rpc : Rpc) : World := {|
  FetcherSetup.rpc := rpc;
  post := sample_nodes;
  files := {[ codes "configs/L1/5.json" := Some [1]; codes "configs/L2/celo.json" := Some [12] ]};
  can_create_dir _ := true;
  write_result _ := Written;
  warnings := [];
|}.

Notation sample_start :=
  (run (new_with_rollup_config_and_l1_selection setup_vars default_selection) (sample_world FetcherLaws.sample_rpc)).

Lemma sample_start_config :
  match sample_start.2 with Ok fetcher => rollup_config fetcher | _ => None end = Some (sample_config 13).
Proof. vm_compute. reflexivity. Qed.

Lemma fetcher_start_settles_witness :
  exists w' fetcher, sample_start = (w', Ok fetcher) /\ warnings sample_start.1 = ["Rollup config hash mismatch"%string] /\
    files sample_start.1 !! codes "configs/L2/celo.json" = Some (Some [13]) /\
    files sample_start.1 !! codes "configs/L1/1.json" = Some (Some [71]) /\
    files sample_start.1 !! codes "configs/L1/5.json" = Some (Some [1]) /\
    exists w2, run (new_with_rollup_config_and_l1_selection setup_vars default_selection) w' = (w2, Ok fetcher) /\
      files w2 = files w'.
Proof.
  pose proof sample_start_config as Hconfig.
  destruct sample_start as [w' [fetcher|e|]] eqn:Hrun; [|discriminate Hconfig..].
  exists w', fetcher. split; [reflexivity|]. cbn [snd] in Hconfig.
  destruct (fetcher_start_settles setup_vars default_selection (sample_world FetcherLaws.sample_rpc) w' fetcher Hrun) as
    (config & Hc & _ & _ & _ & Hs).
  { intros c json _. by exists json. }
  rewrite Hconfig in Hc. injection Hc as <-. destruct Hs as [_ Hagain]; [vm_compute; discriminate|].
  replace w' with sample_start.1 in * by by rewrite Hrun.
  split_and!; [..|exact Hagain]; clear; vm_compute; reflexivity.
Defined.
