(* ===== verification/Deployment.v ===== *)
(** * Configurations of the contracts

    [scripts/utils/bin/fetch_fault_dispute_game_config.rs] and
    [fetch_l2oo_config.rs] with [scripts/utils/src/config_common.rs]: the JSON
    files the contracts are deployed from, and the identity the proposers compare
    with what is deployed. Keys, their textual forms and JSON are parameters. *)

From S2P Require Import Prelude.
From S2P Require Import AggregationProgram.
From S2P Require Import Interleaving.
From S2P Require Import FaultTypes.
From S2P Require GameCache ProposerService ProposerTasks.
From S2P Require Oracle.
From S2P Require Import WitnessStore.
From S2P Require Import RangeProgram.
From S2P Require Import Fetcher.
From S2P Require Import FetcherLaws.
From S2P Require Import Settings.
From S2P Require Import FetcherSetup.
From S2P Require EstimatorLaws.

(** ** Hexadecimal *)

Definition hex_digit (n : Z) : Z := if n <? 10 then 48 + n else 87 + n.

(** [{:x}] of a fixed number of digits, as [B256] and [hex::encode] have. *)
Fixpoint hex_fixed (width : nat) (n : Z) : list Z :=
  match width with
  | O => []
  | S width => hex_fixed width (n / 16) ++ [hex_digit (n mod 16)]
  end.
Definition hex_word (n : Z) : list Z := codes "0x" ++ hex_fixed 64 n.

(** [{:x}] of a [u64]. *)
Fixpoint hex_ (fuel : nat) (n : Z) (after : list Z) : list Z :=
  match fuel with
  | O => after
  | S fuel => if n <? 16 then hex_digit n :: after else hex_ fuel (n / 16) (hex_digit (n mod 16) :: after)
  end.
Definition lower_hex (n : Z) : list Z := codes "0x" ++ hex_ 16 n [].

(** The word a string of 64 digits stands for, as the contracts read it. *)
Definition digit_value (c : Z) : option Z :=
  if (48 <=? c) && (c <=? 57) then Some (c - 48)
  else if (97 <=? c) && (c <=? 102) then Some (c - 87) else None.
Fixpoint digits_value (acc : Z) (s : list Z) : option Z :=
  match s with
  | [] => Some acc
  | c :: s => d ← digit_value c; digits_value (16 * acc + d) s
  end.
Definition word_of (s : list Z) : option Z :=
  match s with
  | 48 :: 120 :: digits => if (length digits =? 64)%nat then digits_value 0 digits else None
  | _ => None
  end.

Lemma digits_value_app acc s s' : digits_value acc (s ++ s') = (digits_value acc s ≫= fun n => digits_value n s').
Proof. revert acc. induction s as [|c s IH]; intros acc; cbn; [done|]. destruct (digit_value c); cbn; [apply IH|done]. Qed.

Lemma digit_value_hex n : 0 <= n < 16 -> digit_value (hex_digit n) = Some n.
Proof.
  intros Hn. unfold hex_digit. destruct (Z.ltb_spec n 10); unfold digit_value.
  - rewrite (proj2 (Z.leb_le 48 (48 + n))), (proj2 (Z.leb_le (48 + n) 57)) by lia. cbn. f_equal. lia.
  - rewrite (proj2 (Z.leb_gt (87 + n) 57)), andb_false_r by lia.
    rewrite (proj2 (Z.leb_le 97 (87 + n))), (proj2 (Z.leb_le (87 + n) 102)) by lia. cbn. f_equal. lia.
Qed.

Lemma hex_fixed_spec width n : 0 <= n < 16 ^ Z.of_nat width ->
  length (hex_fixed width n) = width /\ digits_value 0 (hex_fixed width n) = Some n.
Proof.
  revert n. induction width as [|width IH]; intros n Hn; cbn [hex_fixed].
  - cbn in Hn. split; [done|]. cbn. f_equal. lia.
  - rewrite Nat2Z.inj_succ, Z.pow_succ_r in Hn by lia.
    destruct (IH (n / 16)) as [Hl Hv]; [split; [apply Z.div_pos; lia|apply Z.div_lt_upper_bound; lia]|].
    rewrite length_app, digits_value_app, Hl, Hv. cbn -[Z.mul].
    rewrite digit_value_hex by (apply Z.mod_pos_bound; lia). cbn -[Z.mul]. split; [lia|]. f_equal.
    pose proof (Z.div_mod n 16). lia.
Qed.

(** A word that is written out is read back. *)
Lemma word_of_hex n : is_u256 n -> word_of (hex_word n) = Some n.
Proof.
  intros Hn. unfold is_u256, u256_max in Hn. destruct (hex_fixed_spec 64 n) as [Hl Hv]; [cbn; lia|].
  unfold hex_word. change (codes "0x") with [48; 120]. cbn [app word_of]. by rewrite Hl.
Qed.

(** The number minimal digits stand for, as a node reads a quantity. *)
Definition number_of (s : list Z) : option Z :=
  match s with 48 :: 120 :: ((_ :: _) as digits) => digits_value 0 digits | _ => None end.

Lemma hex_spec fuel n after : 0 <= n < 16 ^ Z.of_nat (S fuel) ->
  exists digits, hex_ (S fuel) n after = digits ++ after /\ digits <> [] /\ digits_value 0 digits = Some n.
Proof.
  revert n after. induction fuel as [|fuel IH]; intros n after Hn; cbn [hex_].
  - cbn in Hn. destruct (Z.ltb_spec n 16); [|lia]. exists [hex_digit n].
    cbn -[Z.mul]. rewrite digit_value_hex by lia. by split_and!.
  - destruct (Z.ltb_spec n 16).
    { exists [hex_digit n]. cbn -[Z.mul]. rewrite digit_value_hex by lia. by split_and!. }
    rewrite Nat2Z.inj_succ, Z.pow_succ_r in Hn by lia.
    destruct (IH (n / 16) (hex_digit (n mod 16) :: after)) as (digits & Hd & Hne & Hv);
      [split; [apply Z.div_pos; lia|apply Z.div_lt_upper_bound; lia]|].
    exists (digits ++ [hex_digit (n mod 16)]). split_and!.
    + rewrite <- app_assoc. exact Hd.
    + by destruct digits.
    + rewrite digits_value_app, Hv. cbn -[Z.mul]. rewrite digit_value_hex by (apply Z.mod_pos_bound; lia).
      cbn -[Z.mul]. f_equal. pose proof (Z.div_mod n 16). lia.
Qed.

Lemma number_of_hex n : is_u64 n -> number_of (lower_hex n) = Some n.
Proof.
  intros Hn. unfold is_u64, u64_max in Hn. destruct (hex_spec 15 n []) as (digits & Hd & Hne & Hv); [cbn; lia|].
  unfold lower_hex. rewrite Hd, app_nil_r. destruct digits as [|d digits]; [done|].
  change (codes "0x") with [48; 120]. exact Hv.
Qed.

Arguments number_of : simpl never.
Arguments word_of : simpl never.
Arguments hex_word : simpl never.

(** ** Parameters *)

(** The embedded programs' keys, as SP1 sets them up and writes them, and the
    textual forms of addresses. *)
Class Keys := {
  agg_vkey : outcome Z;
  range_vkey : outcome Z;
  bytes32 : Z -> list Z;
  bytes32_raw : Z -> Z;
  hash_bytes : Z -> Z;
  address_to_string : Z -> list Z;  (** [Display] of an [Address] *)
  address_debug : Z -> list Z;      (** its [Debug] form, [{:?}] *)
  private_key_address : Z -> Z;
}.

Definition ZERO_ADDRESS : string := "0x0000000000000000000000000000000000000000".
Definition TWO_WEEKS_IN_SECONDS : Z := 14 * 24 * 60 * 60.

Record SharedConfigData := {
  shared_rollup_config_hash : list Z;
  shared_aggregation_vkey : list Z;
  shared_range_vkey_commitment : list Z;
  shared_verifier_address : list Z;
  shared_use_sp1_mock_verifier : bool;
}.

Record FaultDisputeGameConfig := {
  activate_contracts : bool;
  aggregation_vkey : list Z;
  anchor_state_registry_address : list Z;
  celo_superchain_config_address : list Z;
  challenger_addresses : list (list Z);
  challenger_bond_wei : Z;
  configure_contracts : bool;
  dispute_game_factory_address : list Z;
  dispute_game_finality_delay_seconds : Z;
  existing_anchor_state_registry : list Z;
  existing_dispute_game_factory_proxy : list Z;
  fallback_timeout_fp_secs : Z;
  game_type : Z;
  initial_bond_wei : Z;
  max_challenge_duration : Z;
  max_prove_duration : Z;
  optimism_portal2_address : list Z;
  permissionless_mode : bool;
  proposer_addresses : list (list Z);
  range_vkey_commitment : list Z;
  rollup_config_hash : list Z;
  starting_l2_block_number : Z;
  starting_root : list Z;
  system_config_address : list Z;
  use_sp1_mock_verifier : bool;
  verifier_address : list Z;
}.

Record L2OOConfig := {
  l2oo_aggregation_vkey : list Z;
  l2oo_challenger : list Z;
  fallback_timeout_secs : Z;
  finalization_period : Z;
  l2_block_time : Z;
  op_succinct_l2_output_oracle_impl : list Z;
  l2oo_owner : list Z;
  l2oo_proposer : list Z;
  proxy_admin : list Z;
  l2oo_range_vkey_commitment : list Z;
  l2oo_rollup_config_hash : list Z;
  starting_block_number : Z;
  starting_output_root : list Z;
  starting_timestamp : Z;
  submission_interval : Z;
  l2oo_verifier : list Z;
}.

Class ConfigJson := {
  fdg_to_json : FaultDisputeGameConfig -> outcome (list Z);
  l2oo_to_json : L2OOConfig -> outcome (list Z);
}.

(** ** [config_common.rs] *)

Section common.
Context `{WitnessCrypto, !Kona, Json, Registry, Parsers, Keys} (var : string -> EnvVar).

Definition get_address (env_var : string) (private_key_by_default : bool) : outcome (list Z) :=
  match get var env_var with
  | Some addr => Ok addr
  | None =>
      match (if private_key_by_default then get var "PRIVATE_KEY" else None) with
      | Some pk => signer ← unwrap (parse_private_key pk); Ok (address_to_string (private_key_address signer))
      | None => Ok (codes ZERO_ADDRESS)
      end
  end.

Definition parse_addresses (env_var : string) : list (list Z) :=
  filter (fun s => s <> []) (trim <$> split_at 44 (get_or var env_var "")).

Definition get_shared_config_data (f : DataFetcher) : outcome SharedConfigData :=
  let use_sp1_mock_verifier := default false (parse_bool (get_or var "OP_SUCCINCT_MOCK" "false")) in
  let verifier_address := get_or var "VERIFIER_ADDRESS" "0x3B6041173B80E77f038f3F2C0f9744f04837185e" in
  rollup_config ← unwrap (rollup_config f);
  hash ← hash_rollup_config rollup_config;
  agg_vkey ← agg_vkey;
  range_vkey ← range_vkey;
  Ok {| shared_rollup_config_hash := hex_word hash;
        shared_aggregation_vkey := bytes32 agg_vkey;
        shared_range_vkey_commitment := hex_word (hash_bytes range_vkey);
        shared_verifier_address := verifier_address;
        shared_use_sp1_mock_verifier := use_sp1_mock_verifier |}.

(** [Path::parent] of a path that does not end in a slash. *)
Fixpoint upto_last_slash (s : list Z) : option (list Z) :=
  match s with
  | [] => None
  | c :: s =>
      match upto_last_slash s with
      | Some dir => Some (c :: dir)
      | None => if c =? 47 then Some [] else None
      end
  end.
Definition parent (path : list Z) : list Z :=
  match upto_last_slash path with Some [] => [47] | Some dir => dir | None => [] end.

Definition write_config_file {T} (to_json : T -> outcome (list Z)) (config : T) (file_path : list Z) : prog World unit :=
  _ ← create_dir_all (parent file_path);
  json ← done (to_json config);
  write file_path json.

(** [env::var(key).unwrap_or(default).parse().unwrap()] *)
Definition parsed_or {A} (parse : list Z -> option A) (key default_ : string) : outcome A :=
  unwrap (parse (get_or var key default_)).
(** [env::var(key).map(|p| p.parse().unwrap()).unwrap_or(default)] *)
Definition u64_or_default (key : string) (default_ : Z) : outcome Z :=
  match get var key with Some s => unwrap (parse_u64 s) | None => Ok default_ end.

(** The first block of a deployment: the one that is asked for, or the finalized
    one less those of a number of seconds. *)
Definition starting_block (key : string) (seconds block_time : Z) : prog World Z :=
  match get var key with
  | Some n => done (unwrap (parse_u64 n))
  | None =>
      header ← within rpc with_rpc (get_l2_header Finalized);
      let finalized_l2_block_number := number header in
      num_blocks_for_finality ← done (if block_time =? 0 then Panic else Ok (seconds / block_time));
      if finalized_l2_block_number <=? num_blocks_for_finality then
        done (Err "finalized L2 block too low for finality window")
      else mret (saturating_sub finalized_l2_block_number num_blocks_for_finality)
  end.

Definition output_at_block (f : DataFetcher) (n : Z) : prog World Value :=
  fetch_rpc_data_with_mode Ok (rpc_config f) RpcL2Node "optimism_outputAtBlock" [lower_hex n].
End common.

(** ** The two scripts *)

Section scripts.
Context `{WitnessCrypto, !Kona, Json, Registry, Parsers, Keys, ConfigJson}.
Context (var : string -> EnvVar) (workspace_root : list Z).

Definition fdg_config_path : list Z :=
  default (path_join (path_join workspace_root (codes "contracts")) (codes "opsuccinctfdgconfig.json"))
    (get var "OP_SUCCINCT_FAULT_DISPUTE_GAME_CONFIG_PATH").
Definition l2oo_config_path : list Z :=
  default (path_join (path_join workspace_root (codes "contracts")) (codes "opsuccinctl2ooconfig.json"))
    (get var "OP_SUCCINCT_L2_OUTPUT_ORACLE_CONFIG_PATH").

(** How both scripts begin. *)
Definition load_shared_config : prog World (DataFetcher * SharedConfigData) :=
  selection ← done (from_env (var "L1_BLOCK_TAG") (var "L1_CONFIRMATIONS"));
  data_fetcher ← new_with_rollup_config_and_l1_selection var selection;
  _ ← within rpc with_rpc (validate_l1_selection (l1_selection data_fetcher));
  shared_config ← done (get_shared_config_data var data_fetcher);
  mret (data_fetcher, shared_config).

Definition update_fdg_config : prog World unit :=
  loaded ← load_shared_config;
  let '(data_fetcher, shared_config) := loaded in
  game_type ← done (parsed_or var (parse_uint u32_max) "GAME_TYPE" "42");
  activate_contracts ← done (parsed_or var parse_bool "ACTIVATE_CONTRACTS" "false");
  configure_contracts ← done (parsed_or var parse_bool "CONFIGURE_CONTRACTS" "true");
  dispute_game_finality_delay_seconds ← done (parsed_or var parse_u64 "DISPUTE_GAME_FINALITY_DELAY_SECONDS" "604800");
  max_challenge_duration ← done (parsed_or var parse_u64 "MAX_CHALLENGE_DURATION" "604800");
  max_prove_duration ← done (parsed_or var parse_u64 "MAX_PROVE_DURATION" "86400");
  fallback_timeout_fp_secs ← done (u64_or_default var "FALLBACK_TIMEOUT_FP_SECS" TWO_WEEKS_IN_SECONDS);
  initial_bond_wei ← done (parsed_or var parse_u64 "INITIAL_BOND_WEI" "1000000000000000");
  challenger_bond_wei ← done (parsed_or var parse_u64 "CHALLENGER_BOND_WEI" "1000000000000000");
  permissionless_mode ← done (parsed_or var parse_bool "PERMISSIONLESS_MODE" "false");
  rollup_config ← done (with_context "Rollup config not found" (rollup_config data_fetcher));
  starting_l2_block_number ← starting_block var "STARTING_L2_BLOCK_NUMBER" dispute_game_finality_delay_seconds
                               (block_time rollup_config);
  optimism_output_data ← output_at_block data_fetcher starting_l2_block_number;
  starting_output_root ← done (unwrap (as_str (json_index "outputRoot" optimism_output_data)));
  let address_or_zero key := get_or var key ZERO_ADDRESS in
  write_config_file fdg_to_json {|
    activate_contracts := activate_contracts;
    aggregation_vkey := shared_aggregation_vkey shared_config;
    anchor_state_registry_address := address_or_zero "ANCHOR_STATE_REGISTRY_ADDRESS"%string;
    celo_superchain_config_address := address_or_zero "CELO_SUPERCHAIN_CONFIG_ADDRESS"%string;
    challenger_addresses := if permissionless_mode : bool then [] else parse_addresses var "CHALLENGER_ADDRESSES";
    challenger_bond_wei := challenger_bond_wei;
    configure_contracts := configure_contracts;
    dispute_game_factory_address := address_or_zero "DISPUTE_GAME_FACTORY_ADDRESS"%string;
    dispute_game_finality_delay_seconds := dispute_game_finality_delay_seconds;
    existing_anchor_state_registry := address_or_zero "EXISTING_ANCHOR_STATE_REGISTRY"%string;
    existing_dispute_game_factory_proxy := address_or_zero "EXISTING_DISPUTE_GAME_FACTORY_PROXY"%string;
    fallback_timeout_fp_secs := fallback_timeout_fp_secs;
    game_type := game_type;
    initial_bond_wei := initial_bond_wei;
    max_challenge_duration := max_challenge_duration;
    max_prove_duration := max_prove_duration;
    optimism_portal2_address := address_or_zero "OPTIMISM_PORTAL2_ADDRESS"%string;
    permissionless_mode := permissionless_mode;
    proposer_addresses := if permissionless_mode : bool then [] else parse_addresses var "PROPOSER_ADDRESSES";
    range_vkey_commitment := shared_range_vkey_commitment shared_config;
    rollup_config_hash := shared_rollup_config_hash shared_config;
    starting_l2_block_number := starting_l2_block_number;
    starting_root := starting_output_root;
    system_config_address :=
      default (address_debug (l1_system_config_address rollup_config)) (get var "SYSTEM_CONFIG_ADDRESS");
    use_sp1_mock_verifier := shared_use_sp1_mock_verifier shared_config;
    verifier_address := shared_verifier_address shared_config |} fdg_config_path.

Definition DEFAULT_FINALIZATION_PERIOD_SECS : Z := 60 * 60.

Definition update_l2oo_config : prog World unit :=
  loaded ← load_shared_config;
  let '(data_fetcher, shared_config) := loaded in
  rollup_config ← done (unwrap (rollup_config data_fetcher));
  let l2_block_time := block_time rollup_config in
  submission_interval ← done (u64_or_default var "SUBMISSION_INTERVAL" 10);
  finalization_period ← done (u64_or_default var "FINALIZATION_PERIOD_SECS" DEFAULT_FINALIZATION_PERIOD_SECS);
  proposer ← done (get_address var "PROPOSER" true);
  owner ← done (get_address var "OWNER" true);
  challenger ← done (get_address var "CHALLENGER" true);
  proxy_admin ← done (get_address var "PROXY_ADMIN" false);
  op_succinct_l2_output_oracle_impl ← done (get_address var "OP_SUCCINCT_L2_OUTPUT_ORACLE_IMPL" false);
  fallback_timeout_secs ← done (u64_or_default var "FALLBACK_TIMEOUT_SECS" TWO_WEEKS_IN_SECONDS);
  starting_block_number ← starting_block var "STARTING_BLOCK_NUMBER" finalization_period l2_block_time;
  optimism_output_data ← output_at_block data_fetcher starting_block_number;
  starting_output_root ← done (unwrap (as_str (json_index "outputRoot" optimism_output_data)));
  starting_timestamp ← done (unwrap (as_u64 (json_index "timestamp" (json_index "blockRef" optimism_output_data))));
  write_config_file l2oo_to_json {|
    l2oo_aggregation_vkey := shared_aggregation_vkey shared_config;
    l2oo_challenger := challenger;
    fallback_timeout_secs := fallback_timeout_secs;
    finalization_period := finalization_period;
    l2_block_time := l2_block_time;
    op_succinct_l2_output_oracle_impl := op_succinct_l2_output_oracle_impl;
    l2oo_owner := owner;
    l2oo_proposer := proposer;
    proxy_admin := proxy_admin;
    l2oo_range_vkey_commitment := shared_range_vkey_commitment shared_config;
    l2oo_rollup_config_hash := shared_rollup_config_hash shared_config;
    starting_block_number := starting_block_number;
    starting_output_root := starting_output_root;
    starting_timestamp := starting_timestamp;
    submission_interval := submission_interval;
    l2oo_verifier := shared_verifier_address shared_config |} l2oo_config_path.
End scripts.

(** ** What is deployed is what the proposers expect *)

Section identity.
Context `{WitnessCrypto, !Kona, Json, Registry, Parsers, Keys, ConfigJson}.
Context (var : string -> EnvVar) (workspace_root : list Z).

(** [OPSuccinctProposer::new] of fault-proof/src/proposer.rs: the identity of the
    programs it proves with. *)
Definition proposer_identity (f : DataFetcher) : outcome GameCache.ProposerIdentity :=
  agg_vk ← agg_vkey;
  range_vk ← range_vkey;
  rollup_config ← with_context "rollup_config required for identity" (rollup_config f);
  rollup_config_hash ← hash_rollup_config rollup_config;
  Ok {| GameCache.id_aggregation_vkey := bytes32_raw agg_vk;
        GameCache.id_range_vkey_commitment := hash_bytes range_vk;
        GameCache.id_rollup_config_hash := rollup_config_hash |}.

(** Hashes are words, and SP1 writes a key as the hexadecimal digits of its hash. *)
Record words : Prop := {
  sha256_word : forall s, is_u256 (sha256 s);
  hash_bytes_word : forall vk, is_u256 (hash_bytes vk);
  bytes32_word : forall vk, is_u256 (bytes32_raw vk);
  bytes32_hex : forall vk, bytes32 vk = hex_word (bytes32_raw vk);
}.

Lemma run_still_within {A} (p : Fetch A) w : guar still p ->
  run (within rpc with_rpc p) w = (w, (run p (rpc w)).2).
Proof.
  intros Hp. rewrite (run_within rpc with_rpc); [|by intros []|done|done].
  rewrite run_still by done. by destruct w.
Qed.

Lemma shared_is_identity f shared : words -> get_shared_config_data var f = Ok shared ->
  exists identity, proposer_identity f = Ok identity /\
    word_of (shared_aggregation_vkey shared) = Some (GameCache.id_aggregation_vkey identity) /\
    word_of (shared_range_vkey_commitment shared) = Some (GameCache.id_range_vkey_commitment identity) /\
    word_of (shared_rollup_config_hash shared) = Some (GameCache.id_rollup_config_hash identity).
Proof.
  intros Hw. unfold get_shared_config_data, proposer_identity. intros Hs. ok_inv. subst shared. cbn.
  match goal with E : unwrap (rollup_config f) = Ok ?c |- _ =>
    rename c into config; assert (Hc : rollup_config f = Some config) by (revert E; destruct (rollup_config f); [by intros [= ->]|done]) end.
  rewrite Hc.
  match goal with E : agg_vkey = Ok _ |- _ => rewrite E end.
  match goal with E : range_vkey = Ok _ |- _ => rewrite E end. cbn.
  match goal with E : hash_rollup_config config = Ok ?x |- _ => rename E into Hh; rename x into h end.
  rewrite Hh. cbn. eexists. split; [done|]. cbn. rewrite (bytes32_hex Hw).
  split_and!; apply word_of_hex; [apply (bytes32_word Hw)|apply (hash_bytes_word Hw)|].
  unfold hash_rollup_config in Hh. ok_inv. subst h. apply (sha256_word Hw).
Qed.

Lemma load_parts w w' f shared :
  run (load_shared_config var) w = (w', Ok (f, shared)) ->
  exists sel, run (new_with_rollup_config_and_l1_selection var sel) w = (w', Ok f) /\
    get_shared_config_data var f = Ok shared.
Proof.
  unfold load_shared_config. intros Hr.
  apply run_bind_Ok in Hr as (w0 & sel & Hsel & Hr). injection Hsel as <- _.
  apply run_bind_Ok in Hr as (w1 & f' & Hf & Hr). apply run_bind_Ok in Hr as (w2 & u & Hv & Hr).
  rewrite run_still_within in Hv by apply EstimatorLaws.guar_validate. injection Hv as <- _.
  apply run_bind_Ok in Hr as (w3 & sh & Hs & Hr). injection Hs as <- Hs. injection Hr as <- <- <-.
  by exists sel.
Qed.

Lemma starting_block_spec key seconds bt w w' n :
  run (starting_block var key seconds bt) w = (w', Ok n) ->
  w' = w /\
  match get var key with
  | Some s => parse_u64 s = Some n
  | None => exists block, l2_get_block (rpc w) Finalized = Ok (Some block) /\ bt <> 0 /\ 0 < n /\
      n + seconds / bt = number (header block)
  end.
Proof.
  unfold starting_block. destruct (get var key) as [s|]; intros Hr.
  - injection Hr as <- Hp. split; [done|]. by destruct (parse_u64 s); simplify_eq/=.
  - apply run_bind_Ok in Hr as (w1 & h & Hh & Hr).
    rewrite run_still_within in Hh by apply EstimatorLaws.guar_l2_header.
    destruct (run (get_l2_header Finalized) (rpc w)) as [m o] eqn:E. injection Hh as <- Ho. cbn in Ho. subst o.
    unfold get_l2_header in E. apply run_bind_Ok in E as (m1 & b & Hb & E). rewrite run_call in Hb. injection Hb as <- Hb.
    injection E as _ E. destruct b as [block|]; [|done]. injection E as <-.
    destruct (Z.eqb_spec bt 0) as [|Hbt]; [done|].
    apply run_bind_Ok in Hr as (w1 & k & Hk & Hr). injection Hk as <- <-.
    destruct (Z.leb_spec (number (header block)) (seconds / bt)) as [|Hlt]; [done|].
    injection Hr as <- <-. split; [done|]. exists block. unfold saturating_sub. split_and!; [done|done|lia..].
Qed.

Lemma config_written {T} (to_json : T -> outcome (list Z)) config path w w' u :
  run (write_config_file to_json config path) w = (w', Ok u) ->
  exists json, to_json config = Ok json /\ files w' = <[path := Some json]> (files w).
Proof.
  unfold write_config_file. intros Hr. apply run_bind_Ok in Hr as (w1 & [] & Hd & Hr).
  unfold create_dir_all, asks in Hd. rewrite run_act in Hd. injection Hd as <- _.
  apply run_bind_Ok in Hr as (w1 & json & Hj & Hr). injection Hj as <- Hj. exists json.
  by apply run_write in Hr as [-> _].
Qed.

(** The node of the fetcher is asked for the output at exactly this block, and its
    answer is no error. *)
Definition output_of (f : DataFetcher) (w : World) (n : Z) (output : Value) : Prop :=
  exists block response answer,
    post w (l2_node_rpc (rpc_config f)) "optimism_outputAtBlock" [block] = Ok response /\
    (is_u64 n -> number_of block = Some n) /\ body response = Ok answer /\
    json_get "error" answer = None /\ json_index "result" answer = output.

Lemma output_asked f n w output : (run (output_at_block f n) w).2 = Ok output -> output_of f w n output.
Proof.
  destruct (run (output_at_block f n) w) as [w' o] eqn:Hr. cbn. intros ->.
  apply run_bind_Ok in Hr as (w1 & url & [= <- <-] & Hr). unfold fetch_rpc_data, asks in Hr.
  apply run_bind_Ok in Hr as (w1 & response & Hp & Hr). rewrite run_act in Hp. injection Hp as <- Hp.
  apply run_bind_Ok in Hr as (w1 & answer & [= <- Hb] & Hr).
  destruct (json_get "error" answer) eqn:He; [done|]. injection Hr as _ Ho.
  exists (lower_hex n), response, answer. split_and!; try done. apply number_of_hex.
Qed.

Lemma blind_output f n : blind (output_at_block f n).
Proof.
  unfold output_at_block, fetch_rpc_data_with_mode. apply blind_bind; [apply blind_done|intros url; apply blind_fetch].
Qed.
Lemma output_keeps f n w : (run (output_at_block f n) w).1 = w.
Proof. apply fetch_keeps. Qed.

(** What is known of a configuration whose [starting_block] succeeded. *)
Definition started_at (key : string) (seconds : Z) (f : DataFetcher) (w : World) (n : Z) : Prop :=
  match get var key with
  | Some s => parse_u64 s = Some n
  | None => exists config block, rollup_config f = Some config /\ l2_get_block (rpc w) Finalized = Ok (Some block) /\
      0 < n /\ n + seconds / block_time config = number (header block)
  end.

(** The fields of a dispute game configuration that was written. *)
Lemma fdg_written w w' : run (update_fdg_config var workspace_root) w = (w', Ok tt) ->
  exists sel w1 f shared config json, run (new_with_rollup_config_and_l1_selection var sel) w = (w1, Ok f) /\
    get_shared_config_data var f = Ok shared /\ fdg_to_json config = Ok json /\
    files w' = <[fdg_config_path var workspace_root := Some json]> (files w1) /\
    aggregation_vkey config = shared_aggregation_vkey shared /\
    range_vkey_commitment config = shared_range_vkey_commitment shared /\
    rollup_config_hash config = shared_rollup_config_hash shared /\
    started_at "STARTING_L2_BLOCK_NUMBER" (dispute_game_finality_delay_seconds config) f w
      (starting_l2_block_number config) /\
    exists output, (run (output_at_block f (starting_l2_block_number config)) w).2 = Ok output /\
      as_str (json_index "outputRoot" output) = Some (starting_root config).
Proof.
  unfold update_fdg_config. intros Hr.
  apply run_bind_Ok in Hr as (w1 & [f shared] & Hload & Hr). cbn beta iota zeta in Hr.
  apply load_parts in Hload as (sel & Hf & Hshared).
  pose proof (start_outside var sel w w1 f Hf) as Hout.
  do 11 (apply run_bind_Ok in Hr as (? & ? & [= <- ?] & Hr)).
  apply run_bind_Ok in Hr as (w2 & n & Hn & Hr). apply starting_block_spec in Hn as [-> Hn].
  apply run_bind_Ok in Hr as (w3 & output & Ho & Hr). pose proof (output_keeps f n w1) as Hw3.
  rewrite Ho in Hw3. cbn in Hw3. subst w3.
  apply run_bind_Ok in Hr as (? & root & [= <- Hroot] & Hr).
  apply config_written in Hr as (json & Hj & Hfiles).
  eexists sel, w1, f, shared, _, json. split_and!; [done|done|exact Hj|done|done|done|done| |]; cbn.
  - unfold started_at. destruct (get var "STARTING_L2_BLOCK_NUMBER"); [done|].
    destruct Hn as (block & Hb & _ & Hpos & Hsum).
    match goal with E : with_context _ (rollup_config f) = Ok ?c |- _ => apply with_context_Ok in E; exists c, block end.
    unfold outside in Hout. injection Hout as Hrpc _ _ _. rewrite Hrpc in Hb. by split_and!.
  - exists output. split; [|by destruct (as_str _); simplify_eq/=].
    pose proof (proj1 (blind_output f n w1 w Hout)) as Heq. rewrite Ho in Heq. exact (eq_sym Heq).
Qed.

(** C25: The configuration a deployment of the dispute game is written with names the
    programs and the rollup configuration of the proposers of this build: a
    proposer that starts on the same files has the identity it names, so with the
    contracts deployed from it the on-chain keys match. It starts at the block
    STARTING_L2_BLOCK_NUMBER asks for, whatever that is; without this variable at
    a block after genesis that is the finality delay's number of blocks behind
    the finalized one. Its root is the [outputRoot] with which the op-node answers
    [optimism_outputAtBlock] for exactly that block. *)
Theorem deployed_keys_match w w' :
  words -> run (update_fdg_config var workspace_root) w = (w', Ok tt) ->
  exists sel w1 f identity config json,
    run (new_with_rollup_config_and_l1_selection var sel) w = (w1, Ok f) /\ proposer_identity f = Ok identity /\
    fdg_to_json config = Ok json /\
    files w' = <[fdg_config_path var workspace_root := Some json]> (files w1) /\
    (forall `{L1Rpc} (c : ProposerService.ProposerConfig) impl,
      game_impl (ProposerService.cfg_game_type c) = Ok impl ->
      Some <$> aggregationVkey impl AtLatest = Ok (word_of (aggregation_vkey config)) ->
      Some <$> rangeVkeyCommitment impl AtLatest = Ok (word_of (range_vkey_commitment config)) ->
      Some <$> rollupConfigHash impl AtLatest = Ok (word_of (rollup_config_hash config)) ->
      ProposerTasks.on_chain_vkeys_match c identity = Ok true) /\
    started_at "STARTING_L2_BLOCK_NUMBER" (dispute_game_finality_delay_seconds config) f w
      (starting_l2_block_number config) /\
    exists output, output_of f w (starting_l2_block_number config) output /\
      as_str (json_index "outputRoot" output) = Some (starting_root config).
Proof.
  intros Hw Hr. destruct (fdg_written w w' Hr) as (sel & w1 & f & shared & config & json & Hf & Hs & Hj & Hfiles & Ha & Hrg & Hro & Hstart).
  destruct (shared_is_identity f shared Hw Hs) as (identity & Hid & Hwa & Hwr & Hwc).
  destruct Hstart as (Hstart & output & Hout & Hroot). apply output_asked in Hout.
  exists sel, w1, f, identity, config, json. split_and!; [done..| |exact Hstart|by exists output].
  intros L1 c impl Himpl. rewrite Ha, Hrg, Hro, Hwa, Hwr, Hwc. intros Hka Hkr Hkc.
  unfold ProposerTasks.on_chain_vkeys_match. rewrite Himpl. cbn.
  destruct (aggregationVkey impl AtLatest) as [agg|e|]; [|done..].
  destruct (rangeVkeyCommitment impl AtLatest) as [range|e|]; [|done..].
  destruct (rollupConfigHash impl AtLatest) as [rollup|e|]; [|done..].
  injection Hka as ->. injection Hkr as ->. injection Hkc as ->. cbn. by rewrite !Z.eqb_refl.
Qed.
End identity.

(** ** A sample *)

#[local] Existing Instances sample_kona sample_json sample_registry sample_parsers.

#[local] Instance word_crypto : WitnessCrypto := {|
  keccak256 := @keccak256 sample_crypto; sha256 s := Oracle.from_be s mod 2 ^ 256;
  key_new := @key_new sample_crypto;
  key_type := @key_type sample_crypto;
  kzg_to_versioned_hash := @kzg_to_versioned_hash sample_crypto;
  blob_from_slice := @blob_from_slice sample_crypto;
  verify_blob_kzg_proof_batch := @verify_blob_kzg_proof_batch sample_crypto;
  compute_commitment := @compute_commitment sample_crypto;
  compute_blob_kzg_proof := @compute_blob_kzg_proof sample_crypto;
|}.

#[local] Instance sample_keys : Keys := {|
  agg_vkey := Ok 3;
  range_vkey := Ok 4;
  bytes32 vk := hex_word (vk mod 2 ^ 256);
  bytes32_raw vk := vk mod 2 ^ 256;
  hash_bytes vk := vk mod 2 ^ 256;
  address_to_string a := lower_hex a;
  address_debug a := lower_hex a;
  private_key_address k := k;
|}.

#[local] Instance sample_config_json : ConfigJson := {|
  fdg_to_json c := Ok (rollup_config_hash c ++ [starting_l2_block_number c] ++ starting_root c);
  l2oo_to_json c := Ok (l2oo_rollup_config_hash c);
|}.

Definition deploy_vars : string -> EnvVar :=
  sample_env [("L1_RPC", "http://l1"); ("L2_RPC", "http://l2"); ("L2_NODE_RPC", "http://node");
              ("DISPUTE_GAME_FINALITY_DELAY_SECONDS", "25")]%string.
Definition deploy_nodes (url : Z) (method : string) (params : list (list Z)) : outcome HttpResponse :=
  if String.eqb method "optimism_outputAtBlock" then Ok {| status_ok := true; body := Ok [5; 6] |}
  else sample_nodes url method params.
Definition deploy_world : World := {|
  FetcherSetup.rpc := sample_rpc; post := deploy_nodes; files := ∅; can_create_dir _ := true;
  write_result _ := Written; warnings := [] |}.

Lemma sample_words : words.
Proof.
  assert (Hb : forall n, is_u256 (n mod 2 ^ 256)) by (intros n; pose proof (Z.mod_pos_bound n (2 ^ 256)); unfold is_u256, u256_max; lia).
  split; intros; [apply Hb..|reflexivity].
Qed.

Notation sample_deploy := (run (update_fdg_config deploy_vars []) deploy_world).

Lemma sample_deployed : sample_deploy.2 = Ok tt.
Proof. vm_compute. reflexivity. Qed.

Lemma deployed_keys_match_witness :
  exists identity config json w', sample_deploy = (w', Ok tt) /\
    files w' !! codes "contracts/opsuccinctfdgconfig.json" = Some (Some json) /\
    fdg_to_json config = Ok json /\
    (forall `{L1Rpc} (c : ProposerService.ProposerConfig) impl,
      game_impl (ProposerService.cfg_game_type c) = Ok impl ->
      Some <$> aggregationVkey impl AtLatest = Ok (word_of (aggregation_vkey config)) ->
      Some <$> rangeVkeyCommitment impl AtLatest = Ok (word_of (range_vkey_commitment config)) ->
      Some <$> rollupConfigHash impl AtLatest = Ok (word_of (rollup_config_hash config)) ->
      ProposerTasks.on_chain_vkeys_match c identity = Ok true).
Proof.
  pose proof sample_deployed as Hd. destruct sample_deploy as [w' o] eqn:Hrun. cbn in Hd. subst o.
  destruct (deployed_keys_match deploy_vars [] deploy_world w' sample_words Hrun) as
    (sel & w1 & f & identity & config & json & _ & _ & Hj & Hfiles & Hmatch & _).
  exists identity, config, json, w'. split_and!; [done| |done|exact Hmatch].
  rewrite Hfiles. apply lookup_insert_eq.
Defined.

(** The hash of configuration 13, twenty-five blocks below the finalized one, and
    the output root of that block. *)
Example sample_deployment :
  files sample_deploy.1 !! codes "contracts/opsuccinctfdgconfig.json" = Some (Some (hex_word 13 ++ [155; 5; 6])).
Proof. vm_compute. reflexivity. Qed.
