(* ===== verification/ProvingScripts.v ===== *)
(** * The proving scripts

    [scripts/prove/bin/multi-and-agg.rs] proves a span of blocks as several
    ranges at once and aggregates the proofs; [multi.rs] proves or executes one
    range, and [agg.rs] aggregates saved proofs. With them the network prover's
    set-up in [utils/host/src/network.rs], [get_range_proof_stdin] of
    [utils/host/src/proof.rs], [utils/host/src/proof_cache.rs] and the blocking
    calls of [utils/proof/src/lib.rs].

    SP1's client and the files are parameters or parts of the state. The range
    proofs of [multi-and-agg] run beside each other, and the nodes move on
    between any two of their actions. *)

From S2P Require Import Prelude.
From S2P Require Import AggregationProgram.
From S2P Require Import RangeSplit.
From S2P Require Import ValidityRanges.
From S2P Require Import Interleaving.
From S2P Require Import RequestDb.
From S2P Require Import ValidityTypes.
From S2P Require Import ProofRequester.
From S2P Require Import Fetcher.
From S2P Require Import Settings.
From S2P Require Import Estimator.

(** ** SP1 *)

(** What a proof request tells the network; [None] leaves a setting to SP1. *)
Record ProveRequest := {
  rq_program : RequestType;
  rq_stdin : SP1Stdin;
  rq_strategy : option FulfillmentStrategy;
  rq_mode : option SP1ProofMode;
  rq_cycle_limit : option Z;
  rq_gas_limit : option Z;
  rq_max_price_per_pgu : option Z;
  rq_skip_simulation : bool;
  rq_timeout : option Z;
  rq_min_auction_period : option Z;
  rq_auction_timeout : option Z;
  rq_whitelist : option (list Z);
  rq_auctioneer : option Z;
  rq_executor : option Z;
  rq_verifier : option Z;
}.

(** [ProofMode] of the cluster's protocol. *)
Inductive ProofMode := ProtoCore | ProtoCompressed | ProtoPlonk | ProtoGroth16.

(** A client of the network. *)
Record NetworkProver := { prover_mode : NetworkMode; prover_signer : Z; client_identity : option (list Z * list Z) }.

(** The [n]th call to the prover network or the cluster; a call that is made
    with a time limit gives [None] beyond it. *)
Class Sdk := {
  network_request : nat -> NetworkProver -> ProveRequest -> outcome Z;
  network_wait_proof : nat -> NetworkProver -> Z -> option Z -> option Z -> outcome SP1ProofWithPublicValues;
  network_setup : RequestType -> outcome unit;
  get_balance : nat -> NetworkProver -> Z -> option (outcome Z);
  aws_kms_signer : list Z -> outcome Z;
  local_signer : list Z -> outcome Z;
  request_proof_from_env : nat -> Z -> ProofMode -> Z -> RequestType -> SP1Stdin -> option (outcome SP1ProofWithPublicValues);
  cpu_verify : list Z -> SP1ProofWithPublicValues -> bool;
  cpu_execute : SP1Stdin -> outcome ExecutionReport;
  verify_on_chain : SP1ProofWithPublicValues -> outcome unit;
  range_vkey : list Z;
  read_boot_info : Z -> option BootInfoStruct;
  cbor_to_vec : list Header -> list Z;
}.

(** ** The world *)

(** A request for a proof, as the network or the cluster receives it. *)
Inductive Submission :=
| ToNetwork (prover : NetworkProver) (request : ProveRequest)
| ToCluster (timeout_secs : Z) (mode : ProofMode) (hours : Z) (elf : RequestType) (stdin : SP1Stdin).

Record World := {
  estimator : Estimator.World;  (** the nodes and the cached inputs *)
  calls : nat;
  requests : list Submission;  (** received so far, the latest last *)
  credentials : gmap (list Z) (list Z);  (** files that can be read *)
  proof_dirs : bool;  (** whether the directories can be made *)
  range_proofs : gmap (Z * list Z) (option SP1ProofWithPublicValues);
  agg_proofs : gmap (Z * list Z) SP1ProofWithPublicValues;
  output_file : option SP1ProofWithPublicValues;
}.

Definition with_estimator (e : Estimator.World) (w : World) : World :=
  {| estimator := e; calls := calls w; requests := requests w; credentials := credentials w; proof_dirs := proof_dirs w;
     range_proofs := range_proofs w; agg_proofs := agg_proofs w; output_file := output_file w |}.
Definition nodes (w : World) : Rpc := rpc (estimator w).
Definition with_nodes (n : Rpc) (w : World) : World := with_estimator (with_rpc n (estimator w)) w.
Definition called (w : World) : World :=
  {| estimator := estimator w; calls := S (calls w); requests := requests w; credentials := credentials w; proof_dirs := proof_dirs w;
     range_proofs := range_proofs w; agg_proofs := agg_proofs w; output_file := output_file w |}.

Definition asked (s : Submission) (w : World) : World :=
  {| estimator := estimator w; calls := S (calls w); requests := requests w ++ [s]; credentials := credentials w;
     proof_dirs := proof_dirs w; range_proofs := range_proofs w; agg_proofs := agg_proofs w;
     output_file := output_file w |}.

Notation fetch := (within nodes with_nodes).
Notation cached := (within estimator with_estimator).

Definition sdk {A} (f : nat -> outcome A) : prog World A := act (fun w => (called w, f (calls w))).
(** [prover.prove(..).request()] *)
Definition request_proof `{Sdk} (prover : NetworkProver) (request : ProveRequest) : prog World Z :=
  act (fun w => (asked (ToNetwork prover request) w, network_request (calls w) prover request)).

(** A failed task is an error of its join, panics included. *)
Definition joined {A} (o : outcome A) : outcome A :=
  match o with Panic => Err "task failed" | o => o end.

(** ** Saved proofs *)

(** The name of a range proof: [{start}-{end}]. *)
Definition range_name (start end_ : Z) : list Z := decimal start ++ 45 :: decimal end_.

Definition save_range_proof (chain_id start end_ : Z) (proof : SP1ProofWithPublicValues) : prog World unit :=
  act (fun w =>
    if proof_dirs w then
      ({| estimator := estimator w; calls := calls w; requests := requests w; credentials := credentials w; proof_dirs := proof_dirs w;
          range_proofs := <[(chain_id, range_name start end_) := Some proof]> (range_proofs w);
          agg_proofs := agg_proofs w; output_file := output_file w |}, Ok tt)
    else (w, Err "create_dir_all")).

Definition save_agg_proof (chain_id : Z) (name : list Z) (proof : SP1ProofWithPublicValues) : prog World unit :=
  act (fun w =>
    if proof_dirs w then
      ({| estimator := estimator w; calls := calls w; requests := requests w; credentials := credentials w; proof_dirs := proof_dirs w;
          range_proofs := range_proofs w; agg_proofs := <[(chain_id, name) := proof]> (agg_proofs w);
          output_file := output_file w |}, Ok tt)
    else (w, Err "create_dir_all")).

Definition save_output (proof : SP1ProofWithPublicValues) : prog World unit :=
  act (fun w => ({| estimator := estimator w; calls := calls w; requests := requests w; credentials := credentials w;
                    proof_dirs := proof_dirs w; range_proofs := range_proofs w; agg_proofs := agg_proofs w;
                    output_file := Some proof |}, Ok tt)).

(** ** The network prover *)

Section network.
Context `{Sdk, Parsers} (var : string -> EnvVar).

Definition DEFAULT_NETWORK_PRIVATE_KEY : string :=
  "0x0000000000000000000000000000000000000000000000000000000000000001".

Definition get_network_signer (use_kms_requester : bool) : outcome Z :=
  if use_kms_requester then
    kms_key_arn ← with_context "NETWORK_PRIVATE_KEY must be set when USE_KMS_REQUESTER is true"
                    (get var "NETWORK_PRIVATE_KEY");
    aws_kms_signer kms_key_arn
  else local_signer (get_or var "NETWORK_PRIVATE_KEY" DEFAULT_NETWORK_PRIVATE_KEY).

Definition load_network_client_identity_from_paths (certificate_path private_key_path : option (list Z))
    (files : gmap (list Z) (list Z)) : outcome (option (list Z * list Z)) :=
  match certificate_path, private_key_path with
  | None, None => Ok None
  | Some certificate_path, Some private_key_path =>
      if decide (certificate_path = []) then Err "NETWORK_MTLS_CERT_PATH must not be empty"
      else if decide (private_key_path = []) then Err "NETWORK_MTLS_KEY_PATH must not be empty"
      else
        certificate ← with_context "Failed to read NETWORK_MTLS_CERT_PATH file" (files !! certificate_path);
        private_key ← with_context "Failed to read NETWORK_MTLS_KEY_PATH file" (files !! private_key_path);
        Ok (Some (certificate, private_key))
  | _, _ => Err "NETWORK_MTLS_CERT_PATH and NETWORK_MTLS_KEY_PATH must be set together"
  end.

(** [env::var_os]; only values that are text are told apart. *)
Definition load_network_client_identity (w : World) : outcome (option (list Z * list Z)) :=
  load_network_client_identity_from_paths (get var "NETWORK_MTLS_CERT_PATH") (get var "NETWORK_MTLS_KEY_PATH")
    (credentials w).

(** Seconds. *)
Definition NETWORK_MTLS_PREFLIGHT_TIMEOUT : Z := 20.

Definition build_network_prover (network_mode : NetworkMode) (network_signer : Z) : prog World NetworkProver :=
  client_identity ← act (fun w => (w, load_network_client_identity w));
  let prover := {| prover_mode := network_mode; prover_signer := network_signer; client_identity := client_identity |} in
  _ ← (match client_identity with
       | Some _ =>
           balance ← act (fun w => (called w, Ok (get_balance (calls w) prover NETWORK_MTLS_PREFLIGHT_TIMEOUT)));
           balance ← done (with_context "Network mTLS preflight timed out after 20 seconds" balance);
           _ ← done (map_err (fun _ => "Network mTLS preflight failed"%string) balance); mret tt
       | None => mret tt
       end);
  mret prover.

Definition build_network_prover_from_env (strategy : FulfillmentStrategy) : prog World NetworkProver :=
  use_kms_requester ← done (with_context "USE_KMS_REQUESTER must be true or false"
                              (parse_bool (get_or var "USE_KMS_REQUESTER" "false")));
  network_signer ← done (get_network_signer use_kms_requester);
  network_mode ← done (match strategy with
                       | Auction => Ok Mainnet
                       | Hosted | Reserved => Ok ReservedMode
                       | UnspecifiedFulfillmentStrategy =>
                           Err "Fulfillment strategy must be 'reserved', 'hosted', or 'auction'"
                       end);
  build_network_prover network_mode network_signer.

(** A prover that presents a certificate has been answered with it. *)
Lemma identity_is_tried mode signer w w' prover :
  run (build_network_prover mode signer) w = (w', Ok prover) -> client_identity prover <> None ->
  exists balance, get_balance (calls w) prover NETWORK_MTLS_PREFLIGHT_TIMEOUT = Some (Ok balance).
Proof.
  unfold build_network_prover. intros Hr Hne.
  apply run_bind_Ok in Hr as (w1 & identity & Hi & Hr). rewrite run_act in Hi. injection Hi as <- _.
  apply run_bind_Ok in Hr as (w2 & [] & Hb & Hr). injection Hr as _ <-. cbn in Hne.
  destruct identity as [i|]; [|done].
  apply run_bind_Ok in Hb as (w3 & b & Hbal & Hb). rewrite run_act in Hbal. injection Hbal as _ Hbal.
  apply run_bind_Ok in Hb as (w4 & b' & Hc & Hb). injection Hc as <- Hc. apply with_context_Ok in Hc.
  apply run_bind_Ok in Hb as (w5 & b'' & Hm & _). injection Hm as _ Hm. subst b.
  exists b''. rewrite Hc. by destruct b' as [x|e|]; simplify_eq/=.
Qed.
End network.

(** ** The cluster, waiting for the proof *)

Definition to_proto_proof_mode (mode : SP1ProofMode) : ProofMode :=
  match mode with
  | CoreMode => ProtoCore | CompressedMode => ProtoCompressed
  | PlonkMode => ProtoPlonk | Groth16Mode => ProtoGroth16
  end.

(** The whole hours a number of seconds takes, at least one. *)
Definition timeout_hours (timeout_secs : Z) : Z := Z.max 1 (div_ceil timeout_secs 3600).

Lemma timeout_hours_covers s : 0 <= s -> 1 <= timeout_hours s /\ s <= 3600 * timeout_hours s < Z.max 1 s + 3600.
Proof.
  intros Hs. unfold timeout_hours. pose proof (div_ceil_spec s 3600 ltac:(lia)). lia.
Qed.

Section cluster.
Context `{Sdk}.

Definition cluster_proof_blocking (timeout_secs : Z) (mode : ProofMode) (elf : RequestType) (stdin : SP1Stdin)
    : prog World SP1ProofWithPublicValues :=
  let hours := timeout_hours timeout_secs in
  answer ← act (fun w => (asked (ToCluster timeout_secs mode hours elf stdin) w,
                          Ok (request_proof_from_env (calls w) timeout_secs mode hours elf stdin)));
  proof ← done (with_context "cluster proof timed out" answer);
  done (map_err (fun _ => "cluster proof failed"%string) proof).

Definition cluster_range_proof (timeout_secs : Z) (stdin : SP1Stdin) : prog World SP1ProofWithPublicValues :=
  cluster_proof_blocking timeout_secs ProtoCompressed RequestDb.Range stdin.
Definition cluster_agg_proof (timeout_secs : Z) (agg_mode : SP1ProofMode) (stdin : SP1Stdin)
    : prog World SP1ProofWithPublicValues :=
  cluster_proof_blocking timeout_secs (to_proto_proof_mode agg_mode) Aggregation stdin.
End cluster.

(** ** Programs of a stream, a few of them at once *)

(** Between two actions the nodes may move on. *)
Inductive event := Turn (i : nat) | Nodes (n : Rpc).

(** [buffer_unordered(limit)] and [try_collect]: the first [limit] programs of the
    stream are started, another one whenever one has ended, and the first error
    ends it all. What is not scheduled runs in order. *)
Fixpoint collect_rest {A} (threads : list (prog World A)) (outputs : list A) (w : World)
    : World * outcome (list A) :=
  match threads with
  | [] => (w, Ok outputs)
  | p :: threads =>
      match run p w with
      | (w, Ok a) => collect_rest threads (outputs ++ [a]) w
      | (w, Err e) => (w, Err e)
      | (w, Panic) => (w, Panic)
      end
  end.

Fixpoint buffer_unordered {A} (schedule : list event) (limit : nat) (flying queue : list (prog World A))
    (outputs : list A) (w : World) : World * outcome (list A) :=
  match schedule with
  | [] => collect_rest (flying ++ queue) outputs w
  | Nodes n :: schedule => buffer_unordered schedule limit flying queue outputs (with_nodes n w)
  | Turn i :: schedule =>
      match flying !! i with
      | None => buffer_unordered schedule limit flying queue outputs w
      | Some p =>
          match one_action p w with
          | (w, Ret (Ok a)) =>
              let flying := delete i flying in
              let free := (limit - length flying)%nat in
              buffer_unordered schedule limit (flying ++ take free queue) (drop free queue) (outputs ++ [a]) w
          | (w, Ret (Err e)) => (w, Err e)
          | (w, Ret Panic) => (w, Panic)
          | (w, p) => buffer_unordered schedule limit (<[i := p]> flying) queue outputs w
          end
      end
  end.

Definition stream {A} (schedule : list event) (limit : nat) (programs : list (prog World A))
    (w : World) : World * outcome (list A) :=
  buffer_unordered schedule limit (take limit programs) (drop limit programs) [] w.

(** ** Inputs and requests *)

Section proving.
Context `{HeaderHash, Hashing, Machine, Sdk, Parsers} (var : string -> EnvVar).
Context (chain_config : option Z) (l1_selection : L1BlockSelectionConfig).

(** [get_range_proof_stdin] of utils/host/src/proof.rs; the range program of the
    embedded data availability layer. *)
Definition get_range_proof_stdin (start_block end_block : Z) (l1_head_hash : option Z) (safe_db_fallback : bool)
    : prog World Z :=
  host_args ← fetch (host_fetch chain_config l1_selection start_block end_block l1_head_hash safe_db_fallback);
  witness_data ← done (joined (host_run host_args));
  done (map_err (fun _ => "Failed to get proof stdin"%string) (get_sp1_stdin witness_data)).

(** [request_and_wait_proof] *)
Definition request_of (program : RequestType) (stdin : SP1Stdin) (config : ProvingConfig) : ProveRequest := {|
  rq_program := program; rq_stdin := stdin; rq_strategy := strategy config; rq_mode := pc_mode config;
  rq_cycle_limit := cycle_limit config; rq_gas_limit := gas_limit config;
  rq_max_price_per_pgu := pc_max_price_per_pgu config; rq_skip_simulation := skip_simulation config;
  rq_timeout := pc_proving_timeout config; rq_min_auction_period := pc_min_auction_period config;
  rq_auction_timeout := pc_auction_timeout config; rq_whitelist := pc_whitelist config;
  rq_auctioneer := auctioneer config; rq_executor := executor config; rq_verifier := verifier config |}.

Definition request_and_wait_proof (program : RequestType) (stdin : SP1Stdin) (prover : NetworkProver)
    (config : ProvingConfig) : prog World SP1ProofWithPublicValues :=
  proof_id ← request_proof prover (request_of program stdin config);
  proof ← sdk (fun k => network_wait_proof k prover proof_id (pc_proving_timeout config) (pc_auction_timeout config));
  mret proof.

End proving.

(** ** [multi-and-agg.rs] *)

Module MultiAndAgg.
Record Config := {
  l1_rpc : Z;
  proposer_address : Z;
  safe_db_fallback : bool;
  agg_proving_config : ProvingConfig;
  range_proving_config : ProvingConfig;
}.

Definition with_mode (m : option SP1ProofMode) (c : ProvingConfig) : ProvingConfig := {|
  strategy := strategy c; pc_mode := m; cycle_limit := cycle_limit c; gas_limit := gas_limit c;
  pc_max_price_per_pgu := pc_max_price_per_pgu c; skip_simulation := skip_simulation c;
  pc_proving_timeout := pc_proving_timeout c; pc_min_auction_period := pc_min_auction_period c;
  pc_auction_timeout := pc_auction_timeout c; pc_whitelist := pc_whitelist c; auctioneer := auctioneer c;
  executor := executor c; verifier := verifier c |}.

Record Args := {
  start : option Z;
  end_ : option Z;
  l1_head : option Z;
  default_range : Z;
  verify : bool;
  range_splits : RangeSplitCount.RangeSplitCount;
  max_concurrent_splits : nat;
}.

Section script.
Context `{HeaderHash, Hashing, Machine, Sdk, Parsers} (var : string -> EnvVar).
Context (chain_config : option Z) (l1_selection : L1BlockSelectionConfig).

Definition config_from_env : outcome Config :=
  let agg_proving_config := agg_from_env var in
  let agg_proving_config :=
    match pc_mode agg_proving_config with
    | None => with_mode (Some PlonkMode) agg_proving_config
    | Some _ => agg_proving_config
    end in
  l1_rpc ← required_parsed var parse_url "L1_RPC";
  proposer_address ← required_parsed var parse_address "PROPOSER_ADDRESS";
  safe_db_fallback ← bool_or var "SAFE_DB_FALLBACK" "false";
  Ok {| l1_rpc := l1_rpc; proposer_address := proposer_address; safe_db_fallback := safe_db_fallback;
        agg_proving_config := agg_proving_config; range_proving_config := range_from_env var |}.

(** One of the concurrent tasks. *)
Definition range_task (args : Args) (config : Config) (prover : NetworkProver) (task : nat * (Z * Z))
    : prog World (nat * (SP1Proof * BootInfoStruct)) :=
  let '(idx, (start, end_)) := task in
  sp1_stdin ← get_range_proof_stdin chain_config l1_selection start end_ (l1_head args) (safe_db_fallback config);
  range_proof ← request_and_wait_proof RequestDb.Range (RangeStdin sp1_stdin) prover (range_proving_config config);
  boot_info ← done (unwrap (read_boot_info (ValidityTypes.public_values range_proof)));
  mret (idx, (sp1_proof range_proof, boot_info)).

(** The loop that puts the results back in their order, and the unwrapping. *)
Definition in_order {A} (num_ranges : nat) (outputs : list (nat * A)) : outcome (list A) :=
  unwrap (mapM (fun slot => slot) (foldl (fun slots output => <[output.1 := Some output.2]> slots) (replicate num_ranges None) outputs)).

(** From the results of the tasks to the input of the aggregation program. *)
Definition aggregation_stdin (config : Config) (num_ranges : nat)
    (outputs : list (nat * (SP1Proof * BootInfoStruct))) : prog World SP1Stdin :=
  results ← done (in_order num_ranges outputs);
  let boot_infos := results.*2 in
  latest_l1_head ← done (with_context "No boot infos generated" (l1Head <$> last boot_infos));
  headers ← fetch (get_header_preimages boot_infos latest_l1_head);
  done (get_agg_proof_stdin results.*1 boot_infos (cbor_to_vec headers) latest_l1_head (proposer_address config)).

Definition verifier_supported (l1_chain_id : Z) (mode : option SP1ProofMode) : bool :=
  match mode with
  | Some Groth16Mode | Some PlonkMode => (l1_chain_id =? 1) || (l1_chain_id =? 11155111)
  | _ => false
  end.

(** [main] *)
Definition main (schedule : list event) (l1_chain_id : outcome Z) (args : Args)
    : prog World unit :=
  config ← done (match config_from_env with Ok config => Ok config | _ => Panic end);
  max_provable ← fetch (get_max_provable_l2_block_number l1_selection);
  range ← done (BlockRange.get_validated_block_range max_provable (start args) (end_ args) (default_range args));
  ranges ← done (RangeSplitCount.split (range_splits args) range.1 range.2);
  let num_ranges := length ranges in
  let range_strategy := default Reserved (strategy (range_proving_config config)) in
  network_prover ← build_network_prover_from_env var range_strategy;
  _ ← done (network_setup RequestDb.Range);
  outputs ← act (stream schedule (max_concurrent_splits args)
                   (range_task args config network_prover <$> zip (seq 0 num_ranges) ranges));
  sp1_stdin ← aggregation_stdin config num_ranges outputs;
  _ ← done (network_setup Aggregation);
  agg_proof ← request_and_wait_proof Aggregation sp1_stdin network_prover (agg_proving_config config);
  if verify args then
    l1_chain_id ← done l1_chain_id;
    _ ← done (ensure (verifier_supported l1_chain_id (pc_mode (agg_proving_config config))) "Unsupported verifier");
    _ ← catch (done (verify_on_chain agg_proof)); mret tt
  else mret tt.
End script.
End MultiAndAgg.

(** ** [agg.rs] *)

Module Agg.
Record Args := { proofs : list (list Z); prove : bool; prover : Z; cluster_timeout : Z }.

Section script.
Context `{HeaderHash, Hashing, Machine, Sdk, Parsers} (var : string -> EnvVar).
Context (chain_config : option Z) (l1_selection : L1BlockSelectionConfig).

Definition load_proof (chain_id : Z) (range_vkey : list Z) (acc : list (SP1Proof * BootInfoStruct)) (name : list Z)
    : prog World (list (SP1Proof * BootInfoStruct)) :=
  saved ← act (fun w => (w, unwrap (range_proofs w !! (chain_id, name))));
  proof ← done (unwrap saved);
  _ ← done (if cpu_verify range_vkey proof then Ok tt else Panic);
  boot_info ← done (unwrap (read_boot_info (ValidityTypes.public_values proof)));
  mret (acc ++ [(sp1_proof proof, boot_info)]).
Definition load_aggregation_proof_data (chain_id : Z) (proof_names : list (list Z)) (range_vkey : list Z)
    : prog World (list (SP1Proof * BootInfoStruct)) :=
  fold proof_names [] (load_proof chain_id range_vkey).

Definition build_agg_stdin (chain_id : Z) (proof_names : list (list Z)) (range_vkey : list Z) (prover_address : Z)
    : prog World SP1Stdin :=
  loaded ← load_aggregation_proof_data chain_id proof_names range_vkey;
  let boot_infos := loaded.*2 in
  header ← fetch (get_latest_l1_head_in_batch boot_infos);
  let l1_head_hash := AggregationProgram.hash_slow header in
  headers ← fetch (get_header_preimages boot_infos l1_head_hash);
  done (get_agg_proof_stdin loaded.*1 boot_infos (cbor_to_vec headers) l1_head_hash prover_address).

(** [proof_names.join("_")] *)
Fixpoint join_names (names : list (list Z)) : list Z :=
  match names with
  | [] => []
  | [name] => name
  | name :: names => name ++ 95 :: join_names names
  end.

(** A request that leaves all but the mode and the strategy to SP1. *)
Definition plain_request (program : RequestType) (stdin : SP1Stdin) (mode : SP1ProofMode) (s : FulfillmentStrategy)
    : ProveRequest := {|
  rq_program := program; rq_stdin := stdin; rq_strategy := Some s; rq_mode := Some mode; rq_cycle_limit := None;
  rq_gas_limit := None; rq_max_price_per_pgu := None; rq_skip_simulation := false; rq_timeout := None;
  rq_min_auction_period := None; rq_auction_timeout := None; rq_whitelist := None; rq_auctioneer := None;
  rq_executor := None; rq_verifier := None |}.

(** [prover.prove(..).await.expect(..)] *)
Definition prove_or_panic (network_prover : NetworkProver) (request : ProveRequest)
    : prog World SP1ProofWithPublicValues :=
  expect (proof_id ← request_proof network_prover request;
          sdk (fun k => network_wait_proof k network_prover proof_id None None)).

Definition main (chain_id : outcome Z) (args : Args) : prog World unit :=
  chain_id ← done chain_id;
  _ ← done (network_setup RequestDb.Range);
  _ ← done (network_setup Aggregation);
  stdin ← build_agg_stdin chain_id (proofs args) range_vkey (prover args);
  if negb (prove args) then _ ← done (cpu_execute stdin); mret tt
  else if is_cluster_mode var then
    proof ← cluster_agg_proof (cluster_timeout args) Groth16Mode stdin;
    save_output proof
  else
    agg_proof_strategy ← done (parse_fulfillment_strategy (get_or var "AGG_PROOF_STRATEGY" "reserved"));
    network_prover ← build_network_prover_from_env var agg_proof_strategy;
    _ ← done (network_setup Aggregation);
    let agg_proof_mode :=
      if decide (to_lowercase (get_or var "AGG_PROOF_MODE" "plonk") = codes "groth16") then Groth16Mode else PlonkMode in
    proof ← prove_or_panic network_prover (plain_request Aggregation stdin agg_proof_mode agg_proof_strategy);
    save_agg_proof chain_id (join_names (proofs args)) proof.
End script.
End Agg.

(** ** [multi.rs] *)

Module Multi.
Section script.
Context `{HeaderHash, Hashing, Machine, Sdk, Parsers} (var : string -> EnvVar).
Context (chain_config : option Z) (l1_selection : L1BlockSelectionConfig).

(** Generating the input, and saving it if the cache is on. *)
Definition generate_stdin (l2_chain_id : Z) (args : HostExecutorArgs) (range : Z * Z) : prog World Z :=
  host_args ← fetch (host_fetch chain_config l1_selection range.1 range.2 None (Estimator.safe_db_fallback args));
  witness ← done (host_run host_args);
  stdin ← done (get_sp1_stdin witness);
  _ ← (if use_cache args
       then _ ← catch (cached (act (save_stdin_to_cache l2_chain_id range.1 range.2 stdin))); mret tt
       else mret tt);
  mret stdin.

Definition stdin_of (l2_chain_id : Z) (args : HostExecutorArgs) (range : Z * Z) : prog World Z :=
  if use_cache args then
    found ← catch (cached (act (fun w => (w, load_stdin_from_cache l2_chain_id range.1 range.2 w))));
    match found with
    | inl (Some stdin) => mret stdin
    | inl None | inr _ => generate_stdin l2_chain_id args range
    end
  else generate_stdin l2_chain_id args range.

(** [main], up to the statistics, which are its result when nothing is proved. *)
Definition main (chain_id : outcome Z) (args : HostExecutorArgs) (prove : bool) (cluster_timeout : Z)
    : prog World (option Stats.ExecutionStats) :=
  _ ← fetch (validate_l1_selection l1_selection);
  max_provable ← fetch (get_max_provable_l2_block_number l1_selection);
  range ← done (BlockRange.get_validated_block_range max_provable (Estimator.start args) (Estimator.end_ args)
                  (Estimator.default_range args));
  l2_chain_id ← done chain_id;
  sp1_stdin ← stdin_of l2_chain_id args range;
  if prove then
    if is_cluster_mode var then
      proof ← cluster_range_proof cluster_timeout (RangeStdin sp1_stdin);
      _ ← save_range_proof l2_chain_id range.1 range.2 proof; mret None
    else
      range_proof_strategy ← done (parse_fulfillment_strategy (get_or var "RANGE_PROOF_STRATEGY" "reserved"));
      network_prover ← build_network_prover_from_env var range_proof_strategy;
      _ ← done (network_setup RequestDb.Range);
      proof ← Agg.prove_or_panic network_prover
                (Agg.plain_request RequestDb.Range (RangeStdin sp1_stdin) CompressedMode range_proof_strategy);
      _ ← save_range_proof l2_chain_id range.1 range.2 proof; mret None
  else
    executed ← fetch (execute_multi l1_selection sp1_stdin range.1 range.2);
    mret (Some (Stats.new 0 executed.1 executed.2 0 0)).
End script.
End Multi.
