(* ===== verification/ProvingScriptsLaws.v ===== *)
(** * What the proving scripts prove

    However the range proofs of [multi-and-agg] overlap and whatever order they
    end in, the aggregation is asked for on an input the aggregation program
    accepts, with the claim of the whole span ([multi_and_agg_claims_span]), when
    every range is derived from the one L1 head that was given. Left to choose
    their own L1 heads, ranges that overlap may end with one that the headers do
    not reach ([late_head]). *)

From S2P Require Import Prelude.
From S2P Require Import AggregationProgram.
From S2P Require Import RangeSplit.
From S2P Require Import ValidityRanges.
From S2P Require Import Interleaving.
From S2P Require Import RequestDb.
From S2P Require Import ValidityTypes.
From S2P Require Import ProofRequester.
From S2P Require Import Fetcher.
From S2P Require Import FetcherLaws.
From S2P Require Import Settings.
From S2P Require Import Estimator.
From S2P Require Import EstimatorLaws.
From S2P Require Import ProvingScripts.

(** ** Programs that keep an invariant *)

(** Every action keeps [I], and a result has [P], in any state with [I] between
    two actions. *)
Fixpoint holds {W A} (I : W -> Prop) (P : A -> Prop) (p : prog W A) : Prop :=
  match p with
  | Ret (Ok a) => P a
  | Ret _ => True
  | Act X q k => forall w, I w -> I (q w).1 /\ holds I P (k (q w).2)
  end.

Section holds.
Context {W : Type} (I : W -> Prop).

Lemma holds_mono {A} (P Q : A -> Prop) (p : prog W A) : (forall a, P a -> Q a) -> holds I P p -> holds I Q p.
Proof.
  intros HPQ. induction p as [[a|e|]|X q k IH]; cbn; [by apply HPQ|done..|].
  intros Hp w Hw. destruct (Hp w Hw). split; [done|by apply IH].
Qed.

Lemma holds_bind {A B} (P : A -> Prop) (Q : B -> Prop) (p : prog W A) (f : A -> prog W B) :
  holds I P p -> (forall a, P a -> holds I Q (f a)) -> holds I Q (p ≫= f).
Proof.
  unfold mbind, prog_mbind. intros Hp Hf. induction p as [[a|e|]|X q k IH]; cbn in *; [by apply Hf|done..|].
  intros w Hw. destruct (Hp w Hw). split; [done|by apply IH].
Qed.

Lemma holds_done {A} (P : A -> Prop) (o : outcome A) : (forall a, o = Ok a -> P a) -> holds I P (done o).
Proof. destruct o; cbn; auto. Qed.

Lemma holds_act {A} (P : A -> Prop) (q : W -> W * outcome A) :
  (forall w, I w -> I (q w).1 /\ forall a, (q w).2 = Ok a -> P a) -> holds I P (act q).
Proof. intros Hq w Hw. destruct (Hq w Hw) as [Hi HP]. split; [done|]. cbn. destruct ((q w).2); auto. Qed.

Lemma holds_run {A} (P : A -> Prop) (p : prog W A) w : holds I P p -> I w ->
  I (run p w).1 /\ forall a, (run p w).2 = Ok a -> P a.
Proof.
  revert w. induction p as [o|X q k IH]; intros w; cbn.
  - intros Hp Hw. split; [done|]. by intros a ->.
  - intros Hp Hw. destruct (Hp w Hw) as [Hi Hk]. destruct (q w) as [w1 x]. by apply IH.
Qed.

Lemma holds_one_action {A} (P : A -> Prop) (p : prog W A) w : holds I P p -> I w ->
  I (one_action p w).1 /\ holds I P (one_action p w).2.
Proof.
  destruct p as [o|X q k]; cbn; [done|]. intros Hp Hw. destruct (Hp w Hw). by destruct (q w).
Qed.

Lemma holds_within {V A} (get : W -> V) (put : V -> W -> W) (J : V -> Prop) (P : A -> Prop) (p : prog V A) :
  (forall w, I w -> J (get w)) -> (forall v w, I w -> J v -> I (put v w)) -> holds J P p -> holds I P (within get put p).
Proof.
  intros Hget Hput. induction p as [o|X q k IH]; cbn; [done|]. intros Hp w Hw.
  destruct (Hp (get w) (Hget w Hw)) as [Hj Hk]. destruct (q (get w)) as [v x]. cbn in *. split; auto.
Qed.
End holds.

(** ** The stream *)

Definition event_ok (I : World -> Prop) (e : event) : Prop :=
  match e with Nodes n => forall w, I w -> I (with_nodes n w) | Turn _ => True end.

(** What a program of the stream results in, whatever its place. *)
Section stream.
Context {A : Type} (I : World -> Prop).

Definition meets (Q : A -> Prop) (a : A) : Prop := Q a.

Lemma collect_rest_meets Qs threads outputs w w' outs :
  Forall2 (holds I) Qs threads -> I w -> collect_rest threads outputs w = (w', Ok outs) ->
  I w' /\ exists rest, outs = outputs ++ rest /\ Forall2 meets Qs rest.
Proof.
  intros Hq. revert outputs w. induction Hq as [|Q p Qs threads Hp _ IH]; intros outputs w Hw; cbn.
  - intros [= <- <-]. split; [done|]. exists []. by rewrite app_nil_r.
  - destruct (holds_run I Q p w Hp Hw) as [Hi Ha]. destruct (run p w) as [w1 [a|e|]]; [|done..]. cbn in *.
    intros Hr. destruct (IH _ _ Hi Hr) as (Hw' & rest & -> & Hm). split; [done|]. exists (a :: rest).
    split; [by rewrite <- app_assoc|]. constructor; [by apply Ha|done].
Qed.

Lemma buffer_meets schedule limit Qf Qq Qo flying queue outputs w w' outs :
  Forall (event_ok I) schedule -> Forall2 (holds I) Qf flying -> Forall2 (holds I) Qq queue ->
  Forall2 meets Qo outputs -> I w -> buffer_unordered schedule limit flying queue outputs w = (w', Ok outs) ->
  I w' /\ exists Qs, Qs ≡ₚ Qo ++ Qf ++ Qq /\ Forall2 meets Qs outs.
Proof.
  revert Qf Qq Qo flying queue outputs w.
  induction schedule as [|[i|n] schedule IH]; intros Qf Qq Qo flying queue outputs w Hs Hf Hq Ho Hw; cbn.
  - intros Hr. destruct (collect_rest_meets (Qf ++ Qq) (flying ++ queue) outputs w w' outs) as (Hw' & rest & -> & Hm);
      [by apply Forall2_app|done|done|]. split; [done|]. exists (Qo ++ Qf ++ Qq). split; [done|]. by apply Forall2_app.
  - apply Forall_cons in Hs as [_ Hs]. destruct (flying !! i) as [p|] eqn:Hi; [|by apply IH].
    destruct (Forall2_lookup_r _ _ _ _ _ Hf Hi) as (Q & HQ & Hp).
    destruct (holds_one_action I Q p w Hp Hw) as [Hw1 Hp1]. destruct (one_action p w) as [w1 p1]. cbn in Hw1, Hp1.
    destruct p1 as [[a|e|]|X q k]; [|done..|].
    + intros Hr. set (free := (limit - length (delete i flying))%nat) in Hr.
      destruct (IH (delete i Qf ++ take free Qq) (drop free Qq) (Qo ++ [Q])
                  (delete i flying ++ take free queue) (drop free queue) (outputs ++ [a]) w1) as (Hw' & Qs & HQs & Hm);
        [done| | | |done|done|].
      * apply Forall2_app; [by apply Forall2_delete|by apply Forall2_take].
      * by apply Forall2_drop.
      * apply Forall2_app; [done|]. by constructor.
      * split; [done|]. exists Qs. split; [|done]. rewrite HQs, <- !app_assoc, take_drop.
        apply Permutation_app_head. change ((Q :: delete i Qf) ++ Qq ≡ₚ Qf ++ Qq). apply Permutation_app_tail.
        symmetry. by apply delete_Permutation.
    + apply IH; [done| |done..|]; [|exact Hw1].
      assert (HQi : <[i := Q]> Qf = Qf) by (by apply list_insert_id). rewrite <- HQi. by apply Forall2_insert.
  - apply Forall_cons in Hs as [Hn Hs]. apply IH; try done. by apply Hn.
Qed.

Lemma stream_meets schedule limit Qs programs w w' outs :
  Forall (event_ok I) schedule -> Forall2 (holds I) Qs programs -> I w ->
  stream schedule limit programs w = (w', Ok outs) ->
  I w' /\ exists Qs', Qs' ≡ₚ Qs /\ Forall2 meets Qs' outs.
Proof.
  unfold stream. intros Hs Hq Hw Hr.
  destruct (buffer_meets schedule limit (take limit Qs) (drop limit Qs) [] (take limit programs) (drop limit programs)
              [] w w' outs) as (Hw' & Qs' & HQs & Hm); try done.
  - by apply Forall2_take.
  - by apply Forall2_drop.
  - split; [done|]. exists Qs'. split; [|done]. by rewrite HQs, app_nil_l, take_drop.
Qed.
End stream.

(** ** Back in order *)

Lemma slots_lookup {A} (outputs : list (nat * A)) (slots : list (option A)) i x :
  foldl (fun (slots : list (option A)) (output : nat * A) => <[output.1 := Some output.2]> slots) slots outputs !! i = Some (Some x) ->
  (i, x) ∈ outputs \/ slots !! i = Some (Some x).
Proof.
  revert slots. induction outputs as [|[j y] outputs IH]; intros slots; cbn; [by right|].
  intros [Hin|Hs]%IH; [left; by right|]. destruct (decide (j = i)) as [->|Hj].
  - apply list_lookup_insert_Some in Hs as [(_ & [= <-] & _)|[? _]]; [left; by left|done].
  - rewrite list_lookup_insert_ne in Hs by done. by right.
Qed.

Lemma slots_length {A} (outputs : list (nat * A)) (slots : list (option A)) :
  length (foldl (fun slots (output : nat * A) => <[output.1 := Some output.2]> slots) slots outputs) = length slots.
Proof. revert slots. induction outputs as [|x outputs IH]; intros slots; cbn; [done|]. by rewrite IH, length_insert. Qed.

Lemma in_order_Ok {A} n (outputs : list (nat * A)) l : MultiAndAgg.in_order n outputs = Ok l ->
  length l = n /\ forall i x, l !! i = Some x -> (i, x) ∈ outputs.
Proof.
  unfold MultiAndAgg.in_order. destruct (mapM _ _) as [l'|] eqn:Hm; [|done]. intros [= ->].
  apply mapM_Some in Hm. split.
  - by rewrite <- (Forall2_length _ _ _ Hm), slots_length, length_replicate.
  - intros i x Hi. destruct (Forall2_lookup_r _ _ _ _ _ Hm Hi) as (slot & Hslot & ->).
    apply slots_lookup in Hslot as [|Hr]; [done|]. by apply lookup_replicate in Hr as [? _].
Qed.

(** The results of a stream of numbered tasks, once they are in order. *)
Lemma ordered_results {T A} (good : T -> A -> Prop) (tasks : list T) Qs outputs l :
  Qs ≡ₚ (fun t v => v.1 = t.1 /\ good t.2 v.2) <$> zip (seq 0 (length tasks)) tasks ->
  Forall2 meets Qs outputs -> MultiAndAgg.in_order (length tasks) outputs = Ok l -> Forall2 good tasks l.
Proof.
  intros HQs Hm Hl. apply in_order_Ok in Hl as [Hlen Hl].
  apply Forall2_same_length_lookup. split; [done|]. intros i t x Ht Hx.
  apply Hl, list_elem_of_lookup in Hx as [j Hj].
  destruct (Forall2_lookup_r _ _ _ _ _ Hm Hj) as (Q & HQ & Hgood).
  apply list_elem_of_lookup_2 in HQ. rewrite HQs in HQ.
  apply list_elem_of_fmap in HQ as ([i' t'] & -> & Hz). destruct Hgood as [Hi Hgood]. cbn in Hi, Hgood. subst i'.
  apply list_elem_of_lookup in Hz as [k Hk]. apply lookup_zip_with_Some in Hk as (k' & t2 & [= -> ->] & Hs & Ht2).
  apply lookup_seq in Hs as [-> _]. cbn in Ht, Ht2. by simplify_eq.
Qed.

(** ** The claim of the whole span *)

Section claims.
Context `{HeaderHash, Hashing, Machine, Sdk, Zkvm, Parsers} (var : string -> EnvVar).
Context (chain_config : option Z) (l1_selection : L1BlockSelectionConfig).
Context (chain_ : Z -> Header) (tip : Z) (block_at : Z -> Block) (storage_at : Z -> Z).

(** Nodes of one L1 chain and of one L2 chain. *)
Record serving (n : Rpc) : Prop := {
  serving_chain : serves n chain_ tip;
  serving_blocks : forall b block, l2_get_block n (Number b) = Ok (Some block) -> block = block_at b;
  serving_storage : forall b s, message_passer_storage_hash n b = Ok s -> s = storage_at b;
}.

(** The output of an L2 block. *)
Definition output_at (b : Z) : L2Output := {|
  l2_state_root := state_root (header (block_at b));
  l2_storage_hash := match withdrawals_root (header (block_at b)) with
                     | Some root => if root =? EMPTY_ROOT_HASH then storage_at b else root
                     | None => storage_at b
                     end;
  l2_claim_hash := hash (block_at b) |}.
Definition root_at (b : Z) : Z := output_hash (output_at b).

(** What the host and SP1 promise: the range program commits what its witness was
    generated for; the network answers a request for a range proof with the
    values that its execution commits; such a proof verifies under the key of
    the range program; and headers are read back as they were written. *)
Record honest (config_hash : Z) : Prop := {
  honest_host : forall args witness stdin executed boot,
    host_run args = Ok witness -> get_sp1_stdin witness = Ok stdin -> zkvm_execute stdin = Ok executed ->
    read_boot_info (public_values executed) = Some boot ->
    boot = {| l1Head := l1_head args; l2PreRoot := agreed_l2_output_root args;
              l2PostRoot := claimed_l2_output_root args; l2BlockNumber := claimed_l2_block_number args;
              rollupConfigHash := config_hash |};
  honest_network : forall k prover request stdin id k' timeout auction proof,
    rq_program request = RequestDb.Range -> rq_stdin request = RangeStdin stdin ->
    network_request k prover request = Ok id ->
    network_wait_proof k' prover id timeout auction = Ok proof ->
    exists executed, zkvm_execute stdin = Ok executed /\
      ValidityTypes.public_values proof = public_values executed;
  honest_key : forall stdin executed boot, zkvm_execute stdin = Ok executed ->
    read_boot_info (public_values executed) = Some boot -> verify_sp1_proof range_vkey (pv_digest boot) = true;
  honest_headers : forall headers, cbor_from_slice (cbor_to_vec headers) = Some headers;
}.

(** The claim of a range at an L1 head. *)
Definition range_claim (config_hash h : Z) (r : Z * Z) : BootInfoStruct :=
  {| l1Head := h; l2PreRoot := root_at r.1; l2PostRoot := root_at r.2; l2BlockNumber := r.2;
     rollupConfigHash := config_hash |}.
(** A proof the network has answered with, and the boot information it commits. *)
Definition answered (x : SP1Proof * BootInfoStruct) : Prop :=
  exists k prover id timeout auction proof,
    network_wait_proof k prover id timeout auction = Ok proof /\ sp1_proof proof = x.1 /\
    read_boot_info (ValidityTypes.public_values proof) = Some x.2.
Definition good (config_hash h : Z) (r : Z * Z) (x : SP1Proof * BootInfoStruct) : Prop :=
  x.2 = range_claim config_hash h r /\ verify_sp1_proof range_vkey (pv_digest x.2) = true /\ answered x.

Notation served := (fun w => serving (nodes w)).

(** Since [prior] only range proofs were asked for. *)
Definition in_flight (config : MultiAndAgg.Config) (prover : NetworkProver) (prior : list Submission)
    (w : World) : Prop :=
  serving (nodes w) /\ exists range_requests, requests w = prior ++ (ToNetwork prover <$> range_requests) /\
    Forall (fun request => exists stdin, request =
      request_of RequestDb.Range (RangeStdin stdin) (MultiAndAgg.range_proving_config config)) range_requests.

Lemma holds_call {A} (P : A -> Prop) (f : Rpc -> outcome A) :
  (forall n a, serving n -> f n = Ok a -> P a) -> holds serving P (call f).
Proof. intros Hf. apply holds_act. intros n Hn. split; [done|]. intros a Ha. by apply (Hf n). Qed.

Lemma holds_storage b : holds serving (fun s => s = l2_storage_hash (output_at b))
  (l2_to_l1_message_passer_storage_root (header (block_at b)) b).
Proof.
  unfold l2_to_l1_message_passer_storage_root. cbn [output_at l2_storage_hash].
  destruct (withdrawals_root _) as [root|].
  - destruct (root =? EMPTY_ROOT_HASH); cbn [negb]; [|done]. apply holds_call. intros n s Hn. by apply serving_storage.
  - apply holds_call. intros n s Hn. by apply serving_storage.
Qed.

Lemma holds_output b : holds serving (fun o => o = output_at b) (get_l2_execution_output b).
Proof.
  unfold get_l2_execution_output.
  apply (holds_bind _ (fun block => forall x, block = Some x -> x = block_at b)).
  { apply holds_call. intros n block Hn Hb x ->. by apply (serving_blocks n Hn). }
  intros block Hblock. apply (holds_bind _ (fun x => x = block_at b)).
  { apply holds_done. intros x Hx%with_context_Ok. by apply Hblock. }
  intros x ->. apply (holds_bind _ (fun s => s = l2_storage_hash (output_at b))); [apply holds_storage|].
  intros s ->. done.
Qed.

Lemma holds_host_fetch start end_ h fallback :
  holds serving (fun args => l1_head args = h /\ agreed_l2_output_root args = root_at start /\
                   claimed_l2_output_root args = root_at end_ /\ claimed_l2_block_number args = end_)
    (host_fetch chain_config l1_selection start end_ (Some h) fallback).
Proof.
  unfold host_fetch. apply (holds_bind _ (fun x => x = h)); [done|]. intros x ->.
  unfold get_host_args. destruct chain_config as [chain_id|]; [|done].
  destruct (end_ <=? start); [done|]. apply (holds_bind _ (fun o => o = output_at start)); [apply holds_output|].
  intros o ->. cbn zeta. apply (holds_bind _ (fun r => r = root_at end_)).
  - unfold get_l2_output_root. apply (holds_bind _ (fun o => o = output_at end_)); [apply holds_output|]. by intros o ->.
  - by intros r ->.
Qed.

Section in_flight.
Context (config : MultiAndAgg.Config) (prover : NetworkProver) (prior : list Submission).

Lemma holds_sdk {A} (P : A -> Prop) (f : nat -> outcome A) :
  (forall k a, f k = Ok a -> P a) -> holds (in_flight config prover prior) P (sdk f).
Proof. intros Hf. apply holds_act. intros w Hw. split; [done|]. intros a Ha. by apply (Hf (calls w)). Qed.

Lemma holds_request stdin :
  let request := request_of RequestDb.Range (RangeStdin stdin) (MultiAndAgg.range_proving_config config) in
  holds (in_flight config prover prior) (fun id => exists k, network_request k prover request = Ok id)
    (request_proof prover request).
Proof.
  intros request. apply holds_act. intros w (Hw & rs & Hrs & Hall). split; [|by exists (calls w)].
  split; [done|]. exists (rs ++ [request]). cbn. split.
  - by rewrite Hrs, fmap_app, <- app_assoc.
  - apply Forall_app. split; [done|]. apply Forall_singleton. by exists stdin.
Qed.

Lemma holds_fetch {A} (P : A -> Prop) (p : Fetch A) :
  holds serving P p -> holds (in_flight config prover prior) P (within nodes with_nodes p).
Proof. apply holds_within; [by intros w []|]. intros n w [_ Hw] Hn. by split. Qed.

Lemma event_in_flight e : event_ok served e -> event_ok (in_flight config prover prior) e.
Proof. destruct e as [i|n]; [done|]. intros Hn w (Hw & Hr). split; [by apply (Hn w)|done]. Qed.
End in_flight.

Lemma range_task_good config_hash h args config prover prior i start end_ :
  honest config_hash -> MultiAndAgg.l1_head args = Some h ->
  holds (in_flight config prover prior) (fun v => v.1 = i /\ good config_hash h (start, end_) v.2)
    (MultiAndAgg.range_task chain_config l1_selection args config prover (i, (start, end_))).
Proof.
  intros Hh Hl. unfold MultiAndAgg.range_task. cbn beta iota zeta. rewrite Hl.
  apply (holds_bind _ (fun stdin => forall executed boot, zkvm_execute stdin = Ok executed ->
    read_boot_info (public_values executed) = Some boot -> boot = range_claim config_hash h (start, end_))).
  { unfold get_range_proof_stdin. eapply holds_bind; [apply holds_fetch, holds_host_fetch|].
    intros host_args (Ha & Hpre & Hpost & Hb). cbn beta.
    apply (holds_bind _ (fun w => host_run host_args = Ok w)).
    { apply holds_done. intros w Hw. by destruct (host_run host_args). }
    intros witness Hw. apply holds_done. intros stdin Hs executed boot He Hboot.
    assert (Hs' : get_sp1_stdin witness = Ok stdin) by (by destruct (get_sp1_stdin witness)).
    rewrite (honest_host _ Hh _ _ _ _ _ Hw Hs' He Hboot). unfold range_claim. cbn. by rewrite Ha, Hpre, Hpost, Hb. }
  intros stdin Hstdin.
  apply (holds_bind _ (fun proof => (exists executed, zkvm_execute stdin = Ok executed /\
    ValidityTypes.public_values proof = public_values executed) /\
    exists k id timeout auction, network_wait_proof k prover id timeout auction = Ok proof)).
  { unfold request_and_wait_proof. eapply holds_bind; [apply holds_request|].
    intros id (k & Hid). eapply holds_bind; [|intros proof Hproof; exact Hproof].
    apply holds_sdk. intros k' proof Hproof. split; [|by eauto 6].
    by eapply (honest_network _ Hh); [| |exact Hid|exact Hproof]. }
  intros proof [(executed & He & Hpv) (k & id & timeout & auction & Hproof)].
  apply (holds_bind _ (fun boot => read_boot_info (public_values executed) = Some boot)).
  { apply holds_done. rewrite Hpv. intros boot. by destruct (read_boot_info _); intros [= ->]. }
  intros boot Hboot. cbn. split; [done|]. split; [by apply (Hstdin executed)|].
  split; [by apply (honest_key _ Hh stdin executed)|].
  exists k, prover, id, timeout, auction, proof. by rewrite Hpv.
Qed.

Lemma good_boots config_hash h ranges results :
  Forall2 (good config_hash h) ranges results ->
  results.*2 = range_claim config_hash h <$> ranges /\
  Forall (fun b => verify_sp1_proof range_vkey (pv_digest b) = true) results.*2 /\ Forall answered results.
Proof.
  induction 1 as [|r x ranges results (Hx & Hv & Ha) _ (IH & IHv & IHa)]; [by split_and!|]. cbn. split_and!.
  - by rewrite Hx, IH.
  - by constructor.
  - by constructor.
Qed.

(** The proofs that are put into the input are those of the results. *)
Lemma answered_compressed (results : list (SP1Proof * BootInfoStruct)) compressed : Forall answered results ->
  mapM (fun p => match p with Compressed c => Some c | _ => None end) results.*1 = Some compressed ->
  Forall2 (fun c b => answered (Compressed c, b)) compressed results.*2.
Proof.
  intros Ha Hm%mapM_Some. revert compressed Hm. induction Ha as [|[p b] results Hx _ IH]; intros compressed Hm; cbn in *.
  - apply Forall2_nil_inv_l in Hm as ->. constructor.
  - apply Forall2_cons_inv_l in Hm as (c & cs & Hp & Hm & ->). constructor; [|by apply IH].
    destruct p; simplify_eq. done.
Qed.

(** The claims of the parts of a span follow each other. *)
Lemma span_sequential config_hash h a ranges b : chain a ranges b -> sequential (range_claim config_hash h <$> ranges).
Proof.
  intros Hc i x y. rewrite !list_lookup_fmap. revert a i Hc.
  induction ranges as [|[s e] ranges IH]; intros a [|i] Hc; cbn; try done.
  - destruct ranges as [|[s' e'] ranges]; [done|]. destruct Hc as (_ & _ & -> & _). by intros [= <-] [= <-].
  - destruct Hc as (_ & _ & Hc). by apply (IH e).
Qed.

Lemma span_ends config_hash h a ranges b : chain a ranges b -> a < b ->
  exists first rest last_, range_claim config_hash h <$> ranges = first :: rest /\ last (first :: rest) = Some last_ /\
    l1Head last_ = h /\ l2PreRoot first = root_at a /\ l2PostRoot last_ = root_at b /\ l2BlockNumber last_ = b.
Proof.
  destruct ranges as [|[s e] ranges]; cbn; [lia|]. intros (-> & _ & Hc) _.
  exists (range_claim config_hash h (a, e)), (range_claim config_hash h <$> ranges).
  revert a e Hc. induction ranges as [|[s e'] ranges IH]; intros a e Hc; cbn in Hc.
  - subst e. eexists. by split_and!.
  - destruct Hc as (-> & _ & Hc). destruct (IH e e' Hc) as (last_ & _ & Hl & Hh & _ & Hpost & Hb).
    exists last_. split_and!; try done.
Qed.

Lemma holds_prover (I : World -> Prop) strategy : (forall w, I w -> I (called w)) ->
  holds I (fun _ => True) (build_network_prover_from_env var strategy).
Proof.
  intros HI. unfold build_network_prover_from_env, build_network_prover.
  repeat first [apply (holds_bind _ (fun _ => True)); [|intros ? _] | apply holds_done; done
               | apply holds_act; intros w Hw; split; [by first [exact Hw | apply HI, Hw]|done]
               | match goal with |- holds _ _ (match ?x with _ => _ end) => destruct x end | done].
Qed.

(** Building a prover moves no node and asks for no proof. *)
Lemma prover_built strategy w w' prover :
  run (build_network_prover_from_env var strategy) w = (w', Ok prover) ->
  nodes w' = nodes w /\ requests w' = requests w.
Proof.
  intros Hk.
  set (I w' := nodes w' = nodes w /\ requests w' = requests w).
  destruct (holds_run I _ _ w (holds_prover I strategy (fun w' Hw' => Hw'))) as [Hw' _]; [done|].
  by rewrite Hk in Hw'.
Qed.

(** A proof that was waited for, and the request it answers. *)
Lemma waited_Ok program stdin prover config w w' proof :
  run (request_and_wait_proof program stdin prover config) w = (w', Ok proof) ->
  requests w' = requests w ++ [ToNetwork prover (request_of program stdin config)] /\
  exists k k' id, network_request k prover (request_of program stdin config) = Ok id /\
    network_wait_proof k' prover id (pc_proving_timeout config) (pc_auction_timeout config) = Ok proof.
Proof.
  unfold request_and_wait_proof, request_proof, sdk. intros (w1 & id & Hid & Hr)%run_bind_Ok.
  rewrite run_act in Hid. injection Hid as <- Hid.
  apply run_bind_Ok in Hr as (w2 & p & Hp & Hr). rewrite run_act in Hp. injection Hp as <- Hp. injection Hr as <- <-.
  split; [done|]. by eauto.
Qed.

Lemma with_nodes_same w : with_nodes (nodes w) w = w.
Proof. by destruct w as [[] ? ? ? ? ? ? ?]. Qed.

Lemma run_still_fetch {A} (p : Fetch A) w : guar still p -> run (within nodes with_nodes p) w = (w, (run p (nodes w)).2).
Proof.
  intros Hp. rewrite run_within.
  - rewrite (run_still p _ Hp). by destruct w as [[] ? ? ? ? ? ? ?].
  - by intros [[] ? ? ? ? ? ? ?].
  - done.
  - done.
Qed.

(** What is asked for is what is proved. *)
Lemma range_given max s e default_range r :
  BlockRange.get_validated_block_range max (Some s) (Some e) default_range = Ok r -> r = (s, e) /\ s < e.
Proof.
  unfold BlockRange.get_validated_block_range. destruct (max <? e); cbn; [done|].
  destruct (Z.leb_spec e s); [done|]. by intros [= <-].
Qed.

(** What the results of the tasks are put together into. *)
Lemma aggregation_stdin_accepted config_hash config a ranges b c w w' Qs outputs stdin :
  honest config_hash -> chain a ranges b -> a < b -> served w -> 0 <= c <= tip -> tip < u64_max ->
  Qs ≡ₚ (fun t v => v.1 = t.1 /\ good config_hash (AggregationProgram.hash_slow (chain_ c)) t.2 v.2) <$>
          zip (seq 0 (length ranges)) ranges ->
  Forall2 meets Qs outputs ->
  run (MultiAndAgg.aggregation_stdin config (length ranges) outputs) w = (w', Ok stdin) ->
  w' = w /\ exists proofs boots headers_bytes out,
    stdin = AggStdin proofs boots headers_bytes (AggregationProgram.hash_slow (chain_ c)) (MultiAndAgg.proposer_address config) /\
    Forall2 (fun p b => answered (Compressed p, b)) proofs boots /\
    AggregationProgram.main {| boot_infos := boots; latest_l1_checkpoint_head := AggregationProgram.hash_slow (chain_ c);
            multi_block_vkey := range_vkey; AggregationProgram.prover_address := MultiAndAgg.proposer_address config |} headers_bytes = Ok out /\
    o_l1Head out = AggregationProgram.hash_slow (chain_ c) /\ o_l2PreRoot out = root_at a /\
    o_l2PostRoot out = root_at b /\ o_l2BlockNumber out = b.
Proof.
  intros Hh Hchain Hab Hw Hc Htip HQs Hm Hr. unfold MultiAndAgg.aggregation_stdin in Hr.
  apply run_bind_Ok in Hr as (w1 & results & Hk & Hr). injection Hk as <- Hk.
  pose proof (ordered_results _ _ _ _ _ HQs Hm Hk) as Hgood. apply good_boots in Hgood as (Hboots & Hv & Hans).
  destruct (span_ends config_hash (AggregationProgram.hash_slow (chain_ c)) a ranges b) as
    (first & rest & last_ & Hfr & Hlast & Hl1 & Hpre & Hpost & Hnum); [done..|].
  pose proof (span_sequential config_hash (AggregationProgram.hash_slow (chain_ c)) a ranges b Hchain) as Hseq.
  assert (Hheads : heads_upto chain_ c (first :: rest)).
  { rewrite <- Hfr. apply Forall_fmap, Forall_true. intros r. exists c. cbn. split; [lia|done]. }
  rewrite Hboots, Hfr in *. cbn zeta in Hr. rewrite Hlast in Hr.
  apply run_bind_Ok in Hr as (w2 & h & Hk2 & Hr). injection Hk2 as <- <-. rewrite Hl1 in Hr.
  apply run_bind_Ok in Hr as (w3 & headers & Hk3 & Hr).
  destruct (fetched_headers_accepted (nodes w) chain_ tip (serving_chain _ Hw)
    {| boot_infos := first :: rest; latest_l1_checkpoint_head := AggregationProgram.hash_slow (chain_ c);
       multi_block_vkey := range_vkey; AggregationProgram.prover_address := MultiAndAgg.proposer_address config |} first rest last_ c)
    as (headers' & Hrun & Hacc); try done.
  rewrite run_within, Hrun in Hk3; [|by intros [[] ? ? ? ? ? ? ?]|done..]. injection Hk3 as <- <-.
  destruct (Hacc (cbor_to_vec headers') (honest_headers _ Hh headers')) as (out & Hout & Hw1 & Hw2 & Hw3 & Hw4).
  injection Hr as <- Hr. rewrite with_nodes_same. split; [done|]. unfold get_agg_proof_stdin in Hr.
  destruct (mapM _ results.*1) as [compressed|] eqn:Hcomp; [|done]. injection Hr as <-.
  apply (answered_compressed _ _ Hans) in Hcomp. rewrite Hboots in Hcomp.
  exists compressed, (first :: rest), (cbor_to_vec headers'), out. by rewrite Hw2, Hw3, Hw4, Hpre, Hpost, Hnum.
Qed.

Lemma tasks_good config_hash h args config prover prior i ranges :
  honest config_hash -> MultiAndAgg.l1_head args = Some h ->
  Forall2 (holds (in_flight config prover prior))
    ((fun t v => v.1 = t.1 /\ good config_hash h t.2 v.2) <$> zip (seq i (length ranges)) ranges)
    (MultiAndAgg.range_task chain_config l1_selection args config prover <$> zip (seq i (length ranges)) ranges).
Proof.
  intros Hh Hl. revert i. induction ranges as [|[s e] ranges IH]; intros i; cbn; constructor; [|apply IH].
  by apply range_task_good.
Qed.

(** C10: However the concurrent range proofs overlap and end, and whatever the nodes do
    in between on the one chain, when every range is derived from the L1 head that
    was given and [multi-and-agg] succeeds, the network has been asked for range
    proofs, under the range settings, and after them, last, for one aggregation
    proof, under the aggregation settings, and has answered this. Its input
    holds proofs the network has answered with for the boot information beside
    them, and the aggregation program accepts it: the claim is for exactly the
    requested span, from the output root of its first block to that of its last,
    at that L1 head. Verification was only asked for on a chain and in a mode
    that have a verifier. *)
Theorem multi_and_agg_claims_span config_hash schedule l1_chain_id args s e c w w' :
  honest config_hash -> Forall (event_ok served) schedule -> served w ->
  MultiAndAgg.l1_head args = Some (AggregationProgram.hash_slow (chain_ c)) -> 0 <= c <= tip -> tip < u64_max ->
  MultiAndAgg.start args = Some s -> MultiAndAgg.end_ args = Some e -> 0 <= s -> e <= u64_max ->
  RangeSplitCount.valid (MultiAndAgg.range_splits args) ->
  run (MultiAndAgg.main var chain_config l1_selection schedule l1_chain_id args) w = (w', Ok tt) ->
  exists config prover range_requests proofs boots headers_bytes k k' id agg_proof out,
    let head := AggregationProgram.hash_slow (chain_ c) in
    let request := request_of Aggregation
      (AggStdin proofs boots headers_bytes head (MultiAndAgg.proposer_address config))
      (MultiAndAgg.agg_proving_config config) in
    MultiAndAgg.config_from_env var = Ok config /\
    requests w' = requests w ++ (ToNetwork prover <$> range_requests) ++ [ToNetwork prover request] /\
    Forall (fun r => exists stdin, r =
      request_of RequestDb.Range (RangeStdin stdin) (MultiAndAgg.range_proving_config config)) range_requests /\
    Forall2 (fun p b => answered (Compressed p, b)) proofs boots /\
    network_request k prover request = Ok id /\
    network_wait_proof k' prover id (pc_proving_timeout (MultiAndAgg.agg_proving_config config))
      (pc_auction_timeout (MultiAndAgg.agg_proving_config config)) = Ok agg_proof /\
    (MultiAndAgg.verify args = true -> exists chain_id, l1_chain_id = Ok chain_id /\
       MultiAndAgg.verifier_supported chain_id (pc_mode (MultiAndAgg.agg_proving_config config)) = true) /\
    AggregationProgram.main {| boot_infos := boots; latest_l1_checkpoint_head := head;
            multi_block_vkey := range_vkey; AggregationProgram.prover_address := MultiAndAgg.proposer_address config |}
      headers_bytes = Ok out /\
    o_l1Head out = head /\ o_l2PreRoot out = root_at s /\
    o_l2PostRoot out = root_at e /\ o_l2BlockNumber out = e.
Proof.
  intros Hh Hev Hw Hl1 Hc Htip Hs He Hs0 He1 Hvalid Hr. unfold MultiAndAgg.main in Hr.
  apply run_bind_Ok in Hr as (w1 & config & Hk & Hr). injection Hk as <- Hconfig.
  assert (Hcfg : MultiAndAgg.config_from_env var = Ok config)
    by (destruct (MultiAndAgg.config_from_env var); [by injection Hconfig as ->|discriminate Hconfig..]).
  apply run_bind_Ok in Hr as (w2 & max & Hk & Hr). rewrite run_still_fetch in Hk by apply guar_max_provable. injection Hk as <- _.
  apply run_bind_Ok in Hr as (w3 & [a b] & Hk & Hr). injection Hk as <- Hk.
  rewrite Hs, He in Hk. apply range_given in Hk as [[= -> ->] Hse].
  apply run_bind_Ok in Hr as (w4 & ranges & Hk & Hr). injection Hk as <- Hsplit. cbn [fst snd] in Hsplit.
  destruct (RangeSplitCount.split_partition (MultiAndAgg.range_splits args) s e) as (ranges' & Hsp & Hchain & _);
    [done|lia|done|]. rewrite Hsp in Hsplit. injection Hsplit as ->.
  apply run_bind_Ok in Hr as (w5 & prover & Hk & Hr). apply prover_built in Hk as [Hn5 Hr5].
  apply run_bind_Ok in Hr as (w6 & [] & Hk6 & Hr). injection Hk6 as <- _.
  assert (Hw5 : in_flight config prover (requests w) w5)
    by (split; [by rewrite Hn5|exists []; by rewrite Hr5, app_nil_r]).
  apply run_bind_Ok in Hr as (w7 & outputs & Hk7 & Hr). rewrite run_act in Hk7.
  destruct (stream_meets (in_flight config prover (requests w)) schedule _ _ _ _ _ _
    (Forall_impl _ _ _ Hev (event_in_flight config prover (requests w)))
    (tasks_good config_hash _ args config prover _ 0 ranges Hh Hl1) Hw5 Hk7)
    as ((Hw7 & range_requests & Hr7 & Hrr) & Qs & HQs & Hm).
  apply run_bind_Ok in Hr as (w8 & sp1_stdin & Hk8 & Hr).
  destruct (aggregation_stdin_accepted config_hash config s ranges e c w7 w8 Qs outputs sp1_stdin)
    as (-> & proofs & boots & bytes & out & -> & Hans & Hout); try done.
  apply run_bind_Ok in Hr as (w9 & [] & Hk9 & Hr). injection Hk9 as <- _.
  apply run_bind_Ok in Hr as (w10 & agg_proof & (Hr10 & k & k' & id & Hreq & Hwait)%waited_Ok & Hr).
  exists config, prover, range_requests, proofs, boots, bytes, k, k', id, agg_proof, out. cbv zeta.
  assert (Hend : requests w' = requests w10 /\ (MultiAndAgg.verify args = true -> exists chain_id,
    l1_chain_id = Ok chain_id /\
    MultiAndAgg.verifier_supported chain_id (pc_mode (MultiAndAgg.agg_proving_config config)) = true)).
  { destruct (MultiAndAgg.verify args); [|by injection Hr as <-].
    apply run_bind_Ok in Hr as (w11 & chain_id & Hk & Hr). injection Hk as <- Hid.
    apply run_bind_Ok in Hr as (w12 & [] & Hk & Hr). injection Hk as <- Hsup%ensure_Ok.
    apply run_bind_Ok in Hr as (w13 & v & Hk & Hr). injection Hr as <-. rewrite run_catch in Hk.
    destruct (verify_on_chain agg_proof); [injection Hk as <- _..|done]; (split; [done|]); by exists chain_id. }
  destruct Hend as [Hend Hverify]. rewrite Hend, Hr10, Hr7, <- app_assoc. destruct Hout as (? & ? & ? & ? & ?). by split_and!.
Qed.
End claims.

(** ** Samples *)

(** Nodes, a machine and a network that write down all they are given. *)
#[local] Instance sample_script_hash : HeaderHash := sample_hash.
#[local] Instance sample_script_roots : Hashing := {| EMPTY_ROOT_HASH := 0; keccak_output _ _ block_hash := block_hash |}.
#[local] Existing Instance sample_parsers.

Definition header_code (h : Header) : Z :=
  Zpos (encode (AggregationProgram.number h, timestamp h, parent_hash h, state_root h, withdrawals_root h, other_fields h)).
Definition header_of (code : Z) : option Header :=
  '(n, t, p, s, r, o) ← decode (A := Z * Z * Z * Z * option Z * Z) (Z.to_pos code);
  Some {| AggregationProgram.number := n; timestamp := t; parent_hash := p; state_root := s; withdrawals_root := r;
          other_fields := o |}.
Definition boot_of (code : Z) : option BootInfoStruct :=
  '(l1, pre, post, b) ← decode (A := Z * Z * Z * Z) (Z.to_pos code);
  Some {| l1Head := l1; l2PreRoot := pre; l2PostRoot := post; l2BlockNumber := b; rollupConfigHash := 13 |}.

#[local] Instance sample_script_zkvm : Zkvm := {|
  pv_digest b := l2PostRoot b;
  verify_sp1_proof _ _ := true;
  cbor_from_slice := mapM header_of;
  words_to_bytes_be := foldl (fun acc w => acc * 2 ^ 32 + w) 0 |}.
#[local] Instance sample_script_machine : Machine := {|
  host_run args := Ok (Zpos (encode (Fetcher.l1_head args, agreed_l2_output_root args,
                                     claimed_l2_output_root args, claimed_l2_block_number args)));
  get_sp1_stdin witness := Ok witness;
  zkvm_execute stdin := Ok {| public_values := stdin; exit_code := 0;
    report := {| ValidityTypes.total_instruction_count := 500; gas := Some 7; cycle_tracker _ := None |} |};
  deserialize_boot := boot_of |}.
#[local] Instance sample_sdk : Sdk := {|
  network_request _ _ request := Ok (match rq_stdin request with RangeStdin stdin => 2 * stdin | _ => 1 end);
  network_wait_proof _ _ id _ _ := Ok {| sp1_proof := Compressed 5; ValidityTypes.public_values := id / 2 |};
  network_setup _ := Ok tt;
  get_balance _ _ _ := None;
  aws_kms_signer _ := Err "KMS";
  local_signer _ := Ok 1;
  request_proof_from_env _ _ _ _ _ _ := None;
  cpu_verify _ _ := true;
  cpu_execute _ := Err "not executed";
  verify_on_chain _ := Ok tt;
  range_vkey := [1; 2];
  read_boot_info := boot_of;
  cbor_to_vec headers := header_code <$> headers |}.

Lemma sample_honest : honest 13.
Proof.
  split.
  - intros args witness stdin executed boot [= <-] [= <-] [= <-]. cbn. unfold boot_of. cbn [Z.to_pos].
    rewrite decode_encode. by intros [= <-].
  - intros k prover request stdin id k' timeout auction proof _ Hstdin. cbn. rewrite Hstdin. intros [= <-] [= <-]. eexists. split; [done|]. cbn [ValidityTypes.public_values Estimator.public_values].
    rewrite Z.mul_comm. by rewrite Z.div_mul.
  - done.
  - intros headers. cbn. apply mapM_fmap_Some. intros [n t p s r o]. unfold header_of, header_code. cbn [Z.to_pos].
    by rewrite decode_encode.
Qed.

(** The nodes before the L1 blocks above 70 were final. *)
Definition earlier_rpc : Rpc := {|
  l1_get_block b := l1_get_block sample_rpc (match b with Finalized => Number 70 | b => b end);
  l2_get_block := l2_get_block sample_rpc;
  l2_get_block_receipts := l2_get_block_receipts sample_rpc;
  message_passer_storage_hash := message_passer_storage_hash sample_rpc;
  optimism_outputAtBlock := optimism_outputAtBlock sample_rpc;
  optimism_safeHeadAtL1Block := optimism_safeHeadAtL1Block sample_rpc;
  safeHeadAtL1Block_raw := safeHeadAtL1Block_raw sample_rpc |}.

Lemma sample_serving : serving sample_header 100 sample_block (fun b => b) sample_rpc.
Proof. split; [apply sample_serves|by intros b block [= <-]|by intros b s [= <-]]. Qed.

Definition script_world (n : Rpc) : World := {|
  estimator := {| rpc := n; cache := ∅; writable := true; report_file := [] |}; calls := 0; requests := []; credentials := ∅;
  proof_dirs := true; range_proofs := ∅; agg_proofs := ∅; output_file := None |}.
Definition script_args (l1_head : option Z) : MultiAndAgg.Args := {|
  MultiAndAgg.start := Some 100; MultiAndAgg.end_ := Some 130; MultiAndAgg.l1_head := l1_head;
  MultiAndAgg.default_range := 5; MultiAndAgg.verify := false; MultiAndAgg.range_splits := RangeSplitCount.mk 2;
  MultiAndAgg.max_concurrent_splits := 2 |}.
Definition script_vars : list (string * string) :=
  [("L1_RPC", "http://l1"); ("PROPOSER_ADDRESS", "0xB1"); ("RANGE_PROOF_MODE", "compressed")]%string.

Notation sample_script schedule l1_head n :=
  (run (MultiAndAgg.main (sample_env script_vars) (Some 42220) default_selection schedule (Ok 1) (script_args l1_head))
     (script_world n)).

(** The second range is proved first. *)
Notation sample_turns := (replicate 40 (Turn 1) ++ Nodes sample_rpc :: replicate 40 (Turn 0)).

Lemma sample_script_ends : exists w', sample_script sample_turns (Some 1085) earlier_rpc = (w', Ok tt).
Proof. eexists. vm_compute. reflexivity. Qed.

Lemma earlier_serving : serving sample_header 100 sample_block (fun b => b) earlier_rpc.
Proof.
  split; [|by intros b block [= <-]|by intros b s [= <-]]. split; [| |done|apply sample_serves].
  - intros i Hi. unfold get_l1_header. rewrite (run_bind_still _ _ _ (Some (sample_block i))); [done|].
    rewrite run_call. change (l1_get_block earlier_rpc (Number i)) with (l1_get_block sample_rpc (Number i)).
    by destruct (sample_served i Hi) as [-> _].
  - intros i Hi. unfold get_l1_header. rewrite (run_bind_still _ _ _ (Some (sample_block i))); [done|].
    rewrite run_call. change (l1_get_block earlier_rpc (Hash (AggregationProgram.hash_slow (sample_header i)))) with
      (l1_get_block sample_rpc (Hash (1000 + i))).
    by destruct (sample_served i Hi) as [_ ->].
Qed.

Lemma multi_and_agg_claims_span_witness :
  exists w' prover range_requests proofs boots headers_bytes settings out,
    sample_script sample_turns (Some 1085) earlier_rpc = (w', Ok tt) /\
    requests w' = (ToNetwork prover <$> range_requests) ++
      [ToNetwork prover (request_of Aggregation (AggStdin proofs boots headers_bytes 1085 48) settings)] /\
    AggregationProgram.main {| boot_infos := boots; latest_l1_checkpoint_head := 1085; multi_block_vkey := range_vkey;
            AggregationProgram.prover_address := 48 |} headers_bytes = Ok out /\
    o_l1Head out = 1085 /\ o_l2PreRoot out = 1100 /\ o_l2PostRoot out = 1130 /\ o_l2BlockNumber out = 130.
Proof.
  destruct sample_script_ends as (w' & Hrun).
  destruct (multi_and_agg_claims_span (sample_env script_vars) (Some 42220) default_selection sample_header 100
    sample_block (fun b => b) 13 sample_turns (Ok 1) (script_args (Some 1085)) 100 130 85 (script_world earlier_rpc)
    w') as (config & prover & rs & proofs & boots & bytes & k & k' & id & proof & out & Hcfg & Hreq & _ & _ & _ & _ & _ & Hout).
  - exact sample_honest.
  - apply Forall_app; split; [apply Forall_replicate; exact I|]. apply Forall_cons; split; [|apply Forall_replicate; exact I].
    intros w _. exact sample_serving.
  - exact earlier_serving.
  - reflexivity.
  - cbn; lia.
  - unfold u64_max. lia.
  - reflexivity.
  - reflexivity.
  - cbn; lia.
  - unfold u64_max. lia.
  - unfold RangeSplitCount.valid, RangeSplitCount.MAX. cbn. lia.
  - exact Hrun.
  - assert (Haddr : MultiAndAgg.proposer_address config = 48)
      by (revert Hcfg; vm_compute; by intros [= <-]).
    cbv zeta in Hreq. rewrite Haddr in Hreq, Hout.
    exists w', prover, rs, proofs, boots, bytes, (MultiAndAgg.agg_proving_config config), out.
    split; [exact Hrun|]. split; [exact Hreq|exact Hout].
Defined.

(** The input the aggregation was asked for on: the last request. *)
Definition last_input (w : World) : option SP1Stdin :=
  match last (requests w) with Some (ToNetwork _ request) => Some (rq_stdin request) | _ => None end.

(** Left to find their L1 heads, a later range that is read while fewer L1 blocks
    are final has an earlier head than the range before it; the headers end
    there, and the aggregation program rejects the input that its proof is
    requested on. *)
Example late_head :
  match last_input (sample_script sample_turns None earlier_rpc).1 with
  | Some (AggStdin _ boots bytes h addr) =>
      l1Head <$> boots = [1078; 1070] /\ h = 1070 /\
      AggregationProgram.main {| boot_infos := boots; latest_l1_checkpoint_head := h; multi_block_vkey := range_vkey;
        AggregationProgram.prover_address := addr |} bytes = Panic
  | _ => False
  end.
Proof. vm_compute. done. Qed.

(** In the other order the heads ascend, and the claim is accepted. *)
Example ascending_heads :
  match last_input (sample_script [] None sample_rpc).1 with
  | Some (AggStdin _ boots bytes h addr) =>
      l1Head <$> boots = [1078; 1085] /\ h = 1085 /\
      exists out, AggregationProgram.main {| boot_infos := boots; latest_l1_checkpoint_head := h;
        multi_block_vkey := range_vkey; AggregationProgram.prover_address := addr |} bytes = Ok out
  | _ => False
  end.
Proof. vm_compute. split_and!; [done..|]. by eexists. Qed.
