(* ===== verification/BlockData.v ===== *)
(** * The block data report

    [scripts/utils/bin/block_data.rs] writes the data of a range of L2 blocks to a
    CSV file, a thousand blocks at a time, and adds it up. The loop counts both
    ends of a chunk in, while [get_l2_block_data_range] leaves the first block of
    its range out: the first block of every chunk is in neither the file nor the
    sums ([block_data_rows]). *)

From S2P Require Import Prelude.
From S2P Require Import ValidityRanges.
From S2P Require Import Interleaving.
From S2P Require Import Fetcher.
From S2P Require Import FetcherLaws.
From S2P Require Import Estimator.
From S2P Require Import EstimatorLaws.

(** The nodes, the rows of the CSV file, and whether its directory can be made. *)
Record World := { nodes : Rpc; csv : list BlockInfo; can_create : bool }.
Definition with_nodes (n : Rpc) (w : World) : World := {| nodes := n; csv := csv w; can_create := can_create w |}.
Definition with_csv (rows : list BlockInfo) (w : World) : World :=
  {| nodes := nodes w; csv := rows; can_create := can_create w |}.

Record BlockDataArgs := { start : Z; end_ : Z }.

(** An average is the pair of the numbers that are divided as [f64]. *)
Record AggregatedBlockData := {
  agg_transaction_count : Z;
  agg_gas_used : Z;
  agg_l1_fees : Z;
  agg_tx_fees : Z;
  nb_blocks : Z;
  avg_txns_per_block : Z * Z;
  avg_gas_per_block : Z * Z;
  avg_l1_fees_per_block : Z * Z;
  avg_tx_fees_per_block : Z * Z;
}.

Definition new (block_data : list BlockInfo) : AggregatedBlockData :=
  let total_txns := Stats.sum_u64 (transaction_count <$> block_data) in
  let total_gas := Stats.sum_u64 (gas_used <$> block_data) in
  let l1_fees := sum_u128 (total_l1_fees <$> block_data) in
  let tx_fees := sum_u128 (total_tx_fees <$> block_data) in
  let num_blocks := Z.of_nat (length block_data) in
  {| agg_transaction_count := total_txns; agg_gas_used := total_gas; agg_l1_fees := l1_fees;
     agg_tx_fees := tx_fees; nb_blocks := num_blocks;
     avg_txns_per_block := (wrap64 (total_txns - num_blocks), num_blocks);
     avg_gas_per_block := (total_gas, num_blocks);
     avg_l1_fees_per_block := (l1_fees, num_blocks);
     avg_tx_fees_per_block := (tx_fees, num_blocks) |}.

Definition CHUNK_SIZE : Z := 1000.

(** Out of fuel only when the last block is [u64::MAX], where the loop of the
    source does not end. *)
Fixpoint chunk_loop (fuel : nat) (current_start last_block : Z) (all_data : list BlockInfo)
    : prog World (list BlockInfo) :=
  match fuel with
  | O => done Panic
  | S fuel =>
      if current_start <=? last_block then
        let chunk_end := Z.min (wrap64 (current_start + CHUNK_SIZE - 1)) last_block in
        chunk_data ← within nodes with_nodes (get_l2_block_data_range current_start chunk_end);
        _ ← act (fun w => (with_csv (csv w ++ chunk_data) w, Ok tt));
        chunk_loop fuel (wrap64 (chunk_end + 1)) last_block (all_data ++ chunk_data)
      else mret all_data
  end.

Definition chunk_fuel (args : BlockDataArgs) : nat := Z.to_nat ((end_ args - start args) / CHUNK_SIZE + 2).

Definition write_block_data_to_csv (args : BlockDataArgs) : prog World (list BlockInfo) :=
  _ ← act (fun w => (with_csv [] w, Ok tt));
  chunk_loop (chunk_fuel args) (start args) (end_ args) [].

(** [main]; its result is what it prints. The two raw blocks it looks up first are
    not used. *)
Definition main (get_l2_chain_id : outcome Z) (get_l2_block_by_number : Z -> outcome unit) (args : BlockDataArgs)
    : prog World AggregatedBlockData :=
  _ ← done get_l2_chain_id;
  _ ← done (get_l2_block_by_number (start args));
  _ ← done (get_l2_block_by_number (end_ args));
  _ ← act (fun w => (w, ensure (can_create w) "create_dir_all"));
  l2_block_data ← write_block_data_to_csv args;
  mret (new l2_block_data).

(** ** The rows of the report *)

Section rows.
Context (n : Rpc) (data : Z -> BlockInfo).

(** A node that gives the data of every block. *)
Definition gives_data : Prop :=
  forall a b, 0 <= a < u64_max -> run (get_l2_block_data_range a b) n = (n, Ok (data <$> seqZ (a + 1) (b - a))).

(** The blocks that are not the first of a chunk. *)
Definition reported (first last_block : Z) : list Z :=
  filter (fun i => (i - first) mod CHUNK_SIZE <> 0) (seqZ first (last_block + 1 - first)).

Lemma filter_all {A} (P : A -> Prop) `{!forall x, Decision (P x)} l : Forall P l -> filter P l = l.
Proof. induction 1 as [|x l Hx _ IH]; [done|]. rewrite filter_cons_True by done. by rewrite IH. Qed.

Lemma reported_chunk first last_block : first <= last_block ->
  let m := Z.min CHUNK_SIZE (last_block + 1 - first) in
  reported first last_block = seqZ (first + 1) (m - 1) ++ reported (first + m) last_block.
Proof.
  intros Hle m. unfold reported. assert (Hm : 0 < m <= CHUNK_SIZE) by (unfold CHUNK_SIZE in *; lia).
  replace (last_block + 1 - first) with (m + (last_block + 1 - (first + m))) by lia.
  rewrite seqZ_app, filter_app by (unfold m; lia). f_equal.
  - rewrite seqZ_cons by lia. rewrite filter_cons_False by (rewrite Z.sub_diag; by intros []).
    replace (Z.succ first) with (first + 1) by lia. replace (Z.pred m) with (m - 1) by lia.
    apply filter_all, Forall_forall. intros i Hi%elem_of_seqZ. rewrite Z.mod_small; unfold CHUNK_SIZE in *; lia.
  - destruct (decide (m = CHUNK_SIZE)) as [->|Hne].
    + apply list_filter_iff. intros i. replace (i - first) with (i - (first + CHUNK_SIZE) + 1 * CHUNK_SIZE) by lia.
      by rewrite Z.mod_add.
    + by rewrite !seqZ_nil by (unfold m, CHUNK_SIZE in *; lia).
Qed.

Lemma reported_empty first last_block : last_block < first -> reported first last_block = [].
Proof. intros Hlt. unfold reported. by rewrite seqZ_nil by lia. Qed.

Lemma chunk_loop_run fuel first last_block rows file d : gives_data ->
  0 <= first -> last_block + CHUNK_SIZE <= u64_max -> (0 < fuel)%nat ->
  last_block - first < CHUNK_SIZE * (Z.of_nat fuel - 1) ->
  run (chunk_loop fuel first last_block rows) {| nodes := n; csv := file; can_create := d |} =
  ({| nodes := n; csv := file ++ (data <$> reported first last_block); can_create := d |},
   Ok (rows ++ (data <$> reported first last_block))).
Proof.
  intros Hn. revert first rows file. induction fuel as [|fuel IH]; intros first rows file Hf Hl Hpos Hfuel; [lia|].
  cbn [chunk_loop]. destruct (Z.leb_spec first last_block) as [Hle|Hlt].
  2:{ rewrite reported_empty by done. cbn. by rewrite !app_nil_r. }
  unfold CHUNK_SIZE in Hl, Hfuel. unfold u64_max in Hl.
  rewrite (wrap64_small (first + CHUNK_SIZE - 1)) by (unfold is_u64, u64_max, CHUNK_SIZE; lia).
  set (m := Z.min CHUNK_SIZE (last_block + 1 - first)).
  replace (Z.min (first + CHUNK_SIZE - 1) last_block) with (first + m - 1) by (unfold m; lia).
  cbn zeta. rewrite run_bind. unfold mbind at 1, M_bind.
  rewrite run_within; [|by intros []|done..]. cbn [nodes]. rewrite Hn by (unfold u64_max; lia). cbn [fst snd].
  change (with_nodes n {| nodes := n; csv := file; can_create := d |}) with
    {| nodes := n; csv := file; can_create := d |}.
  rewrite run_bind. unfold mbind at 1, M_bind. rewrite run_act.
  unfold with_csv. cbn [nodes csv can_create].
  rewrite wrap64_small by (unfold is_u64, u64_max, m, CHUNK_SIZE; lia).
  rewrite IH by (unfold u64_max, m, CHUNK_SIZE in *; lia).
  replace (first + m - 1 + 1) with (first + m) by lia. replace (first + m - 1 - first) with (m - 1) by lia.
  rewrite (reported_chunk first) by done. fold m. by rewrite fmap_app, <- !app_assoc.
Qed.

(** The report of a range holds its blocks but the first of every thousand, in
    order, in the file as in the sums. *)
Lemma block_data_rows args file d : gives_data ->
  0 <= start args <= end_ args -> end_ args + CHUNK_SIZE <= u64_max ->
  run (write_block_data_to_csv args) {| nodes := n; csv := file; can_create := d |} =
  ({| nodes := n; csv := data <$> reported (start args) (end_ args); can_create := d |},
   Ok (data <$> reported (start args) (end_ args))).
Proof.
  intros Hn Hs He. unfold write_block_data_to_csv. rewrite run_bind. unfold mbind at 1, M_bind. rewrite run_act.
  unfold with_csv. cbn [nodes csv can_create].
  pose proof (Z.div_mod (end_ args - start args) CHUNK_SIZE ltac:(done)).
  pose proof (Z.mod_pos_bound (end_ args - start args) CHUNK_SIZE ltac:(done)).
  assert (0 <= (end_ args - start args) / CHUNK_SIZE) by (apply Z.div_pos; unfold CHUNK_SIZE; lia).
  rewrite chunk_loop_run; [done|done|lia|done|unfold chunk_fuel; lia|unfold chunk_fuel; rewrite Z2Nat.id by lia; lia].
Qed.
End rows.

(** Three blocks are missing among 10 to 2500: 10, 1010 and 2010. *)
Example three_blocks_missing :
  length (seqZ 10 2491) = 2491%nat /\ length (reported 10 2500) = 2488%nat /\
  1010 ∉ reported 10 2500 /\ 2010 ∉ reported 10 2500.
Proof.
  split_and!; [vm_compute; reflexivity..| |]; unfold reported; rewrite list_elem_of_filter; by intros [[] _].
Qed.
