(* ===== verification/Cluster.v ===== *)
(** * The cluster client

    The part of [utils/proof/src/lib.rs] that asks a self-hosted cluster for a
    proof and polls it, without waiting. A [ClusterProofConfig] is made once, from
    the environment; the per-call configuration is copied from it. The cluster's
    own client library is a parameter. *)

From S2P Require Import Prelude.
From S2P Require Import RequestDb.
From S2P Require Import ValidityTypes.
From S2P Require Import ProvingScripts.

Inductive ArtifactStoreConfig := RedisConfig (nodes : list Z) | S3Config (bucket region : Z).

(** [ProofRequestConfig] of the client library. *)
Record ProofRequestConfig := {
  rc_cluster_rpc : Z;
  rc_cluster_access_token : option Z;
  rc_mode : ProofMode;
  rc_timeout_hours : Z;
  rc_artifact_store : ArtifactStoreConfig;
}.

(** The client library: clients of an artifact store and of the service. *)
Class ClusterSdk := {
  RedisArtifactClient : Type;
  S3ArtifactClient : Type;
  ClusterServiceClient : Type;
  redis_new : list Z -> Z -> RedisArtifactClient;
  s3_new : Z -> Z -> Z -> S3ArtifactClient;
  service_new : Z -> option Z -> outcome ClusterServiceClient;
  redis_create_request : RedisArtifactClient -> RequestType -> SP1Stdin -> ProofRequestConfig -> outcome ClusterProofRequest;
  s3_create_request : S3ArtifactClient -> RequestType -> SP1Stdin -> ProofRequestConfig -> outcome ClusterProofRequest;
  redis_check_proof_status : RedisArtifactClient -> ClusterProofRequest -> ClusterServiceClient ->
    outcome (option SP1ProofWithPublicValues);
  s3_check_proof_status : S3ArtifactClient -> ClusterProofRequest -> ClusterServiceClient ->
    outcome (option SP1ProofWithPublicValues);
  (** reads the environment; panics without the variables it needs *)
  request_config_from_env : ProofMode -> Z -> outcome ProofRequestConfig;
}.

Section cluster.
Context `{ClusterSdk}.

Inductive ClusterArtifactStore := Redis (c : RedisArtifactClient) | S3 (c : S3ArtifactClient).

Definition create_request (store : ClusterArtifactStore) (elf : RequestType) (stdin : SP1Stdin)
    (config : ProofRequestConfig) : outcome ClusterProofRequest :=
  map_err (fun _ => "cluster proof submit failed"%string)
    match store with
    | Redis c => redis_create_request c elf stdin config
    | S3 c => s3_create_request c elf stdin config
    end.

Definition check_proof_status (store : ClusterArtifactStore) (proof_request : ClusterProofRequest)
    (service_client : ClusterServiceClient) : outcome (option SP1ProofWithPublicValues) :=
  map_err (fun _ => "cluster proof poll failed"%string)
    match store with
    | Redis c => redis_check_proof_status c proof_request service_client
    | S3 c => s3_check_proof_status c proof_request service_client
    end.

Record ClusterProofConfig := {
  cluster_rpc : Z;
  cluster_access_token : option Z;
  artifact_store : ClusterArtifactStore;
  artifact_store_config : ArtifactStoreConfig;
  service_client : ClusterServiceClient;
}.

(** The client of a store. *)
Definition client_of (config : ArtifactStoreConfig) : ClusterArtifactStore :=
  match config with
  | RedisConfig nodes => Redis (redis_new nodes 16)
  | S3Config bucket region => S3 (s3_new region bucket 32)
  end.

Definition from_env : outcome ClusterProofConfig :=
  config ← request_config_from_env ProtoCompressed 1;
  service_client ← map_err (fun _ => "failed to create cluster service client"%string)
                     (service_new (rc_cluster_rpc config) (rc_cluster_access_token config));
  Ok {| cluster_rpc := rc_cluster_rpc config; cluster_access_token := rc_cluster_access_token config;
        artifact_store := client_of (rc_artifact_store config);
        artifact_store_config := rc_artifact_store config; service_client := service_client |}.

Definition build_request_config (c : ClusterProofConfig) (mode : ProofMode) (timeout_secs : Z) : ProofRequestConfig := {|
  rc_cluster_rpc := cluster_rpc c; rc_cluster_access_token := cluster_access_token c; rc_mode := mode;
  rc_timeout_hours := timeout_hours timeout_secs;
  rc_artifact_store := match artifact_store_config c with
                       | RedisConfig nodes => RedisConfig nodes
                       | S3Config bucket region => S3Config bucket region
                       end |}.

Definition cluster_submit_range_proof (c : ClusterProofConfig) (timeout_secs : Z) (stdin : SP1Stdin)
    : outcome ClusterProofRequest :=
  create_request (artifact_store c) RequestDb.Range stdin (build_request_config c ProtoCompressed timeout_secs).

Definition cluster_submit_agg_proof (c : ClusterProofConfig) (timeout_secs : Z) (agg_mode : SP1ProofMode)
    (stdin : SP1Stdin) : outcome ClusterProofRequest :=
  create_request (artifact_store c) Aggregation stdin
    (build_request_config c (to_proto_proof_mode agg_mode) timeout_secs).

Definition cluster_poll_proof (c : ClusterProofConfig) (proof_request : ClusterProofRequest)
    : outcome (option SP1ProofWithPublicValues) :=
  check_proof_status (artifact_store c) proof_request (service_client c).

(** A request rebuilt from its row at the time [now]. *)
Definition reconstruct_proof_request (now : Z) (handle_json : ClusterProofHandleJson) (remaining_timeout : Z)
    : ClusterProofRequest := {|
  cp_proof_id := proof_id handle_json; cp_output_id := proof_output_id handle_json;
  cp_deadline := now + remaining_timeout |}.

(** ** Submitting and polling *)

(** A proof is asked for, with its artifacts in the store that polls go to, for the
    whole hours that cover its timeout. *)
Definition submits (env : ProofRequestConfig) (elf : RequestType) (mode : ProofMode) (timeout_secs : Z)
    (stdin : SP1Stdin) : outcome ClusterProofRequest :=
  create_request (client_of (rc_artifact_store env)) elf stdin
    {| rc_cluster_rpc := rc_cluster_rpc env; rc_cluster_access_token := rc_cluster_access_token env;
       rc_mode := mode; rc_timeout_hours := timeout_hours timeout_secs; rc_artifact_store := rc_artifact_store env |}.

Lemma one_store c env timeout_secs stdin agg_mode request :
  request_config_from_env ProtoCompressed 1 = Ok env -> from_env = Ok c ->
  cluster_submit_range_proof c timeout_secs stdin = submits env RequestDb.Range ProtoCompressed timeout_secs stdin /\
  cluster_submit_agg_proof c timeout_secs agg_mode stdin =
    submits env Aggregation (to_proto_proof_mode agg_mode) timeout_secs stdin /\
  exists service, service_new (rc_cluster_rpc env) (rc_cluster_access_token env) = Ok service /\
    cluster_poll_proof c request = check_proof_status (client_of (rc_artifact_store env)) request service.
Proof.
  intros He. unfold from_env. rewrite He. cbn. destruct (service_new _ _) as [service|e|] eqn:Hs; [|done..]. cbn.
  intros [= <-]. unfold cluster_submit_range_proof, cluster_submit_agg_proof, submits, build_request_config. cbn.
  destruct (rc_artifact_store env) eqn:Hst; by split_and!; eauto.
Qed.

(** A request rebuilt after a restart polls the same proof, until the deadline that
    was left. *)
Lemma rebuilt_request (request : ClusterProofRequest) now remaining : cp_deadline request = now + remaining ->
  reconstruct_proof_request now {| proof_id := cp_proof_id request; proof_output_id := cp_output_id request |} remaining =
  request.
Proof. destruct request as [p o d]. by cbn; intros ->. Qed.
End cluster.
