(* ===== verification/Preflight.v ===== *)
(** * The preflight check of a deployment

    [scripts/utils/bin/preflight.rs] looks for the L1 block in which the factory was
    given its implementation of a game, proves the ten blocks after the anchor at
    the L1 block right after it, and plays creation and proof of a game on a
    local fork of L1. The log queries of L1, SP1 and the fork are parameters. *)

From S2P Require Import Prelude.
From S2P Require Import FaultTypes.
From S2P Require Import AggregationProgram.
From S2P Require Import Interleaving.
From S2P Require Import RequestDb.
From S2P Require Import ValidityTypes.
From S2P Require Import ProofRequester.
From S2P Require Import Fetcher.
From S2P Require Import FetcherLaws.
From S2P Require Import Settings.
From S2P Require Import Estimator.
From S2P Require Import ProvingScripts.
From S2P Require Deployment.

(** What the script reads of L1 beside blocks: the latest number, the block numbers
    of the [ImplementationSet] events of a game type within two blocks, and the
    block of the anchor. *)
Class L1Logs := {
  get_block_number : Rpc -> outcome Z;
  query_implementation_set : Rpc -> Z -> Z -> Z -> Z -> outcome (list (option Z));
  anchor_l2_block : Rpc -> Z -> outcome Z;
}.

(** A local fork of L1 at a block, with mining on demand. *)
Class Anvil := {
  Fork : Type;
  spawn : Z -> Fork;
  fork_init_bond : Fork -> Z -> outcome Z;
  fork_create : Fork -> Z -> Z -> list Z -> Z -> outcome Fork;  (** sent and mined *)
  fork_game_count : Fork -> outcome Z;
  fork_game_at_index : Fork -> Z -> outcome Z;
  fork_game_l1_head : Fork -> Z -> outcome Z;
  fork_prove : Fork -> Z -> SP1ProofWithPublicValues -> outcome Fork;  (** sent and mined *)
  fork_status : Fork -> Z -> outcome ProposalStatus;
}.

(** ** The block of the implementation *)

Section search.
Context `{L1Logs} (var : string -> EnvVar) (factory_address game_type : Z).

Definition chunk_size : outcome Z :=
  chunk_size ← (match get var "CHUNK_SIZE" with
                | None => Ok 100000
                | Some val => with_context "CHUNK_SIZE must be a valid u64" (parse_u64 (trim val))
                end);
  _ ← ensure (negb (chunk_size =? 0)) "CHUNK_SIZE must be greater than 0";
  Ok chunk_size.

(** The loop, on [end_block]. *)
Fixpoint search_chunks (fuel : nat) (chunk_size end_block : Z) : Fetch Z :=
  match fuel with
  | O => done Panic
  | S fuel =>
      let start_block := saturating_sub end_block chunk_size in
      logs ← call (fun n => query_implementation_set n factory_address game_type start_block end_block);
      match last logs with
      | Some log => done (with_context "Block number not found in ImplementationSet event" log)
      | None =>
          if start_block =? 0 then done (Err "No ImplementationSet event found in entire chain history")
          else search_chunks fuel chunk_size (saturating_sub start_block 1)
      end
  end.

Definition get_implementation_set_block : Fetch Z :=
  latest_block ← call get_block_number;
  chunk_size ← done chunk_size;
  search_chunks (S (Z.to_nat latest_block)) chunk_size latest_block.

(** A node that gives the events of a chain, in their order. *)
Definition gives_events (n : Rpc) (events : list Z) : Prop := forall from to,
  query_implementation_set n factory_address game_type from to =
    Ok (Some <$> filter (fun b => from <= b <= to) events).

Lemma sorted_split events start from : StronglySorted Z.le events -> start <= from + 1 ->
  filter (fun b => b <= from) events = filter (fun b => b <= start - 1) events ++ filter (fun b => start <= b <= from) events.
Proof.
  intros Hs Hle. induction Hs as [|b events _ IH Hall]; [done|]. rewrite !filter_cons, IH.
  destruct (decide (b <= from)), (decide (b <= start - 1)), (decide (start <= b <= from)); try lia; try done.
  enough (Hnil : filter (fun b => b <= start - 1) events = []) by by rewrite Hnil.
  clear IH. induction Hall as [|c events' Hc _ IH]; [done|]. by rewrite filter_cons_False by lia.
Qed.

Lemma last_app_some {A} (l l' : list A) x : last l' = Some x -> last (l ++ l') = Some x.
Proof. intros Hl. rewrite last_app, Hl. done. Qed.

(** With fuel for every block the search ends with the last event up to the block it
    starts from, or with an error when there is none. *)
Lemma search_chunks_finds fuel size from n events : gives_events n events -> StronglySorted Z.le events ->
  Forall (fun b => 0 <= b) events -> 0 < size -> 0 <= from < Z.of_nat fuel ->
  run (search_chunks fuel size from) n =
    (n, match last (filter (fun b => b <= from) events) with
        | Some b => Ok b
        | None => Err "No ImplementationSet event found in entire chain history"
        end).
Proof.
  intros Hn Hsorted Hpos Hsize. revert from. induction fuel as [|fuel IH]; intros from Hfrom; [lia|].
  cbn [search_chunks]. set (start := saturating_sub from size).
  assert (Hst : 0 <= start <= from /\ (start = 0 \/ start = from - size)) by (unfold start, saturating_sub; lia).
  rewrite (run_bind_still _ _ _ (Some <$> filter (fun b => start <= b <= from) events)) by
    (rewrite run_call; by rewrite Hn).
  rewrite (sorted_split events start from) by (done || lia).
  rewrite fmap_last. destruct (last (filter (fun b => start <= b <= from) events)) as [b|] eqn:Hl; cbn [fmap option_fmap option_map].
  { by rewrite (last_app_some _ _ b Hl). }
  apply last_None in Hl. rewrite Hl, app_nil_r. destruct (Z.eqb_spec start 0) as [Hz|Hz].
  - enough (Hnil : filter (fun b => b <= start - 1) events = []) by by rewrite Hnil.
    rewrite Hz. clear - Hpos. induction Hpos as [|b events' Hb _ IH]; [done|]. by rewrite filter_cons_False by lia.
  - unfold saturating_sub. replace (Z.max 0 (start - 1)) with (start - 1) by lia. apply IH. lia.
Qed.
End search.

(** ** The check *)

Section preflight.
Context `{HeaderHash, Hashing, Machine, Sdk, Parsers, Deployment.Keys, L1Logs, Anvil} (var : string -> EnvVar).
Context (chain_config : option Z) (l1_selection : L1BlockSelectionConfig).

(** [env::var(key).ok().filter(|s| !s.trim().is_empty())] *)
Definition nonempty (key : string) : option (list Z) :=
  match get var key with Some s => if decide (trim s = []) then None else Some s | None => None end.

Definition set_impl_block (factory_address game_type : Z) : Fetch Z :=
  match nonempty "SET_IMPL_BLOCK" with
  | Some val => done (with_context "SET_IMPL_BLOCK must be a positive integer block number" (parse_u64 val))
  | None => get_implementation_set_block var factory_address game_type
  end.

(** The block that expression [l1_head] results in. *)
Definition choose_l1_head (factory_address game_type l2_end_block : Z) : Fetch Header :=
  _ ← get_l1_head chain_config l1_selection l2_end_block false;
  finalized_l1_header ← get_l1_header Finalized;
  set_impl_block_number ← set_impl_block factory_address game_type;
  l1_header_after_set_impl ← get_l1_header (Number (wrap64 (set_impl_block_number + 1)));
  if AggregationProgram.number l1_header_after_set_impl <? AggregationProgram.number finalized_l1_header
  then mret l1_header_after_set_impl
  else done Panic.

Definition agg_proof_mode : outcome SP1ProofMode :=
  let mode := to_lowercase (default (codes "plonk") (nonempty "AGG_PROOF_MODE")) in
  if decide (mode = codes "groth16") then Ok Groth16Mode
  else if decide (mode = codes "plonk") then Ok PlonkMode
  else Err "Invalid AGG_PROOF_MODE".

(** Steps 4 and 5: a game created and proved on the fork. *)
Definition simulate (game_type l2_end_block l1_head_number : Z) (boot_info : BootInfoStruct)
    (agg_proof : SP1ProofWithPublicValues) : outcome unit :=
  _ ← unwrap (get var "L1_RPC");
  let fork := spawn l1_head_number in
  init_bond ← fork_init_bond fork game_type;
  fork ← fork_create fork game_type (l2PostRoot boot_info) [l2_end_block; u32_max] init_bond;
  new_game_count ← fork_game_count fork;
  game_address ← fork_game_at_index fork (wrap256 (new_game_count - 1));
  game_l1_head ← fork_game_l1_head fork game_address;
  _ ← ensure (game_l1_head =? l1Head boot_info) "L1 head mismatch!";
  fork ← fork_prove fork game_address agg_proof;
  status ← fork_status fork game_address;
  if decide (status = UnchallengedAndValidProofProvided) then Ok tt else Panic.

(** [main], with the chain id the nodes give. *)
Definition main (l2_chain_id : outcome Z) : prog World unit :=
  private_key ← done (required var "PRIVATE_KEY");
  wallet ← done (with_context "failed to parse private key" (parse_private_key private_key));
  use_kms_requester ← done (with_context "USE_KMS_REQUESTER must be true or false"
                              (parse_bool (get_or var "USE_KMS_REQUESTER" "false")));
  anchor_state_registry_address ← done (required_parsed var parse_address "ANCHOR_STATE_REGISTRY_ADDRESS");
  factory_address ← done (required_parsed var parse_address "FACTORY_ADDRESS");
  game_type ← done (required_parsed var (parse_uint u32_max) "GAME_TYPE");
  anchor ← fetch (call (fun n => anchor_l2_block n anchor_state_registry_address));
  l2_start_block ← done (if anchor <=? u64_max then Ok anchor else Panic);
  let l2_end_block := wrap64 (l2_start_block + 10) in
  l1_head ← fetch (choose_l1_head factory_address game_type l2_end_block);
  let l1_head_hash := AggregationProgram.hash_slow l1_head in
  host_args ← fetch (host_fetch chain_config l1_selection l2_start_block l2_end_block (Some l1_head_hash) false);
  witness_data ← done (host_run host_args);
  range_proof_stdin ← done (get_sp1_stdin witness_data);
  network_signer ← done (get_network_signer var use_kms_requester);
  range_proof_strategy ← done (strategy ← required var "RANGE_PROOF_STRATEGY"; parse_fulfillment_strategy strategy);
  agg_proof_strategy ← done (strategy ← required var "AGG_PROOF_STRATEGY"; parse_fulfillment_strategy strategy);
  network_mode ← done (determine_network_mode range_proof_strategy agg_proof_strategy);
  let network_prover := {| prover_mode := network_mode; prover_signer := network_signer; client_identity := None |} in
  _ ← done (network_setup RequestDb.Range);
  range_proof ← Agg.prove_or_panic network_prover
                  (Agg.plain_request RequestDb.Range (RangeStdin range_proof_stdin) CompressedMode range_proof_strategy);
  l2_chain_id ← done l2_chain_id;
  _ ← save_range_proof l2_chain_id l2_start_block l2_end_block range_proof;
  boot_info ← done (unwrap (read_boot_info (ValidityTypes.public_values range_proof)));
  _ ← done (if l1Head boot_info =? l1_head_hash then Ok tt else Panic);
  _ ← done (network_setup RequestDb.Range);
  agg_proof_stdin ← done (get_agg_proof_stdin [sp1_proof range_proof] [boot_info] (cbor_to_vec [l1_head])
                            (l1Head boot_info) (Deployment.private_key_address wallet));
  agg_proof_mode ← done agg_proof_mode;
  _ ← done (network_setup Aggregation);
  agg_proof ← Agg.prove_or_panic network_prover
                (Agg.plain_request Aggregation agg_proof_stdin agg_proof_mode agg_proof_strategy);
  _ ← save_agg_proof l2_chain_id (codes "agg") agg_proof;
  l1_block ← fetch (call (fun n => l1_get_block n (Hash (l1Head boot_info))));
  l1_block ← done (unwrap l1_block);
  done (simulate game_type l2_end_block (AggregationProgram.number (header l1_block)) boot_info agg_proof).
End preflight.
