(* ===== verification/PreflightLaws.v ===== *)
(** * What a successful preflight has shown

    The one range proof is at the L1 block right after the implementation was set,
    before the finalized one, and the aggregation program accepts the input the
    script puts together, with the claim of the ten blocks after the anchor
    ([preflight_claims]). *)

From S2P Require Import Prelude.
From S2P Require Import AggregationProgram.
From S2P Require Import Interleaving.
From S2P Require Import RequestDb.
From S2P Require Import ValidityTypes.
From S2P Require Import ProofRequester.
From S2P Require Import Fetcher.
From S2P Require Import FetcherLaws.
From S2P Require Import Settings.
From S2P Require Import Estimator.
From S2P Require Import EstimatorLaws.
From S2P Require Import ProvingScripts.
From S2P Require Import ProvingScriptsLaws.
From S2P Require Import Preflight.
From S2P Require FaultTypes.
From S2P Require Deployment.

Section laws.
Context `{HeaderHash, Hashing, Machine, Sdk, Zkvm, Parsers, Deployment.Keys, L1Logs, Anvil} (var : string -> EnvVar).
Context (chain_config : option Z) (l1_selection : L1BlockSelectionConfig).
Context (chain_ : Z -> Header) (tip : Z) (block_at : Z -> Block) (storage_at : Z -> Z).
Notation served := (fun w => serving chain_ tip block_at storage_at (nodes w)).

#[local] Hint Resolve guar_header guar_call : guar.

Lemma guar_search fuel factory game_type size from : guar still (search_chunks factory game_type fuel size from).
Proof.
  revert from. induction fuel as [|fuel IH]; intros from; cbn [search_chunks]; [done|].
  apply guar_bind; [apply guar_call|]. intros logs. destruct (last logs); [done|]. destruct (_ =? 0); [done|apply IH].
Qed.

Lemma guar_set_impl factory game_type : guar still (set_impl_block var factory game_type).
Proof.
  unfold set_impl_block, get_implementation_set_block. destruct (nonempty _ _); [done|].
  apply guar_bind; [apply guar_call|]. intros n. apply guar_bind; [done|]. intros size. apply guar_search.
Qed.

Lemma guar_l1_head e : guar still (get_l1_head chain_config l1_selection e false).
Proof.
  unfold get_l1_head. destruct chain_config; [|done]. apply guar_bind; [apply guar_catch, guar_safe_l1_block|].
  by intros [x|err].
Qed.

(** Running a program that only reads. *)
Lemma run_read {A B} (p : Fetch A) (k : A -> Fetch B) n n' b : guar still p -> run (p ≫= k) n = (n', Ok b) ->
  exists a, run p n = (n, Ok a) /\ run (k a) n = (n', Ok b).
Proof.
  intros Hp (n1 & a & Ha & Hk)%run_bind_Ok. pose proof (run_still _ n Hp) as Hs. rewrite Ha in Hs. cbn in Hs. subst n1.
  by exists a.
Qed.

Lemma chosen_head factory game_type e n n' h :
  run (choose_l1_head var chain_config l1_selection factory game_type e) n = (n', Ok h) ->
  n' = n /\ exists b f, run (set_impl_block var factory game_type) n = (n, Ok b) /\
    run (get_l1_header (Number (wrap64 (b + 1)))) n = (n, Ok h) /\
    run (get_l1_header Finalized) n = (n, Ok f) /\ AggregationProgram.number h < AggregationProgram.number f.
Proof.
  unfold choose_l1_head. intros (x & _ & Hr)%run_read; [|apply guar_l1_head].
  apply run_read in Hr as (f & Hf & Hr); [|apply guar_header].
  apply run_read in Hr as (b & Hb & Hr); [|apply guar_set_impl].
  apply run_read in Hr as (h' & Hh & Hr); [|apply guar_header].
  destruct (Z.ltb_spec (AggregationProgram.number h') (AggregationProgram.number f)) as [Hlt|]; [|done].
  injection Hr as <- <-. split; [done|]. by exists b, f.
Qed.

Lemma proved_Ok prover request w w' proof : run (Agg.prove_or_panic prover request) w = (w', Ok proof) ->
  nodes w' = nodes w /\ requests w' = requests w ++ [ToNetwork prover request] /\
  range_proofs w' = range_proofs w /\ agg_proofs w' = agg_proofs w /\
  exists k k' id, network_request k prover request = Ok id /\
    network_wait_proof k' prover id None None = Ok proof.
Proof.
  unfold Agg.prove_or_panic, Estimator.expect, sdk, request_proof. intros (w1 & [a|e] & Hk & Hr)%run_bind_Ok; [|done].
  injection Hr as <- <-. rewrite run_catch in Hk. unfold attempt in Hk.
  destruct (run _ w) as [w2 [a'|e|]] eqn:Hrun; simplify_eq.
  apply run_bind_Ok in Hrun as (w3 & id & Hid & Hw). rewrite run_act in Hid. injection Hid as <- Hid.
  rewrite run_act in Hw. injection Hw as <- Hw. split_and!; [done..|]. by exists (calls w), (S (calls w)), id.
Qed.

Lemma saved_range chain_id start end_ proof w w' u :
  run (save_range_proof chain_id start end_ proof) w = (w', Ok u) ->
  nodes w' = nodes w /\ requests w' = requests w /\ agg_proofs w' = agg_proofs w /\
  range_proofs w' !! (chain_id, range_name start end_) = Some (Some proof).
Proof.
  unfold save_range_proof. rewrite run_act. destruct (proof_dirs w); [|done]. intros [= <- _]. cbn.
  by rewrite lookup_insert_eq.
Qed.

Lemma saved_agg chain_id name proof w w' u :
  run (save_agg_proof chain_id name proof) w = (w', Ok u) ->
  nodes w' = nodes w /\ requests w' = requests w /\ range_proofs w' = range_proofs w /\
  agg_proofs w' !! (chain_id, name) = Some proof.
Proof.
  unfold save_agg_proof. rewrite run_act. destruct (proof_dirs w); [|done]. intros [= <- _]. cbn.
  by rewrite lookup_insert_eq.
Qed.

(** What the fork is shown: a game with this claim is created for the bond the
    factory asks, on a fork of L1 at the block, and is the latest; its L1 head is
    that of the claim; and once it is proved it counts as validly proved without
    a challenge. *)
Definition played_on_fork (game_type l2_end_block l1_head_number : Z) (boot : BootInfoStruct)
    (agg_proof : SP1ProofWithPublicValues) : Prop :=
  exists bond created count game proven,
    fork_init_bond (spawn l1_head_number) game_type = Ok bond /\
    fork_create (spawn l1_head_number) game_type (l2PostRoot boot) [l2_end_block; u32_max] bond = Ok created /\
    fork_game_count created = Ok count /\ fork_game_at_index created (wrap256 (count - 1)) = Ok game /\
    fork_game_l1_head created game = Ok (l1Head boot) /\
    fork_prove created game agg_proof = Ok proven /\
    fork_status proven game = Ok FaultTypes.UnchallengedAndValidProofProvided.

Lemma simulate_plays game_type l2_end_block l1_head_number boot agg_proof u :
  simulate var game_type l2_end_block l1_head_number boot agg_proof = Ok u ->
  played_on_fork game_type l2_end_block l1_head_number boot agg_proof.
Proof.
  unfold simulate. intros Hs.
  apply outcome_bind_Ok in Hs as (url & _ & Hs).
  apply outcome_bind_Ok in Hs as (bond & Hbond & Hs). apply outcome_bind_Ok in Hs as (created & Hcreate & Hs).
  apply outcome_bind_Ok in Hs as (count & Hcount & Hs). apply outcome_bind_Ok in Hs as (game & Hgame & Hs).
  apply outcome_bind_Ok in Hs as (head & Hhead & Hs).
  apply outcome_bind_Ok in Hs as ([] & Heq%ensure_Ok%Z.eqb_eq & Hs). subst head.
  apply outcome_bind_Ok in Hs as (proven & Hprove & Hs). apply outcome_bind_Ok in Hs as (st & Hst & Hs).
  case_decide; [subst st|done]. by exists bond, created, count, game, proven.
Qed.

(** The claim of a range proof that is made for the arguments of the host. *)
Lemma proved_claim config_hash l1_head a b host_args witness stdin k prover request id k' timeout auction proof boot n0 :
  honest config_hash -> (run (host_fetch chain_config l1_selection a b (Some (AggregationProgram.hash_slow l1_head)) false) n0).2 = Ok host_args ->
  serving chain_ tip block_at storage_at n0 ->
  host_run host_args = Ok witness -> get_sp1_stdin witness = Ok stdin ->
  rq_program request = RequestDb.Range -> rq_stdin request = RangeStdin stdin ->
  network_request k prover request = Ok id -> network_wait_proof k' prover id timeout auction = Ok proof ->
  unwrap (read_boot_info (ValidityTypes.public_values proof)) = Ok boot ->
  let claim := range_claim block_at storage_at config_hash (AggregationProgram.hash_slow l1_head) (a, b) in
  boot = claim /\ verify_sp1_proof range_vkey (pv_digest claim) = true.
Proof.
  intros Hh Hargs Hw Hwit Hst Hp Hs Hreq Hwait Hboot claim.
  pose proof (holds_run _ _ _ _ (holds_host_fetch chain_config l1_selection chain_ tip block_at storage_at a b
    (AggregationProgram.hash_slow l1_head) false) Hw) as [_ Hgood].
  destruct (Hgood _ Hargs) as (Ha & Hpre & Hpost & Hblock).
  destruct (honest_network _ Hh _ _ _ _ _ _ _ _ _ Hp Hs Hreq Hwait) as (executed & He & Hpv).
  rewrite Hpv in Hboot. destruct (read_boot_info _) as [boot0|] eqn:Hread; [|done]. injection Hboot as ->.
  pose proof (honest_host _ Hh _ _ _ _ _ Hwit Hst He Hread) as Hb. rewrite Ha, Hpre, Hpost, Hblock in Hb.
  pose proof (honest_key _ Hh _ _ _ He Hread) as Hv. subst boot. by split.
Qed.

(** One header is all the aggregation program needs for one range. *)
Lemma one_range_accepted config_hash h a b proof addr : honest config_hash ->
  verify_sp1_proof range_vkey (pv_digest (range_claim block_at storage_at config_hash (AggregationProgram.hash_slow h) (a, b))) = true ->
  let boot := range_claim block_at storage_at config_hash (AggregationProgram.hash_slow h) (a, b) in
  forall stdin, get_agg_proof_stdin [proof] [boot] (cbor_to_vec [h]) (l1Head boot) addr = Ok stdin ->
  exists p headers_bytes out, stdin = AggStdin [p] [boot] headers_bytes (l1Head boot) addr /\ proof = Compressed p /\
    AggregationProgram.main {| boot_infos := [boot]; latest_l1_checkpoint_head := l1Head boot;
      multi_block_vkey := range_vkey; AggregationProgram.prover_address := addr |} headers_bytes = Ok out /\
    o_l1Head out = AggregationProgram.hash_slow h /\ o_l2PreRoot out = root_at block_at storage_at a /\
    o_l2PostRoot out = root_at block_at storage_at b /\ o_l2BlockNumber out = b.
Proof.
  intros Hh Hv boot stdin Hs. unfold get_agg_proof_stdin in Hs.
  destruct proof as [c|p|c|c]; [discriminate Hs| |discriminate Hs..]. injection Hs as <-.
  exists p, (cbor_to_vec [h]), (claim {| boot_infos := [boot]; latest_l1_checkpoint_head := l1Head boot;
      multi_block_vkey := range_vkey; AggregationProgram.prover_address := addr |} boot boot).
  split_and!; [done|done| |done..].
  apply (main_accepts _ _ [h] boot [] boot); [apply (honest_headers _ Hh)|done..|]. split_and!; cbn.
  - by intros [|i] x y.
  - by constructor.
  - intros [|k] x; [|done]. by intros [= <-].
  - constructor; [by left|done].
Qed.

(** Passes a step of the main program that is no action. *)
Ltac skip_pure H :=
  let w1 := fresh "w1" in let x := fresh "x" in let Hk := fresh "Hk" in
  apply run_bind_Ok in H as (w1 & x & Hk & H); injection Hk as <- _.

(** C26: A preflight that succeeds has asked the network for two proofs and no more: a
    compressed range proof of what the host generated for the ten blocks after
    the anchor at the L1 block right after the implementation was set, which is
    before the finalized one; and an aggregation proof, in the mode and under the
    strategy that are configured, of an input that holds the range proof the
    network answered with and that the aggregation program accepts: its claim is
    for exactly these blocks at that L1 head. Both answers are saved under their
    names. On a fork of L1 at the block of that head, a game with the claimed
    root for the last of the blocks was created, had that L1 head, and was proved
    by this aggregation proof. *)
Theorem preflight_claims config_hash l2_chain_id w w' :
  honest config_hash -> served w ->
  run (main var chain_config l1_selection l2_chain_id) w = (w', Ok tt) ->
  exists registry factory game_type a set_impl l1_head finalized chain_id private_key wallet
      prover range_strategy agg_strategy mode args witness stdin k k' id range_proof p headers_bytes
      j j' agg_id agg_proof block out,
    let e := wrap64 (a + 10) in
    let head := AggregationProgram.hash_slow l1_head in
    let boot := range_claim block_at storage_at config_hash head (a, e) in
    let addr := Deployment.private_key_address wallet in
    let range_request := Agg.plain_request RequestDb.Range (RangeStdin stdin) CompressedMode range_strategy in
    let agg_request := Agg.plain_request Aggregation (AggStdin [p] [boot] headers_bytes head addr) mode agg_strategy in
    required_parsed var parse_address "ANCHOR_STATE_REGISTRY_ADDRESS" = Ok registry /\
    required_parsed var parse_address "FACTORY_ADDRESS" = Ok factory /\
    required_parsed var (parse_uint u32_max) "GAME_TYPE" = Ok game_type /\
    anchor_l2_block (nodes w) registry = Ok a /\
    run (set_impl_block var factory game_type) (nodes w) = (nodes w, Ok set_impl) /\
    run (get_l1_header (Number (wrap64 (set_impl + 1)))) (nodes w) = (nodes w, Ok l1_head) /\
    run (get_l1_header Finalized) (nodes w) = (nodes w, Ok finalized) /\
    AggregationProgram.number l1_head < AggregationProgram.number finalized /\
    required var "PRIVATE_KEY" = Ok private_key /\ parse_private_key private_key = Some wallet /\
    l2_chain_id = Ok chain_id /\ agg_proof_mode var = Ok mode /\
    (s ← required var "RANGE_PROOF_STRATEGY"; parse_fulfillment_strategy s) = Ok range_strategy /\
    (s ← required var "AGG_PROOF_STRATEGY"; parse_fulfillment_strategy s) = Ok agg_strategy /\
    determine_network_mode range_strategy agg_strategy = Ok (prover_mode prover) /\
    (run (host_fetch chain_config l1_selection a e (Some head) false) (nodes w)).2 = Ok args /\
    host_run args = Ok witness /\ get_sp1_stdin witness = Ok stdin /\
    requests w' = requests w ++ [ToNetwork prover range_request; ToNetwork prover agg_request] /\
    network_request k prover range_request = Ok id /\ network_wait_proof k' prover id None None = Ok range_proof /\
    network_request j prover agg_request = Ok agg_id /\ network_wait_proof j' prover agg_id None None = Ok agg_proof /\
    sp1_proof range_proof = Compressed p /\ read_boot_info (ValidityTypes.public_values range_proof) = Some boot /\
    range_proofs w' !! (chain_id, range_name a e) = Some (Some range_proof) /\
    agg_proofs w' !! (chain_id, codes "agg") = Some agg_proof /\
    AggregationProgram.main {| boot_infos := [boot]; latest_l1_checkpoint_head := head;
      multi_block_vkey := range_vkey; AggregationProgram.prover_address := addr |} headers_bytes = Ok out /\
    o_l1Head out = head /\ o_l2PreRoot out = root_at block_at storage_at a /\
    o_l2PostRoot out = root_at block_at storage_at e /\ o_l2BlockNumber out = e /\
    l1_get_block (nodes w) (Hash head) = Ok (Some block) /\
    played_on_fork game_type e (AggregationProgram.number (header block)) boot agg_proof.
Proof.
  intros Hh Hw Hr. unfold main in Hr.
  apply run_bind_Ok in Hr as (w1 & private_key & Hk & Hr). injection Hk as <- Hkey.
  apply run_bind_Ok in Hr as (w1 & wallet & Hk & Hr). injection Hk as <- Hwallet%with_context_Ok. skip_pure Hr.
  apply run_bind_Ok in Hr as (w1 & registry & Hk & Hr). injection Hk as <- Hregistry.
  apply run_bind_Ok in Hr as (w1 & factory & Hk & Hr). injection Hk as <- Hfactory.
  apply run_bind_Ok in Hr as (w1 & game_type & Hk & Hr). injection Hk as <- Htype.
  apply run_bind_Ok in Hr as (w1 & anchor & Hk & Hr). rewrite run_still_fetch in Hk by apply guar_call. injection Hk as <- Hanchor.
  apply run_bind_Ok in Hr as (w1 & start & Hk & Hr). injection Hk as <- Hstart. cbn zeta in Hr.
  destruct (anchor <=? u64_max); [|done]. injection Hstart as ->.
  apply run_bind_Ok in Hr as (w1 & l1_head & Hk & Hr).
  rewrite run_within in Hk; [|by intros [[] ? ? ? ? ? ? ?]|done..].
  destruct (run (choose_l1_head _ _ _ _ _ _) (nodes w)) as [n1 o] eqn:Hhead. injection Hk as <- ->.
  apply chosen_head in Hhead as (-> & set_impl & finalized & Hset & Hl1 & Hfin & Hlt). cbn [fst] in Hr.
  rewrite with_nodes_same in *.
  apply run_bind_Ok in Hr as (w1 & host_args & Hk & Hr). rewrite run_still_fetch in Hk by apply guar_host_fetch.
  injection Hk as <- Hargs.
  apply run_bind_Ok in Hr as (w1 & witness & Hk & Hr). injection Hk as <- Hwit.
  apply run_bind_Ok in Hr as (w1 & range_stdin & Hk & Hr). injection Hk as <- Hst. skip_pure Hr.
  apply run_bind_Ok in Hr as (w1 & range_strategy & Hk & Hr). injection Hk as <- Hrs.
  apply run_bind_Ok in Hr as (w1 & agg_strategy & Hk & Hr). injection Hk as <- Has.
  apply run_bind_Ok in Hr as (w1 & network_mode & Hk & Hr). injection Hk as <- Hmode. cbn zeta in Hr. skip_pure Hr.
  apply run_bind_Ok in Hr as (w1 & range_proof & Hk & Hr).
  apply proved_Ok in Hk as (Hn1 & Hq1 & _ & _ & k & k' & id & Hreq & Hwait).
  apply run_bind_Ok in Hr as (w2 & chain_id & Hk & Hr). injection Hk as <- Hchain.
  apply run_bind_Ok in Hr as (w2 & [] & (Hn2 & Hq2 & _ & Hsaved)%saved_range & Hr).
  apply run_bind_Ok in Hr as (w3 & boot & Hk & Hr). injection Hk as <- Hboot.
  pose proof (fun Hp Hs => proved_claim config_hash _ _ _ _ _ _ _ _ _ _ _ _ _ _ _ _ Hh Hargs Hw Hwit Hst Hp Hs Hreq Hwait Hboot)
    as Hclaim. destruct (Hclaim eq_refl eq_refl) as [-> Hv]. clear Hclaim.
  do 2 skip_pure Hr. apply run_bind_Ok in Hr as (w4 & agg_stdin & Hk & Hr). injection Hk as <- Hagg.
  destruct (one_range_accepted config_hash l1_head start _ _ _ Hh Hv _ Hagg)
    as (p & bytes & out & -> & Hp & Hout & Ho1 & Ho2 & Ho3 & Ho4).
  apply run_bind_Ok in Hr as (w5 & mode & Hk & Hr). injection Hk as <- Hamode. skip_pure Hr.
  apply run_bind_Ok in Hr as (w5 & agg_proof & Hk & Hr).
  apply proved_Ok in Hk as (Hn5 & Hq5 & Hrp5 & _ & j & j' & agg_id & Hareq & Hawait).
  apply run_bind_Ok in Hr as (w6 & [] & (Hn6 & Hq6 & Hrp6 & Hasaved)%saved_agg & Hr).
  apply run_bind_Ok in Hr as (w7 & found & Hk & Hr). rewrite run_still_fetch in Hk by apply guar_call. injection Hk as <- Hblock.
  apply run_bind_Ok in Hr as (w8 & block & Hk & Hr). injection Hk as <- Hfound.
  injection Hr as <- Hplay%simulate_plays.
  destruct found as [block'|]; [|done]. injection Hfound as ->.
  destruct (read_boot_info _) as [boot|] eqn:Hread in Hboot; [|done]. injection Hboot as ->.
  eexists registry, factory, game_type, start, set_impl, l1_head, finalized, chain_id, private_key, wallet, _,
    range_strategy, agg_strategy, mode, host_args, witness, range_stdin, k, k', id, range_proof, p, bytes,
    j, j', agg_id, agg_proof, block, out. cbv zeta.
  assert (Hnodes : nodes w6 = nodes w) by (rewrite Hn6, Hn5, Hn2; exact Hn1).
  rewrite Hnodes in Hblock. rewrite Hq6, Hq5, Hq2, Hq1, <- app_assoc, Hrp6, Hrp5.
  split_and!; try done; exact Hmode.
Qed.
End laws.

(** ** A sample

    The implementation is set in the L1 blocks 40 and 60, and 61 is the head. *)

#[local] Existing Instances sample_script_hash sample_script_roots sample_parsers sample_script_zkvm
  sample_script_machine sample_sdk.
#[local] Instance preflight_keys : Deployment.Keys := {|
  Deployment.agg_vkey := Ok 21; Deployment.range_vkey := Ok 22; Deployment.bytes32 k := [k];
  Deployment.bytes32_raw k := k; Deployment.hash_bytes k := k; Deployment.address_to_string a := [a]; Deployment.address_debug a := [a];
  Deployment.private_key_address k := 7000 + k |}.
#[local] Instance sample_logs : L1Logs := {|
  get_block_number _ := Ok 100;
  query_implementation_set _ _ _ from to := Ok (Some <$> filter (fun b => from <= b <= to) [40; 60]);
  anchor_l2_block _ _ := Ok 100 |}.
#[local] Instance sample_anvil : Anvil := {|
  Fork := Z; spawn n := n; fork_init_bond _ _ := Ok 5; fork_create f _ _ _ _ := Ok f; fork_game_count _ := Ok 1;
  fork_game_at_index _ i := Ok (800 + i); fork_game_l1_head f _ := Ok (1000 + f); fork_prove f _ _ := Ok f;
  fork_status _ _ := Ok FaultTypes.UnchallengedAndValidProofProvided |}.

Definition preflight_vars : list (string * string) :=
  [("PRIVATE_KEY", "0x1"); ("ANCHOR_STATE_REGISTRY_ADDRESS", "0xA1"); ("FACTORY_ADDRESS", "0xF1");
   ("GAME_TYPE", "42"); ("RANGE_PROOF_STRATEGY", "reserved"); ("AGG_PROOF_STRATEGY", "hosted");
   ("CHUNK_SIZE", "30"); ("L1_RPC", "http://l1")]%string.

Notation sample_preflight :=
  (run (main (sample_env preflight_vars) (Some 42220) default_selection (Ok 42220)) (script_world sample_rpc)).

Lemma sample_preflight_ends : exists w', sample_preflight = (w', Ok tt).
Proof. eexists. vm_compute. reflexivity. Qed.

(** The second chunk of 30 blocks has the event. *)
Lemma sample_set_impl factory game_type :
  run (set_impl_block (sample_env preflight_vars) factory game_type) sample_rpc = (sample_rpc, Ok 60).
Proof. vm_compute. reflexivity. Qed.

Lemma preflight_claims_witness :
  exists w' prover stdin p boot headers_bytes addr agg_proof out,
    sample_preflight = (w', Ok tt) /\
    requests w' =
      [ToNetwork prover (Agg.plain_request RequestDb.Range (RangeStdin stdin) CompressedMode Reserved);
       ToNetwork prover (Agg.plain_request Aggregation (AggStdin [p] [boot] headers_bytes 1061 addr) PlonkMode Hosted)] /\
    AggregationProgram.main {| boot_infos := [boot]; latest_l1_checkpoint_head := 1061;
      multi_block_vkey := range_vkey; AggregationProgram.prover_address := addr |} headers_bytes = Ok out /\
    o_l1Head out = 1061 /\ o_l2PreRoot out = 1100 /\ o_l2PostRoot out = 1110 /\ o_l2BlockNumber out = 110 /\
    agg_proofs w' !! (42220, codes "agg") = Some agg_proof /\ played_on_fork 42 110 61 boot agg_proof.
Proof.
  destruct sample_preflight_ends as (w' & Hrun).
  destruct (preflight_claims (sample_env preflight_vars) (Some 42220) default_selection sample_header 100 sample_block
    (fun b => b) 13 (Ok 42220) (script_world sample_rpc) w') as
    (registry & factory & game_type & a & set_impl & l1_head & finalized & chain_id & key & wallet & prover & rs & as_ &
     mode & args & witness & stdin & k & k' & id & rp & p & bytes & j & j' & aid & proof & block & out &
     _ & _ & Htype & Ha & Hset & Hhead & _ & _ & _ & _ & Hchain & Hmode & Hrs & Has & _ & _ & _ & _ & Hreq & _ & _ & _ & _ &
     _ & _ & _ & Hsaved & Hmain & Ho1 & Ho2 & Ho3 & Ho4 & Hblock & Hplay).
  - exact sample_honest.
  - exact sample_serving.
  - exact Hrun.
  - change (nodes (script_world sample_rpc)) with sample_rpc in Ha, Hset, Hhead, Hblock.
    injection Ha as <-. rewrite sample_set_impl in Hset. injection Hset as <-. injection Hhead as <-.
    injection Hchain as <-. vm_compute in Htype. injection Htype as <-. vm_compute in Hmode. injection Hmode as <-.
    vm_compute in Hrs. injection Hrs as <-. vm_compute in Has. injection Has as <-. injection Hblock as <-.
    eexists w', prover, stdin, p, _, bytes, _, proof, out.
    split; [exact Hrun|]. split; [exact Hreq|]. split; [exact Hmain|].
    split; [exact Ho1|]. split; [exact Ho2|]. split; [exact Ho3|]. split; [exact Ho4|]. split; [exact Hsaved|exact Hplay].
Defined.
